(* ===== verification/_CoqProject ===== *)
-Q . S2P
Prelude.v
GoStd.v
Names.v
Schema.v
SchemaFacts.v
Types.v
ErrorText.v
Db.v
WorldFacts.v
Samples.v
SqlWriter.v
Actions.v
Duplicate.v
Coordinator.v
Catalog.v
ResumeFacts.v
Backfill.v
OpsBase.v
OpsColumn.v
OpsTable.v
OpsSub.v
OpsAlter.v
OpsConstraint.v
Operations.v
Preconditions.v
Migration.v
TerminationFacts.v
OpsFacts.v
RunFacts.v
StartFacts.v
MigrationFacts.v
StartOps.v
CleanupFacts.v
Invert.v
InvertFacts.v
LocalSet.v
OpsJson.v
Deps.v
DepsFacts.v
ResolveFacts.v
History.v
HistorySpec.v
HistoryFacts.v
HistoryRefine.v
HistoryProps.v
State.v
Lifecycle.v
Retry.v
Batches.v
BatchFacts.v
LifecycleInv.v
Rewrite.v
Check.v
Revert.v
RevertSealed.v
Plan.v
Migrate.v
Connect.v
ConnectFacts.v
Sql2Pgroll.v
Sql2PgrollFacts.v
Expect.v
BoundFacts.v
Commands.v
Trace.v
MemState.v
LifecycleFacts.v
HistoryLogic.v
ReadOnly.v
RewriteFacts.v
RunHistory.v
RebaselineFacts.v
CheckFacts.v
RevertFacts.v
RevertSealedFacts.v
PlanFacts.v
MigrateFacts.v
CommandFacts.v
RevertTrain.v
Files.v
