(* ===== verification/Prelude.v ===== *)
(** * pgroll: a verification development

    pgroll applies schema migrations to PostgreSQL in two phases.  [Start]
    expands the physical schema so that the old and the new version of the
    application run side by side; [Complete] contracts it to the new version;
    [Rollback] and [Revert] give the expansion up again.  This library models
    the Go code that decides what is sent to the database, in what order, and
    what is remembered about it, and proves what that code promises.  PostgreSQL
    itself, the third-party libraries and the file system are parameters.

    ** The parts and how they interact

    - A _migrations directory_ is read, filtered by target and sorted
      ([pkg/roll/localset.go], [unapplied.go], [depends.go], [missing.go],
      [latest.go]); [check.go] validates it without a database.
    - A _migration_ ([pkg/migrations/migrations.go], [types.go]) is a list of
      operations.  An operation ([op_*.go]) has [Validate], [Start],
      [Complete] and [Rollback]; each reads and changes the _virtual schema_
      ([pkg/schema]) and returns _database actions_ ([dbactions.go],
      [rename.go], [duplicate.go]), which the _coordinator_
      ([coordinator.go]) deduplicates and executes.  [Start] also hands
      triggers and tables to a _backfill job_ ([pkg/backfill]).
    - The _lifecycle_ ([pkg/roll/execute.go], [contract.go]) drives one
      migration through its phases over a connection ([pkg/db]) and the _state
      store_ ([pkg/state], [init.sql]), which keeps the history.
    - The _history_ can be recorded, pruned, anchored ([stamp.go], [prune.go],
      [rebaseline.go], [baseline.go]), walked back ([revert.go]), or undone by
      inverse migrations ([invert.go], [revert_sealed.go]); [plan.go] previews
      all of it.

    ** The model

    A Go function is a definition of the same name; a method [T.f] is [T_f]
    where [f] alone would clash.  A call ends in an [outcome]: a value, an
    [error] (the constructors of [Types.v] carry what the texts print), a
    run-time panic (nil dereference), or [OutOfFuel], which is not an outcome
    of the code.  Code that changes state is a program [M D A] of the monad
    below: it takes a store and returns an outcome and the store as the call
    left it, on errors too.  The store ([World]) has the heap of tables behind
    Go's shared [*Table] pointers, the schema that names them, the database
    [D], and a counter for fresh UUIDs.  The rest of the state is behind type
    classes over [D]: [DB] (a connection), [StateStore] (the history), [SqlDB]
    (a raw connection with a clock), [Json], [Catalogue], [PqText] and others,
    each with instances on which the witnesses run.

    ** Files and the code they model

    - Generic: this file; [GoStd] (the functions of Go's standard library that
      the code calls); [WorldFacts], [Samples].
    - Names and schema: [Names] ([op_common.go] and the other naming helpers),
      [Schema] ([pkg/schema/schema.go]).
    - Data: [Types] ([types.go], [errors.go]), [ErrorText] (the texts of the
      errors).
    - Database: [Db] ([pkg/db] interface, [fake.go], [catalog.go],
      [internal/defaults]), [Retry] ([RDB] of [db.go], and which samples of
      [index_progress.go] are reported).
    - SQL and actions: [SqlWriter] ([column.go], [constraints.go]), [Actions]
      and [Duplicate] ([dbactions.go], [rename.go], [duplicate.go]),
      [Coordinator].
    - Backfill: [Backfill] ([backfill.go], [trigger.go]); [Batches] (the templates,
      the triggers and the loop over batches).
    - Operations: [OpsBase], [OpsColumn], [OpsTable], [OpsSub], [OpsAlter],
      [OpsConstraint], put together in [Operations]; [Preconditions];
      [Migration] ([migrations.go]); [Invert] ([invert.go]).
    - Directory: [LocalSet], [Deps], [Check]; [OpsJson] (the operations of a
      file, [op_common.go]).
    - History: [History] ([pkg/state] and the table and functions of
      [init.sql]), [State] (its interface, and the store as an instance of it).
    - Lifecycle: [Lifecycle], [Rewrite], [Revert], [RevertSealed], [Plan].
    - Commands: [Migrate] ([cmd/migrate.go], [start.go], [complete.go],
      [rollback.go], [target.go]), [Commands] ([revert.go], [stamp.go],
      [materialize.go], [prune.go], [rebaseline.go], [latest.go],
      [validate.go]).
    - Sessions: [Connect] ([state.New], [Init] and [version.go] of
      [pkg/state], [roll.New] and [options.go], [cmd/root.go], [init.go]).
    - Conversion: [Sql2Pgroll] ([pkg/sql2pgroll], [cmd/convert.go]); [Expect]
      (the operations the package's tests expect, and those tests).
    - Migration files: [Files] ([writer.go], [updater.go], [connstr.go] and the
      commands [pull], [baseline], [create], [update], [check] and
      [latest url]).

    The files ending in [Facts], [Props], [Inv], [Logic] or [Refine] hold
    proofs, and so do [ReadOnly] (programs that only read), [RunHistory] and
    [RevertTrain] (what a run of the lifecycle, and of a sealed revert, leaves in
    the history).  [HistorySpec] is the abstract specification of the state store.
    [Catalog] and [MemState] are databases in memory on which the witnesses
    run; [Trace] records the effects of a run as a log.

    ** What the theorems show

    - Directory: the order of application is the unique greedy one, it is a
      permutation that respects dependencies, it exists exactly without cycles
      and unknown names, and what [ResolveMigrations] returns can be started
      one after the other ([DepsFacts], [ResolveFacts]).  A directory without
      issues in [CheckMigrationsDir] resolves on every database without a
      baseline whose history it covers, for any target when the check required
      targets ([CheckFacts]).
    - State store: every method refines an abstract state, a stack of entries
      with the tombstones of reverted migrations ([HistoryRefine]); the table's constraints are an invariant and
      a row moves only through the listed transitions ([HistoryProps]).
    - Rewriting history: what stamping, pruning and anchoring leave behind,
      and that anchoring does not change what is pending past the anchor, where
      no migration past it depends on one it hides ([RewriteFacts],
      [RebaselineFacts]).
    - Reverting: only unsealed entries are taken off, from the top, and any
      interruption leaves a prefix of the history ([RevertFacts]); an
      interrupted sealed revert is recovered from the history alone
      ([RevertSealedFacts]); undoing sealed history takes segment and inverses
      away together, after the tombstones, and so does the command that takes
      the window off first; a revert that stops after its expand phase is
      finished by [complete], after any number of failed attempts
      ([RevertTrain]); previews tell the truth ([PlanFacts]).
    - Lifecycle: before the deployment is sealed a completion that finds a
      queue drops retired version schemas at most ([LifecycleFacts]); a completion seals all that
      is to be sealed ([RunHistory]); repeating
      the guarded actions of an interrupted completion, none of which undoes
      what an earlier one looks for, gives the uninterrupted result
      ([ResumeFacts]); a lock that
      is released within the budget is waited out, and the reports on an index
      build are an interval apart unless its phase changes ([Retry]).
    - Operations: every method keeps the virtual schema well-formed
      ([OpsFacts]); what validates can be started virtually, under three
      conditions that validation does not check ([StartOps]); every trigger is
      dropped again where the names it is derived from have not changed
      ([CleanupFacts]); index builds end
      ([TerminationFacts]); the coordinator's order ([Coordinator]); the
      validation and reversibility of a migration ([MigrationFacts]).
    - Commands: the train that [--to] bounds is closed under dependencies and
      can be started in order ([BoundFacts]); what [migrate] leaves in the
      history, whatever its outcome ([MigrateFacts]); what is previewed or
      declined changes nothing ([CommandFacts]).
    - Backfill: a backfill in batches of at least one row that succeeds has
      reached every row, but for rows a retry of the first batch may miss
      ([BatchFacts]).
    - Sessions: an older state schema is brought to the session's version, a
      newer release is refused, and what is not compared is left alone
      ([ConnectFacts]).
    - Conversion: each statement becomes the operations that say what it says,
      or raw SQL, and a CREATE TABLE is converted exactly when each of its
      parts can be expressed ([Sql2PgrollFacts]); the tests of the
      package hold of the model ([Expect]).
    - Files: [pull] changes no existing file, and what it writes is found again;
      updating a file again changes nothing ([Files]).
    - Operations as JSON survive their encoding ([OpsJson]).
    - Inversion: each operation of a segment is inverted against the state it
      was started on ([InvertFacts]); round trips of renames and constraints, the
      isolation of the replayed schema ([InvertFacts]).
    - Names: derived names are injective, recoverable and bounded
      ([Names]).

    ** Fuel

    Loops whose end depends on the database take fuel: the two loops of an
    index build ([Actions.v]) and the retry loop ([Retry.v]).
    [TerminationFacts] shows that a measure the database decreases is enough
    fuel and that more changes nothing; [Retry] that one attempt per
    millisecond of the budget is enough.  Virtual replays run against the fake
    connection, on which every build is done at the first attempt, with fuel
    one.  The walks over parents in [History.v] and [Revert.v] have as much
    fuel as there are rows, each row being visited once; [Kahn]'s loop as much
    as there are migrations.

    ** Conventions

    Contexts are cancelled only where a definition says so; log output is left
    out.  Where the code ranges over a Go map, the model ranges in key order,
    one of the orders Go may choose.  Durations and counters whose width
    matters are [Z]; byte strings are [string].

    ** Not modelled

    The registration of flags and commands and what they print ([cmd/]),
    [status], [analyze] and [latest] included, which print what a modelled call
    returns; the loggers, the rendering of progress samples and of lock and
    snapshot holders, and the prompts of [create], which are input and output;
    the accessors and the setters of option records, whose fields the model has;
    the test helpers; the generators under [tools/] and [dev/].  The driver,
    [read_schema] of [init.sql], the SQL parser, JSON and YAML decoding with
    the hints added to its errors, Git and PostgreSQL's planner are parameters.

    ** This file

    What the components share and that is not about pgroll: the outcomes of a
    Go call, the monad of programs over a mutable store, the tactics that take
    such programs apart, and generic facts on lists and finite maps. *)

From stdpp Require Export prelude gmap strings list fin_maps sorting.

(** The outcome of a Go call.  An error return keeps the store as the call
    left it, so programs below return the store in every case.  [OutOfFuel]
    is not an outcome of the code: a loop given too little fuel ends in it. *)
Inductive outcome (E A : Type) : Type :=
  | Ok (a : A)
  | Err (e : E)
  | Panic
  | OutOfFuel.
Arguments Ok {E A} a.
Arguments Err {E A} e.
Arguments Panic {E A}.
Arguments OutOfFuel {E A}.

#[export] Instance outcome_ret {E} : MRet (outcome E) := λ _, Ok.
#[export] Instance outcome_bind {E} : MBind (outcome E) := λ _ _ f o,
  match o with Ok a => f a | Err e => Err e | Panic => Panic | OutOfFuel => OutOfFuel end.
#[export] Instance outcome_fmap {E} : FMap (outcome E) := λ _ _ f o,
  match o with Ok a => Ok (f a) | Err e => Err e | Panic => Panic | OutOfFuel => OutOfFuel end.

#[export] Instance outcome_eq_dec {E A} `{EqDecision E, EqDecision A} :
  EqDecision (outcome E A).
Proof. solve_decision. Defined.

Definition is_ok {E A} (o : outcome E A) : bool :=
  match o with Ok _ => true | _ => false end.

Definition is_panic {E A} (o : outcome E A) : bool :=
  match o with Panic => true | _ => false end.

(** A loop that appends the result of each iteration and stops at the first
    error. *)
Fixpoint map_outcome {E A B} (f : A → outcome E B) (l : list A) : outcome E (list B) :=
  match l with
  | [] => Ok []
  | x :: l' =>
      match f x with
      | Ok y => match map_outcome f l' with
                | Ok ys => Ok (y :: ys)
                | Err e => Err e | Panic => Panic | OutOfFuel => OutOfFuel
                end
      | Err e => Err e | Panic => Panic | OutOfFuel => OutOfFuel
      end
  end.

(** ** Programs over a store *)

(** A program reads and writes a store of type [W]. *)
Definition prog (W E A : Type) : Type := W → outcome E A * W.

#[export] Instance prog_ret {W E} : MRet (prog W E) := λ _ a w, (Ok a, w).
#[export] Instance prog_bind {W E} : MBind (prog W E) := λ _ _ f m w,
  match m w with
  | (Ok a, w') => f a w'
  | (Err e, w') => (Err e, w')
  | (Panic, w') => (Panic, w')
  | (OutOfFuel, w') => (OutOfFuel, w')
  end.

Section prog.
Context {W E : Type}.

(** [return ..., err] *)
Definition fail {A} (e : E) : prog W E A := λ w, (Err e, w).
(** A run-time panic: a nil dereference or an index out of range. *)
Definition panic {A} : prog W E A := λ w, (Panic, w).
Definition get : prog W E W := λ w, (Ok w, w).
Definition gets {A} (f : W → A) : prog W E A := λ w, (Ok (f w), w).
Definition modify (f : W → W) : prog W E () := λ w, (Ok (), f w).
Definition lift {A} (o : outcome E A) : prog W E A := λ w, (o, w).
(** [if c { return err }] *)
Definition fail_if (c : bool) (e : E) : prog W E () :=
  if c then fail e else mret ().
(** Dereference of a pointer, [None] being nil. *)
Definition deref {A} (o : option A) : prog W E A :=
  match o with Some a => mret a | None => panic end.
(** [if p == nil { return err }] *)
Definition require {A} (o : option A) (e : E) : prog W E A :=
  match o with Some a => mret a | None => fail e end.
(** A [for range] loop whose body may return early with an error. *)
Fixpoint for_each {A} (f : A → prog W E ()) (l : list A) : prog W E () :=
  match l with
  | [] => mret ()
  | x :: l' => f x ;; for_each f l'
  end.
(** A loop that appends the result of each iteration. *)
Fixpoint map_each {A B} (f : A → prog W E B) (l : list A) : prog W E (list B) :=
  match l with
  | [] => mret []
  | x :: l' => y ← f x; ys ← map_each f l'; mret (y :: ys)
  end.
(** [x, err := m]: the error becomes a value; a panic is not recovered. *)
Definition try {A} (m : prog W E A) : prog W E (A + E) := λ w,
  match m w with
  | (Ok a, w') => (Ok (inl a), w')
  | (Err e, w') => (Ok (inr e), w')
  | (Panic, w') => (Panic, w')
  | (OutOfFuel, w') => (OutOfFuel, w')
  end.
(** [if err != nil { return wrap(err) }] *)
Definition wrap_err {A} (f : E → E) (m : prog W E A) : prog W E A := λ w,
  match m w with (Err e, w') => (Err (f e), w') | r => r end.

Lemma bind_ok {A B} (m : prog W E A) (f : A → prog W E B) w b w' :
  (m ≫= f) w = (Ok b, w') ↔ ∃ a w1, m w = (Ok a, w1) ∧ f a w1 = (Ok b, w').
Proof.
  unfold mbind, prog_bind. destruct (m w) as [[a|e| |] w1]; split;
    try (intros (?&?&?&?); simplify_eq; done); try discriminate.
  intros Hf. by exists a, w1.
Qed.

Lemma bind_panic {A B} (m : prog W E A) (f : A → prog W E B) w :
  is_panic ((m ≫= f) w).1 =
    match (m w).1 with Ok a => is_panic (f a (m w).2).1 | Err _ => false | Panic => true | OutOfFuel => false end.
Proof. unfold mbind, prog_bind. by destruct (m w) as [[a|e| |] w1]. Qed.

Lemma bind_ret_l {A B} (a : A) (f : A → prog W E B) w : (mret a ≫= f) w = f a w.
Proof. done. Qed.

Lemma bind_assoc {A B C} (m : prog W E A) (f : A → prog W E B) (g : B → prog W E C) w :
  ((m ≫= f) ≫= g) w = (m ≫= λ a, f a ≫= g) w.
Proof. unfold mbind, prog_bind. by destruct (m w) as [[]?]. Qed.

Lemma fail_if_ok (c : bool) (e : E) w u w' :
  fail_if c e w = (Ok u, w') ↔ c = false ∧ w' = w.
Proof.
  destruct c, u; cbn; unfold fail, mret, prog_ret;
    (split; [intros ?|intros [??]]); by simplify_eq.
Qed.

Lemma require_ok {A} (o : option A) (e : E) w a w' :
  require o e w = (Ok a, w') ↔ o = Some a ∧ w' = w.
Proof.
  destruct o; cbn; unfold fail, panic, mret, prog_ret;
    (split; [intros ?|intros [??]]); by simplify_eq.
Qed.

Lemma deref_ok {A} (o : option A) w a w' :
  deref o w = (Ok a, w') ↔ o = Some a ∧ w' = w.
Proof.
  destruct o; cbn; unfold fail, panic, mret, prog_ret;
    (split; [intros ?|intros [??]]); by simplify_eq.
Qed.

Lemma wrap_err_ok {A} f (m : prog W E A) w a w' :
  wrap_err f m w = (Ok a, w') ↔ m w = (Ok a, w').
Proof. unfold wrap_err. destruct (m w) as [[]?]; split; intros ?; by simplify_eq. Qed.

Lemma lift_ok {A} (o : outcome E A) w a w' :
  lift o w = (Ok a, w') ↔ o = Ok a ∧ w' = w.
Proof. unfold lift. split; [intros ?|intros [??]]; by simplify_eq. Qed.

(** An invariant every iteration keeps is kept by the loop, whatever way the
    loop ends. *)
Lemma for_each_inv {A} (I : W → Prop) (f : A → prog W E ()) l w :
  (∀ x w, x ∈ l → I w → I (f x w).2) → I w → I (for_each f l w).2.
Proof.
  revert w. induction l as [|x l IH]; intros w Hf Hw; [done|].
  cbn. unfold mbind, prog_bind.
  pose proof (Hf x w ltac:(left) Hw) as Hx.
  destruct (f x w) as [[[]|e| |] w'] eqn:Ex; cbn in *; [|done..].
  apply IH; [|done]. intros; apply Hf; [by right|done].
Qed.

Lemma for_each_no_panic {A} (I : W → Prop) (f : A → prog W E ()) l w :
  (∀ x w, x ∈ l → I w → is_panic (f x w).1 = false ∧ I (f x w).2) →
  I w → is_panic (for_each f l w).1 = false.
Proof.
  revert w. induction l as [|x l IH]; intros w Hf Hw; [done|].
  cbn. unfold mbind, prog_bind.
  destruct (Hf x w ltac:(left) Hw) as [Hp Hx].
  destruct (f x w) as [[[]|e| |] w'] eqn:Ex; cbn in *; [|done..].
  apply IH; [|done]. intros; apply Hf; [by right|done].
Qed.
End prog.

Lemma outcome_bind_ok {E A B} (m : outcome E A) (f : A → outcome E B) b :
  m ≫= f = Ok b ↔ ∃ a, m = Ok a ∧ f a = Ok b.
Proof. destruct m; cbn; split; [eauto|intros (?&[= <-]&?); done|..]; naive_solver. Qed.
Lemma map_outcome_ok {E A B} (f : A → outcome E B) l ys :
  map_outcome f l = Ok ys ↔ Forall2 (λ x y, f x = Ok y) l ys.
Proof.
  revert ys. induction l as [|x l IH]; intros ys; cbn.
  - split; [intros [= <-]; constructor|by inversion 1].
  - destruct (f x) as [y|e| |] eqn:Hx; cbn;
      [|split; [done|inversion 1; congruence]..].
    destruct (map_outcome f l) as [zs|e| |] eqn:Hl.
    + split; [intros [= <-]; constructor; [done|by apply IH]|].
      inversion 1 as [|? ? ? ? Hf Hr]; subst. apply IH in Hr. congruence.
    + split; [done|]. inversion 1 as [|? ? ? ? Hf Hr]; subst. apply IH in Hr. congruence.
    + split; [done|]. inversion 1 as [|? ? ? ? Hf Hr]; subst. apply IH in Hr. congruence.
    + split; [done|]. inversion 1 as [|? ? ? ? Hf Hr]; subst. apply IH in Hr. congruence.
Qed.

Create HintDb pgroll discriminated.

(** [inv_prog H] takes a hypothesis [m w = (Ok a, w')] apart, one bind at a
    time, down to the primitive steps. *)
Ltac inv_prog H :=
  lazymatch type of H with
  | (?m ≫= ?f) ?w = (Ok ?b, ?w') =>
      let a := fresh "a" in let w1 := fresh "w" in
      let H1 := fresh "Hm" in let H2 := fresh "Hk" in
      apply bind_ok in H; destruct H as (a & w1 & H1 & H2);
      inv_prog H1; inv_prog H2
  | fail_if _ _ _ = (Ok _, _) =>
      let Hc := fresh "Hc" in apply fail_if_ok in H; destruct H as [Hc ?]; subst
  | require _ _ _ = (Ok _, _) =>
      let Hr := fresh "Hr" in apply require_ok in H; destruct H as [Hr ?]; subst
  | deref _ _ = (Ok _, _) =>
      let Hr := fresh "Hd" in apply deref_ok in H; destruct H as [Hr ?]; subst
  | wrap_err _ _ _ = (Ok _, _) => apply wrap_err_ok in H; inv_prog H
  | lift _ _ = (Ok _, _) =>
      let Hr := fresh "Hl" in apply lift_ok in H; destruct H as [Hr ?]; subst
  | mret _ _ = (Ok _, _) => cbv [mret prog_ret] in H; simplify_eq
  | fail _ _ = (Ok _, _) => discriminate H
  | panic _ = (Ok _, _) => discriminate H
  | _ => idtac
  end.

(** ** Lists and maps *)

(** The elements of [l] in order, each kept at its last occurrence. *)
Fixpoint keep_last `{EqDecision A} (l : list A) : list A :=
  match l with
  | [] => []
  | x :: l' => if decide (x ∈ l') then keep_last l' else x :: keep_last l'
  end.

Section keep_last.
Context `{EqDecision A}.
Implicit Types l : list A.

Lemma elem_of_keep_last x l : x ∈ keep_last l ↔ x ∈ l.
Proof.
  induction l as [|y l IH]; [done|]. cbn. case_decide; set_solver.
Qed.

Lemma NoDup_keep_last l : NoDup (keep_last l).
Proof.
  induction l as [|y l IH]; cbn; [constructor|]. case_decide; [done|].
  constructor; [|done]. by rewrite elem_of_keep_last.
Qed.

Lemma keep_last_NoDup l : NoDup l → keep_last l = l.
Proof.
  induction 1 as [|x l Hx Hl IH]; cbn; [done|]. rewrite decide_False by done. by f_equal.
Qed.

Lemma keep_last_snoc l x :
  keep_last (l ++ [x]) = filter (λ y, y ≠ x) (keep_last l) ++ [x].
Proof.
  induction l as [|y l IH]; [done|]. cbn.
  destruct (decide (y ∈ l)) as [Hy|Hy].
  - rewrite decide_True by set_solver. done.
  - destruct (decide (y = x)) as [->|Hne].
    + rewrite decide_True by set_solver. rewrite filter_cons_False by naive_solver. done.
    + rewrite decide_False by set_solver. rewrite filter_cons_True by done.
      cbn. by rewrite IH.
Qed.
End keep_last.

(** The sublist order is what a filter produces. *)
Lemma filter_sublist {A} (P : A → Prop) `{∀ x, Decision (P x)} (l : list A) :
  sublist (filter P l) l.
Proof.
  induction l as [|x l IH]; [constructor|].
  rewrite filter_cons. case_decide; by constructor.
Qed.

Lemma filter_all {A} (P : A → Prop) `{∀ x, Decision (P x)} (l : list A) :
  (∀ x, x ∈ l → P x) → filter P l = l.
Proof.
  induction l as [|x l IH]; intros Hl; [done|].
  rewrite filter_cons_True by (apply Hl; left). f_equal. apply IH. intros; apply Hl; by right.
Qed.

Lemma filter_nil_iff {A} (P : A → Prop) `{∀ x, Decision (P x)} (l : list A) :
  filter P l = [] ↔ ∀ x, x ∈ l → ¬ P x.
Proof.
  split.
  - intros Hl x Hx HP. eapply filter_nil_not_elem_of; eauto.
  - intros Hl. induction l as [|x l IH]; [done|].
    rewrite filter_cons_False by (apply Hl; left). apply IH. intros; apply Hl; by right.
Qed.

Lemma filter_lookup {A} (P : A → Prop) `{!∀ x, Decision (P x)} (l : list A) i x :
  filter P l !! i = Some x → ∃ j, l !! j = Some x ∧ take i (filter P l) = filter P (take j l) ∧ P x.
Proof.
  revert i. induction l as [|y l IH]; intros i; [done|]. rewrite filter_cons.
  destruct (decide (P y)) as [Hy|Hy].
  - destruct i as [|i]; cbn [lookup list_lookup take]; [intros [= <-]; by exists 0|].
    intros (j & Hj & Ht & Hx)%IH. exists (S j). cbn [lookup list_lookup take].
    rewrite filter_cons, decide_True by done. split_and!; [done| |done]. by rewrite Ht.
  - intros (j & Hj & Ht & Hx)%IH. exists (S j). cbn [lookup list_lookup take].
    rewrite filter_cons, decide_False by done. by split_and!.
Qed.
Lemma filter_ext_in {A} (P Q : A → Prop) `{∀ x, Decision (P x)} `{∀ x, Decision (Q x)}
    (l : list A) :
  (∀ x, x ∈ l → P x ↔ Q x) → filter P l = filter Q l.
Proof.
  induction l as [|x l IH]; intros Hl; [done|].
  rewrite !filter_cons, IH by (intros; apply Hl; by right).
  pose proof (Hl x ltac:(left)). repeat case_decide; tauto.
Qed.

(** A decidable closed goal, by computation *)
Ltac decide_goal := refine (bool_decide_unpack _ _); vm_compute; exact I.

(** ** Sublists *)

Lemma filter_sublist_mono {A} (P : A → Prop) `{∀ x, Decision (P x)} (l1 l2 : list A) :
  l1 `sublist_of` l2 → filter P l1 `sublist_of` filter P l2.
Proof.
  induction 1 as [|x l1 l2 _ IH|x l1 l2 _ IH]; [done|..]; rewrite !filter_cons;
    destruct (decide (P x)); by try constructor.
Qed.
Lemma length_filter_sublist {A} (P : A → Prop) `{∀ x, Decision (P x)} (l1 l2 : list A) :
  l1 `sublist_of` l2 → length (filter P l1) ≤ length (filter P l2).
Proof. intros Hl. by apply sublist_length, filter_sublist_mono. Qed.
Lemma omap_sublist {A B} (f : A → option B) (l1 l2 : list A) :
  l1 `sublist_of` l2 → omap f l1 `sublist_of` omap f l2.
Proof.
  induction 1 as [|x l1 l2 _ IH|x l1 l2 _ IH]; cbn; [done|..]; destruct (f x); by try constructor.
Qed.

(** ** Sorted lists *)

Section sorted.
Context {A : Type}.
Implicit Types (R S : relation A) (l : list A).

Lemma sorted_filter R (P : A → Prop) `{!∀ a, Decision (P a)} l :
  StronglySorted R l → StronglySorted R (filter P l).
Proof.
  induction 1 as [|a l Hl IH Ha]; [constructor|]. rewrite filter_cons.
  destruct (decide (P a)); [|done]. constructor; [done|].
  apply Forall_forall. intros x [_ Hx]%list_elem_of_filter. by eapply Forall_forall in Ha.
Qed.

Lemma sorted_weaken R S l :
  (∀ x y, R x y → S x y) → StronglySorted R l → StronglySorted S l.
Proof.
  intros HRS. induction 1 as [|a l Hl IH Ha]; constructor; [done|].
  eapply Forall_impl; [exact Ha|]. auto.
Qed.
Lemma sorted_reverse R l : StronglySorted R l → StronglySorted (flip R) (reverse l).
Proof.
  induction 1 as [|a l Hl IH Ha]; [constructor|]. rewrite reverse_cons.
  apply StronglySorted_app. split_and!; [|done|by repeat constructor].
  intros x1 x2 Hx1 Hx2%list_elem_of_singleton. subst. rewrite elem_of_reverse in Hx1.
  by eapply Forall_forall in Ha.
Qed.
End sorted.
