(* ===== verification/GoStd.v ===== *)
(** * The parts of Go's standard library the modelled code uses

    Strings are byte strings, as in Go.  [strings.ToUpper] and
    [strings.TrimSpace] are the ASCII restrictions of Go's functions (the
    code applies them to SQL keywords and to [pg_get_constraintdef] output);
    [ReplaceAll] with an empty pattern inserts between bytes.  [sha256] and
    [hex] are executable, so the scope of a concrete migration name
    evaluates. *)

From S2P Require Import Prelude.
From Stdlib Require Import NArith.
From Stdlib Require Export Ascii.
From stdpp Require Import strings sorting.

#[global] Arguments String.append !_ _ / : simpl nomatch.

(** ** package strings *)

Fixpoint drop_str (n : nat) (s : string) : string :=
  match n, s with
  | 0, _ => s
  | S n, "" => ""
  | S n, String _ s => drop_str n s
  end.

Fixpoint take_str (n : nat) (s : string) : string :=
  match n, s with
  | 0, _ => ""
  | S n, "" => ""
  | S n, String c s => String c (take_str n s)
  end.

Definition HasPrefix (s prefix : string) : bool := String.prefix prefix s.

Definition HasSuffix (s suffix : string) : bool :=
  (String.length suffix <=? String.length s) &&
  String.eqb (drop_str (String.length s - String.length suffix) s) suffix.

Definition TrimPrefix (s prefix : string) : string :=
  if HasPrefix s prefix then drop_str (String.length prefix) s else s.

Definition TrimSuffix (s suffix : string) : string :=
  if HasSuffix s suffix then take_str (String.length s - String.length suffix) s else s.

(** [strings.Contains] *)
Fixpoint Contains (s substr : string) : bool :=
  HasPrefix s substr ||
  match s with "" => false | String _ s' => Contains s' substr end.

(** [strings.Index], [None] being -1 *)
Fixpoint strings_Index (s substr : string) : option nat :=
  if HasPrefix s substr then Some 0
  else match s with "" => None | String _ s' => S <$> strings_Index s' substr end.

(** [strings.Join] *)
Fixpoint Join (elems : list string) (sep : string) : string :=
  match elems with
  | [] => ""
  | [e] => e
  | e :: es => e +:+ sep +:+ Join es sep
  end.

(** The scan of [strings.ReplaceAll] for a non-empty pattern; [skip] bytes of
    the last match are still to be passed over. *)
Fixpoint replace_scan (old new : string) (skip : nat) (s : string) : string :=
  match s with
  | "" => ""
  | String c s' =>
      match skip with
      | S k => replace_scan old new k s'
      | 0 =>
          if HasPrefix s old
          then new +:+ replace_scan old new (String.length old - 1) s'
          else String c (replace_scan old new 0 s')
      end
  end.

Fixpoint intersperse (new s : string) : string :=
  match s with
  | "" => new
  | String c s' => new +:+ String c (intersperse new s')
  end.

Definition ReplaceAll (s old new : string) : string :=
  if decide (old = "") then intersperse new s else replace_scan old new 0 s.

(** [strings.Replace(s, old, new, 1)] for a non-empty [old] *)
Fixpoint ReplaceFirst (s old new : string) : string :=
  if HasPrefix s old then new +:+ drop_str (String.length old) s
  else match s with "" => "" | String c s' => String c (ReplaceFirst s' old new) end.

Fixpoint map_str (f : Ascii.ascii → Ascii.ascii) (s : string) : string :=
  match s with "" => "" | String c s' => String (f c) (map_str f s') end.

Definition upper_ascii (c : Ascii.ascii) : Ascii.ascii :=
  let n := Ascii.N_of_ascii c in
  if (97 <=? n)%N && (n <=? 122)%N then Ascii.ascii_of_N (n - 32) else c.

Definition ToUpper : string → string := map_str upper_ascii.

Definition lower_ascii (c : Ascii.ascii) : Ascii.ascii :=
  let n := Ascii.nat_of_ascii c in
  if ((65 <=? n) && (n <=? 90))%nat then Ascii.ascii_of_nat (n + 32) else c.
(** [strings.ToLower], bytes outside ASCII kept *)
Definition ToLower : string → string := map_str lower_ascii.

Definition is_space (c : Ascii.ascii) : bool :=
  let n := Ascii.N_of_ascii c in
  (n =? 32)%N || ((9 <=? n)%N && (n <=? 13)%N).

Fixpoint trim_left (s : string) : string :=
  match s with
  | "" => ""
  | String c s' => if is_space c then trim_left s' else s
  end.

Fixpoint trim_right (s : string) : string :=
  match s with
  | "" => ""
  | String c s' =>
      match trim_right s' with
      | "" => if is_space c then "" else String c ""
      | t => String c t
      end
  end.

Definition TrimSpace (s : string) : string := trim_right (trim_left s).

Fixpoint forall_str (p : Ascii.ascii → bool) (s : string) : bool :=
  match s with "" => true | String c s' => p c && forall_str p s' end.

(** ** package slices *)

Definition slices_Contains {A} `{EqDecision A} (l : list A) (x : A) : bool :=
  bool_decide (x ∈ l).

(** [slices.Sort] on strings: the bytewise order *)
Definition slices_Sort (l : list string) : list string := merge_sort String.le l.

(** [slices.Compact]: consecutive duplicates collapse *)
Fixpoint slices_Compact (l : list string) : list string :=
  match l with
  | x :: (y :: _) as l' =>
      if decide (x = y) then slices_Compact l' else x :: slices_Compact l'
  | l => l
  end.

(** [slices.Index], [None] being -1 *)
Fixpoint slices_Index `{EqDecision A} (l : list A) (x : A) : option nat :=
  match l with
  | [] => None
  | y :: l' => if decide (y = x) then Some 0 else S <$> slices_Index l' x
  end.

(** [slices.Delete(l, i, i+1)]; the code only calls it in range *)
Definition slices_Delete {A} (l : list A) (i : nat) : list A := take i l ++ drop (S i) l.

(** [slices.Sorted(maps.Keys(m))] *)
Definition sorted_keys {A} (m : gmap string A) : list string :=
  slices_Sort ((map_to_list m).*1).

(** ** packages crypto/sha256 and encoding/hex *)

Module Sha256.
Local Open Scope N_scope.

Definition mask (x : N) : N := N.land x 4294967295.
Definition add32 (x y : N) : N := mask (x + y).
Definition rotr (n x : N) : N := mask (N.lor (N.shiftr x n) (N.shiftl x (32 - n))).
Definition ch (x y z : N) : N := N.lxor (N.land x y) (N.land (N.lxor x 4294967295) z).
Definition maj (x y z : N) : N := N.lxor (N.lxor (N.land x y) (N.land x z)) (N.land y z).
Definition bsig0 (x : N) : N := N.lxor (N.lxor (rotr 2 x) (rotr 13 x)) (rotr 22 x).
Definition bsig1 (x : N) : N := N.lxor (N.lxor (rotr 6 x) (rotr 11 x)) (rotr 25 x).
Definition ssig0 (x : N) : N := N.lxor (N.lxor (rotr 7 x) (rotr 18 x)) (N.shiftr x 3).
Definition ssig1 (x : N) : N := N.lxor (N.lxor (rotr 17 x) (rotr 19 x)) (N.shiftr x 10).

(** The constants of the standard: the first 32 bits of the fractional parts
    of the cube roots of the first 64 primes and of the square roots of the
    first 8. *)
Definition is_prime (p : N) : bool :=
  forallb (λ d, negb (p mod d =? 0)) (N.of_nat <$> seq 2 (N.to_nat p - 2)).
Definition primes : list N := Eval vm_compute in filter is_prime (N.of_nat <$> seq 2 310).

Fixpoint cube_root (bits : nat) (x r : N) : N :=
  match bits with
  | O => r
  | S b =>
      let r' := r + N.shiftl 1 (N.of_nat b) in
      cube_root b x (if r' * r' * r' <=? x then r' else r)
  end.

Definition K : list N :=
  Eval vm_compute in (λ p, mask (cube_root 36 (N.shiftl p 96) 0)) <$> primes.
Definition H0 : list N :=
  Eval vm_compute in (λ p, mask (N.sqrt (N.shiftl p 64))) <$> take 8 primes.

Fixpoint bytes (s : string) : list N :=
  match s with "" => [] | String c s' => Ascii.N_of_ascii c :: bytes s' end.

Definition be_bytes (n : nat) (x : N) : list N :=
  rev ((λ i, N.land (N.shiftr x (8 * N.of_nat i)) 255) <$> seq 0 n).

(** Padding to a multiple of 64 bytes *)
Definition pad (l : list N) : list N :=
  let n := length l in
  l ++ [128] ++ replicate ((119 - n mod 64) mod 64)%nat 0 ++ be_bytes 8 (8 * N.of_nat n).

Fixpoint words (l : list N) : list N :=
  match l with
  | a :: b :: c :: d :: l' =>
      N.lor (N.lor (N.shiftl a 24) (N.shiftl b 16)) (N.lor (N.shiftl c 8) d) :: words l'
  | _ => []
  end.

(** The message schedule, most recent word first *)
Fixpoint schedule (n : nat) (w : list N) : list N :=
  match n with
  | O => w
  | S n =>
      let at' i := nth i w 0 in
      schedule n
        (add32 (add32 (ssig1 (at' 1%nat)) (at' 6%nat)) (add32 (ssig0 (at' 14%nat)) (at' 15%nat)) :: w)
  end.

Definition round (st : list N) (kw : N * N) : list N :=
  match st with
  | [a; b; c; d; e; f; g; h] =>
      let t1 := add32 (add32 h (bsig1 e)) (add32 (ch e f g) (add32 kw.1 kw.2)) in
      let t2 := add32 (bsig0 a) (maj a b c) in
      [add32 t1 t2; a; b; c; add32 d t1; e; f; g]
  | _ => st
  end.

Definition compress (st : list N) (block : list N) : list N :=
  zip_with add32 st (foldl round st (zip K (rev (schedule 48 (rev block))))).

Fixpoint blocks (fuel : nat) (st : list N) (w : list N) : list N :=
  match fuel, w with
  | S fuel, _ :: _ => blocks fuel (compress st (take 16 w)) (drop 16 w)
  | _, _ => st
  end.

(** [sha256.Sum256], as its eight 32-bit words; one block of fuel per word
    of the padded message is more than the sixteenth it needs. *)
Definition Sum256 (s : string) : list N :=
  let w := words (pad (bytes s)) in blocks (length w) H0 w.

Definition hex_digit (n : N) : Ascii.ascii :=
  Ascii.ascii_of_N (if n <? 10 then 48 + n else 87 + n).

Definition hex_byte (n : N) : string :=
  String (hex_digit (N.land (N.shiftr n 4) 15)) (String (hex_digit (N.land n 15)) "").

(** [hex.EncodeToString(h[:])] *)
Definition EncodeToString (ws : list N) : string :=
  Join (hex_byte <$> (ws ≫= be_bytes 4)) "".
End Sha256.

Example sha256_abc :
  Sha256.EncodeToString (Sha256.Sum256 "abc") =
    "ba7816bf8f01cfea414140de5dae2223b00361a396177a9cb410ff61f20015ad".
Proof. vm_compute. reflexivity. Qed.

(** ** Lemmas on byte strings *)

Create Rewrite HintDb str.

Lemma app_nil_r_str s : s +:+ "" = s.
Proof. induction s; cbn; congruence. Qed.

Lemma app_assoc_str a b c : (a +:+ b) +:+ c = a +:+ b +:+ c.
Proof. induction a; cbn; congruence. Qed.

Lemma length_app_str a b : String.length (a +:+ b) = (String.length a + String.length b).
Proof. induction a; cbn; [done|]. by rewrite IHa. Qed.

Lemma drop_app_str a b : drop_str (String.length a) (a +:+ b) = b.
Proof. by induction a. Qed.

Lemma take_app_str a b : take_str (String.length a) (a +:+ b) = a.
Proof. induction a; cbn; [by destruct b|]. by rewrite IHa. Qed.

Lemma take_drop_str n s : take_str n s +:+ drop_str n s = s.
Proof. revert s. induction n; intros [|c s]; cbn; [done..|]. by rewrite IHn. Qed.

Lemma length_take_str n s : String.length (take_str n s) = (n `min` String.length s).
Proof. revert s. induction n; intros [|c s]; cbn; [done..|]. by rewrite IHn. Qed.

Lemma length_drop_str n s : String.length (drop_str n s) = (String.length s - n).
Proof. revert s. induction n; intros [|c s]; cbn; [done..|]. apply IHn. Qed.

Lemma drop_app_ge_str n a b :
  (String.length a ≤ n) → drop_str n (a +:+ b) = drop_str (n - String.length a) b.
Proof.
  revert n. induction a as [|c a IH]; intros n Hn; cbn in *; [by rewrite Nat.sub_0_r|].
  destruct n as [|n]; [lia|]. cbn. apply IH. lia.
Qed.

Lemma take_app_le_str n a b :
  (n ≤ String.length a) → take_str n (a +:+ b) = take_str n a.
Proof.
  revert a. induction n as [|n IH]; intros [|c a] Hn; cbn in *; [done..|lia|].
  by rewrite IH by lia.
Qed.

Lemma take_app_ge_str n a b :
  (String.length a ≤ n) → take_str n (a +:+ b) = a +:+ take_str (n - String.length a) b.
Proof.
  revert n. induction a as [|c a IH]; intros n Hn; cbn in *; [by rewrite Nat.sub_0_r|].
  destruct n as [|n]; [lia|]. cbn. rewrite IH by lia. done.
Qed.

Lemma length_zero_str s : String.length s = 0 → s = "".
Proof. by destruct s. Qed.

Lemma app_inj_len a b c d :
  String.length b = String.length d → a +:+ b = c +:+ d → a = c ∧ b = d.
Proof.
  revert c. induction a as [|x a IH]; intros [|y c] Hl; cbn; intros Heq; subst.
  - done.
  - cbn in Hl. rewrite length_app_str in Hl. lia.
  - cbn in Hl. rewrite length_app_str in Hl. lia.
  - injection Heq as -> Heq. destruct (IH _ Hl Heq) as [-> ->]. done.
Qed.

Lemma HasPrefix_app p s : HasPrefix (p +:+ s) p = true.
Proof.
  unfold HasPrefix. induction p as [|c p IH]; cbn; [by destruct s|].
  by destruct (Ascii.ascii_dec c c).
Qed.

Lemma HasPrefix_spec s p : HasPrefix s p = true ↔ ∃ t, s = p +:+ t.
Proof.
  split; [|intros [t ->]; apply HasPrefix_app].
  unfold HasPrefix. revert s. induction p as [|c p IH]; intros s; cbn; [by eauto|].
  destruct s as [|d s]; cbn; [done|]. case_match; [subst d|discriminate].
  intros Hp. destruct (IH _ Hp) as [t ->]. by exists t.
Qed.

Lemma TrimPrefix_app p s : TrimPrefix (p +:+ s) p = s.
Proof. unfold TrimPrefix. by rewrite HasPrefix_app, drop_app_str. Qed.

Lemma HasSuffix_app s t : HasSuffix (s +:+ t) t = true.
Proof.
  unfold HasSuffix. rewrite length_app_str.
  replace (String.length s + String.length t - String.length t) with (String.length s) by lia.
  rewrite drop_app_str, String.eqb_refl, andb_true_r. apply Nat.leb_le. lia.
Qed.

Lemma TrimSuffix_app s t : TrimSuffix (s +:+ t) t = s.
Proof.
  unfold TrimSuffix. rewrite HasSuffix_app, length_app_str.
  replace (String.length s + String.length t - String.length t) with (String.length s) by lia.
  apply take_app_str.
Qed.

Lemma forall_str_app p a b : forall_str p (a +:+ b) = forall_str p a && forall_str p b.
Proof. induction a; cbn; [done|]. by rewrite IHa, andb_assoc. Qed.

Lemma forall_str_take p n s : forall_str p s = true → forall_str p (take_str n s) = true.
Proof.
  revert s. induction n as [|n IH]; intros [|c s]; cbn; [done..|].
  intros [Hc Hs]%andb_true_iff. by rewrite Hc, IH.
Qed.

Lemma forall_str_Join p l :
  (∀ s, s ∈ l → forall_str p s = true) → forall_str p (Join l "") = true.
Proof.
  induction l as [|s [|t l] IH]; intros Hl; [done|apply Hl; left|].
  change (Join (s :: t :: l) "") with (s +:+ "" +:+ Join (t :: l) "").
  rewrite forall_str_app. apply andb_true_iff. split; [apply Hl; left|].
  cbn. apply IH. intros; apply Hl; by right.
Qed.

Lemma length_Join_const n l :
  (∀ s, s ∈ l → String.length s = n) → String.length (Join l "") = (n * length l).
Proof.
  induction l as [|s [|t l] IH]; intros Hl; [cbn; lia|cbn; rewrite (Hl s) by left; lia|].
  change (Join (s :: t :: l) "") with (s +:+ "" +:+ Join (t :: l) "").
  rewrite length_app_str, (Hl s) by left.
  change ("" +:+ Join (t :: l) "") with (Join (t :: l) "").
  rewrite IH by (intros; apply Hl; by right). cbn [length]. lia.
Qed.

#[export] Hint Rewrite app_nil_r_str app_assoc_str length_app_str : str.

Lemma elem_of_slices_Sort x l : x ∈ slices_Sort l ↔ x ∈ l.
Proof. unfold slices_Sort. by rewrite merge_sort_Permutation. Qed.

Lemma elem_of_slices_Compact x l : x ∈ slices_Compact l ↔ x ∈ l.
Proof.
  induction l as [|y [|z l] IH]; [done..|].
  change (slices_Compact (y :: z :: l)) with
    (if decide (y = z) then slices_Compact (z :: l) else y :: slices_Compact (z :: l)).
  case_decide; set_solver.
Qed.

Lemma slices_Contains_true {A} `{EqDecision A} (l : list A) x :
  slices_Contains l x = true ↔ x ∈ l.
Proof. apply bool_decide_eq_true. Qed.

Lemma slices_Contains_false {A} `{EqDecision A} (l : list A) x :
  slices_Contains l x = false ↔ x ∉ l.
Proof. apply bool_decide_eq_false. Qed.

Lemma elem_of_sorted_keys {A} (m : gmap string A) k :
  k ∈ sorted_keys m ↔ is_Some (m !! k).
Proof.
  unfold sorted_keys. rewrite elem_of_slices_Sort, list_elem_of_fmap. split.
  - intros [[k' v] [-> Hin]]. apply elem_of_map_to_list in Hin. eauto.
  - intros [v Hv]. exists (k, v). by rewrite elem_of_map_to_list.
Qed.

(** ** The digest is 64 lowercase hex digits *)

Definition is_hex_lower (c : Ascii.ascii) : bool :=
  let n := Ascii.N_of_ascii c in
  ((48 <=? n)%N && (n <=? 57)%N) || ((97 <=? n)%N && (n <=? 102)%N).

Module Sha256Facts.
Import Sha256.
Local Open Scope N_scope.

Lemma hex_digit_hex n : n < 16 → is_hex_lower (hex_digit n) = true.
Proof.
  intros Hn. assert (n ∈ (N.of_nat <$> seq 0 16)) as Hin.
  { apply list_elem_of_fmap. exists (N.to_nat n). rewrite elem_of_seq. lia. }
  cbn in Hin. repeat (apply elem_of_cons in Hin as [->|Hin]; [reflexivity|]).
  by apply elem_of_nil in Hin.
Qed.

Lemma land15 n : N.land n 15 < 16.
Proof. change 15 with (N.ones 4). rewrite N.land_ones. by apply N.mod_upper_bound. Qed.

Lemma hex_byte_hex n : forall_str is_hex_lower (hex_byte n) = true.
Proof. cbn. by rewrite !hex_digit_hex by apply land15. Qed.

Lemma EncodeToString_hex ws : forall_str is_hex_lower (EncodeToString ws) = true.
Proof. apply forall_str_Join. intros s [n [-> _]]%list_elem_of_fmap. apply hex_byte_hex. Qed.

Lemma length_bind_be_bytes ws : length (ws ≫= be_bytes 4) = (4 * length ws)%nat.
Proof. induction ws as [|w ws IH]; [done|]. cbn in *. rewrite IH. lia. Qed.

Lemma EncodeToString_length ws : String.length (EncodeToString ws) = (8 * length ws)%nat.
Proof.
  unfold EncodeToString. rewrite (length_Join_const 2).
  - rewrite length_fmap, length_bind_be_bytes. lia.
  - by intros s [n [-> _]]%list_elem_of_fmap.
Qed.

Lemma round_length st kw : length (round st kw) = length st.
Proof. unfold round. do 9 (destruct st as [|? st]; [done|]). done. Qed.

Lemma foldl_round_length kws st : length (foldl round st kws) = length st.
Proof. revert st. induction kws as [|kw kws IH]; intros; [done|]. cbn. by rewrite IH, round_length. Qed.

Lemma blocks_length fuel st w : length (blocks fuel st w) = length st.
Proof.
  revert st w. induction fuel as [|fuel IH]; intros st [|x w]; [done..|].
  cbn [blocks]. rewrite IH. unfold compress. rewrite length_zip_with, foldl_round_length. lia.
Qed.

Lemma Sum256_length s : length (Sum256 s) = 8%nat.
Proof. unfold Sum256. by rewrite blocks_length. Qed.
End Sha256Facts.
