(* ===== verification/Names.v ===== *)
(** * Names: the identifiers pgroll derives for its own database objects

    Models the naming helpers of [pkg/migrations/op_common.go],
    [duplicate.go], [rename.go], [op_add_column.go], [pkg/backfill] and
    [pkg/roll]: the per-migration scope, the temporary, soft-deleted and
    duplicated names and the functions that take them apart again. *)

From S2P Require Import Prelude.
From S2P Require Import GoStd.

Definition temporaryPrefix : string := "_pgroll_new_".
Definition deletedPrefix : string := "_pgroll_del_".
Definition MigrationScopeLength : nat := 8.

Definition MigrationScopeFor (migrationName : string) : string :=
  if decide (migrationName = "") then ""
  else take_str MigrationScopeLength (Sha256.EncodeToString (Sha256.Sum256 migrationName)).

Definition scopeSuffix (scope : string) : string :=
  if decide (scope = "") then "" else "_" +:+ scope.

Definition TemporaryName (scope name : string) : string :=
  temporaryPrefix +:+ name +:+ scopeSuffix scope.

Definition temporaryNames (scope : string) (columns : list string) : list string :=
  TemporaryName scope <$> columns.

Definition DeletionName (scope name : string) : string :=
  deletedPrefix +:+ name +:+ scopeSuffix scope.

Definition DuplicationName (scope name : string) : string :=
  "_pgroll_dup_" +:+ name +:+ scopeSuffix scope.

Definition IsDuplicatedName (name : string) : bool := HasPrefix name "_pgroll_dup_".

(** [range] over a string visits runes; a byte of a multi-byte rune is never
    a hex digit, so the bytewise test agrees with it. *)
Definition isHexLower (s : string) : bool := forall_str is_hex_lower s.

(** [if len(s) > MigrationScopeLength+1 { tail := ...; if tail[0] == '_' &&
    isHexLower(tail[1:]) { s[:len(s)-MigrationScopeLength-1] } }], the block
    [temporaryNameRebase] and [StripDuplicationPrefix] share. *)
Definition strip_scope_suffix (s : string) : string :=
  if (MigrationScopeLength + 1 <? String.length s)%nat then
    match drop_str (String.length s - MigrationScopeLength - 1) s with
    | String c tail =>
        if Ascii.eqb c "_"%char && isHexLower tail
        then take_str (String.length s - MigrationScopeLength - 1) s else s
    | "" => s
    end
  else s.

Definition temporaryNameRebase (scope name : string) : string :=
  let base :=
    if HasPrefix name temporaryPrefix
    then strip_scope_suffix (TrimPrefix name temporaryPrefix) else name in
  TemporaryName scope base.

Definition StripDuplicationPrefix (name : string) : string :=
  strip_scope_suffix (TrimPrefix name "_pgroll_dup_").

Definition needsBackfillColumnPrefix : string := "_pgroll_needs_backfill".

Definition NeedsBackfillColumnName (scope : string) : string :=
  if decide (scope = "") then needsBackfillColumnPrefix
  else needsBackfillColumnPrefix +:+ "_" +:+ scope.

Definition TriggerFunctionName (scope tableName columnName : string) : string :=
  let base := "_pgroll_trigger_" +:+ tableName +:+ "_" +:+ columnName in
  if decide (scope = "") then base else base +:+ "_" +:+ scope.

Definition TriggerName (scope tableName columnName : string) : string :=
  TriggerFunctionName scope tableName columnName.

Definition UniqueIndexName (columnName : string) : string := "_pgroll_uniq_" +:+ columnName.

Definition NotNullConstraintName (columnName : string) : string :=
  "_pgroll_check_not_null_" +:+ columnName.

Definition IsNotNullConstraintName (name : string) : bool :=
  HasPrefix name "_pgroll_check_not_null_".

Definition CanonicalNotNullName (table column : string) : string :=
  let name := table +:+ "_" +:+ column +:+ "_not_null" in
  if (63 <? String.length name)%nat then take_str 63 name else name.

Definition primaryKeyName (tableName : string) : string := tableName +:+ "_pkey".

Definition MaxIdentifierLength : nat := 63.

Definition VersionedSchemaName (schema version : string) : string :=
  schema +:+ "_" +:+ version.

(** ** The scope of a migration *)

Lemma MigrationScopeFor_empty : MigrationScopeFor "" = "".
Proof. reflexivity. Qed.

Lemma MigrationScopeFor_length m : m ≠ "" → String.length (MigrationScopeFor m) = 8.
Proof.
  intros Hm. unfold MigrationScopeFor. rewrite decide_False by done.
  rewrite length_take_str, Sha256Facts.EncodeToString_length, Sha256Facts.Sum256_length.
  reflexivity.
Qed.

Lemma MigrationScopeFor_hex m : isHexLower (MigrationScopeFor m) = true.
Proof.
  unfold MigrationScopeFor, isHexLower. case_decide; [done|].
  apply forall_str_take, Sha256Facts.EncodeToString_hex.
Qed.

(** A scope as [MigrationScopeFor] produces one for a named migration. *)
Definition is_scope (s : string) : Prop := String.length s = 8 ∧ isHexLower s = true.

#[export] Instance is_scope_dec s : Decision (is_scope s).
Proof. unfold is_scope. apply _. Defined.

Lemma MigrationScopeFor_is_scope m : m ≠ "" → is_scope (MigrationScopeFor m).
Proof. intros. split; [by apply MigrationScopeFor_length|apply MigrationScopeFor_hex]. Qed.

Lemma is_scope_ne s : is_scope s → s ≠ "".
Proof. by intros [Hl _] ->. Qed.

Lemma scopeSuffix_ne s : is_scope s → scopeSuffix s = "_" +:+ s.
Proof. intros Hs%is_scope_ne. unfold scopeSuffix. by rewrite decide_False. Qed.

Lemma length_scopeSuffix s : is_scope s → String.length (scopeSuffix s) = 9.
Proof. intros Hs. rewrite scopeSuffix_ne by done. cbn. by destruct Hs as [-> _]. Qed.

Lemma strip_scope_suffix_app base s :
  is_scope s → base ≠ "" → strip_scope_suffix (base +:+ scopeSuffix s) = base.
Proof.
  intros Hs Hb. unfold strip_scope_suffix.
  assert (0 < String.length base) by (destruct base; cbn; [done|lia]).
  rewrite length_app_str, length_scopeSuffix by done.
  rewrite (proj2 (Nat.ltb_lt _ _)) by (unfold MigrationScopeLength; lia).
  replace (String.length base + 9 - MigrationScopeLength - 1) with (String.length base)
    by (unfold MigrationScopeLength; lia).
  rewrite drop_app_str, take_app_str, scopeSuffix_ne by done.
  cbn -[isHexLower]. destruct Hs as [_ ->]. done.
Qed.

#[export] Hint Resolve MigrationScopeFor_is_scope is_scope_ne : pgroll.

(** Prefixing and scoping is injective in both parts. *)
Lemma scoped_inj p s1 n1 s2 n2 :
  is_scope s1 → is_scope s2 →
  p +:+ n1 +:+ scopeSuffix s1 = p +:+ n2 +:+ scopeSuffix s2 → s1 = s2 ∧ n1 = n2.
Proof.
  intros H1 H2 [Hn Hs]%(inj (String.append p))%app_inj_len.
  - split; [|done]. rewrite !scopeSuffix_ne in Hs by done. by injection Hs.
  - by rewrite !length_scopeSuffix.
Qed.

Lemma DuplicationName_strip sc name :
  is_scope sc → name ≠ "" → StripDuplicationPrefix (DuplicationName sc name) = name.
Proof.
  intros Hs Hn. unfold StripDuplicationPrefix, DuplicationName.
  rewrite TrimPrefix_app. by apply strip_scope_suffix_app.
Qed.

Lemma temporaryNameRebase_temporary sc sc' name :
  is_scope sc → name ≠ "" →
  temporaryNameRebase sc' (TemporaryName sc name) = TemporaryName sc' name.
Proof.
  intros Hs Hn. unfold temporaryNameRebase.
  change (TemporaryName sc name) with (temporaryPrefix +:+ (name +:+ scopeSuffix sc)).
  rewrite HasPrefix_app, TrimPrefix_app. by rewrite strip_scope_suffix_app.
Qed.

Lemma temporaryNameRebase_plain sc name :
  HasPrefix name temporaryPrefix = false → temporaryNameRebase sc name = TemporaryName sc name.
Proof. intros Hn. unfold temporaryNameRebase. by rewrite Hn. Qed.

(** Derived names are taken apart exactly.  For the scopes of two named
    migrations and a name: a duplicated name is recognised and stripped back
    to the name it duplicates; rebasing a temporary name to another migration
    gives the temporary name of that migration, whichever migration it came
    from, and rebasing a plain name prefixes it. *)
Theorem derived_names_roundtrip m m' name :
  m ≠ "" → name ≠ "" →
  let sc := MigrationScopeFor m in
  let sc' := MigrationScopeFor m' in
  IsDuplicatedName (DuplicationName sc name) = true ∧
  StripDuplicationPrefix (DuplicationName sc name) = name ∧
  temporaryNameRebase sc' (TemporaryName sc name) = TemporaryName sc' name ∧
  (HasPrefix name temporaryPrefix = false → temporaryNameRebase sc' name = TemporaryName sc' name).
Proof.
  intros Hm Hn sc sc'. assert (is_scope sc) by (by apply MigrationScopeFor_is_scope).
  split_and!.
  - apply HasPrefix_app.
  - by apply DuplicationName_strip.
  - by apply temporaryNameRebase_temporary.
  - apply temporaryNameRebase_plain.
Qed.

Lemma derived_names_roundtrip_witness :
  StripDuplicationPrefix (DuplicationName (MigrationScopeFor "01_init") "users_idx") = "users_idx" ∧
  temporaryNameRebase (MigrationScopeFor "02_next") (TemporaryName (MigrationScopeFor "01_init") "a")
    = TemporaryName (MigrationScopeFor "02_next") "a".
Proof.
  split.
  - destruct (derived_names_roundtrip "01_init" "02_next" "users_idx") as (_ & H & _);
      [discriminate..|exact H].
  - destruct (derived_names_roundtrip "01_init" "02_next" "a") as (_ & _ & H & _);
      [discriminate..|exact H].
Defined.

(** The three families of names by migration *)
Inductive derived_name (sc name : string) : string → string → Prop :=
  | derived_temporary : derived_name sc name "new" (TemporaryName sc name)
  | derived_deletion : derived_name sc name "del" (DeletionName sc name)
  | derived_duplication : derived_name sc name "dup" (DuplicationName sc name).

Lemma derived_name_form sc name k s :
  derived_name sc name k s → String.length k = 3 ∧ s = "_pgroll_" +:+ k +:+ "_" +:+ name +:+ scopeSuffix sc.
Proof. intros []; split; reflexivity. Qed.

(** No two migrations share a derived name.  If two names derived for
    named migrations (temporary, soft-deleted or duplicated ones) are equal,
    they are of the same kind, their scopes are equal and they derive from the
    same name. *)
Lemma derived_names_injective m1 m2 k1 k2 n1 n2 s :
  m1 ≠ "" → m2 ≠ "" →
  derived_name (MigrationScopeFor m1) n1 k1 s → derived_name (MigrationScopeFor m2) n2 k2 s →
  k1 = k2 ∧ MigrationScopeFor m1 = MigrationScopeFor m2 ∧ n1 = n2.
Proof.
  intros H1%MigrationScopeFor_is_scope H2%MigrationScopeFor_is_scope
    [L1 E1]%derived_name_form [L2 E2]%derived_name_form.
  rewrite E1 in E2. clear E1 s.
  apply (inj (String.append "_pgroll_")) in E2.
  assert (k1 = k2) as ->.
  { apply (f_equal (take_str 3)) in E2. rewrite <-L1 in E2 at 1. rewrite <-L2 in E2.
    by rewrite !take_app_str in E2. }
  split; [done|]. apply (inj (String.append k2)), (inj (String.append "_")) in E2.
  by apply (scoped_inj "").
Qed.

(** C38. How long a name may be.  For a named migration, the temporary, the
    soft-deleted and the duplicated name fit PostgreSQL's 63-byte limit exactly
    for names of at most 42 bytes; the canonical NOT NULL
    constraint name always fits. *)
Theorem derived_names_length m name table :
  m ≠ "" →
  let sc := MigrationScopeFor m in
  (String.length (TemporaryName sc name) ≤ MaxIdentifierLength ↔ String.length name ≤ 42) ∧
  (String.length (DeletionName sc name) ≤ MaxIdentifierLength ↔ String.length name ≤ 42) ∧
  (String.length (DuplicationName sc name) ≤ MaxIdentifierLength ↔ String.length name ≤ 42) ∧
  String.length (CanonicalNotNullName table name) ≤ MaxIdentifierLength.
Proof.
  intros Hm sc. assert (is_scope sc) as Hs by (by apply MigrationScopeFor_is_scope).
  unfold TemporaryName, DeletionName, DuplicationName, temporaryPrefix, deletedPrefix,
    MaxIdentifierLength.
  rewrite !length_app_str, length_scopeSuffix by done. cbn [String.length].
  split_and!; [lia..|].
  unfold CanonicalNotNullName. destruct (Nat.ltb_spec 63 (String.length
    (table +:+ "_" +:+ name +:+ "_not_null"))); [|done].
  rewrite length_take_str. lia.
Qed.

Lemma derived_names_length_witness :
  String.length (TemporaryName (MigrationScopeFor "01_init") "a") ≤ MaxIdentifierLength ∧
  ¬ String.length (TemporaryName (MigrationScopeFor "01_init")
      (Nat.iter 63 (String.append "a") "")) ≤ MaxIdentifierLength.
Proof.
  split.
  - destruct (derived_names_length "01_init" "a" "t") as (H & _); [discriminate|].
    apply H. vm_compute. lia.
  - destruct (derived_names_length "01_init" (Nat.iter 63 (String.append "a") "") "t") as (H & _);
      [discriminate|].
    intros Hle%H. vm_compute in Hle. lia.
Defined.

(** Trigger names are not injective: the table and the column are joined with
    the character both may contain. *)
Lemma TriggerName_collides sc : TriggerName sc "a_b" "c" = TriggerName sc "a" "b_c".
Proof. unfold TriggerName, TriggerFunctionName. reflexivity. Qed.

(** A name that looks scoped is taken for a scoped one: without a scope the
    duplicated name of [x_deadbeef] strips to [x]. *)
Lemma strip_unscoped_gap : StripDuplicationPrefix (DuplicationName "" "x_deadbeef") = "x".
Proof. vm_compute. reflexivity. Qed.
