(* ===== verification/Schema.v ===== *)
(** * Schema: the virtual schema of [pkg/schema/schema.go]

    A [Schema] maps virtual table names to tables.  The code shares [*Table]
    pointers between the schema's map, its [shadowed] stacks and the
    database actions that are executed later, so tables live in a heap of
    locations; everything below a table (columns, constraints, slices) is a
    value.  A column pointer can be nil: [RenameColumn] stores whatever the
    map lookup returns. *)

From S2P Require Import Prelude.
From S2P Require Import GoStd.

(** ** Data *)

Record Column := mkColumn {
  Column_Name : string;
  Column_Type : string;
  Column_Default : option string;
  Column_Nullable : bool;
  Column_Unique : bool;
  Column_Comment : string;
  Column_EnumValues : list string;
  Column_Deleted : bool;
  Column_PostgresType : string;
  Column_Identity : string;
}.

Record Index := mkIndex {
  Index_Name : string;
  Index_Unique : bool;
  Index_Exclusion : bool;
  Index_Columns : list string;
  Index_Predicate : option string;
  Index_Method : string;
  Index_Definition : string;
}.

Record ForeignKey := mkForeignKey {
  ForeignKey_Name : string;
  ForeignKey_Columns : list string;
  ForeignKey_ReferencedTable : string;
  ForeignKey_ReferencedColumns : list string;
  ForeignKey_OnDelete : string;
  ForeignKey_OnDeleteSetColumns : list string;
  ForeignKey_OnUpdate : string;
  ForeignKey_MatchType : string;
}.

Record CheckConstraint := mkCheckConstraint {
  CheckConstraint_Name : string;
  CheckConstraint_Columns : list string;
  CheckConstraint_Definition : string;
  CheckConstraint_NoInherit : bool;
}.

Record UniqueConstraint := mkUniqueConstraint {
  UniqueConstraint_Name : string;
  UniqueConstraint_Columns : list string;
}.

Record ExcludeConstraint := mkExcludeConstraint {
  ExcludeConstraint_Name : string;
  ExcludeConstraint_Method : string;
  ExcludeConstraint_Predicate : string;
  ExcludeConstraint_Columns : list string;
  ExcludeConstraint_Definition : string;
}.

(** [Table.Columns] holds pointers, [None] being nil. *)
Record Table := mkTable {
  Table_OID : string;
  Table_Name : string;
  Table_Comment : string;
  Table_Columns : gmap string (option Column);
  Table_Indexes : gmap string Index;
  Table_PrimaryKey : list string;
  Table_ForeignKeys : gmap string ForeignKey;
  Table_CheckConstraints : gmap string CheckConstraint;
  Table_UniqueConstraints : gmap string UniqueConstraint;
  Table_ExcludeConstraints : gmap string ExcludeConstraint;
  Table_Deleted : bool;
  Table_CreatedInMigration : bool;
}.

Abbreviation loc := positive.
Abbreviation heap := (gmap positive Table).

Record Schema := mkSchema {
  Schema_Name : string;
  Schema_Tables : gmap string loc;
  Schema_MigrationScope : string;
  Schema_shadowed : gmap string (list loc);
}.

Section eq_dec.
#[export] Instance Column_eq_dec : EqDecision Column. Proof. solve_decision. Defined.
#[export] Instance Index_eq_dec : EqDecision Index. Proof. solve_decision. Defined.
#[export] Instance ForeignKey_eq_dec : EqDecision ForeignKey. Proof. solve_decision. Defined.
#[export] Instance CheckConstraint_eq_dec : EqDecision CheckConstraint.
Proof. solve_decision. Defined.
#[export] Instance UniqueConstraint_eq_dec : EqDecision UniqueConstraint.
Proof. solve_decision. Defined.
#[export] Instance ExcludeConstraint_eq_dec : EqDecision ExcludeConstraint.
Proof. solve_decision. Defined.
#[export] Instance Table_eq_dec : EqDecision Table. Proof. solve_decision. Defined.
#[export] Instance Schema_eq_dec : EqDecision Schema. Proof. solve_decision. Defined.
End eq_dec.

(** ** Field updates *)

Definition set_Column_Name (v : string) (c : Column) : Column :=
  mkColumn v c.(Column_Type) c.(Column_Default) c.(Column_Nullable) c.(Column_Unique)
    c.(Column_Comment) c.(Column_EnumValues) c.(Column_Deleted) c.(Column_PostgresType)
    c.(Column_Identity).
Definition set_Column_Type (v : string) (c : Column) : Column :=
  mkColumn c.(Column_Name) v c.(Column_Default) c.(Column_Nullable) c.(Column_Unique)
    c.(Column_Comment) c.(Column_EnumValues) c.(Column_Deleted) c.(Column_PostgresType)
    c.(Column_Identity).
Definition set_Column_Default (v : option string) (c : Column) : Column :=
  mkColumn c.(Column_Name) c.(Column_Type) v c.(Column_Nullable) c.(Column_Unique)
    c.(Column_Comment) c.(Column_EnumValues) c.(Column_Deleted) c.(Column_PostgresType)
    c.(Column_Identity).
Definition set_Column_Nullable (v : bool) (c : Column) : Column :=
  mkColumn c.(Column_Name) c.(Column_Type) c.(Column_Default) v c.(Column_Unique)
    c.(Column_Comment) c.(Column_EnumValues) c.(Column_Deleted) c.(Column_PostgresType)
    c.(Column_Identity).
Definition set_Column_Deleted (v : bool) (c : Column) : Column :=
  mkColumn c.(Column_Name) c.(Column_Type) c.(Column_Default) c.(Column_Nullable)
    c.(Column_Unique) c.(Column_Comment) c.(Column_EnumValues) v c.(Column_PostgresType)
    c.(Column_Identity).

Definition set_Table_Name (v : string) (t : Table) : Table :=
  mkTable t.(Table_OID) v t.(Table_Comment) t.(Table_Columns) t.(Table_Indexes)
    t.(Table_PrimaryKey) t.(Table_ForeignKeys) t.(Table_CheckConstraints)
    t.(Table_UniqueConstraints) t.(Table_ExcludeConstraints) t.(Table_Deleted)
    t.(Table_CreatedInMigration).
Definition set_Table_Columns (v : gmap string (option Column)) (t : Table) : Table :=
  mkTable t.(Table_OID) t.(Table_Name) t.(Table_Comment) v t.(Table_Indexes)
    t.(Table_PrimaryKey) t.(Table_ForeignKeys) t.(Table_CheckConstraints)
    t.(Table_UniqueConstraints) t.(Table_ExcludeConstraints) t.(Table_Deleted)
    t.(Table_CreatedInMigration).
Definition set_Table_Indexes (v : gmap string Index) (t : Table) : Table :=
  mkTable t.(Table_OID) t.(Table_Name) t.(Table_Comment) t.(Table_Columns) v
    t.(Table_PrimaryKey) t.(Table_ForeignKeys) t.(Table_CheckConstraints)
    t.(Table_UniqueConstraints) t.(Table_ExcludeConstraints) t.(Table_Deleted)
    t.(Table_CreatedInMigration).
Definition set_Table_ForeignKeys (v : gmap string ForeignKey) (t : Table) : Table :=
  mkTable t.(Table_OID) t.(Table_Name) t.(Table_Comment) t.(Table_Columns) t.(Table_Indexes)
    t.(Table_PrimaryKey) v t.(Table_CheckConstraints)
    t.(Table_UniqueConstraints) t.(Table_ExcludeConstraints) t.(Table_Deleted)
    t.(Table_CreatedInMigration).
Definition set_Table_CheckConstraints (v : gmap string CheckConstraint) (t : Table) : Table :=
  mkTable t.(Table_OID) t.(Table_Name) t.(Table_Comment) t.(Table_Columns) t.(Table_Indexes)
    t.(Table_PrimaryKey) t.(Table_ForeignKeys) v
    t.(Table_UniqueConstraints) t.(Table_ExcludeConstraints) t.(Table_Deleted)
    t.(Table_CreatedInMigration).
Definition set_Table_UniqueConstraints (v : gmap string UniqueConstraint) (t : Table) : Table :=
  mkTable t.(Table_OID) t.(Table_Name) t.(Table_Comment) t.(Table_Columns) t.(Table_Indexes)
    t.(Table_PrimaryKey) t.(Table_ForeignKeys) t.(Table_CheckConstraints) v
    t.(Table_ExcludeConstraints) t.(Table_Deleted) t.(Table_CreatedInMigration).
Definition set_Table_Deleted (v : bool) (t : Table) : Table :=
  mkTable t.(Table_OID) t.(Table_Name) t.(Table_Comment) t.(Table_Columns) t.(Table_Indexes)
    t.(Table_PrimaryKey) t.(Table_ForeignKeys) t.(Table_CheckConstraints)
    t.(Table_UniqueConstraints) t.(Table_ExcludeConstraints) v t.(Table_CreatedInMigration).
Definition set_Table_CreatedInMigration (v : bool) (t : Table) : Table :=
  mkTable t.(Table_OID) t.(Table_Name) t.(Table_Comment) t.(Table_Columns) t.(Table_Indexes)
    t.(Table_PrimaryKey) t.(Table_ForeignKeys) t.(Table_CheckConstraints)
    t.(Table_UniqueConstraints) t.(Table_ExcludeConstraints) t.(Table_Deleted) v.

Definition set_Schema_Tables (v : gmap string loc) (s : Schema) : Schema :=
  mkSchema s.(Schema_Name) v s.(Schema_MigrationScope) s.(Schema_shadowed).
Definition set_Schema_MigrationScope (v : string) (s : Schema) : Schema :=
  mkSchema s.(Schema_Name) s.(Schema_Tables) v s.(Schema_shadowed).

(** ** Operations on a schema *)

(** [schema.New] *)
Definition New : Schema := mkSchema "" ∅ "" ∅.

(** [GetTable] returns the pointer, nil when the table is absent or deleted. *)
Definition GetTable (h : heap) (s : Schema) (name : string) : option loc :=
  match s.(Schema_Tables) !! name with
  | None => None
  | Some l =>
      match h !! l with
      | Some t => if t.(Table_Deleted) then None else Some l
      | None => None
      end
  end.

Definition AddTable (name : string) (l : loc) (s : Schema) : Schema :=
  set_Schema_Tables (<[name := l]> s.(Schema_Tables)) s.

Definition ClearCreatedInMigration (s : Schema) (h : heap) : heap :=
  foldr (λ l h, alter (set_Table_CreatedInMigration false) l h) h
    ((map_to_list s.(Schema_Tables)).*2).

(** The two errors of [RenameTable]. *)
Inductive RenameTableError :=
  | RenameTable_does_not_exist (name : string)
  | RenameTable_already_exists (name : string).

Definition RenameTable (h : heap) (from to : string) (s : Schema) :
    outcome RenameTableError Schema :=
  match GetTable h s from with
  | None => Err (RenameTable_does_not_exist from)
  | Some t =>
      match GetTable h s to with
      | Some _ => Err (RenameTable_already_exists to)
      | None =>
          (* a soft-deleted table under the new name is shadowed *)
          let shadowed :=
            match s.(Schema_Tables) !! to with
            | Some existing =>
                match Table_Deleted <$> h !! existing with
                | Some true =>
                    <[to := default [] (s.(Schema_shadowed) !! to) ++ [existing]]>
                      s.(Schema_shadowed)
                | _ => s.(Schema_shadowed)
                end
            | None => s.(Schema_shadowed)
            end in
          let tables := delete from (<[to := t]> s.(Schema_Tables)) in
          (* the name given up restores what it last shadowed *)
          match last (default [] (shadowed !! from)) with
          | Some l =>
              Ok (mkSchema s.(Schema_Name) (<[from := l]> tables) s.(Schema_MigrationScope)
                    (<[from := take (length (default [] (shadowed !! from)) - 1)
                                 (default [] (shadowed !! from))]> shadowed))
          | None => Ok (mkSchema s.(Schema_Name) tables s.(Schema_MigrationScope) shadowed)
          end
      end
  end.

Definition RemoveTable (s : Schema) (name : string) (h : heap) : heap :=
  match s.(Schema_Tables) !! name with
  | Some l => alter (set_Table_Deleted true) l h
  | None => h
  end.

Definition UnRemoveTable (s : Schema) (name : string) (h : heap) : heap :=
  match s.(Schema_Tables) !! name with
  | Some l => alter (set_Table_Deleted false) l h
  | None => h
  end.

(** ** Operations on a table *)

(** [c, ok := t.Columns[name]; !ok || c.Deleted]: a nil entry panics. *)
Definition GetColumn {E} (t : Table) (name : string) : outcome E (option Column) :=
  match t.(Table_Columns) !! name with
  | None => Ok None
  | Some None => Panic
  | Some (Some c) => if c.(Column_Deleted) then Ok None else Ok (Some c)
  end.

Definition ConstraintExists (t : Table) (name : string) : bool :=
  if decide (is_Some (t.(Table_CheckConstraints) !! name)) then true
  else if decide (is_Some (t.(Table_UniqueConstraints) !! name)) then true
  else bool_decide (is_Some (t.(Table_ForeignKeys) !! name)).

Definition GetConstraintColumns (t : Table) (name : string) : list string :=
  let columns :=
    default [] (CheckConstraint_Columns <$> t.(Table_CheckConstraints) !! name) ++
    default [] (UniqueConstraint_Columns <$> t.(Table_UniqueConstraints) !! name) ++
    default [] (ForeignKey_Columns <$> t.(Table_ForeignKeys) !! name) in
  slices_Compact (slices_Sort columns).

(** The in-place loop of [RenameConstraintColumns] over one slice. *)
Definition updateColumns (from to : string) (columns : list string) : list string :=
  (λ c, if decide (c = from) then to else c) <$> columns.

Definition RenameConstraintColumns (from to : string) (t : Table) : Table :=
  let upd := updateColumns from to in
  set_Table_ForeignKeys
    ((λ fk, mkForeignKey fk.(ForeignKey_Name) (upd fk.(ForeignKey_Columns))
              fk.(ForeignKey_ReferencedTable) fk.(ForeignKey_ReferencedColumns)
              fk.(ForeignKey_OnDelete) fk.(ForeignKey_OnDeleteSetColumns)
              fk.(ForeignKey_OnUpdate) fk.(ForeignKey_MatchType))
       <$> t.(Table_ForeignKeys))
  (set_Table_UniqueConstraints
    ((λ uc, mkUniqueConstraint uc.(UniqueConstraint_Name) (upd uc.(UniqueConstraint_Columns)))
       <$> t.(Table_UniqueConstraints))
  (set_Table_CheckConstraints
    ((λ cc, mkCheckConstraint cc.(CheckConstraint_Name) (upd cc.(CheckConstraint_Columns))
              cc.(CheckConstraint_Definition) cc.(CheckConstraint_NoInherit))
       <$> t.(Table_CheckConstraints)) t)).

(** A missing primary-key column is appended as a nil pointer. *)
Definition GetPrimaryKey {E} (t : Table) : outcome E (list (option Column)) :=
  foldr (λ name acc, c ← GetColumn t name; cs ← acc; Ok (c :: cs)) (Ok []) t.(Table_PrimaryKey).

Definition AddColumn (name : string) (c : Column) (t : Table) : Table :=
  set_Table_Columns (<[name := Some c]> t.(Table_Columns)) t.

(** [if col, ok := t.Columns[column]; ok { col.Deleted = d }] *)
Definition setColumnDeleted {E} (d : bool) (column : string) (t : Table) : outcome E Table :=
  match t.(Table_Columns) !! column with
  | None => Ok t
  | Some None => Panic
  | Some (Some c) => Ok (AddColumn column (set_Column_Deleted d c) t)
  end.

Definition RemoveColumn {E} : string → Table → outcome E Table := setColumnDeleted true.
Definition UnRemoveColumn {E} : string → Table → outcome E Table := setColumnDeleted false.

(** [t.Columns[to] = t.Columns[from]; delete(t.Columns, from)] *)
Definition RenameColumn (from to : string) (t : Table) : Table :=
  set_Table_Columns
    (delete from (<[to := mjoin (t.(Table_Columns) !! from)]> t.(Table_Columns))) t.

Definition PhysicalColumnNamesFor {E} (t : Table) (columnNames : list string) :
    outcome E (list string) :=
  foldr (λ cn acc,
           c ← GetColumn t cn;
           match c with
           | None => Panic
           | Some c => names ← acc; Ok (c.(Column_Name) :: names)
           end) (Ok []) columnNames.
