(* ===== verification/SchemaFacts.v ===== *)
(** * SchemaFacts: the invariant of the virtual schema and its renames

    [wf] is what [AddTable], [RenameTable], [RemoveTable] and
    [UnRemoveTable] keep: no two names share a table, every table exists, and
    the shadowed stacks hold soft-deleted tables that no name reaches.  Under
    it a rename is undone by the opposite rename, soft-deleted tables
    included. *)

From S2P Require Import Prelude.
From S2P Require Import GoStd.
From S2P Require Import Schema.

Definition shadow_of (s : Schema) (n : string) : list loc := default [] (s.(Schema_shadowed) !! n).

Definition deleted_at (h : heap) (l : loc) : Prop := Table_Deleted <$> h !! l = Some true.

Record wf (h : heap) (s : Schema) : Prop := {
  wf_heap : ∀ n l, s.(Schema_Tables) !! n = Some l → is_Some (h !! l);
  wf_inj : ∀ n n' l, s.(Schema_Tables) !! n = Some l → s.(Schema_Tables) !! n' = Some l → n = n';
  wf_shadow_deleted : ∀ n l, l ∈ shadow_of s n → deleted_at h l;
  wf_shadow_free : ∀ n n' l, l ∈ shadow_of s n → s.(Schema_Tables) !! n' ≠ Some l;
  wf_shadow_inj : ∀ n n' l, l ∈ shadow_of s n → l ∈ shadow_of s n' → n = n';
  wf_shadow_nodup : ∀ n, NoDup (shadow_of s n);
  wf_shadow_name : ∀ n, shadow_of s n ≠ [] → is_Some (s.(Schema_Tables) !! n);
}.

(** Schemas that differ at most in empty stacks of the [shadowed] map *)
Definition schema_equiv (s s' : Schema) : Prop :=
  s.(Schema_Name) = s'.(Schema_Name) ∧ s.(Schema_Tables) = s'.(Schema_Tables) ∧
  s.(Schema_MigrationScope) = s'.(Schema_MigrationScope) ∧
  ∀ n, shadow_of s n = shadow_of s' n.
#[export] Instance schema_equiv_equivalence : Equivalence schema_equiv.
Proof.
  unfold schema_equiv. split.
  - done.
  - intros s s' (? & ? & ? & ?). by split_and!.
  - intros s s' s'' (Hn & Ht & Hm & Hs) (Hn' & Ht' & Hm' & Hs').
    split_and!; [congruence..|]. intros n. by rewrite Hs.
Qed.

#[export] Instance GetTable_proper h : Proper (schema_equiv ==> (=) ==> (=)) (GetTable h).
Proof. intros s s' (_ & Ht & _ & _) n _ <-. unfold GetTable. by rewrite Ht. Qed.

(** ** Lookups *)

Lemma GetTable_Some h s n l :
  GetTable h s n = Some l ↔
  s.(Schema_Tables) !! n = Some l ∧ ∃ t, h !! l = Some t ∧ t.(Table_Deleted) = false.
Proof.
  unfold GetTable. destruct (Schema_Tables s !! n) as [l'|];
    [|split; [discriminate|by intros [? _]]].
  destruct (h !! l') as [t|] eqn:Ht;
    [|split; [discriminate|intros [[= ->] (t & ? & _)]; congruence]].
  destruct (Table_Deleted t) eqn:Hd; (split; [intros H|intros [[= ->] (t' & ? & ?)]]);
    try congruence.
  injection H as ->. eauto.
Qed.

Lemma GetTable_None h s n :
  wf h s → GetTable h s n = None ↔
  s.(Schema_Tables) !! n = None ∨ ∃ l, s.(Schema_Tables) !! n = Some l ∧ deleted_at h l.
Proof.
  intros Hwf. unfold GetTable, deleted_at.
  destruct (Schema_Tables s !! n) as [l|] eqn:Hl; [|split; [by left|done]].
  destruct (wf_heap _ _ Hwf n l Hl) as [t Ht]. rewrite Ht.
  destruct (Table_Deleted t) eqn:Hd; split.
  - intros _. right. exists l. split; [done|]. rewrite Ht. cbn. by rewrite Hd.
  - done.
  - done.
  - intros [?|(l' & [= <-] & Hd')]; [done|]. rewrite Ht in Hd'. cbn in Hd'. congruence.
Qed.

(** The stacks and the tables after a rename *)
Definition pushed (h : heap) (s : Schema) (to n : string) : list loc :=
  if decide (n = to) then
    match s.(Schema_Tables) !! to with Some l => shadow_of s to ++ [l] | None => shadow_of s to end
  else shadow_of s n.

Lemma RenameTable_Ok h from to s s' :
  wf h s → RenameTable h from to s = Ok s' →
  ∃ t, GetTable h s from = Some t ∧ GetTable h s to = None ∧ from ≠ to ∧
    s'.(Schema_Name) = s.(Schema_Name) ∧ s'.(Schema_MigrationScope) = s.(Schema_MigrationScope) ∧
    (∀ n, s'.(Schema_Tables) !! n =
       if decide (n = from) then last (shadow_of s from)
       else if decide (n = to) then Some t else s.(Schema_Tables) !! n) ∧
    (∀ n, shadow_of s' n =
       if decide (n = from) then take (length (shadow_of s from) - 1) (shadow_of s from)
       else pushed h s to n).
Proof.
  intros Hwf. unfold RenameTable. destruct (GetTable h s from) as [t|] eqn:Hf; [|done].
  destruct (GetTable h s to) eqn:Ht; [done|].
  assert (from ≠ to) as Hne by congruence. intros H.
  set (sh := match s.(Schema_Tables) !! to with
    | Some existing => match Table_Deleted <$> h !! existing with
        | Some true => <[to := default [] (s.(Schema_shadowed) !! to) ++ [existing]]> s.(Schema_shadowed)
        | _ => s.(Schema_shadowed) end
    | None => s.(Schema_shadowed) end) in *.
  assert (∀ n, default [] (sh !! n) = pushed h s to n) as Hsh.
  { intros n. unfold sh, pushed. apply (GetTable_None h s to Hwf) in Ht.
    destruct Ht as [->|(l & -> & Hd)]; [by case_decide; subst|]. rewrite Hd.
    destruct (decide (n = to)) as [->|Hn]; [by rewrite lookup_insert_eq|].
    by rewrite lookup_insert_ne. }
  assert (default [] (sh !! from) = shadow_of s from) as Hshf.
  { rewrite Hsh. unfold pushed. by rewrite decide_False. }
  rewrite Hshf in H. exists t. split_and!; [done|done|done|..];
    destruct (last (shadow_of s from)) as [l|] eqn:Hl; injection H as <-; cbn; try done.
  - intros n. repeat case_decide; subst; rewrite ?lookup_insert_eq; try done.
    + by rewrite lookup_insert_ne, lookup_delete_ne, lookup_insert_eq.
    + by rewrite lookup_insert_ne, lookup_delete_ne, lookup_insert_ne.
  - intros n. repeat case_decide; subst; rewrite ?lookup_delete_eq; try done.
    + by rewrite lookup_delete_ne, lookup_insert_eq.
    + by rewrite lookup_delete_ne, lookup_insert_ne.
  - intros n. unfold shadow_of at 1. cbn. case_decide; subst.
    + by rewrite lookup_insert_eq.
    + by rewrite lookup_insert_ne.
  - intros n. unfold shadow_of at 1. cbn. rewrite Hsh. case_decide; subst; [|done].
    apply last_None in Hl. unfold pushed. by rewrite decide_False, Hl.
Qed.

Lemma last_take_snoc {A} (l : list A) x :
  last l = Some x → l = take (length l - 1) l ++ [x].
Proof.
  intros [k ->]%last_Some. rewrite length_app. cbn.
  replace (length k + 1 - 1) with (length k) by lia. by rewrite take_app_length.
Qed.

(** ** Preservation *)

Lemma pushed_spec h s to n l :
  l ∈ pushed h s to n ↔ l ∈ shadow_of s n ∨ (n = to ∧ s.(Schema_Tables) !! to = Some l).
Proof.
  unfold pushed. case_decide as Hn; subst; [|naive_solver].
  destruct (Schema_Tables s !! to) as [x|]; [|naive_solver].
  rewrite elem_of_app, list_elem_of_singleton. naive_solver.
Qed.

Lemma last_elem_of {A} (l : list A) x : last l = Some x → x ∈ l.
Proof. intros [k ->]%last_Some. set_solver. Qed.

Lemma take_elem_of {A} n (l : list A) x : x ∈ take n l → x ∈ l.
Proof. intros H. by apply (elem_of_sublist _ _ _ H), sublist_take. Qed.

Lemma last_not_in_take {A} (l : list A) x :
  NoDup l → last l = Some x → x ∉ take (length l - 1) l.
Proof.
  intros Hnd Hl%last_take_snoc. rewrite Hl in Hnd at 1. apply NoDup_app in Hnd as (_ & Hd & _).
  intros Hx. apply (Hd x Hx). by left.
Qed.

(** Where a location of the renamed schema comes from *)
Lemma RenameTable_shadow_inv h from to s s' n l :
  wf h s → RenameTable h from to s = Ok s' → l ∈ shadow_of s' n →
  (l ∈ shadow_of s n ∧ (n = from → last (shadow_of s from) ≠ Some l)) ∨
  (n = to ∧ s.(Schema_Tables) !! to = Some l).
Proof.
  intros Hwf Hr Hl. destruct (RenameTable_Ok _ _ _ _ _ Hwf Hr) as (t & Hf & Ht & Hne & _ & _ & _ & Hs).
  rewrite Hs in Hl. case_decide as Hn; [subst|].
  - left. split; [by eapply take_elem_of|]. intros _ Hlast.
    by eapply last_not_in_take; [apply (wf_shadow_nodup _ _ Hwf)| |].
  - apply pushed_spec in Hl as [Hl|Hl]; [|by right]. by left.
Qed.

(** Where a table of the renamed schema comes from *)
Lemma RenameTable_tables_inv h from to s s' n l :
  wf h s → RenameTable h from to s = Ok s' → s'.(Schema_Tables) !! n = Some l →
  (n = from ∧ last (shadow_of s from) = Some l) ∨ (n = to ∧ s.(Schema_Tables) !! from = Some l) ∨
  (n ≠ from ∧ n ≠ to ∧ s.(Schema_Tables) !! n = Some l).
Proof.
  intros Hwf Hr. destruct (RenameTable_Ok _ _ _ _ _ Hwf Hr) as (t & Hf & Ht & Hne & _ & _ & HT & _).
  apply GetTable_Some in Hf as (Hft & _). rewrite HT. repeat case_decide; naive_solver.
Qed.

Lemma pushed_NoDup h s to n : wf h s → NoDup (pushed h s to n).
Proof.
  intros Hwf. unfold pushed. case_decide; [subst|by eapply wf_shadow_nodup].
  destruct (Schema_Tables s !! to) as [l|] eqn:Hl; [|by eapply wf_shadow_nodup].
  apply NoDup_app. split_and!; [by eapply wf_shadow_nodup| |apply NoDup_singleton].
  intros x Hx ->%list_elem_of_singleton. by eapply (wf_shadow_free _ _ Hwf).
Qed.

Lemma RenameTable_wf h from to s s' :
  wf h s → RenameTable h from to s = Ok s' → wf h s'.
Proof.
  intros Hwf Hr. pose proof (RenameTable_shadow_inv h from to s s') as Hinv.
  destruct (RenameTable_Ok _ _ _ _ _ Hwf Hr) as (t & Hf & Ht & Hne & _ & _ & HT & HS).
  apply GetTable_Some in Hf as (Hft & tt & Htt & Hdt).
  pose proof (λ n l, RenameTable_tables_inv h from to s s' n l Hwf Hr) as Hcase.
  assert (∀ l, last (shadow_of s from) = Some l → l ∈ shadow_of s from) as Hlast
    by (intros; by apply last_elem_of).
  pose proof (wf_shadow_free _ _ Hwf) as Hfree.
  split.
  - intros n l [[-> Hl]|[[-> Hl]|(_ & _ & Hl)]]%Hcase; [|by eapply wf_heap..].
    apply Hlast, (wf_shadow_deleted _ _ Hwf) in Hl. unfold deleted_at in Hl.
    destruct (h !! l); [by eexists|done].
  - intros n n' l H1%Hcase H2%Hcase.
    destruct H1 as [[-> H1]|[[-> H1]|(Hn1 & Hn2 & H1)]], H2 as [[-> H2]|[[-> H2]|(Hn3 & Hn4 & H2)]];
      subst; try done;
      try (exfalso; eapply Hfree; [by apply Hlast|done]).
    + by destruct Hn3; eapply wf_inj.
    + by destruct Hn1; eapply wf_inj.
    + by eapply wf_inj.
  - intros n l Hl. destruct (Hinv n l Hwf Hr Hl) as [[H1 _]|[_ H1]];
      [by eapply wf_shadow_deleted|].
    apply (GetTable_None _ _ _ Hwf) in Ht as [?|(l' & ? & ?)]; congruence.
  - intros n n' l Hl Hl'%Hcase. destruct (Hinv n l Hwf Hr Hl) as [[H1 Hno]|[-> H1]].
    + destruct Hl' as [[-> H2]|[[-> H2]|(_ & _ & H2)]].
      * assert (n = from) as -> by (eapply wf_shadow_inj; [exact Hwf|done|by apply Hlast]).
        by apply Hno.
      * by eapply Hfree.
      * by eapply Hfree.
    + destruct Hl' as [[-> H2]|[[-> H2]|(_ & Hn & H2)]].
      * by eapply Hfree; [apply Hlast|].
      * by destruct Hne; eapply wf_inj.
      * by destruct Hn; eapply wf_inj.
  - intros n n' l Hl Hl'.
    destruct (Hinv n l Hwf Hr Hl) as [[H1 _]|[-> H1]], (Hinv n' l Hwf Hr Hl') as [[H2 _]|[-> H2]].
    + by eapply wf_shadow_inj.
    + by destruct (Hfree n to l).
    + by destruct (Hfree n' to l).
    + done.
  - intros n. rewrite HS. case_decide; [by eapply sublist_NoDup; [apply (wf_shadow_nodup _ _ Hwf)|apply sublist_take]|].
    by apply pushed_NoDup.
  - intros n Hn. rewrite HT. rewrite HS in Hn. repeat case_decide; subst; [|by eexists|].
    + destruct (last (shadow_of s from)) eqn:Hl; [by eexists|]. apply last_None in Hl.
      by rewrite Hl in Hn.
    + unfold pushed in Hn. rewrite decide_False in Hn by done. by eapply wf_shadow_name.
Qed.

Lemma AddTable_wf h s name l t :
  wf h s → h !! l = None → wf (<[l := t]> h) (AddTable name l s).
Proof.
  intros Hwf Hl.
  assert (∀ n, s.(Schema_Tables) !! n ≠ Some l) as Hfresh.
  { intros n Hn. destruct (wf_heap _ _ Hwf n l Hn). congruence. }
  assert (∀ n, l ∉ shadow_of s n) as Hfresh'.
  { intros n Hn%(wf_shadow_deleted _ _ Hwf). unfold deleted_at in Hn. by rewrite Hl in Hn. }
  unfold AddTable. split; cbn.
  - intros n l' [[<- <-]|[_ Hn]]%lookup_insert_Some; [rewrite lookup_insert_eq; by eexists|].
    rewrite lookup_insert_ne by congruence. by eapply wf_heap.
  - intros n n' l' [[<- <-]|[? H1]]%lookup_insert_Some [[<- H3]|[? H2]]%lookup_insert_Some;
      [done|by destruct (Hfresh n')|subst; by destruct (Hfresh n)|by eapply wf_inj].
  - intros n l' Hn. pose proof (wf_shadow_deleted _ _ Hwf n l' Hn) as Hd. unfold deleted_at in *.
    rewrite lookup_insert_ne; [done|]. intros ->. by eapply Hfresh'.
  - intros n n' l' Hn [[<- <-]|[_ Hn']]%lookup_insert_Some; [by eapply Hfresh'|].
    by eapply wf_shadow_free.
  - apply (wf_shadow_inj _ _ Hwf).
  - apply (wf_shadow_nodup _ _ Hwf).
  - intros n Hn%(wf_shadow_name _ _ Hwf). apply lookup_insert_is_Some'. by right.
Qed.

(** Rewriting a table in place keeps the invariant unless it revives a
    shadowed one. *)
Lemma alter_wf h s l f :
  wf h s → (∀ t, h !! l = Some t → (∃ n, l ∈ shadow_of s n) → (f t).(Table_Deleted) = t.(Table_Deleted)) →
  wf (alter f l h) s.
Proof.
  intros Hwf Hf. split; try apply Hwf.
  - intros n l' Hn. rewrite lookup_alter_is_Some. by eapply wf_heap.
  - intros n l' Hn. pose proof (wf_shadow_deleted _ _ Hwf n l' Hn) as Hd. unfold deleted_at in *.
    destruct (decide (l = l')) as [<-|Hne]; [|by rewrite lookup_alter_ne].
    rewrite lookup_alter_eq. apply fmap_Some in Hd as (t & Ht & Hd). rewrite Ht. cbn. f_equal.
    rewrite (Hf t); [done|done|by exists n].
Qed.

Lemma alter_named_wf h s n l f :
  wf h s → s.(Schema_Tables) !! n = Some l → wf (alter f l h) s.
Proof.
  intros Hwf Hl. apply alter_wf; [done|]. intros t _ [n' Hn'].
  by destruct (wf_shadow_free _ _ Hwf n' n l Hn').
Qed.

Lemma RemoveTable_wf h s name : wf h s → wf (RemoveTable s name h) s.
Proof. intros Hwf. unfold RemoveTable. destruct (_ !! name) eqn:Hl; [by eapply alter_named_wf|done]. Qed.

Lemma UnRemoveTable_wf h s name : wf h s → wf (UnRemoveTable s name h) s.
Proof. intros Hwf. unfold UnRemoveTable. destruct (_ !! name) eqn:Hl; [by eapply alter_named_wf|done]. Qed.

Lemma New_wf : wf ∅ New.
Proof.
  assert (∀ n, shadow_of New n = []) as Hs by done.
  split; intros n; rewrite ?Hs; cbn.
  - intros l. by rewrite lookup_empty.
  - intros n' l. by rewrite lookup_empty.
  - by intros l ?%elem_of_nil.
  - by intros n' l ?%elem_of_nil.
  - by intros n' l ?%elem_of_nil.
  - constructor.
  - done.
Qed.

(** ** Theorems *)

(** [RenameTable] on a well-formed schema: it fails exactly when the old
    name is not a live table or the new name is one, and otherwise moves the
    table to the new name, hides the old one, changes the visibility of no
    other name, and keeps the schema well-formed. *)
Theorem RenameTable_spec h from to s :
  wf h s →
  match RenameTable h from to s with
  | Ok s' =>
      is_Some (GetTable h s from) ∧ GetTable h s to = None ∧
      (∀ n, GetTable h s' n =
         if decide (n = from) then None
         else if decide (n = to) then GetTable h s from else GetTable h s n) ∧
      wf h s'
  | Err (RenameTable_does_not_exist n) => n = from ∧ GetTable h s from = None
  | Err (RenameTable_already_exists n) =>
      n = to ∧ is_Some (GetTable h s from) ∧ is_Some (GetTable h s to)
  | Panic | OutOfFuel => False
  end.
Proof.
  intros Hwf. destruct (RenameTable h from to s) as [s'|e| |] eqn:Hr.
  - pose proof (RenameTable_wf _ _ _ _ _ Hwf Hr) as Hwf'.
    destruct (RenameTable_Ok _ _ _ _ _ Hwf Hr) as (t & Hf & Ht & Hne & _ & _ & HT & _).
    split_and!; [by eexists|done| |done]. intros n. unfold GetTable at 1. rewrite HT.
    repeat case_decide; subst.
    + destruct (last (shadow_of s from)) as [l|] eqn:Hl; [|done].
      apply last_elem_of, (wf_shadow_deleted _ _ Hwf) in Hl. unfold deleted_at in Hl.
      destruct (h !! l); [|done]. cbn in Hl. injection Hl as ->. done.
    + rewrite Hf. apply GetTable_Some in Hf as (_ & tt & -> & ->). done.
    + done.
  - unfold RenameTable in Hr. destruct (GetTable h s from) eqn:Hf; [|by injection Hr as <-].
    destruct (GetTable h s to) eqn:Ht; [injection Hr as <-; eauto|].
    by destruct (last _) in Hr.
  - unfold RenameTable in Hr. destruct (GetTable h s from); [|done].
    destruct (GetTable h s to); [done|]. by destruct (last _) in Hr.
  - unfold RenameTable in Hr. destruct (GetTable h s from); [|done].
    destruct (GetTable h s to); [done|]. by destruct (last _) in Hr.
Qed.

(** A rename is undone by the opposite rename: soft-deleted tables that
    the rename shadowed come back under their own name, and those it
    uncovered are shadowed again. *)
Lemma RenameTable_undo h from to s s' :
  wf h s → RenameTable h from to s = Ok s' →
  ∃ s'', RenameTable h to from s' = Ok s'' ∧ schema_equiv s'' s.
Proof.
  intros Hwf Hr. pose proof (RenameTable_wf _ _ _ _ _ Hwf Hr) as Hwf'.
  destruct (RenameTable_Ok _ _ _ _ _ Hwf Hr) as (t & Hf & Ht & Hne & Hnm & Hsc & HT & HS).
  assert (GetTable h s' to = Some t) as Hto.
  { apply GetTable_Some in Hf as (_ & Hd). apply GetTable_Some. rewrite HT.
    rewrite decide_False, decide_True by done. done. }
  assert (GetTable h s' from = None) as Hfrom.
  { apply (GetTable_None _ _ _ Hwf'). rewrite HT, decide_True by done.
    destruct (last (shadow_of s from)) as [l|] eqn:Hl; [right|by left].
    exists l. split; [done|]. eapply wf_shadow_deleted; [exact Hwf|by apply last_elem_of]. }
  destruct (RenameTable h to from s') as [s''|e| |] eqn:Hr'.
  2-4: exfalso; unfold RenameTable in Hr'; rewrite Hto, Hfrom in Hr';
       by destruct (last _) in Hr'.
  exists s''. split; [done|].
  destruct (RenameTable_Ok _ _ _ _ _ Hwf' Hr') as (t' & Hf' & _ & _ & Hnm' & Hsc' & HT' & HS').
  assert (t' = t) as -> by congruence.
  assert (shadow_of s' to = pushed h s to to) as Hsto by (rewrite HS; by rewrite decide_False).
  apply GetTable_Some in Hf as (Hft & _).
  assert (s.(Schema_Tables) !! to = last (shadow_of s' to)) as Hlast.
  { rewrite Hsto. unfold pushed. rewrite decide_True by done.
    destruct (Schema_Tables s !! to) as [l|] eqn:Hl; [by rewrite last_snoc|].
    destruct (last (shadow_of s to)) as [l|] eqn:Hsl; [|done]. apply last_elem_of in Hsl.
    destruct (wf_shadow_name _ _ Hwf to); [intros Hnil; rewrite Hnil in Hsl; by apply elem_of_nil in Hsl|congruence]. }
  split_and!; [congruence| |congruence|].
  - apply map_eq. intros n. rewrite HT'. repeat case_decide; subst; [by rewrite Hlast|done|].
    rewrite HT. by rewrite !decide_False.
  - intros n. rewrite HS'. case_decide; subst.
    + rewrite Hsto. unfold pushed. rewrite decide_True by done.
      destruct (Schema_Tables s !! to) as [l|] eqn:Hl.
      * rewrite length_app. cbn. replace (_ + 1 - 1) with (length (shadow_of s to)) by lia.
        by rewrite take_app_length.
      * destruct (shadow_of s to) eqn:Hsl; [done|].
        destruct (wf_shadow_name _ _ Hwf to); [by rewrite Hsl|congruence].
    + unfold pushed. case_decide; subst.
      * rewrite HT, HS, !decide_True by done.
        destruct (last (shadow_of s from)) as [l|] eqn:Hl.
        -- by rewrite <-(last_take_snoc _ _ Hl).
        -- apply last_None in Hl. by rewrite Hl.
      * rewrite HS. unfold pushed. by rewrite !decide_False.
Qed.

(** ** Witnesses: two tables, the second one soft-deleted *)

Definition bare_table (name : string) : Table :=
  mkTable "" name "" ∅ ∅ [] ∅ ∅ ∅ ∅ false false.
Definition ex_schema : Schema := AddTable "b" 2%positive (AddTable "a" 1%positive New).
Definition ex_heap : heap :=
  RemoveTable ex_schema "b" (<[2%positive := bare_table "b"]> (<[1%positive := bare_table "a"]> ∅)).

Lemma ex_wf : wf ex_heap ex_schema.
Proof.
  apply RemoveTable_wf, AddTable_wf; [|done]. apply AddTable_wf; [apply New_wf|done].
Qed.

Lemma RenameTable_spec_witness :
  match RenameTable ex_heap "a" "b" ex_schema with
  | Ok s' => GetTable ex_heap s' "b" = Some 1%positive ∧ GetTable ex_heap s' "a" = None
  | _ => False
  end.
Proof.
  pose proof (RenameTable_spec ex_heap "a" "b" ex_schema ex_wf) as H.
  destruct (RenameTable ex_heap "a" "b" ex_schema) as [s'|e| |] eqn:Hr; [|discriminate Hr..].
  destruct H as (_ & _ & H & _). split; [exact (H "b")|exact (H "a")].
Defined.
