(* ===== verification/Types.v ===== *)
(** * Types: the migration format of [pkg/migrations/types.go] and its errors

    The operation records with their JSON fields, in the source's names
    ([Op<Name>_<Field>]), the closed sum of the fifteen operations, the
    migration structs of [migrations.go] and the error types of
    [errors.go].  A Go pointer field is an [option]; a [nullable.Nullable]
    (third party) has the three states its documentation gives it. *)

From S2P Require Import Prelude.
From S2P Require Import GoStd.
From S2P Require Import Schema.

(** ** Errors ([errors.go], [fmt.Errorf] and driver errors) *)

Inductive error : Type :=
  | InvalidMigrationError (Reason : string)
  | EmptyMigrationError
  | TableAlreadyExistsError (Name : string)
  | TableDoesNotExistError (Name : string)
  | ColumnAlreadyExistsError (Table Name : string)
  | ColumnIsInvalidError (Table Name : string)
  | ColumnDoesNotExistError (Table Name : string)
  | ColumnMigrationMissingError (Table Name : string)
  | ColumnMigrationRedundantError (Table Name : string)
  | ColumnIsNotNullableError (Table Name : string)
  | ColumnIsNullableError (Table Name : string)
  | IndexAlreadyExistsError (Name : string)
  | IndexDoesNotExistError (Name : string)
  | FieldRequiredError (Name : string)
  | ColumnReferenceError (Table Column : string) (Err : error)
  | CheckConstraintError (Table Column Name : string) (Err : error)
  | ConstraintDoesNotExistError (Table Constraint : string)
  | ConstraintAlreadyExistsError (Table Constraint : string)
  | InvalidReplicaIdentityError (Table Identity : string)
  | InvalidOnDeleteSettingError (Name Setting : string)
  | UnexpectedOnDeleteSetColumnError (Name : string)
  | InvalidOnDeleteSetColumnError (Name Column : string)
  | AlterColumnNoChangesError (Table Column : string)
  | InvalidIdentifierLengthError (Name : string)
  | VersionSchemaNameTooLongError (Schema VersionName ComputedName : string) (Max : nat)
  | MultiColumnConstraintsNotSupportedError (Table Constraint : string)
  | PrimaryKeysAreAlreadySetError (Table : string)
  | InvalidGeneratedColumnError (Table Column : string)
  | UpSQLMustBeColumnDefaultError (Column : string)
  (** [fmt.Errorf] without and with a wrapped error: the format string and
      the arguments it is given *)
  | Errorf (format : string) (args : list string)
  | ErrorfW (format : string) (args : list string) (Err : error)
  (** an error of the Postgres driver, with its SQLSTATE code *)
  | pqError (Code Message : string)
  (** two errors joined ([errors.Join]) *)
  | JoinError (e1 e2 : error).

#[export] Instance error_eq_dec : EqDecision error.
Proof. intros e1 e2. unfold Decision. decide equality; try apply (decide (_ = _)). Defined.

(** [ValidateIdentifierLength] *)
Definition ValidateIdentifierLength (name : string) : option error :=
  if (63 <? String.length name)%nat then Some (InvalidIdentifierLengthError name) else None.

(** ** Column and constraint definitions *)

(** The struct [CheckConstraint] of the migration format *)
Record MigCheckConstraint := mkMigCheckConstraint {
  MigCheckConstraint_Constraint : string;
  MigCheckConstraint_Name : string;
  MigCheckConstraint_NoInherit : bool;
}.

(** The struct [UniqueConstraint] of the migration format *)
Record MigUniqueConstraint := mkMigUniqueConstraint {
  MigUniqueConstraint_Name : string;
}.

Record ForeignKeyReference := mkForeignKeyReference {
  ForeignKeyReference_Column : string;
  ForeignKeyReference_Deferrable : bool;
  ForeignKeyReference_InitiallyDeferred : bool;
  ForeignKeyReference_MatchType : string;
  ForeignKeyReference_Name : string;
  ForeignKeyReference_OnDelete : string;
  ForeignKeyReference_OnUpdate : string;
  ForeignKeyReference_Table : string;
}.

Record TableForeignKeyReference := mkTableForeignKeyReference {
  TableForeignKeyReference_Columns : list string;
  TableForeignKeyReference_MatchType : string;
  TableForeignKeyReference_OnDelete : string;
  TableForeignKeyReference_OnDeleteSetColumns : list string;
  TableForeignKeyReference_OnUpdate : string;
  TableForeignKeyReference_Table : string;
}.

Record ColumnGeneratedIdentity := mkColumnGeneratedIdentity {
  ColumnGeneratedIdentity_SequenceOptions : string;
  ColumnGeneratedIdentity_UserSpecifiedValues : string;
}.

Record ColumnGenerated := mkColumnGenerated {
  ColumnGenerated_Expression : string;
  ColumnGenerated_Identity : option ColumnGeneratedIdentity;
}.

(** The struct [Column] of the migration format *)
Record MigColumn := mkMigColumn {
  MigColumn_Check : option MigCheckConstraint;
  MigColumn_Comment : option string;
  MigColumn_Default : option string;
  MigColumn_Generated : option ColumnGenerated;
  MigColumn_Name : string;
  MigColumn_Nullable : bool;
  MigColumn_Pk : bool;
  MigColumn_References : option ForeignKeyReference;
  MigColumn_Type : string;
  MigColumn_Unique : bool;
}.

Definition ConstraintTypeCheck : string := "check".
Definition ConstraintTypeExclude : string := "exclude".
Definition ConstraintTypeForeignKey : string := "foreign_key".
Definition ConstraintTypePrimaryKey : string := "primary_key".
Definition ConstraintTypeUnique : string := "unique".

Definition ForeignKeyActionCASCADE : string := "CASCADE".
Definition ForeignKeyActionNOACTION : string := "NO ACTION".
Definition ForeignKeyActionRESTRICT : string := "RESTRICT".
Definition ForeignKeyActionSETDEFAULT : string := "SET DEFAULT".
Definition ForeignKeyActionSETNULL : string := "SET NULL".

Definition ForeignKeyMatchTypeFULL : string := "FULL".
Definition ForeignKeyMatchTypePARTIAL : string := "PARTIAL".
Definition ForeignKeyMatchTypeSIMPLE : string := "SIMPLE".

Definition ColumnGeneratedIdentityUserSpecifiedValuesALWAYS : string := "ALWAYS".
Definition ColumnGeneratedIdentityUserSpecifiedValuesBYDEFAULT : string := "BY DEFAULT".

Definition IndexFieldNullsFIRST : string := "FIRST".
Definition IndexFieldNullsLAST : string := "LAST".
Definition IndexFieldSortASC : string := "ASC".
Definition IndexFieldSortDESC : string := "DESC".

Definition OpCreateIndexMethodBrin : string := "brin".
Definition OpCreateIndexMethodBtree : string := "btree".
Definition OpCreateIndexMethodGin : string := "gin".
Definition OpCreateIndexMethodGist : string := "gist".
Definition OpCreateIndexMethodHash : string := "hash".
Definition OpCreateIndexMethodSpgist : string := "spgist".

Record ConstraintExclude := mkConstraintExclude {
  ConstraintExclude_Elements : string;
  ConstraintExclude_IndexMethod : string;
  ConstraintExclude_Predicate : string;
}.

Record ConstraintIndexParameters := mkConstraintIndexParameters {
  ConstraintIndexParameters_IncludeColumns : list string;
  ConstraintIndexParameters_StorageParameters : string;
  ConstraintIndexParameters_Tablespace : string;
}.

Record Constraint := mkConstraint {
  Constraint_Check : string;
  Constraint_Columns : list string;
  Constraint_Deferrable : bool;
  Constraint_Exclude : option ConstraintExclude;
  Constraint_IndexParameters : option ConstraintIndexParameters;
  Constraint_InitiallyDeferred : bool;
  Constraint_Name : string;
  Constraint_NoInherit : bool;
  Constraint_NullsNotDistinct : bool;
  Constraint_References : option TableForeignKeyReference;
  Constraint_Type : string;
}.

Record IndexFieldOpclass := mkIndexFieldOpclass {
  IndexFieldOpclass_Name : string;
  IndexFieldOpclass_Params : list string;
}.

Record IndexField := mkIndexField {
  IndexField_Collate : string;
  IndexField_Column : string;
  IndexField_Nulls : option string;
  IndexField_Opclass : option IndexFieldOpclass;
  IndexField_Sort : string;
}.

(** [nullable.Nullable[string]]: unspecified, null or a value *)
Inductive Nullable :=
  | Unspecified
  | Null
  | Value (v : string).

Definition IsSpecified (n : Nullable) : bool :=
  match n with Unspecified => false | _ => true end.

(** [Get], an error ([None]) unless the value is set *)
Definition Nullable_Get (n : Nullable) : option string :=
  match n with Value v => Some v | _ => None end.

Record ReplicaIdentity := mkReplicaIdentity {
  ReplicaIdentity_Index : string;
  ReplicaIdentity_Type : string;
}.

(** ** Operations *)

Record OpAddColumn := mkOpAddColumn {
  OpAddColumn_Column : MigColumn;
  OpAddColumn_Table : string;
  OpAddColumn_Up : string;
}.

Record OpAlterColumn := mkOpAlterColumn {
  OpAlterColumn_Check : option MigCheckConstraint;
  OpAlterColumn_Column : string;
  OpAlterColumn_Comment : Nullable;
  OpAlterColumn_Default : Nullable;
  OpAlterColumn_Down : string;
  OpAlterColumn_Nullable : option bool;
  OpAlterColumn_References : option ForeignKeyReference;
  OpAlterColumn_Table : string;
  OpAlterColumn_Type : option string;
  OpAlterColumn_Unique : option MigUniqueConstraint;
  OpAlterColumn_Up : string;
}.

Definition OpCreateConstraintTypeCheck : string := "check".
Definition OpCreateConstraintTypeForeignKey : string := "foreign_key".
Definition OpCreateConstraintTypePrimaryKey : string := "primary_key".
Definition OpCreateConstraintTypeUnique : string := "unique".

Record OpCreateConstraint := mkOpCreateConstraint {
  OpCreateConstraint_Check : option string;
  OpCreateConstraint_Columns : list string;
  OpCreateConstraint_Down : gmap string string;
  OpCreateConstraint_IndexParameters : option ConstraintIndexParameters;
  OpCreateConstraint_Name : string;
  OpCreateConstraint_NoInherit : bool;
  OpCreateConstraint_References : option TableForeignKeyReference;
  OpCreateConstraint_Table : string;
  OpCreateConstraint_Type : string;
  OpCreateConstraint_Up : gmap string string;
}.

Record OpCreateIndex := mkOpCreateIndex {
  OpCreateIndex_Columns : list IndexField;
  OpCreateIndex_Method : string;
  OpCreateIndex_Name : string;
  OpCreateIndex_Predicate : string;
  OpCreateIndex_StorageParameters : string;
  OpCreateIndex_Table : string;
  OpCreateIndex_Unique : bool;
}.

Record OpCreateTable := mkOpCreateTable {
  OpCreateTable_Columns : list MigColumn;
  OpCreateTable_Comment : option string;
  OpCreateTable_Constraints : list Constraint;
  OpCreateTable_Name : string;
}.

Record OpDropColumn := mkOpDropColumn {
  OpDropColumn_Column : string;
  OpDropColumn_Down : string;
  OpDropColumn_Table : string;
}.

Record OpDropConstraint := mkOpDropConstraint {
  OpDropConstraint_Down : string;
  OpDropConstraint_Name : string;
  OpDropConstraint_Table : string;
  OpDropConstraint_Up : string;
}.

Record OpDropIndex := mkOpDropIndex { OpDropIndex_Name : string }.

(** [Down == nil] is tested by [Validate], so the maps are optional; reading
    a nil map is reading an empty one. *)
Record OpDropMultiColumnConstraint := mkOpDropMultiColumnConstraint {
  OpDropMultiColumnConstraint_Down : option (gmap string string);
  OpDropMultiColumnConstraint_Name : string;
  OpDropMultiColumnConstraint_Table : string;
  OpDropMultiColumnConstraint_Up : option (gmap string string);
}.

Record OpDropTable := mkOpDropTable { OpDropTable_Name : string }.

Record OpRawSQL := mkOpRawSQL {
  OpRawSQL_Down : string;
  OpRawSQL_OnComplete : bool;
  OpRawSQL_Up : string;
}.

Record OpRenameColumn := mkOpRenameColumn {
  OpRenameColumn_From : string;
  OpRenameColumn_Table : string;
  OpRenameColumn_To : string;
}.

Record OpRenameConstraint := mkOpRenameConstraint {
  OpRenameConstraint_From : string;
  OpRenameConstraint_Table : string;
  OpRenameConstraint_To : string;
}.

Record OpRenameTable := mkOpRenameTable {
  OpRenameTable_From : string;
  OpRenameTable_To : string;
}.

Record OpSetReplicaIdentity := mkOpSetReplicaIdentity {
  OpSetReplicaIdentity_Identity : ReplicaIdentity;
  OpSetReplicaIdentity_Table : string;
}.

(** The implementations of the interface [Operation] a migration file can
    hold *)
Inductive Operation :=
  | AddColumn_ (o : OpAddColumn)
  | AlterColumn_ (o : OpAlterColumn)
  | CreateConstraint_ (o : OpCreateConstraint)
  | CreateIndex_ (o : OpCreateIndex)
  | CreateTable_ (o : OpCreateTable)
  | DropColumn_ (o : OpDropColumn)
  | DropConstraint_ (o : OpDropConstraint)
  | DropIndex_ (o : OpDropIndex)
  | DropMultiColumnConstraint_ (o : OpDropMultiColumnConstraint)
  | DropTable_ (o : OpDropTable)
  | RawSQL_ (o : OpRawSQL)
  | RenameColumn_ (o : OpRenameColumn)
  | RenameConstraint_ (o : OpRenameConstraint)
  | RenameTable_ (o : OpRenameTable)
  | SetReplicaIdentity_ (o : OpSetReplicaIdentity).

(** ** Preconditions *)

Record PreconditionColumnExists := mkPreconditionColumnExists {
  PreconditionColumnExists_Column : string;
  PreconditionColumnExists_Table : string;
  PreconditionColumnExists_Type : option string;
}.

Record PreconditionColumnRef := mkPreconditionColumnRef {
  PreconditionColumnRef_Column : string;
  PreconditionColumnRef_Table : string;
}.

Record PreconditionConstraintRef := mkPreconditionConstraintRef {
  PreconditionConstraintRef_Constraint : string;
  PreconditionConstraintRef_Table : string;
}.

Record PreconditionFunctionRef := mkPreconditionFunctionRef {
  PreconditionFunctionRef_BodyHash : option string;
  PreconditionFunctionRef_Name : string;
  PreconditionFunctionRef_Schema : string;
  PreconditionFunctionRef_Signature : option string;
}.

Record PreconditionIndexRef := mkPreconditionIndexRef {
  PreconditionIndexRef_Index : string;
  PreconditionIndexRef_Table : string;
}.

Record PreconditionTypeRef := mkPreconditionTypeRef {
  PreconditionTypeRef_Name : string;
  PreconditionTypeRef_Schema : string;
  PreconditionTypeRef_ValuesHash : option string;
}.

Record Precondition := mkPrecondition {
  Precondition_ColumnExists : option PreconditionColumnExists;
  Precondition_ColumnNotExists : option PreconditionColumnRef;
  Precondition_ConstraintExists : option PreconditionConstraintRef;
  Precondition_FunctionExists : option PreconditionFunctionRef;
  Precondition_IndexExists : option PreconditionIndexRef;
  Precondition_TableExists : option string;
  Precondition_TableNotExists : option string;
  Precondition_TypeExists : option PreconditionTypeRef;
}.

(** ** Migrations *)

Record Migration := mkMigration {
  Migration_Name : string;
  Migration_VersionSchema : string;
  Migration_Operations : list Operation;
  Migration_DependsOn : list string;
  Migration_Preconditions : list Precondition;
  Migration_Irreversible : bool;
  Migration_Baseline : bool;
  Migration_Targets : list string;
  Migration_RevertOf : string;
}.

(** ** Names of operations ([op_common.go]) *)

Definition OpNameCreateTable : string := "create_table".
Definition OpNameRenameTable : string := "rename_table".
Definition OpNameRenameColumn : string := "rename_column".
Definition OpNameDropTable : string := "drop_table".
Definition OpNameAddColumn : string := "add_column".
Definition OpNameDropColumn : string := "drop_column".
Definition OpNameAlterColumn : string := "alter_column".
Definition OpNameCreateIndex : string := "create_index".
Definition OpNameDropIndex : string := "drop_index".
Definition OpNameRenameConstraint : string := "rename_constraint".
Definition OpNameDropConstraint : string := "drop_constraint".
Definition OpNameSetReplicaIdentity : string := "set_replica_identity".
Definition OpNameDropMultiColumnConstraint : string := "drop_multicolumn_constraint".
Definition OpRawSQLName : string := "sql".
Definition OpCreateConstraintName : string := "create_constraint".

Definition AllNonDeprecatedOperations : list string :=
  [OpNameCreateTable; OpNameRenameTable; OpNameRenameColumn; OpNameDropTable; OpNameAddColumn;
   OpNameDropColumn; OpNameAlterColumn; OpNameCreateIndex; OpNameDropIndex;
   OpNameRenameConstraint; OpNameDropMultiColumnConstraint; OpRawSQLName;
   OpCreateConstraintName].

(** Every operation of the sum is named; the source's final [panic] is for
    the internal sub-operations, which never reach it. *)
Definition OperationName (op : Operation) : string :=
  match op with
  | CreateTable_ _ => OpNameCreateTable
  | RenameTable_ _ => OpNameRenameTable
  | DropTable_ _ => OpNameDropTable
  | AddColumn_ _ => OpNameAddColumn
  | DropColumn_ _ => OpNameDropColumn
  | RenameColumn_ _ => OpNameRenameColumn
  | RenameConstraint_ _ => OpNameRenameConstraint
  | DropConstraint_ _ => OpNameDropConstraint
  | SetReplicaIdentity_ _ => OpNameSetReplicaIdentity
  | AlterColumn_ _ => OpNameAlterColumn
  | CreateIndex_ _ => OpNameCreateIndex
  | DropIndex_ _ => OpNameDropIndex
  | RawSQL_ _ => OpRawSQLName
  | CreateConstraint_ _ => OpCreateConstraintName
  | DropMultiColumnConstraint_ _ => OpNameDropMultiColumnConstraint
  end.

(** ** The zero values of the structs *)

Definition zeroMigColumn : MigColumn :=
  mkMigColumn None None None None "" false false None "" false.
Definition zeroOpAddColumn : OpAddColumn := mkOpAddColumn zeroMigColumn "" "".
Definition zeroOpAlterColumn : OpAlterColumn :=
  mkOpAlterColumn None "" Unspecified Unspecified "" None None "" None None "".
Definition zeroOpCreateConstraint : OpCreateConstraint :=
  mkOpCreateConstraint None [] ∅ None "" false None "" "" ∅.
Definition zeroOpCreateIndex : OpCreateIndex := mkOpCreateIndex [] "" "" "" "" "" false.
Definition zeroOpDropMultiColumnConstraint : OpDropMultiColumnConstraint :=
  mkOpDropMultiColumnConstraint None "" "" None.

Definition OperationFromName (name : string) : outcome error Operation :=
  if decide (name = OpNameCreateTable) then Ok (CreateTable_ (mkOpCreateTable [] None [] ""))
  else if decide (name = OpNameRenameTable) then Ok (RenameTable_ (mkOpRenameTable "" ""))
  else if decide (name = OpNameDropTable) then Ok (DropTable_ (mkOpDropTable ""))
  else if decide (name = OpNameAddColumn) then Ok (AddColumn_ zeroOpAddColumn)
  else if decide (name = OpNameRenameColumn) then Ok (RenameColumn_ (mkOpRenameColumn "" "" ""))
  else if decide (name = OpNameDropColumn) then Ok (DropColumn_ (mkOpDropColumn "" "" ""))
  else if decide (name = OpNameRenameConstraint) then
    Ok (RenameConstraint_ (mkOpRenameConstraint "" "" ""))
  else if decide (name = OpNameDropConstraint) then
    Ok (DropConstraint_ (mkOpDropConstraint "" "" "" ""))
  else if decide (name = OpNameSetReplicaIdentity) then
    Ok (SetReplicaIdentity_ (mkOpSetReplicaIdentity (mkReplicaIdentity "" "") ""))
  else if decide (name = OpNameAlterColumn) then Ok (AlterColumn_ zeroOpAlterColumn)
  else if decide (name = OpNameCreateIndex) then Ok (CreateIndex_ zeroOpCreateIndex)
  else if decide (name = OpNameDropIndex) then Ok (DropIndex_ (mkOpDropIndex ""))
  else if decide (name = OpRawSQLName) then Ok (RawSQL_ (mkOpRawSQL "" false ""))
  else if decide (name = OpCreateConstraintName) then
    Ok (CreateConstraint_ zeroOpCreateConstraint)
  else if decide (name = OpNameDropMultiColumnConstraint) then
    Ok (DropMultiColumnConstraint_ zeroOpDropMultiColumnConstraint)
  else Err (Errorf "unknown migration type: %v" [name]).

(** ** Predicates on columns ([column.go]) *)

Definition HasDefault (c : MigColumn) : bool := bool_decide (is_Some c.(MigColumn_Default)).

Definition HasImplicitDefault (c : MigColumn) : bool :=
  slices_Contains ["smallserial"; "serial"; "bigserial"] c.(MigColumn_Type).

(** [Column.Validate] *)
Definition Column_Validate (c : MigColumn) : bool :=
  if decide (c.(MigColumn_Name) = "") then false
  else if decide (c.(MigColumn_Type) = "") then false
  else true.
