(* ===== verification/ErrorText.v ===== *)
(** * ErrorText: the text of an error

    [Error()] of every error: the methods of [errors.go] and the formats of
    [fmt.Errorf].  A name is quoted as [%q] quotes printable ASCII; a count
    that an error constructor does not keep prints as nothing. *)

From stdpp Require Import pretty.
From S2P Require Import Prelude.
From S2P Require Import GoStd.
From S2P Require Import Types.

(** ** package fmt *)

Definition double_quote : Ascii.ascii := Ascii.ascii_of_nat 34.
Definition backslash : Ascii.ascii := Ascii.ascii_of_nat 92.

Fixpoint go_escape (s : string) : string :=
  match s with
  | "" => ""
  | String c s =>
      if (Ascii.eqb c double_quote || Ascii.eqb c backslash)%bool
      then String backslash (String c (go_escape s)) else String c (go_escape s)
  end.
Definition go_quote (s : string) : string :=
  String double_quote (go_escape s +:+ String double_quote "").

(** [%v] of a slice of strings *)
Definition go_slice (l : list string) : string := "[" +:+ Join l " " +:+ "]".

Definition pop_arg (args : list string) : string * list string :=
  match args with [] => ("", []) | a :: args => (a, args) end.

(** The verbs [%q], [%s], [%v], [%d] and [%w] take the next argument. *)
Fixpoint Sprintf (format : string) (args : list string) : string :=
  match format with
  | "" => ""
  | String "%" (String v format) =>
      if Ascii.eqb v "%"%char then String "%" (Sprintf format args)
      else
        let '(a, args) := pop_arg args in
        (if Ascii.eqb v "q"%char then go_quote a else a) +:+ Sprintf format args
  | String c format => String c (Sprintf format args)
  end.

(** The arguments of a format with an error: its text goes to [%w], or to the
    verb the other arguments leave over *)
Fixpoint wrap_args (format : string) (args : list string) (err : string) : list string :=
  match format with
  | "" => []
  | String "%" (String v format) =>
      if Ascii.eqb v "%"%char then wrap_args format args err
      else if Ascii.eqb v "w"%char then err :: wrap_args format args err
      else
        match args with
        | [] => err :: wrap_args format [] err
        | a :: args => a :: wrap_args format args err
        end
  | String _ format => wrap_args format args err
  end.

Definition decimal (n : nat) : string := pretty n.

(** ** [Error()] *)

(** The text of a driver's error, by its code and message *)
Class PqText := pq_text : string → string → string.

Section text.
Context `{!PqText}.

Fixpoint Error (e : error) : string :=
  match e with
  | InvalidMigrationError reason => reason
  | EmptyMigrationError => "migration is empty"
  | TableAlreadyExistsError n => Sprintf "table %q already exists" [n]
  | TableDoesNotExistError n => Sprintf "table %q does not exist" [n]
  | ColumnIsInvalidError t n =>
      Sprintf "column %q in table %q is missing one or more required fields - " [n; t] +:+
      go_quote "name" +:+ " or " +:+ go_quote "type"
  | ColumnAlreadyExistsError t n => Sprintf "column %q already exists in table %q" [n; t]
  | ColumnDoesNotExistError t n => Sprintf "column %q does not exist on table %q" [n; t]
  | ColumnMigrationMissingError t n => Sprintf "migration for column %q in %q is missing" [n; t]
  | ColumnMigrationRedundantError t n => Sprintf "migration for column %q in %q is redundant" [n; t]
  | ColumnIsNotNullableError t n => Sprintf "column %q on table %q is NOT NULL" [n; t]
  | ColumnIsNullableError t n => Sprintf "column %q on table %q is nullable" [n; t]
  | IndexAlreadyExistsError n => Sprintf "index %q already exists" [n]
  | IndexDoesNotExistError n => Sprintf "index %q does not exist" [n]
  | FieldRequiredError n => Sprintf "field %q is required" [n]
  | ColumnReferenceError t c err =>
      Sprintf "column reference to column %q in table %q is invalid: %s" [c; t; Error err]
  | CheckConstraintError t c n err =>
      if decide (c = "") then
        Sprintf "check constraint %q in table %q is invalid: %s" [n; t; Error err]
      else Sprintf "check constraint on column %q in table %q is invalid: %s" [t; c; Error err]
  | ConstraintDoesNotExistError t c => Sprintf "constraint %q on table %q does not exist" [c; t]
  | ConstraintAlreadyExistsError t c => Sprintf "constraint %q on table %q already exists" [c; t]
  | InvalidReplicaIdentityError t i =>
      Sprintf "replica identity on table %q must be one of 'NOTHING', 'DEFAULT', 'INDEX' or 'FULL', found %q" [t; i]
  | InvalidOnDeleteSettingError n s =>
      Sprintf "foreign key %q on_delete setting must be one of: %q, %q, %q, %q or %q, not %q"
        [n; ForeignKeyActionNOACTION; ForeignKeyActionRESTRICT; ForeignKeyActionSETDEFAULT;
         ForeignKeyActionSETNULL; ForeignKeyActionCASCADE; s]
  | UnexpectedOnDeleteSetColumnError n =>
      Sprintf "if on_delete_set_columns is set in foreign key %q, on_delete setting must be one of: %q, %q"
        [n; ForeignKeyActionSETDEFAULT; ForeignKeyActionSETNULL]
  | InvalidOnDeleteSetColumnError n c =>
      Sprintf "invalid on_delete_set_columns setting: column %q is not part of the foreign key %q" [c; n]
  | AlterColumnNoChangesError t c => Sprintf "alter column %q on table %q requires at least one change" [c; t]
  | InvalidIdentifierLengthError n =>
      Sprintf "length of %q (%d) exceeds maximum length of %d" [n; decimal (String.length n); "63"]
  | VersionSchemaNameTooLongError s v n max =>
      Sprintf "version schema name %q (%d bytes) would exceed Postgres' %d-byte identifier limit; rename the migration file or set "
        [n; decimal (String.length n); decimal max] +:+ go_quote "version_schema" +:+
      Sprintf " to a shorter value (max %d bytes for the suffix when using schema %q)"
        [pretty (Z.of_nat max - Z.of_nat (String.length s) - 1)%Z; s]
  | MultiColumnConstraintsNotSupportedError t c => Sprintf "constraint %q on table %q applies to multiple columns" [c; t]
  | PrimaryKeysAreAlreadySetError t => Sprintf "table %q already has a primary key configuration in columns list" [t]
  | InvalidGeneratedColumnError t c =>
      Sprintf "column %q on table %q is invalid: only one of generated.expression and generated.identity may be set" [c; t]
  | UpSQLMustBeColumnDefaultError c =>
      Sprintf "volatile default expression for column %q; " [c] +:+ go_quote "up" +:+
      " must be equal to " +:+ go_quote "default"
  | Errorf format args => Sprintf format args
  | ErrorfW format args err => Sprintf format (wrap_args format args (Error err))
  | pqError code message => pq_text code message
  | JoinError e1 e2 => Error e1 +:+ String "010" (Error e2)
  end.

(** The two names of the message on a column are exchanged. *)
Lemma check_constraint_error_swapped :
  Error (CheckConstraintError "users" "age" "age_positive" (Errorf "no expression" [])) =
  "check constraint on column " +:+ go_quote "users" +:+ " in table " +:+ go_quote "age" +:+
  " is invalid: no expression".
Proof. vm_compute. reflexivity. Qed.
End text.
