(* ===== verification/Db.v ===== *)
(** * Db: the database connection and the quoting functions as interfaces

    [pkg/db]'s [DB] interface, behind which sits PostgreSQL, and the two
    quoting functions of [lib/pq] are not code of this repository: both are
    type classes the rest of the development is generic in.  [FakeDB]
    ([pkg/db/fake.go]) is one instance of [DB]; it is the connection every
    virtual replay runs against. *)

From S2P Require Import Prelude.
From S2P Require Import GoStd.
From S2P Require Import Schema.
From S2P Require Import Types.

(** [pq.QuoteIdentifier], [pq.QuoteLiteral] and [uuid.NewString] (its [n]-th
    result) *)
Class Pq := {
  QuoteIdentifier : string → string;
  QuoteLiteral : string → string;
  NewString : nat → string;
}.

(** A scanned value; Go converts it to the type of the destination. *)
Inductive sqlval :=
  | VNull
  | VBool (b : bool)
  | VString (s : string)
  | VInt (n : Z)
  | VArray (l : list string).

(** [*sql.Rows]: the rows left to read and the error [rows.Err] reports at
    the end. *)
Record Rows := mkRows {
  Rows_data : list (list sqlval);
  Rows_err : option error;
}.

(** The interface [db.DB] over a database of type [D].  [QueryContext]
    returns [Ok None] for nil rows.  [WithRetryableTransaction] is given the
    statements its function executes on the transaction, in order.
    [is_fake] is the type test
    [conn.( *db.FakeDB )], [expired] the test [!time.Now().Before(deadline)]
    of the index build's retry loop, [RetryBudget] the lock-retry budget in
    milliseconds. *)
Class DB (D : Type) := {
  ExecContext : string → D → outcome error () * D;
  QueryContext : string → list string → D → outcome error (option Rows) * D;
  WithRetryableTransaction : list string → D → outcome error () * D;
  is_fake : bool;
  RetryBudget : D → Z;
  expired : D → bool * D;
}.

(** Five minutes, in milliseconds *)
Definition DefaultLockRetryTimeout : Z := 300000.

(** [db.FakeDB]: every method is a no-op. *)
#[export] Instance FakeDB : DB () := {|
  ExecContext _ d := (Ok (), d);
  QueryContext _ _ d := (Ok None, d);
  WithRetryableTransaction _ d := (Ok (), d);
  is_fake := true;
  RetryBudget _ := DefaultLockRetryTimeout;
  expired d := (true, d);
|}.

Definition scan_error : error := Errorf "sql: Scan error" [].

(** [db.ScanFirstValue] into a [bool]; without a row the destination keeps
    its value [dest]. *)
Definition ScanFirstValue_bool (rows : Rows) (dest : bool) : outcome error bool :=
  match rows.(Rows_data) with
  | (VBool b :: _) :: _ => match rows.(Rows_err) with None => Ok b | Some e => Err e end
  | _ :: _ => Err scan_error
  | [] => match rows.(Rows_err) with None => Ok dest | Some e => Err e end
  end.

(** [db.ScanFirstValue] into a [string]; NULL does not convert. *)
Definition ScanFirstValue_string (rows : Rows) (dest : string) : outcome error string :=
  match rows.(Rows_data) with
  | (VString s :: _) :: _ => match rows.(Rows_err) with None => Ok s | Some e => Err e end
  | _ :: _ => Err scan_error
  | [] => match rows.(Rows_err) with None => Ok dest | Some e => Err e end
  end.

(** [db.ScanFirstValue] into an [int64] *)
Definition ScanFirstValue_int64 (rows : Rows) (dest : Z) : outcome error Z :=
  match rows.(Rows_data) with
  | (VInt n :: _) :: _ => match rows.(Rows_err) with None => Ok n | Some e => Err e end
  | _ :: _ => Err scan_error
  | [] => match rows.(Rows_err) with None => Ok dest | Some e => Err e end
  end.

(** ** The store of an operation

    The virtual schema the operation is given, the heap its tables live in,
    the database and the number of UUIDs drawn so far. *)
Record World (D : Type) := mkWorld {
  w_schema : Schema;
  w_heap : heap;
  w_db : D;
  w_uuid : nat;
}.
Arguments mkWorld {D} _ _ _ _.
Arguments w_schema {D} _.
Arguments w_heap {D} _.
Arguments w_db {D} _.
Arguments w_uuid {D} _.

#[export] Instance World_eq_dec {D} `{EqDecision D} : EqDecision (World D).
Proof. solve_decision. Defined.

Section World.
Context {D : Type}.
Implicit Types w : World D.

Definition set_w_schema (s : Schema) w : World D := mkWorld s (w_heap w) (w_db w) (w_uuid w).
Definition set_w_heap (h : heap) w : World D := mkWorld (w_schema w) h (w_db w) (w_uuid w).
Definition set_w_db (d : D) w : World D := mkWorld (w_schema w) (w_heap w) d (w_uuid w).

Abbreviation M := (prog (World D) error).

Definition MigrationScope : M string := gets (λ w, Schema_MigrationScope (w_schema w)).

(** [s.GetTable(name)] *)
Definition get_table (name : string) : M (option loc) :=
  gets (λ w, GetTable (w_heap w) (w_schema w) name).

(** [table := s.GetTable(name); if table == nil { return err }] *)
Definition table_or (name : string) (e : error) : M loc :=
  l ← get_table name; require l e.
Definition table_named (name : string) : M loc := table_or name (TableDoesNotExistError name).

(** The struct behind a table pointer *)
Definition load (l : loc) : M Table := h ← gets w_heap; deref (h !! l).

Definition update_table (f : Table → Table) (l : loc) : M () :=
  modify (λ w, set_w_heap (alter f l (w_heap w)) w).

Definition alloc (t : Table) : M loc := λ w,
  let l := fresh (dom (w_heap w)) in (Ok l, set_w_heap (<[l := t]> (w_heap w)) w).

(** [table.GetColumn(name)] *)
Definition get_column (l : loc) (name : string) : M (option Column) :=
  t ← load l; lift (GetColumn t name).

(** [column := table.GetColumn(name); if column == nil { return err }] *)
Definition column_named (l : loc) (table name : string) : M Column :=
  c ← get_column l name; require c (ColumnDoesNotExistError table name).

Definition on_schema (f : Schema → Schema) : M () :=
  modify (λ w, set_w_schema (f (w_schema w)) w).

Definition s_RemoveTable (name : string) : M () :=
  modify (λ w, set_w_heap (RemoveTable (w_schema w) name (w_heap w)) w).
Definition s_UnRemoveTable (name : string) : M () :=
  modify (λ w, set_w_heap (UnRemoveTable (w_schema w) name (w_heap w)) w).

Definition rename_table_error (e : RenameTableError) : error :=
  match e with
  | RenameTable_does_not_exist n => Errorf "table %q does not exist" [n]
  | RenameTable_already_exists n => Errorf "table %q already exists" [n]
  end.

(** [s.RenameTable(from, to)] *)
Definition s_RenameTable (from to : string) : M () := λ w,
  match RenameTable (w_heap w) from to (w_schema w) with
  | Ok s => (Ok (), set_w_schema s w)
  | Err e => (Err (rename_table_error e), w)
  | Panic => (Panic, w)
  | OutOfFuel => (OutOfFuel, w)
  end.

(** [table.RemoveColumn], [table.UnRemoveColumn] *)
Definition set_column_deleted (d : bool) (l : loc) (column : string) : M () :=
  t ← load l; t' ← lift (setColumnDeleted d column t); update_table (λ _, t') l.

(** [ValidateIdentifierLength(name)] *)
Definition validate_length (name : string) : M () :=
  match ValidateIdentifierLength name with None => mret () | Some e => fail e end.

Context `{!DB D}.

Definition exec (sql : string) : M () := λ w,
  let '(r, d) := ExecContext sql (w_db w) in (r, set_w_db d w).
Definition query (sql : string) (args : list string) : M (option Rows) := λ w,
  let '(r, d) := QueryContext sql args (w_db w) in (r, set_w_db d w).
Definition transaction (sqls : list string) : M () := λ w,
  let '(r, d) := WithRetryableTransaction sqls (w_db w) in (r, set_w_db d w).
Definition deadline_passed : M bool := λ w,
  let '(b, d) := expired (w_db w) in (Ok b, set_w_db d w).
End World.

Abbreviation M D := (prog (World D) error).
