(* ===== verification/WorldFacts.v ===== *)
(** * WorldFacts: reasoning about programs over the store

    [pres I m]: [m] keeps [I] whatever way it ends.  [wp I m Q]: [m] neither
    panics nor runs out of fuel, keeps [I] when it fails and establishes [Q]
    when it returns.  The tactics [pres_steps] and [wp_steps] walk through a
    program with the hints of the database [pgroll]. *)

From S2P Require Import Prelude.
From S2P Require Import GoStd.
From S2P Require Import Schema.
From S2P Require Import SchemaFacts.
From S2P Require Import Types.
From S2P Require Import Db.

(** ** Invariants kept in every outcome *)

Definition pres {W E A} (I : W → Prop) (m : prog W E A) : Prop := ∀ w, I w → I (m w).2.

Section pres.
Context {W E : Type} (I : W → Prop).

Lemma pres_bind {A B} (m : prog W E A) (f : A → prog W E B) :
  pres I m → (∀ a, pres I (f a)) → pres I (m ≫= f).
Proof.
  intros Hm Hf w Hw. specialize (Hm w Hw). unfold mbind, prog_bind.
  destruct (m w) as [[a|e| |] w']; cbn in *; [by apply Hf|done..].
Qed.
Lemma pres_ret {A} (a : A) : pres I (mret a : prog W E A). Proof. by intros w. Qed.
Lemma pres_fail {A} (e : E) : pres I (fail e : prog W E A). Proof. by intros w. Qed.
Lemma pres_panic {A} : pres I (panic : prog W E A). Proof. by intros w. Qed.
Lemma pres_gets {A} (f : W → A) : pres I (gets f : prog W E A). Proof. by intros w. Qed.
Lemma pres_lift {A} (o : outcome E A) : pres I (lift o). Proof. by intros w. Qed.
Lemma pres_fail_if (c : bool) (e : E) : pres I (fail_if c e). Proof. by destruct c; intros w. Qed.
Lemma pres_require {A} (o : option A) (e : E) : pres I (require o e).
Proof. by destruct o; intros w. Qed.
Lemma pres_deref {A} (o : option A) : pres I (deref o : prog W E A).
Proof. by destruct o; intros w. Qed.
Lemma pres_wrap_err {A} f (m : prog W E A) : pres I m → pres I (wrap_err f m).
Proof.
  intros Hm w Hw. specialize (Hm w Hw). unfold wrap_err. by destruct (m w) as [[]?].
Qed.
Lemma pres_try {A} (m : prog W E A) : pres I m → pres I (try m).
Proof. intros Hm w Hw. specialize (Hm w Hw). unfold try. by destruct (m w) as [[]?]. Qed.
Lemma pres_for_each_in {A} (f : A → prog W E ()) l :
  (∀ x, x ∈ l → pres I (f x)) → pres I (for_each f l).
Proof.
  induction l as [|x l IH]; intros Hf; [apply pres_ret|].
  apply pres_bind; [apply Hf; left|]. intros _. apply IH. intros y Hy. apply Hf. by right.
Qed.
Lemma pres_for_each {A} (f : A → prog W E ()) l :
  (∀ x, pres I (f x)) → pres I (for_each f l).
Proof. intros Hf. by apply pres_for_each_in. Qed.
Lemma pres_map_each {A B} (f : A → prog W E B) l :
  (∀ x, pres I (f x)) → pres I (map_each f l).
Proof.
  intros Hf. induction l as [|x l IH]; [apply pres_ret|].
  apply pres_bind; [done|intros y]. apply pres_bind; [done|intros]. apply pres_ret.
Qed.
End pres.

#[export] Hint Resolve pres_ret pres_fail pres_panic pres_gets pres_lift pres_fail_if pres_require
  pres_deref : pgroll.

(** [leads I m Q]: from [I], [m] ends with [Q] of its result, or with [S] when
    it does not return. *)
Section leads.
Context {W E : Type} (S : W → Prop).
Implicit Types I : W → Prop.

Definition leads {A} I (m : prog W E A) (Q : A → W → Prop) : Prop :=
  ∀ w, I w → match m w with (Ok a, w') => Q a w' | (_, w') => S w' end.

Lemma leads_bind {A B} I (m : prog W E A) (f : A → prog W E B) R Q :
  leads I m R → (∀ a, leads (R a) (f a) Q) → leads I (m ≫= f) Q.
Proof.
  intros Hm Hf w Hw. specialize (Hm w Hw). unfold mbind, prog_bind.
  destruct (m w) as [[a|e| |] w1]; [by apply Hf|done..].
Qed.
Lemma leads_pres {A} I (m : prog W E A) :
  pres I m → (∀ w, I w → S w) → leads I m (λ _, I).
Proof. intros Hm HS w Hw. specialize (Hm w Hw). destruct (m w) as [[]?]; cbn in Hm; auto. Qed.
Lemma leads_ret {A} I (a : A) (Q : A → W → Prop) :
  (∀ w, I w → Q a w) → leads I (mret a) Q.
Proof. intros HQ w Hw. by apply HQ. Qed.
Lemma leads_weaken {A} I I' (m : prog W E A) Q Q' :
  leads I' m Q' → (∀ w, I w → I' w) → (∀ a w, Q' a w → Q a w) → leads I m Q.
Proof.
  intros Hm HI HQ w Hw. specialize (Hm w (HI w Hw)). destruct (m w) as [[]?]; auto.
Qed.
Lemma leads_bind_read {A B} I (m : prog W E A) (f : A → prog W E B) (R : A → Prop) Q :
  leads I m (λ a w, I w ∧ R a) → (∀ a, R a → leads I (f a) Q) → leads I (m ≫= f) Q.
Proof.
  intros Hm Hf w Hw. specialize (Hm w Hw). unfold mbind, prog_bind.
  destruct (m w) as [[a|e| |] w1]; [|done..]. destruct Hm as [Hw1 Ha]. by apply (Hf a Ha).
Qed.
Lemma leads_wrap_err {A} I f (m : prog W E A) Q : leads I m Q → leads I (wrap_err f m) Q.
Proof.
  intros Hm w Hw. specialize (Hm w Hw). unfold wrap_err. by destruct (m w) as [[]?].
Qed.
Lemma leads_map_each {A B} I (f : A → prog W E B) (R : A → B → Prop) l :
  (∀ x, x ∈ l → leads I (f x) (λ y w, I w ∧ R x y)) →
  leads I (map_each f l) (λ ys w, I w ∧ Forall2 R l ys).
Proof.
  induction l as [|x l IH]; intros Hf; cbn; [by apply leads_ret|].
  eapply leads_bind_read; [apply Hf; left|]. intros y Hy.
  eapply leads_bind_read; [apply IH; intros; apply Hf; by right|]. intros ys Hys.
  apply leads_ret. intros w Hw. split; [done|]. by constructor.
Qed.
Lemma leads_end {A} I (m : prog W E A) Q w :
  leads I m Q → (∀ a w, Q a w → S w) → I w → S (m w).2.
Proof.
  intros Hm HQ Hw. specialize (Hm w Hw). destruct (m w) as [[]?]; cbn; eauto.
Qed.
End leads.
Lemma leads_outside {W E A} (S S' I : W → Prop) (m : prog W E A) Q :
  leads S' I m Q → (∀ w, S' w → S w) → leads S I m Q.
Proof. intros Hm HS w Hw. specialize (Hm w Hw). destruct (m w) as [[]?]; auto. Qed.

(** ** Weakest preconditions *)

Definition wp {W E A} (I : W → Prop) (m : prog W E A) (Q : A → W → Prop) (w : W) : Prop :=
  match m w with (Ok a, w') => Q a w' | (Err _, w') => I w' | _ => False end.

Section wp.
Context {W E : Type} (I : W → Prop).

Lemma wp_bind {A B} (m : prog W E A) (f : A → prog W E B) Q w :
  wp I m (λ a, wp I (f a) Q) w → wp I (m ≫= f) Q w.
Proof. unfold wp, mbind, prog_bind. by destruct (m w) as [[]?]. Qed.
Lemma wp_ret {A} (a : A) Q w : Q a w → wp I (mret a : prog W E A) Q w. Proof. done. Qed.
Lemma wp_fail {A} (e : E) (Q : A → W → Prop) w : I w → wp I (fail e) Q w. Proof. done. Qed.
Lemma wp_gets {A} (f : W → A) Q w : Q (f w) w → wp I (gets f : prog W E A) Q w.
Proof. done. Qed.
Lemma wp_fail_if (c : bool) (e : E) Q w :
  I w → (c = false → Q () w) → wp I (fail_if c e) Q w.
Proof. intros HI HQ. destruct c; [done|by apply HQ]. Qed.
Lemma wp_require {A} (o : option A) (e : E) Q w :
  I w → (∀ a, o = Some a → Q a w) → wp I (require o e) Q w.
Proof. intros HI HQ. destruct o; [by apply HQ|done]. Qed.
Lemma wp_deref {A} (o : option A) a Q w :
  o = Some a → Q a w → wp I (deref o : prog W E A) Q w.
Proof. intros -> HQ. done. Qed.
Lemma wp_lift {A} (o : outcome E A) a Q w : o = Ok a → Q a w → wp I (lift o) Q w.
Proof. intros -> HQ. done. Qed.
Lemma wp_modify (f : W → W) Q w : Q () (f w) → wp I (modify f : prog W E ()) Q w.
Proof. done. Qed.
Lemma wp_wrap_err {A} f (m : prog W E A) Q w : wp I m Q w → wp I (wrap_err f m) Q w.
Proof. unfold wp, wrap_err. by destruct (m w) as [[]?]. Qed.
Lemma wp_mono {A} (m : prog W E A) (Q Q' : A → W → Prop) w :
  wp I m Q w → (∀ a w', Q a w' → Q' a w') → wp I m Q' w.
Proof. unfold wp. destruct (m w) as [[]?]; eauto. Qed.
Lemma wp_for_each {A} (P : W → Prop) (f : A → prog W E ()) l w :
  P w → (∀ x w, x ∈ l → P w → wp I (f x) (λ _, P) w) → wp I (for_each f l) (λ _, P) w.
Proof.
  revert w. induction l as [|x l IH]; intros w HP Hf; [done|].
  apply wp_bind. eapply wp_mono; [apply Hf; [left|done]|].
  intros [] w' HP'. apply IH; [done|]. intros; apply Hf; [by right|done].
Qed.
(** From a weakest precondition to a run *)
Lemma wp_no_panic {A} (m : prog W E A) Q w : wp I m Q w → is_panic (m w).1 = false.
Proof. unfold wp. by destruct (m w) as [[]?]. Qed.
Lemma wp_inv {A} (m : prog W E A) w : wp I m (λ _, I) w → I (m w).2.
Proof. unfold wp. by destruct (m w) as [[]?]. Qed.
Lemma wp_run {A} (m : prog W E A) Q w a w' : wp I m Q w → m w = (Ok a, w') → Q a w'.
Proof. unfold wp. intros H Heq. by rewrite Heq in H. Qed.
End wp.

(** ** The invariants of the store *)

Section World.
Context {D : Type}.
Implicit Types w : World D.

Definition world_wf w : Prop := wf (w_heap w) (w_schema w).

(** No column pointer of a table is nil. *)
Definition no_nil_columns (t : Table) : Prop := ∀ n, t.(Table_Columns) !! n ≠ Some None.

(** What validation and start rely on *)
Record world_ok w : Prop := {
  ok_wf : world_wf w;
  ok_columns : ∀ l t, w_heap w !! l = Some t → no_nil_columns t;
}.

Lemma GetTable_load w n l :
  GetTable (w_heap w) (w_schema w) n = Some l →
  ∃ t, w_heap w !! l = Some t ∧ t.(Table_Deleted) = false.
Proof. intros (_ & t & ? & ?)%GetTable_Some. eauto. Qed.

Lemma load_bind {A} l (f : Table → M D A) w :
  (load l ≫= f) w = match w_heap w !! l with Some t => f t w | None => (Panic, w) end.
Proof.
  unfold load, mbind, prog_bind, gets, deref. by destruct (w_heap w !! l).
Qed.

End World.

(** ** Invariants of the primitive steps

    [StoreInv I]: every primitive step keeps [I].  The lemmas [pres_*] of the
    components hold of every such invariant. *)

(** The steps that touch the virtual schema only *)
Class SchemaInv {D : Type} (I : World D → Prop) : Prop := {
  inv_uuid (w : World D) :
    I w → I (mkWorld (w_schema w) (w_heap w) (w_db w) (S (w_uuid w)));
  inv_update_table f l :
    (∀ t, (f t).(Table_Deleted) = t.(Table_Deleted)) → pres I (update_table f l : M D _);
  inv_set_column_deleted d l c : pres I (set_column_deleted d l c : M D _);
  inv_RemoveTable n : pres I (s_RemoveTable n : M D _);
  inv_UnRemoveTable n : pres I (s_UnRemoveTable n : M D _);
  inv_RenameTable from to : pres I (s_RenameTable from to : M D _);
  inv_add_table t n : pres I (l ← alloc t; on_schema (AddTable n l) : M D _);
}.

Class StoreInv {D : Type} `{!DB D} (I : World D → Prop) : Prop := {
  inv_schema :: SchemaInv I;
  inv_exec sql : pres I (exec sql : M D _);
  inv_query sql args : pres I (query sql args : M D _);
  inv_transaction sqls : pres I (transaction sqls : M D _);
  inv_deadline : pres I (deadline_passed : M D _);
}.

Section primitives.
Context {D : Type} `{!DB D} (I : World D → Prop).

Lemma pres_get_table n : pres I (get_table n : M D _).
Proof. apply pres_gets. Qed.
Lemma pres_table_or n e : pres I (table_or n e : M D _).
Proof. apply pres_bind; [apply pres_get_table|intros; apply pres_require]. Qed.
Lemma pres_load l : pres I (load l : M D _).
Proof. apply pres_bind; [apply pres_gets|intros; apply pres_deref]. Qed.
Lemma pres_get_column l n : pres I (get_column l n : M D _).
Proof. apply pres_bind; [apply pres_load|intros; apply pres_lift]. Qed.
Lemma pres_column_named l t n : pres I (column_named l t n : M D _).
Proof. apply pres_bind; [apply pres_get_column|intros; apply pres_require]. Qed.
Lemma pres_validate_length n : pres I (validate_length n : M D _).
Proof.
  unfold validate_length. destruct (ValidateIdentifierLength n); [apply pres_fail|apply pres_ret].
Qed.
End primitives.

(** Well-formedness is such an invariant. *)
#[export] Instance world_wf_schema_inv {D} : SchemaInv (world_wf : World D → Prop).
Proof.
  split.
  - done.
  - intros f l Hf w Hw. apply alter_wf; [done|]. by intros.
  - intros d l c w Hw. unfold set_column_deleted. rewrite load_bind.
    destruct (w_heap w !! l) as [t|] eqn:Ht; [|done].
    unfold setColumnDeleted, lift, mbind, prog_bind.
    destruct (Table_Columns t !! c) as [[cc|]|]; [|done|];
      (apply alter_wf; [done|]; intros t' Ht' _; cbn in Ht'; assert (t' = t) as -> by congruence; done).
  - intros n w Hw. by apply RemoveTable_wf.
  - intros n w Hw. by apply UnRemoveTable_wf.
  - intros from to w Hw. unfold s_RenameTable. destruct (RenameTable _ _ _ _) eqn:Hr; [|done..].
    by eapply RenameTable_wf.
  - intros t n w Hw. unfold alloc, mbind, prog_bind, on_schema, modify. cbn.
    apply AddTable_wf; [done|]. apply not_elem_of_dom, is_fresh.
Qed.
#[export] Instance world_wf_inv {D} `{!DB D} : StoreInv (world_wf : World D → Prop).
Proof.
  split; [apply _|..].
  - intros sql w Hw. unfold exec. by destruct (ExecContext sql (w_db w)).
  - intros sql args w Hw. unfold query. by destruct (QueryContext sql args (w_db w)).
  - intros sqls w Hw. unfold transaction. by destruct (WithRetryableTransaction sqls (w_db w)).
  - intros w Hw. unfold deadline_passed. by destruct (expired (w_db w)).
Qed.

(** So is whatever the schema does not matter to, and the database calls keep. *)
Lemma db_schema_inv {D} (P : D → Prop) : SchemaInv (λ w : World D, P (w_db w)).
Proof.
  split.
  - done.
  - intros f l _ w Hw. exact Hw.
  - intros d l c w Hw. unfold set_column_deleted. rewrite load_bind.
    destruct (w_heap w !! l) as [t|]; [|done]. unfold setColumnDeleted, lift, mbind, prog_bind.
    by destruct (Table_Columns t !! c) as [[cc|]|].
  - intros n w Hw. exact Hw.
  - intros n w Hw. exact Hw.
  - intros from to w Hw. unfold s_RenameTable. by destruct (RenameTable _ _ _ _).
  - intros t n w Hw. exact Hw.
Qed.
Lemma db_inv {D} `{!DB D} (P : D → Prop) :
  (∀ sql d, P d → P (ExecContext sql d).2) →
  (∀ sql args d, P d → P (QueryContext sql args d).2) →
  (∀ sqls d, P d → P (WithRetryableTransaction sqls d).2) →
  (∀ d, P d → P (expired d).2) →
  StoreInv (λ w : World D, P (w_db w)).
Proof.
  intros He Hq Ht Hx. split; [apply db_schema_inv|..].
  - intros sql w Hw. unfold exec. specialize (He sql _ Hw). by destruct (ExecContext sql (w_db w)).
  - intros sql args w Hw. unfold query. specialize (Hq sql args _ Hw).
    by destruct (QueryContext sql args (w_db w)).
  - intros sqls w Hw. unfold transaction. specialize (Ht sqls _ Hw).
    by destruct (WithRetryableTransaction sqls (w_db w)).
  - intros w Hw. unfold deadline_passed. specialize (Hx _ Hw). by destruct (expired (w_db w)).
Qed.

#[export] Hint Resolve pres_get_table pres_table_or pres_load pres_get_column pres_column_named
  pres_validate_length inv_set_column_deleted inv_RemoveTable inv_UnRemoveTable
  inv_RenameTable inv_exec inv_query inv_transaction inv_deadline inv_add_table inv_schema : pgroll.

(** Walks through a program, one bind, loop or case at a time. *)
Ltac pres_steps :=
  repeat first
    [ progress intros
    | solve [auto with pgroll nocore | eauto 3 with pgroll nocore]
    | apply pres_bind
    | apply pres_wrap_err
    | apply pres_try
    | apply pres_for_each
    | apply pres_map_each
    | solve [apply inv_update_table; reflexivity]
    | match goal with
      | |- pres _ (match ?x with _ => _ end) => destruct x
      | |- pres _ (let '_ := ?x in _) => destruct x
      end ].
