(* ===== verification/Samples.v ===== *)
(** * Samples: the concrete inputs the witnesses run on

    A quoting instance and a store with two tables, [users] and [posts], whose
    constraints cover a primary key, a unique key, a check, and a foreign key. *)

From S2P Require Import Prelude.
From S2P Require Import GoStd.
From S2P Require Import Schema.
From S2P Require Import SchemaFacts.
From S2P Require Import Types.
From S2P Require Import Db.
From S2P Require Import WorldFacts.

Definition sample_quote (c : string) (s : string) : string := c +:+ s +:+ c.

#[export] Instance sample_pq : Pq := {|
  QuoteIdentifier := sample_quote (String (Ascii.ascii_of_nat 34) "");
  QuoteLiteral := sample_quote "'";
  NewString n := "uuid-" +:+ Nat.iter n (String.append "i") "";
|}.

Definition sample_column (name type : string) : Column :=
  mkColumn name type None true false "" [] false type "".

Definition sample_columns (names : list string) : gmap string (option Column) :=
  list_to_map ((λ n, (n, Some (sample_column n "int"))) <$> names).

Definition sample_users : Table :=
  mkTable "1" "users" "" (sample_columns ["id"; "name"])
    {["users_name_idx" := mkIndex "users_name_idx" false false ["name"] None "btree" ""]}
    ["id"] ∅
    {["name_check" := mkCheckConstraint "name_check" ["name"] "CHECK ((name > 0))" false]}
    {["users_name_key" := mkUniqueConstraint "users_name_key" ["name"]]} ∅ false false.

Definition sample_posts : Table :=
  mkTable "2" "posts" "" (sample_columns ["id"; "author"]) ∅ ["id"]
    {["author_fk" := mkForeignKey "author_fk" ["author"] "users" ["id"] "NO ACTION" []
                       "NO ACTION" "SIMPLE"]} ∅ ∅ ∅ false false.

Definition sample_schema : Schema :=
  set_Schema_MigrationScope "0badcafe"
    (AddTable "posts" 2%positive (AddTable "users" 1%positive New)).
Definition sample_heap : heap :=
  <[2%positive := sample_posts]> (<[1%positive := sample_users]> ∅).
Definition sample_world : World () := mkWorld sample_schema sample_heap () 0.

Lemma sample_wf : wf sample_heap sample_schema.
Proof.
  assert (wf sample_heap (AddTable "posts" 2%positive (AddTable "users" 1%positive New))) as H.
  { apply AddTable_wf; [|done]. apply AddTable_wf; [apply New_wf|done]. }
  destruct H. by split.
Qed.

Lemma sample_world_ok : world_ok sample_world.
Proof.
  split; [apply sample_wf|]. intros l t Hl n Hn.
  assert (∃ names, t.(Table_Columns) = sample_columns names) as [names Ht].
  { cbn in Hl. unfold sample_heap in Hl. apply lookup_insert_Some in Hl as [[_ <-]|[_ Hl]];
      [by eexists|]. apply lookup_insert_Some in Hl as [[_ <-]|[_ Hl]]; [by eexists|done]. }
  rewrite Ht in Hn. unfold sample_columns in Hn. apply elem_of_list_to_map_2 in Hn.
  by apply list_elem_of_fmap in Hn as (? & [=] & _).
Qed.

(** Retypes [posts.author], makes it not null and points it at [users.id]. *)
Definition sample_alter : OpAlterColumn :=
  mkOpAlterColumn None "author" Unspecified Unspecified "author" (Some false)
    (Some (mkForeignKeyReference "id" false false "" "author_users_fk" "CASCADE" "" "users"))
    "posts" (Some "bigint") None "author".
