(* ===== verification/SqlWriter.v ===== *)
(** * SqlWriter: column and constraint definitions as SQL text

    Models [ColumnSQLWriter] ([column.go]), [ConstraintSQLWriter]
    ([constraints.go]) and the two functions of [op_create_table.go] that
    assemble a [CREATE TABLE] body from them. *)

From S2P Require Import Prelude.
From S2P Require Import GoStd.
From S2P Require Import Names.
From S2P Require Import Schema.
From S2P Require Import Types.
From S2P Require Import Db.

Section SqlWriter.
Context `{!Pq}.

(** [Column.Validate] and friends are in [Types]. *)
Definition quoteColumnNames (columns : list string) : list string :=
  QuoteIdentifier <$> columns.

Definition uniqueKeyword (unique : bool) : string := if unique then "UNIQUE " else "".
Definition concurrentlyKeyword (concurrently : bool) : string :=
  if concurrently then "CONCURRENTLY " else "".

Definition commentToSQL (comment : option string) : string :=
  match comment with None => "NULL" | Some c => QuoteLiteral c end.

Record ConstraintSQLWriter := mkConstraintSQLWriter {
  w_Name : string;
  w_Columns : list string;
  w_InitiallyDeferred : bool;
  w_Deferrable : bool;
  w_SkipValidation : bool;
  w_IncludeColumns : list string;
  w_StorageParameters : string;
  w_Tablespace : string;
}.

(** [&ConstraintSQLWriter{Name: name}] *)
Definition namedWriter (name : string) : ConstraintSQLWriter :=
  mkConstraintSQLWriter name [] false false false [] "" "".

Definition constraintPrefix (w : ConstraintSQLWriter) : string :=
  if decide (w.(w_Name) = "") then ""
  else "CONSTRAINT " +:+ QuoteIdentifier w.(w_Name) +:+ " ".

Definition addIndexParameters (w : ConstraintSQLWriter) : string :=
  (if decide (w.(w_IncludeColumns) = []) then ""
   else " INCLUDE (" +:+ Join (quoteColumnNames w.(w_IncludeColumns)) ", " +:+ ")") +:+
  (if decide (w.(w_StorageParameters) = "") then ""
   else " WITH (" +:+ w.(w_StorageParameters) +:+ ")") +:+
  (if decide (w.(w_Tablespace) = "") then ""
   else " USING INDEX TABLESPACE " +:+ w.(w_Tablespace)).

Definition addDeferrable (w : ConstraintSQLWriter) : string :=
  if negb w.(w_Deferrable) then ""
  else " DEFERRABLE" +:+
       (if w.(w_InitiallyDeferred) then " INITIALLY DEFERRED" else " INITIALLY IMMEDIATE").

Definition addNotValid (w : ConstraintSQLWriter) : string :=
  if w.(w_SkipValidation) then " NOT VALID" else "".

Definition WriteUnique (w : ConstraintSQLWriter) (nullsNotDistinct : bool) : string :=
  constraintPrefix w +:+
  "UNIQUE " +:+ (if nullsNotDistinct then "NULLS NOT DISTINCT" else "") +:+
  " (" +:+ Join (quoteColumnNames w.(w_Columns)) ", " +:+ ")" +:+
  addIndexParameters w +:+ addDeferrable w.

Definition WriteCheck (w : ConstraintSQLWriter) (check : string) (noInherit : bool) : string :=
  constraintPrefix w +:+
  (if HasPrefix check "CHECK (" then check else "CHECK (" +:+ check +:+ ")") +:+
  (if noInherit then " NO INHERIT" else "") +:+
  addNotValid w.

Definition WritePrimaryKey (w : ConstraintSQLWriter) : string :=
  constraintPrefix w +:+
  "PRIMARY KEY (" +:+ Join (quoteColumnNames w.(w_Columns)) ", " +:+ ")" +:+
  addIndexParameters w +:+ addDeferrable w.

Definition WriteForeignKey (w : ConstraintSQLWriter) (referencedTable : string)
    (referencedColumns : list string) (onDelete onUpdate : string)
    (setColumns : list string) (matchType : string) : string :=
  let onDeleteAction :=
    if decide (onDelete = "") then ForeignKeyActionNOACTION
    else ToUpper onDelete +:+
         (if decide (setColumns = []) then ""
          else " (" +:+ Join (quoteColumnNames setColumns) ", " +:+ ")") in
  let onUpdateAction :=
    if decide (onUpdate = "") then ForeignKeyActionNOACTION else ToUpper onUpdate in
  let matchTypeStr :=
    if decide (matchType = "") then ForeignKeyMatchTypeSIMPLE else ToUpper matchType in
  constraintPrefix w +:+
  (if decide (w.(w_Columns) = []) then ""
   else "FOREIGN KEY (" +:+ Join (quoteColumnNames w.(w_Columns)) ", " +:+ ") ") +:+
  "REFERENCES " +:+ QuoteIdentifier referencedTable +:+
  " (" +:+ Join (quoteColumnNames referencedColumns) ", " +:+ ") MATCH " +:+ matchTypeStr +:+
  " ON DELETE " +:+ onDeleteAction +:+ " ON UPDATE " +:+ onUpdateAction +:+
  addDeferrable w +:+ addNotValid w.

Definition WriteExclude (w : ConstraintSQLWriter) (indexMethod elements predicate : string) :
    string :=
  constraintPrefix w +:+
  "EXCLUDE USING " +:+ indexMethod +:+ " (" +:+ elements +:+ ")" +:+
  addIndexParameters w +:+
  (if decide (predicate = "") then "" else " WHERE (" +:+ predicate +:+ ")") +:+
  addDeferrable w.

(** [ColumnSQLWriter{WithPK, NotNullConstraintName}.Write]; its error is
    always nil. *)
Definition ColumnSQLWriter_Write (withPK : bool) (notNullConstraintName : string)
    (col : MigColumn) : string :=
  QuoteIdentifier col.(MigColumn_Name) +:+ " " +:+ col.(MigColumn_Type) +:+
  (if withPK && col.(MigColumn_Pk) then " PRIMARY KEY" else "") +:+
  (if col.(MigColumn_Unique) then " UNIQUE" else "") +:+
  (if col.(MigColumn_Nullable) then ""
   else if decide (notNullConstraintName = "") then " NOT NULL"
   else " CONSTRAINT " +:+ QuoteIdentifier notNullConstraintName +:+ " NOT NULL") +:+
  (match col.(MigColumn_Default) with None => "" | Some d => " DEFAULT " +:+ d end) +:+
  (match col.(MigColumn_Generated) with
   | None => ""
   | Some g =>
       if decide (g.(ColumnGenerated_Expression) = "") then
         match g.(ColumnGenerated_Identity) with
         | None => ""
         | Some i =>
             " GENERATED " +:+ i.(ColumnGeneratedIdentity_UserSpecifiedValues) +:+
             " AS IDENTITY" +:+
             (if decide (i.(ColumnGeneratedIdentity_SequenceOptions) = "") then ""
              else " (" +:+ i.(ColumnGeneratedIdentity_SequenceOptions) +:+ ")")
         end
       else " GENERATED ALWAYS AS (" +:+ g.(ColumnGenerated_Expression) +:+ ") STORED"
   end) +:+
  (match col.(MigColumn_References) with
   | None => ""
   | Some r =>
       " " +:+ WriteForeignKey (namedWriter r.(ForeignKeyReference_Name))
         r.(ForeignKeyReference_Table) [r.(ForeignKeyReference_Column)]
         r.(ForeignKeyReference_OnDelete) r.(ForeignKeyReference_OnUpdate) []
         r.(ForeignKeyReference_MatchType)
   end) +:+
  (match col.(MigColumn_Check) with
   | None => ""
   | Some c =>
       " " +:+ WriteCheck (namedWriter c.(MigCheckConstraint_Name))
         c.(MigCheckConstraint_Constraint) c.(MigCheckConstraint_NoInherit)
   end).

Definition set_MigColumn_Nullable (v : bool) (c : MigColumn) : MigColumn :=
  mkMigColumn c.(MigColumn_Check) c.(MigColumn_Comment) c.(MigColumn_Default)
    c.(MigColumn_Generated) c.(MigColumn_Name) v c.(MigColumn_Pk) c.(MigColumn_References)
    c.(MigColumn_Type) c.(MigColumn_Unique).

(** Identity columns are NOT NULL by themselves: the writer is told they
    are nullable. *)
Definition columnToSQL (col : MigColumn) : string :=
  let identity :=
    match col.(MigColumn_Generated) with
    | Some g => bool_decide (is_Some g.(ColumnGenerated_Identity))
    | None => false
    end in
  ColumnSQLWriter_Write false ""
    (if identity && negb col.(MigColumn_Nullable) then set_MigColumn_Nullable true col else col).

Definition columnsToSQL (cols : list MigColumn) : string :=
  let primaryKeys := MigColumn_Name <$> filter (λ c, MigColumn_Pk c = true) cols in
  Join (columnToSQL <$> cols) ", " +:+
  (if decide (primaryKeys = []) then ""
   else ", " +:+ WritePrimaryKey
          (mkConstraintSQLWriter "" primaryKeys false false false [] "" "")).

(** One iteration of [constraintsToSQL]: a foreign key without
    [references] or an exclusion without [exclude] dereferences nil. *)
Definition constraintToSQL (c : Constraint) : outcome error string :=
  let '(include, storage, tablespace) :=
    match c.(Constraint_IndexParameters) with
    | Some p => (p.(ConstraintIndexParameters_IncludeColumns),
                 p.(ConstraintIndexParameters_StorageParameters),
                 p.(ConstraintIndexParameters_Tablespace))
    | None => ([], "", "")
    end in
  let writer := mkConstraintSQLWriter c.(Constraint_Name) c.(Constraint_Columns)
    c.(Constraint_InitiallyDeferred) c.(Constraint_Deferrable) false include storage tablespace in
  if decide (c.(Constraint_Type) = ConstraintTypeUnique) then
    Ok (WriteUnique writer c.(Constraint_NullsNotDistinct))
  else if decide (c.(Constraint_Type) = ConstraintTypeCheck) then
    Ok (WriteCheck writer c.(Constraint_Check) c.(Constraint_NoInherit))
  else if decide (c.(Constraint_Type) = ConstraintTypePrimaryKey) then
    Ok (WritePrimaryKey writer)
  else if decide (c.(Constraint_Type) = ConstraintTypeForeignKey) then
    match c.(Constraint_References) with
    | Some r => Ok (WriteForeignKey writer r.(TableForeignKeyReference_Table)
                      r.(TableForeignKeyReference_Columns) r.(TableForeignKeyReference_OnDelete)
                      r.(TableForeignKeyReference_OnUpdate)
                      r.(TableForeignKeyReference_OnDeleteSetColumns)
                      r.(TableForeignKeyReference_MatchType))
    | None => Panic
    end
  else if decide (c.(Constraint_Type) = ConstraintTypeExclude) then
    match c.(Constraint_Exclude) with
    | Some e => Ok (WriteExclude writer e.(ConstraintExclude_IndexMethod)
                      e.(ConstraintExclude_Elements) e.(ConstraintExclude_Predicate))
    | None => Panic
    end
  else Ok "".

Definition constraintsToSQL (constraints : list Constraint) : outcome error string :=
  sqls ← foldr (λ c acc, s ← constraintToSQL c; ss ← acc; Ok (s :: ss)) (Ok []) constraints;
  Ok (if decide (sqls = []) then "" else ", " +:+ Join sqls ", ").
End SqlWriter.
