(* ===== verification/Actions.v ===== *)
(** * Actions: the database actions of [dbactions.go], [rename.go] and
      [duplicate.go]

    [DBAction] has one constructor per implementation of the interface, with
    the fields of its struct; [ID] is the identifier the coordinator
    deduplicates on and [Execute] the statements it sends.  The index build
    and its progress poll loop until the database says otherwise, so
    [Execute] takes fuel; contexts are never cancelled in the model, and the
    progress reporter and the diagnostic suffixes of error messages are left
    out. *)

From stdpp Require Import pretty.
From S2P Require Import Prelude.
From S2P Require Import GoStd.
From S2P Require Import Names.
From S2P Require Import Schema.
From S2P Require Import Types.
From S2P Require Import Db.
From S2P Require Import SqlWriter.

(** ** Data *)

(** [columnToDuplicate] *)
Record columnToDuplicate := mkColumnToDuplicate {
  ctd_column : Column;
  ctd_asName : string;
  ctd_withoutNotNull : bool;
  ctd_withType : string;
}.

(** [duplicator], with the table pointer of its statement builder *)
Record duplicator := mkDuplicator {
  dup_id : string;
  dup_scope : string;
  dup_table : loc;
  dup_columns : gmap string columnToDuplicate;
  dup_columnOrder : list string;
  dup_withoutConstraint : list string;
}.

Inductive DBAction :=
  | addColumnAction (table : string) (column : MigColumn) (withPK : bool)
      (notNullConstraintName : string)
  | dropColumnAction (table : string) (columns : list string)
  | renameTableAction (from to : string)
  | renameColumnAction (table from to : string)
  | renameConstraintAction (table from to : string)
  | addConstraintUsingUniqueIndexAction (table constraint indexName : string)
  | addPrimaryKeyAction (table indexName : string)
  | dropFunctionAction (functions : list string)
  | createIndexAction (table name method : string) (unique : bool) (columns : list IndexField)
      (storageParameters predicate : string) (concurrently : bool)
  | commentColumnAction (table column : string) (comment : option string)
  | commentTableAction (table : string) (comment : option string)
  | createUniqueIndexAction (schemaName indexName tableName : string)
      (columnNames : list string) (concurrently : bool)
  | createTableAction (table columns constraints : string)
  | dropIndexAction (name : string)
  | DropTableAction (table : string)
  | validateConstraintAction (table constraint : string)
  | CreateCheckConstraintAction (scope table : string) (columns : list string)
      (constraint check : string) (noInherit skipValidation : bool)
  | createFKConstraintAction (table constraint : string) (columns : list string)
      (initiallyDeferred deferrable : bool) (reference : option TableForeignKeyReference)
      (skipValidation : bool)
  | alterSequenceOwnerAction (table from to : string)
  | dropConstraintAction (table constraint : string)
  | setNotNullAction (table column constraintName : string)
  | setDefaultAction (table column defaultValue : string)
  | dropDefaultAction (table column : string)
  | rawSQLAction (uuid sql : string)
  | setReplicaIdentityAction (table identity index : string)
  | renameDuplicatedColumnAction (id : string) (table : loc) (from to : string)
  | duplicateAction (d : duplicator).

Definition ID (a : DBAction) : string :=
  match a with
  | addColumnAction t c _ _ => "add_column_" +:+ t +:+ "_" +:+ c.(MigColumn_Name)
  | dropColumnAction t cs => "drop_column_" +:+ t +:+ "_" +:+ Join cs "_"
  | renameTableAction from to => "rename_table_" +:+ from +:+ "_to_" +:+ to
  | renameColumnAction t from to => "rename_column_" +:+ t +:+ "_" +:+ from +:+ "_to_" +:+ to
  | renameConstraintAction t from to =>
      "rename_constraint_" +:+ t +:+ "_" +:+ from +:+ "_to_" +:+ to
  | addConstraintUsingUniqueIndexAction t c _ =>
      "add_constraint_using_unique_index_" +:+ t +:+ "_" +:+ c
  | addPrimaryKeyAction t i => "add_pk_" +:+ t +:+ "_" +:+ i
  | dropFunctionAction fs => "drop_function_" +:+ Join fs "_"
  | createIndexAction t n _ _ _ _ _ conc =>
      (if conc then "create_index_concurrently_" else "create_index_") +:+ t +:+ "_" +:+ n
  | commentColumnAction t c _ => "comment_column_" +:+ t +:+ "_" +:+ c
  | commentTableAction t _ => "comment_table_" +:+ t
  | createUniqueIndexAction _ i t _ conc =>
      (if conc then "create_unique_index_concurrently_" else "create_unique_index_") +:+
      i +:+ "_" +:+ t
  | createTableAction t _ _ => "create_table_" +:+ t
  | dropIndexAction n => "drop_index_" +:+ n
  | DropTableAction t => "drop_table_" +:+ t
  | validateConstraintAction t c => "validate_constraint_" +:+ t +:+ "_" +:+ c
  | CreateCheckConstraintAction _ t _ c _ _ _ => "create_check_constraint_" +:+ t +:+ "_" +:+ c
  | createFKConstraintAction t c _ _ _ _ _ => "create_fk_constraint_" +:+ t +:+ "_" +:+ c
  | alterSequenceOwnerAction t from to =>
      "alter_sequence_owner_" +:+ t +:+ "_" +:+ from +:+ "_to_" +:+ to
  | dropConstraintAction t c => "drop_constraint_" +:+ t +:+ "_" +:+ c
  | setNotNullAction t c _ => "set_not_null_" +:+ t +:+ "_" +:+ c
  | setDefaultAction t c _ => "set_default_" +:+ t +:+ "_" +:+ c
  | dropDefaultAction t c => "drop_default_" +:+ t +:+ "_" +:+ c
  | rawSQLAction u _ => "raw_sql_" +:+ u
  | setReplicaIdentityAction _ identity index => "set_replica_" +:+ identity +:+ "_" +:+ index
  | renameDuplicatedColumnAction id _ _ _ => id
  | duplicateAction d => d.(dup_id)
  end.

(** ** Constructors that compute fields *)

Definition indexBuildConcurrently (table : Table) : bool :=
  negb table.(Table_CreatedInMigration).

Definition NewCreateIndexAction (table : Table) (name method : string) (unique : bool)
    (columns : list IndexField) (storageParameters predicate : string) : DBAction :=
  createIndexAction table.(Table_Name) name method unique columns storageParameters predicate
    (indexBuildConcurrently table).

Definition NewCreateUniqueIndexAction (schemaName indexName : string) (table : Table)
    (columnNames : list string) : DBAction :=
  createUniqueIndexAction schemaName indexName table.(Table_Name) columnNames
    (indexBuildConcurrently table).

Definition NewSetReplicaIdentityAction (table identityType index : string) : DBAction :=
  setReplicaIdentityAction table (ToUpper identityType) index.

Definition NewRenameDuplicatedColumnAction (scope : string) (l : loc) (table : Table)
    (column : string) : DBAction :=
  renameDuplicatedColumnAction ("rename_duplicated_" +:+ table.(Table_Name) +:+ "_" +:+ column)
    l (TemporaryName scope column) column.

Definition NewColumnDuplicator (scope : string) (l : loc) (table : Table)
    (columns : list Column) : duplicator :=
  let columnOrder := Column_Name <$> columns in
  mkDuplicator
    ("duplicate_" +:+ table.(Table_Name) +:+ "_" +:+ Join columnOrder "_")
    scope l
    (foldl (λ m c, <[c.(Column_Name) :=
        mkColumnToDuplicate c (temporaryNameRebase scope c.(Column_Name)) false
          c.(Column_Type)]> m) ∅ columns)
    columnOrder [].

Definition set_dup_columns (m : gmap string columnToDuplicate) (d : duplicator) : duplicator :=
  mkDuplicator d.(dup_id) d.(dup_scope) d.(dup_table) m d.(dup_columnOrder)
    d.(dup_withoutConstraint).

(** [d.columns[columnName].<field> = v]: a column the duplicator does not hold
    is a nil pointer. *)
Definition dup_update {E} (columnName : string) (f : columnToDuplicate → columnToDuplicate)
    (d : duplicator) : outcome E duplicator :=
  match d.(dup_columns) !! columnName with
  | Some c => Ok (set_dup_columns (<[columnName := f c]> d.(dup_columns)) d)
  | None => Panic
  end.

Definition WithType {E} (columnName t : string) : duplicator → outcome E duplicator :=
  dup_update columnName (λ c,
    mkColumnToDuplicate c.(ctd_column) c.(ctd_asName) c.(ctd_withoutNotNull) t).
Definition WithoutNotNull {E} (columnName : string) : duplicator → outcome E duplicator :=
  dup_update columnName (λ c,
    mkColumnToDuplicate c.(ctd_column) c.(ctd_asName) true c.(ctd_withType)).
Definition WithName {E} (columnName asName : string) : duplicator → outcome E duplicator :=
  dup_update columnName (λ c,
    mkColumnToDuplicate c.(ctd_column) asName c.(ctd_withoutNotNull) c.(ctd_withType)).
Definition WithoutConstraint (c : string) (d : duplicator) : duplicator :=
  mkDuplicator d.(dup_id) d.(dup_scope) d.(dup_table) d.(dup_columns) d.(dup_columnOrder)
    (d.(dup_withoutConstraint) ++ [c]).

Definition rewriteCheckExpression (scope check : string) (columns : list string) : string :=
  foldl (λ check col, ReplaceAll check col (temporaryNameRebase scope col)) check columns.

(** ** Execution *)

Section Execute.
Context `{!Pq} {D : Type} `{!DB D}.

Definition probeBool (sql : string) (args : list string) : M D (bool * bool) :=
  rows ← query sql args;
  match rows with
  | None => mret (false, false)
  | Some rows => v ← lift (ScanFirstValue_bool rows false); mret (v, true)
  end.

Definition columnExists (table column : string) : M D (bool * bool) :=
  probeBool "SELECT EXISTS(
			SELECT 1 FROM pg_attribute
			WHERE attrelid = to_regclass($1)
			  AND attname = $2
			  AND attnum > 0
			  AND NOT attisdropped)" [QuoteIdentifier table; column].

Definition constraintExists (table constraint : string) : M D (bool * bool) :=
  probeBool "SELECT EXISTS(
			SELECT 1 FROM pg_constraint
			WHERE conrelid = to_regclass($1)
			  AND conname = $2)" [QuoteIdentifier table; constraint].

Definition primaryKeyExists (table : string) : M D (bool * bool) :=
  probeBool "SELECT EXISTS(
			SELECT 1 FROM pg_constraint
			WHERE conrelid = to_regclass($1)
			  AND contype = 'p')" [QuoteIdentifier table].

(** [alreadyRenamed] of the column and of the constraint action *)
Definition alreadyRenamed (existsIn : string → string → M D (bool * bool))
    (table from to : string) : M D bool :=
  r ← try (existsIn table from);
  match r with
  | inr _ | inl (_, false) | inl (true, _) => mret false
  | inl (false, true) =>
      r ← try (existsIn table to);
      mret (match r with inl (toExists, _) => toExists | inr _ => false end)
  end.

Definition renameColumnSQL (table from to : string) : string :=
  "ALTER TABLE IF EXISTS " +:+ QuoteIdentifier table +:+ " RENAME COLUMN " +:+
  QuoteIdentifier from +:+ " TO " +:+ QuoteIdentifier to.

Definition execRenameColumn (table from to : string) : M D () :=
  done ← alreadyRenamed columnExists table from to;
  if (done : bool) then mret () else exec (renameColumnSQL table from to).

Definition renameConstraintSQL (table from to : string) : string :=
  "ALTER TABLE IF EXISTS " +:+ QuoteIdentifier table +:+ " RENAME CONSTRAINT " +:+
  QuoteIdentifier from +:+ " TO " +:+ QuoteIdentifier to.

Definition execRenameConstraint (table from to : string) : M D () :=
  done ← alreadyRenamed constraintExists table from to;
  if (done : bool) then mret () else exec (renameConstraintSQL table from to).

Definition addUniqueSQL (table constraint indexName : string) : string :=
  "ALTER TABLE IF EXISTS " +:+ QuoteIdentifier table +:+ " ADD CONSTRAINT " +:+
  QuoteIdentifier constraint +:+ " UNIQUE USING INDEX " +:+ QuoteIdentifier indexName.

Definition execAddConstraintUsingUniqueIndex (table constraint indexName : string) : M D () :=
  '(exists_, known) ← constraintExists table constraint;
  if (known && exists_ : bool) then mret () else exec (addUniqueSQL table constraint indexName).

Definition addPrimaryKeySQL (table indexName : string) : string :=
  "ALTER TABLE " +:+ QuoteIdentifier table +:+ " ADD PRIMARY KEY USING INDEX " +:+
  QuoteIdentifier indexName.

Definition execAddPrimaryKey (table indexName : string) : M D () :=
  '(exists_, known) ← primaryKeyExists table;
  if (known && exists_ : bool) then mret () else exec (addPrimaryKeySQL table indexName).

Definition execValidateConstraint (table constraint : string) : M D () :=
  exec ("ALTER TABLE IF EXISTS " +:+ QuoteIdentifier table +:+ " VALIDATE CONSTRAINT " +:+
        QuoteIdentifier constraint).

Definition execDropConstraint (table constraint : string) : M D () :=
  exec ("ALTER TABLE IF EXISTS " +:+ QuoteIdentifier table +:+
        " DROP CONSTRAINT IF EXISTS " +:+ QuoteIdentifier constraint).

Definition ensureNotNullConstraintName (table column desired : string) : M D () :=
  rows ← wrap_err (ErrorfW "looking up not null constraint: %w" [])
    (query "
		SELECT con.conname
		FROM pg_constraint con
		JOIN pg_attribute att
		  ON att.attrelid = con.conrelid AND att.attnum = ANY(con.conkey)
		WHERE con.conrelid = $1::regclass
		  AND att.attname = $2
		  AND con.contype = 'n'
		LIMIT 1
	" [QuoteIdentifier table; column]);
  match rows with
  | None => mret ()
  | Some rows =>
      match ScanFirstValue_string rows "" with
      | Ok current =>
          if decide (current = "" ∨ current = desired) then mret ()
          else exec ("ALTER TABLE IF EXISTS " +:+ QuoteIdentifier table +:+
                     " RENAME CONSTRAINT " +:+ QuoteIdentifier current +:+ " TO " +:+
                     QuoteIdentifier desired)
      | _ => mret ()
      end
  end.

Definition execSetNotNull (table column constraintName : string) : M D () :=
  exec ("ALTER TABLE IF EXISTS " +:+ QuoteIdentifier table +:+ " ALTER COLUMN " +:+
        QuoteIdentifier column +:+ " SET NOT NULL") ;;
  if decide (constraintName = "") then mret ()
  else ensureNotNullConstraintName table column constraintName.

(** *** Index builds *)

Definition dropIndexIfInvalid (quotedQualifiedIndexName : string) : M D () :=
  rows ← wrap_err (ErrorfW "checking index %q for INVALID leftover: %w"
                     [quotedQualifiedIndexName])
    (query "SELECT NOT indisvalid
		FROM pg_catalog.pg_index
		WHERE indexrelid = pg_catalog.to_regclass($1)" [quotedQualifiedIndexName]);
  match rows with
  | None => mret ()
  | Some rows =>
      invalid ← wrap_err (ErrorfW "scanning INVALID check for index %q: %w"
                            [quotedQualifiedIndexName])
        (lift (ScanFirstValue_bool rows false));
      if (invalid : bool) then
        wrap_err (ErrorfW "failed to drop invalid index %q: %w" [quotedQualifiedIndexName])
          (exec ("DROP INDEX IF EXISTS " +:+ quotedQualifiedIndexName))
      else mret ()
  end.

Definition buildIndexPlain (indexName quotedQualifiedIndexName createSQL : string) : M D () :=
  dropIndexIfInvalid quotedQualifiedIndexName ;;
  wrap_err (ErrorfW "failed to create index %q: %w" [indexName]) (exec createSQL).

(** The [restore] closure is the previous value, [None] when there is
    nothing to restore. *)
Definition raiseLockTimeout (ms : Z) : M D (option string) :=
  rows ← wrap_err (ErrorfW "reading current lock_timeout: %w" []) (query "SHOW lock_timeout" []);
  match rows with
  | None => mret None
  | Some rows =>
      match ScanFirstValue_string rows "" with
      | Ok prev =>
          if decide (prev = "") then mret None
          else
            wrap_err (ErrorfW "raising lock_timeout for index build: %w" [])
              (exec ("SET lock_timeout TO '" +:+ pretty ms +:+ "ms'")) ;;
            mret (Some prev)
      | _ => mret None
      end
  end.

Definition restoreLockTimeout (prev : option string) : M D () :=
  match prev with
  | None => mret ()
  | Some prev => try (exec ("SET lock_timeout TO '" +:+ prev +:+ "'")) ;; mret ()
  end.

(** [defer f()]: [f] runs whatever way [m] ends. *)
Definition with_defer {A} (m : M D A) (f : M D ()) : M D A := λ w,
  let '(r, w1) := m w in
  match f w1 with (Panic, w2) => (Panic, w2) | (_, w2) => (r, w2) end.

Definition isIndexInProgress (quotedQualifiedIndexName : string) : M D bool :=
  rows ← wrap_err (ErrorfW "getting index in progress with name %q: %w"
                     [quotedQualifiedIndexName])
    (query "SELECT EXISTS(
			SELECT * FROM pg_catalog.pg_stat_progress_create_index
			WHERE index_relid = $1::regclass
			)" [quotedQualifiedIndexName]);
  match rows with
  | None => mret false
  | Some rows => wrap_err (ErrorfW "scanning index in progress with name %q: %w"
                             [quotedQualifiedIndexName]) (lift (ScanFirstValue_bool rows false))
  end.

Definition isIndexValid (quotedQualifiedIndexName : string) : M D bool :=
  rows ← wrap_err (ErrorfW "getting index with name %q: %w" [quotedQualifiedIndexName])
    (query "SELECT indisvalid
		FROM pg_catalog.pg_index
		WHERE indexrelid = $1::regclass" [quotedQualifiedIndexName]);
  match rows with
  | None => mret true
  | Some rows => wrap_err (ErrorfW "scanning index with name %q: %w"
                             [quotedQualifiedIndexName]) (lift (ScanFirstValue_bool rows false))
  end.

(** The first probe and then one probe per tick *)
Fixpoint waitForIndexBuild (fuel : nat) (quotedQualifiedIndexName : string) : M D () :=
  match fuel with
  | 0 => λ w, (OutOfFuel, w)
  | S fuel =>
      inProgress ← isIndexInProgress quotedQualifiedIndexName;
      if (inProgress : bool) then waitForIndexBuild fuel quotedQualifiedIndexName else mret ()
  end.

Fixpoint buildIndexAttempts (fuel : nat) (indexName quotedQualifiedIndexName createSQL : string) :
    M D () :=
  match fuel with
  | 0 => λ w, (OutOfFuel, w)
  | S fuel' =>
      wrap_err (ErrorfW "failed to create index %q: %w%s" [indexName]) (exec createSQL) ;;
      waitForIndexBuild fuel quotedQualifiedIndexName ;;
      valid ← isIndexValid quotedQualifiedIndexName;
      if (valid : bool) then mret ()
      else
        dropIndexIfInvalid quotedQualifiedIndexName ;;
        over ← deadline_passed;
        if (over : bool) then
          fail (Errorf "failed to create index %q: %d attempt(s) over %s all ended INVALID%s"
                  [indexName])
        else buildIndexAttempts fuel' indexName quotedQualifiedIndexName createSQL
  end.

Definition buildIndexConcurrently (fuel : nat)
    (indexName quotedQualifiedIndexName createSQL : string) : M D () :=
  budget ← gets (λ w, RetryBudget (w_db w));
  dropIndexIfInvalid quotedQualifiedIndexName ;;
  if (0 <? budget)%Z then
    prev ← raiseLockTimeout budget;
    with_defer (buildIndexAttempts fuel indexName quotedQualifiedIndexName createSQL)
      (restoreLockTimeout prev)
  else buildIndexAttempts fuel indexName quotedQualifiedIndexName createSQL.

Definition indexFieldSQL (f : IndexField) : string :=
  QuoteIdentifier f.(IndexField_Column) +:+
  (if decide (f.(IndexField_Collate) = "") then "" else " COLLATE " +:+ f.(IndexField_Collate)) +:+
  (match f.(IndexField_Opclass) with
   | None => ""
   | Some o =>
       " " +:+ o.(IndexFieldOpclass_Name) +:+
       (if decide (o.(IndexFieldOpclass_Params) = []) then ""
        else " " +:+ Join o.(IndexFieldOpclass_Params) ", ")
   end) +:+
  (if decide (f.(IndexField_Sort) = "") then "" else " " +:+ f.(IndexField_Sort)) +:+
  (match f.(IndexField_Nulls) with None => "" | Some n => " " +:+ n end).

Definition buildCreateIndexSQL (table name method : string) (unique : bool)
    (columns : list IndexField) (storageParameters predicate : string) (concurrently : bool) :
    string :=
  "CREATE " +:+ uniqueKeyword unique +:+ "INDEX " +:+ concurrentlyKeyword concurrently +:+
  "IF NOT EXISTS " +:+ QuoteIdentifier name +:+ " ON " +:+ QuoteIdentifier table +:+
  (if decide (method = "") then "" else " USING " +:+ method) +:+
  " (" +:+ Join (indexFieldSQL <$> columns) ", " +:+ ")" +:+
  (if decide (storageParameters = "") then "" else " WITH (" +:+ storageParameters +:+ ")") +:+
  (if decide (predicate = "") then "" else " WHERE " +:+ predicate).

Definition qualified (schemaName name : string) : string :=
  if decide (schemaName = "") then QuoteIdentifier name
  else QuoteIdentifier schemaName +:+ "." +:+ QuoteIdentifier name.

Definition getCreateUniqueIndexSQL (schemaName indexName tableName : string)
    (columnNames : list string) (concurrently : bool) : string :=
  "CREATE UNIQUE INDEX " +:+ concurrentlyKeyword concurrently +:+ "IF NOT EXISTS " +:+
  QuoteIdentifier indexName +:+ " ON " +:+ qualified schemaName tableName +:+
  " (" +:+ Join (quoteColumnNames columnNames) ", " +:+ ")".

Definition execCreateIndex (fuel : nat) (concurrently : bool)
    (indexName quotedQualifiedIndexName createSQL : string) : M D () :=
  if concurrently
  then buildIndexConcurrently fuel indexName quotedQualifiedIndexName createSQL
  else buildIndexPlain indexName quotedQualifiedIndexName createSQL.

Definition execCreateUniqueIndex (fuel : nat) (schemaName indexName tableName : string)
    (columnNames : list string) (concurrently : bool) : M D () :=
  execCreateIndex fuel concurrently indexName (qualified schemaName indexName)
    (getCreateUniqueIndexSQL schemaName indexName tableName columnNames concurrently).

(** nil rows (a fake connection) are closed, which panics *)
Definition getSequenceNameForColumn (tableName columnName : string) : M D string :=
  r ← try (query ("
		SELECT pg_get_serial_sequence('" +:+ QuoteIdentifier tableName +:+ "', '" +:+
                  columnName +:+ "')
	") []);
  match r with
  | inr _ => mret ""
  | inl None => panic
  | inl (Some rows) =>
      mret (match ScanFirstValue_string rows "" with Ok s => s | _ => "" end)
  end.
End Execute.
