(* ===== verification/Duplicate.v ===== *)
(** * Duplicate: executing the column duplicator, its counterpart at
      completion, and every other action

    Models [duplicator.Execute] with its statement builder ([duplicate.go]),
    [renameDuplicatedColumnAction.Execute] ([rename.go]) and, on top of
    them, [Execute] of every action.  Both read and write the table behind
    their pointer when they run, not when they were built.  Go ranges over
    maps in an unspecified order; the model ranges in key order. *)

From S2P Require Import Prelude.
From S2P Require Import GoStd.
From S2P Require Import Names.
From S2P Require Import Schema.
From S2P Require Import Types.
From S2P Require Import Db.
From S2P Require Import SqlWriter.
From S2P Require Import Actions.

Section Duplicate.
Context `{!Pq} {D : Type} `{!DB D}.

(** ** The statement builder *)

(** The two results on a nil column are [false] and a nil dereference of a
    nil map entry. *)
Definition columnIsDuplicated (scope : string) (t : Table) (column : string)
    (duplicatedColumns : list string) : outcome error bool :=
  if slices_Contains duplicatedColumns column then Ok true
  else
    c ← GetColumn t column;
    match c with
    | None => Ok false
    | Some c =>
        if decide (c.(Column_Name) = temporaryNameRebase scope column) then Ok false
        else Ok (slices_Contains duplicatedColumns c.(Column_Name))
    end.

Definition duplicatedConstraintColumns (scope : string) (t : Table)
    (constraintColumns duplicatedColumns : list string) : outcome error (list string) :=
  foldr (λ column acc,
           d ← columnIsDuplicated scope t column duplicatedColumns;
           cs ← acc; Ok (if d : bool then column :: cs else cs)) (Ok []) constraintColumns.

Definition allConstraintColumns (scope : string) (t : Table)
    (constraintColumns duplicatedColumns : list string) :
    outcome error (bool * list string) :=
  foldr (λ column acc,
           d ← columnIsDuplicated scope t column duplicatedColumns;
           '(member, cs) ← acc;
           Ok (if d : bool then (true, temporaryNameRebase scope column :: cs)
               else (member, column :: cs))) (Ok (false, [])) constraintColumns.

Definition duplicateCheckConstraint (scope : string) (t : Table)
    (withoutConstraint colNames : list string) (cc : CheckConstraint) :
    outcome error (list string) :=
  if slices_Contains withoutConstraint cc.(CheckConstraint_Name)
     || IsDuplicatedName cc.(CheckConstraint_Name) then Ok []
  else
    cols ← duplicatedConstraintColumns scope t cc.(CheckConstraint_Columns) colNames;
    if decide (cols = []) then Ok []
    else Ok ["ALTER TABLE " +:+ QuoteIdentifier t.(Table_Name) +:+ " ADD " +:+
             WriteCheck
               (mkConstraintSQLWriter (DuplicationName scope cc.(CheckConstraint_Name)) []
                  false false true [] "" "")
               (rewriteCheckExpression scope cc.(CheckConstraint_Definition) cols)
               cc.(CheckConstraint_NoInherit)].

Definition duplicateForeignKeyConstraint (scope : string) (t : Table)
    (withoutConstraint colNames : list string) (fk : ForeignKey) :
    outcome error (list string) :=
  if slices_Contains withoutConstraint fk.(ForeignKey_Name) then Ok []
  else
    '(duplicatedMember, constraintColumns) ←
      allConstraintColumns scope t fk.(ForeignKey_Columns) colNames;
    if negb duplicatedMember then Ok []
    else Ok ["ALTER TABLE " +:+ QuoteIdentifier t.(Table_Name) +:+ " ADD " +:+
             WriteForeignKey
               (mkConstraintSQLWriter (DuplicationName scope fk.(ForeignKey_Name))
                  constraintColumns false false false [] "" "")
               fk.(ForeignKey_ReferencedTable) fk.(ForeignKey_ReferencedColumns)
               fk.(ForeignKey_OnDelete) fk.(ForeignKey_OnUpdate)
               fk.(ForeignKey_OnDeleteSetColumns) fk.(ForeignKey_MatchType)].

(** The [WITH (...)] part of an index definition *)
Definition storageParametersOf (definition : string) : string :=
  match strings_Index definition " WITH (" with
  | None => ""
  | Some start =>
      let rest := drop_str start definition in
      match strings_Index rest ")" with
      | Some e => take_str (e + 1) rest
      | None => ""
      end
  end.

Definition duplicateIndex (scope : string) (t : Table)
    (withoutConstraint colNames : list string) (idx : Index) :
    outcome error (list string) :=
  if slices_Contains withoutConstraint idx.(Index_Name) || IsDuplicatedName idx.(Index_Name)
  then Ok []
  else if bool_decide (is_Some (t.(Table_UniqueConstraints) !! idx.(Index_Name)))
          && idx.(Index_Unique) then Ok []
  else
    '(duplicatedMember, columns) ← allConstraintColumns scope t idx.(Index_Columns) colNames;
    if negb duplicatedMember then Ok []
    else Ok ["CREATE " +:+ uniqueKeyword idx.(Index_Unique) +:+ "INDEX " +:+
             concurrentlyKeyword (indexBuildConcurrently t) +:+
             QuoteIdentifier (DuplicationName scope idx.(Index_Name)) +:+ " ON " +:+
             QuoteIdentifier t.(Table_Name) +:+
             (if decide (idx.(Index_Method) = "") then "" else " USING " +:+ idx.(Index_Method)) +:+
             " (" +:+ Join (quoteColumnNames columns) ", " +:+ ")" +:+
             storageParametersOf idx.(Index_Definition) +:+
             match idx.(Index_Predicate) with
             | None => ""
             | Some p =>
                 " WHERE " +:+
                 ReplaceFirst p (Join idx.(Index_Columns) ", ")
                   (Join (quoteColumnNames columns) ", ")
             end].

(** The statements of a whole map, in key order *)
Definition concatStatements {A} (f : A → outcome error (list string)) (l : list A) :
    outcome error (list string) :=
  foldr (λ x acc, s ← f x; ss ← acc; Ok (s ++ ss)) (Ok []) l.

Definition values {A} (m : gmap string A) : list A := (map_to_list m).*2.

(** [duplicateColumn] returns the statement and registers the duplicated
    NOT NULL constraint on the table. *)
Definition duplicateColumn (scope : string) (l : loc) (column : Column) (asName : string)
    (withoutNotNull : bool) (withType : string) : M D string :=
  t ← load l;
  let sql := "ALTER TABLE " +:+ QuoteIdentifier t.(Table_Name) +:+
             " ADD COLUMN IF NOT EXISTS " +:+ QuoteIdentifier asName +:+ " " +:+ withType in
  if negb column.(Column_Nullable) && negb withoutNotNull then
    let constraintName := DuplicationName scope (NotNullConstraintName column.(Column_Name)) in
    if bool_decide (is_Some (t.(Table_CheckConstraints) !! constraintName)) then mret sql
    else
      update_table (λ t, set_Table_CheckConstraints
        (<[constraintName := mkCheckConstraint constraintName [asName] "" false]>
           t.(Table_CheckConstraints)) t) l ;;
      mret (sql +:+ "; ALTER TABLE " +:+ QuoteIdentifier t.(Table_Name) +:+
            " ADD CONSTRAINT " +:+ QuoteIdentifier constraintName +:+ " CHECK (" +:+
            QuoteIdentifier asName +:+ " IS NOT NULL) NOT VALID")
  else mret sql.

Definition duplicateDefault (t : Table) (column : Column) (asName : string) : string :=
  match column.(Column_Default) with
  | None => ""
  | Some d => "ALTER TABLE " +:+ QuoteIdentifier t.(Table_Name) +:+ " ALTER COLUMN " +:+
              asName +:+ " SET DEFAULT " +:+ d
  end.

Definition duplicateComment (t : Table) (column : Column) (asName : string) : string :=
  if decide (column.(Column_Comment) = "") then ""
  else "COMMENT ON COLUMN " +:+ QuoteIdentifier t.(Table_Name) +:+ "." +:+
       QuoteIdentifier asName +:+ " IS " +:+ QuoteLiteral column.(Column_Comment).

(** [errorIgnoringErrorCode] around an [ExecContext]; the driver's error is
    found below any wrapping ([errors.As]). *)
Fixpoint has_code (code : string) (e : error) : bool :=
  match e with
  | pqError c _ => bool_decide (c = code)
  | ErrorfW _ _ e => has_code code e
  | _ => false
  end.

Definition exec_ignoring (code : string) (sql : string) : M D () :=
  r ← try (exec sql);
  match r with
  | inl _ => mret ()
  | inr e => if has_code code e then mret () else fail e
  end.

Definition dataTypeMismatchErrorCode : string := "42804".
Definition undefinedFunctionErrorCode : string := "42883".

(** One iteration of the first loop of [Execute] *)
Definition duplicateOne (d : duplicator) (name : string) : M D () :=
  let l := d.(dup_table) in
  c ← deref (d.(dup_columns) !! name);
  sql ← duplicateColumn d.(dup_scope) l c.(ctd_column) c.(ctd_asName) c.(ctd_withoutNotNull)
          c.(ctd_withType);
  exec sql ;;
  t ← load l;
  let default_sql := duplicateDefault t c.(ctd_column) c.(ctd_asName) in
  (if decide (default_sql = "") then mret ()
   else exec_ignoring dataTypeMismatchErrorCode default_sql) ;;
  let comment_sql := duplicateComment t c.(ctd_column) c.(ctd_asName) in
  if decide (comment_sql = "") then mret () else exec comment_sql.

Definition duplicateUnique (fuel : nat) (d : duplicator) (uc : UniqueConstraint) : M D () :=
  if slices_Contains d.(dup_withoutConstraint) uc.(UniqueConstraint_Name) then mret ()
  else
    t ← load d.(dup_table);
    '(duplicatedMember, constraintColumns) ←
      lift (allConstraintColumns d.(dup_scope) t uc.(UniqueConstraint_Columns)
              d.(dup_columnOrder));
    if (duplicatedMember : bool) then
      execCreateUniqueIndex fuel "" (DuplicationName d.(dup_scope) uc.(UniqueConstraint_Name))
        t.(Table_Name) constraintColumns (indexBuildConcurrently t)
    else mret ().

Definition duplicator_Execute (fuel : nat) (d : duplicator) : M D () :=
  let l := d.(dup_table) in
  let colNames := d.(dup_columnOrder) in
  for_each (duplicateOne d) colNames ;;
  t ← load l;
  checks ← lift (concatStatements
    (duplicateCheckConstraint d.(dup_scope) t d.(dup_withoutConstraint) colNames)
    (values t.(Table_CheckConstraints)));
  for_each (exec_ignoring undefinedFunctionErrorCode) checks ;;
  t ← load l;
  for_each (duplicateUnique fuel d) (values t.(Table_UniqueConstraints)) ;;
  t ← load l;
  fks ← lift (concatStatements
    (duplicateForeignKeyConstraint d.(dup_scope) t d.(dup_withoutConstraint) colNames)
    (values t.(Table_ForeignKeys)));
  for_each (exec_ignoring dataTypeMismatchErrorCode) fks ;;
  t ← load l;
  idxs ← lift (concatStatements
    (duplicateIndex d.(dup_scope) t d.(dup_withoutConstraint) colNames)
    (values t.(Table_Indexes)));
  for_each exec idxs.

(** ** [renameDuplicatedColumnAction.Execute] *)

Definition renameDuplicatedFK (l : loc) (from : string) (fk : ForeignKey) : M D () :=
  if negb (IsDuplicatedName fk.(ForeignKey_Name)) then mret ()
  else if slices_Contains fk.(ForeignKey_Columns) from then
    t ← load l;
    wrap_err (ErrorfW "failed to rename foreign key constraint %q: %w" [fk.(ForeignKey_Name)])
      (execRenameConstraint t.(Table_Name) fk.(ForeignKey_Name)
         (StripDuplicationPrefix fk.(ForeignKey_Name))) ;;
    update_table (λ t, set_Table_ForeignKeys
      (delete fk.(ForeignKey_Name) t.(Table_ForeignKeys)) t) l
  else mret ().

Definition renameDuplicatedCheck (l : loc) (from to : string) (cc : CheckConstraint) : M D () :=
  let name := cc.(CheckConstraint_Name) in
  if negb (IsDuplicatedName name) then mret ()
  else if slices_Contains cc.(CheckConstraint_Columns) from then
    t ← load l;
    wrap_err (ErrorfW "failed to validate check constraint %q: %w" [name])
      (execValidateConstraint t.(Table_Name) name) ;;
    wrap_err (ErrorfW "failed to rename check constraint %q: %w" [name])
      (execRenameConstraint t.(Table_Name) name (StripDuplicationPrefix name)) ;;
    update_table (λ t, set_Table_CheckConstraints
      (delete name t.(Table_CheckConstraints)) t) l ;;
    if IsNotNullConstraintName (StripDuplicationPrefix name) then
      wrap_err (ErrorfW "failed to set column not null: %w" [])
        (execSetNotNull t.(Table_Name) to (CanonicalNotNullName t.(Table_Name) to)) ;;
      wrap_err (ErrorfW "failed to drop not null constraint: %w" [])
        (execDropConstraint t.(Table_Name) (NotNullConstraintName to))
    else mret ()
  else mret ().

Definition renameDuplicatedIndex (l : loc) (from : string) (idx : Index) : M D () :=
  let name := idx.(Index_Name) in
  let stripped := StripDuplicationPrefix name in
  if negb (IsDuplicatedName name) || negb (slices_Contains idx.(Index_Columns) from)
  then mret ()
  else
    wrap_err (ErrorfW "failed to rename index %q: %w" [name])
      (exec ("ALTER INDEX IF EXISTS " +:+ QuoteIdentifier name +:+ " RENAME TO " +:+
             QuoteIdentifier stripped)) ;;
    update_table (λ t, set_Table_Indexes (delete name t.(Table_Indexes)) t) l ;;
    t ← load l;
    if idx.(Index_Unique) && bool_decide (is_Some (t.(Table_UniqueConstraints) !! stripped))
    then
      wrap_err (ErrorfW "failed to create unique constraint from index %q: %w" [name])
        (execAddConstraintUsingUniqueIndex t.(Table_Name) stripped stripped)
    else mret ().

Definition execRenameDuplicatedColumn (l : loc) (from to : string) : M D () :=
  t ← load l;
  wrap_err (ErrorfW "failed to rename duplicated column %q: %w" [to])
    (execRenameColumn t.(Table_Name) from to) ;;
  for_each (renameDuplicatedFK l from) (values t.(Table_ForeignKeys)) ;;
  t ← load l;
  for_each (renameDuplicatedCheck l from to) (values t.(Table_CheckConstraints)) ;;
  t ← load l;
  for_each (renameDuplicatedIndex l from) (values t.(Table_Indexes)) ;;
  t ← load l;
  if slices_Contains t.(Table_PrimaryKey) to then
    wrap_err (ErrorfW "failed to re-add primary key constraint: %w" [])
      (execAddPrimaryKey t.(Table_Name) (primaryKeyName t.(Table_Name)))
  else mret ().

(** ** [Execute] of every action *)

Definition addColumnAction_Execute (table : string) (column : MigColumn) (withPK : bool)
    (notNullConstraintName : string) : M D () :=
  exec ("ALTER TABLE " +:+ QuoteIdentifier table +:+ " ADD COLUMN " +:+
        ColumnSQLWriter_Write withPK notNullConstraintName column).
Definition dropColumnAction_Execute (table : string) (columns : list string) : M D () :=
  exec ("ALTER TABLE IF EXISTS " +:+ QuoteIdentifier table +:+ " " +:+
        Join ((λ c, "DROP COLUMN IF EXISTS " +:+ QuoteIdentifier c) <$> columns) ", ").
Definition renameTableAction_Execute (from to : string) : M D () :=
  exec ("ALTER TABLE IF EXISTS " +:+ QuoteIdentifier from +:+ " RENAME TO " +:+
        QuoteIdentifier to).
Definition dropFunctionAction_Execute (functions : list string) : M D () :=
  exec ("DROP FUNCTION IF EXISTS " +:+ Join (QuoteIdentifier <$> functions) "," +:+
        " CASCADE").
Definition commentColumnAction_Execute (table column : string) (comment : option string) :
    M D () :=
  exec ("COMMENT ON COLUMN " +:+ QuoteIdentifier table +:+ "." +:+
        QuoteIdentifier column +:+ " IS " +:+ commentToSQL comment).
Definition commentTableAction_Execute (table : string) (comment : option string) : M D () :=
  exec ("COMMENT ON TABLE " +:+ QuoteIdentifier table +:+ " IS " +:+ commentToSQL comment).
Definition createTableAction_Execute (table columns constraints : string) : M D () :=
  exec ("CREATE TABLE " +:+ QuoteIdentifier table +:+ " (" +:+ columns +:+ " " +:+
        constraints +:+ ")").
Definition dropIndexAction_Execute (name : string) : M D () :=
  exec ("DROP INDEX CONCURRENTLY IF EXISTS " +:+ QuoteIdentifier name).
Definition DropTableAction_Execute (table : string) : M D () :=
  exec ("DROP TABLE IF EXISTS " +:+ QuoteIdentifier table).
Definition CreateCheckConstraintAction_Execute (scope table : string) (columns : list string)
    (constraint check : string) (noInherit skipValidation : bool) : M D () :=
  exec ("ALTER TABLE " +:+ QuoteIdentifier table +:+ " ADD " +:+
        WriteCheck
          (mkConstraintSQLWriter constraint [] false false skipValidation [] "" "")
          (rewriteCheckExpression scope check columns) noInherit).
Definition createFKConstraintAction_Execute (table constraint : string) (columns : list string)
    (initiallyDeferred deferrable : bool) (reference : option TableForeignKeyReference)
    (skipValidation : bool) : M D () :=
  r ← deref reference;
  exec ("ALTER TABLE " +:+ QuoteIdentifier table +:+ " ADD " +:+
        WriteForeignKey
          (mkConstraintSQLWriter constraint columns initiallyDeferred deferrable
             skipValidation [] "" "")
          r.(TableForeignKeyReference_Table) r.(TableForeignKeyReference_Columns)
          r.(TableForeignKeyReference_OnDelete) r.(TableForeignKeyReference_OnUpdate)
          r.(TableForeignKeyReference_OnDeleteSetColumns)
          r.(TableForeignKeyReference_MatchType)).
Definition alterSequenceOwnerAction_Execute (table from to : string) : M D () :=
  sequence ← getSequenceNameForColumn table from;
  if decide (sequence = "") then mret ()
  else exec ("ALTER SEQUENCE IF EXISTS " +:+ sequence +:+ " OWNED BY " +:+
             QuoteIdentifier table +:+ "." +:+ QuoteIdentifier to).
Definition setDefaultAction_Execute (table column defaultValue : string) : M D () :=
  exec ("ALTER TABLE IF EXISTS " +:+ QuoteIdentifier table +:+ " ALTER COLUMN " +:+
        QuoteIdentifier column +:+ " SET DEFAULT " +:+ defaultValue).
Definition dropDefaultAction_Execute (table column : string) : M D () :=
  exec ("ALTER TABLE IF EXISTS " +:+ QuoteIdentifier table +:+ " ALTER COLUMN " +:+
        QuoteIdentifier column +:+ " DROP DEFAULT").
Definition setReplicaIdentityAction_Execute (table identity index : string) : M D () :=
  exec ("ALTER TABLE " +:+ QuoteIdentifier table +:+ " REPLICA IDENTITY " +:+
        (if decide (identity = "INDEX")
         then "USING INDEX " +:+ QuoteIdentifier index else identity)).

(** Dynamic dispatch *)
Definition Execute (fuel : nat) (a : DBAction) : M D () :=
  match a with
  | addColumnAction table column withPK notNullConstraintName =>
      addColumnAction_Execute table column withPK notNullConstraintName
  | dropColumnAction table columns => dropColumnAction_Execute table columns
  | renameTableAction from to => renameTableAction_Execute from to
  | renameColumnAction table from to => execRenameColumn table from to
  | renameConstraintAction table from to => execRenameConstraint table from to
  | addConstraintUsingUniqueIndexAction table constraint indexName =>
      execAddConstraintUsingUniqueIndex table constraint indexName
  | addPrimaryKeyAction table indexName => execAddPrimaryKey table indexName
  | dropFunctionAction functions => dropFunctionAction_Execute functions
  | createIndexAction table name method unique columns storageParameters predicate conc =>
      execCreateIndex fuel conc name (QuoteIdentifier name)
        (buildCreateIndexSQL table name method unique columns storageParameters predicate conc)
  | commentColumnAction table column comment =>
      commentColumnAction_Execute table column comment
  | commentTableAction table comment => commentTableAction_Execute table comment
  | createUniqueIndexAction schemaName indexName tableName columnNames conc =>
      execCreateUniqueIndex fuel schemaName indexName tableName columnNames conc
  | createTableAction table columns constraints =>
      createTableAction_Execute table columns constraints
  | dropIndexAction name => dropIndexAction_Execute name
  | DropTableAction table => DropTableAction_Execute table
  | validateConstraintAction table constraint => execValidateConstraint table constraint
  | CreateCheckConstraintAction scope table columns constraint check noInherit skipValidation =>
      CreateCheckConstraintAction_Execute scope table columns constraint check noInherit
        skipValidation
  | createFKConstraintAction table constraint columns initiallyDeferred deferrable reference
      skipValidation =>
      createFKConstraintAction_Execute table constraint columns initiallyDeferred deferrable
        reference skipValidation
  | alterSequenceOwnerAction table from to =>
      alterSequenceOwnerAction_Execute table from to
  | dropConstraintAction table constraint => execDropConstraint table constraint
  | setNotNullAction table column constraintName => execSetNotNull table column constraintName
  | setDefaultAction table column defaultValue =>
      setDefaultAction_Execute table column defaultValue
  | dropDefaultAction table column => dropDefaultAction_Execute table column
  | rawSQLAction _ sql => exec sql
  | setReplicaIdentityAction table identity index =>
      setReplicaIdentityAction_Execute table identity index
  | renameDuplicatedColumnAction _ table from to => execRenameDuplicatedColumn table from to
  | duplicateAction d => duplicator_Execute fuel d
  end.
End Duplicate.
