(* ===== verification/Coordinator.v ===== *)
(** * Coordinator: deduplication and ordered execution of actions

    Models [coordinator.go].  [NewCoordinator] keeps, for every identifier,
    the first action carrying it and the position of the last; [Execute] runs
    them in that order.  [coordinated] is the specification: one action per
    identifier, in the order of last occurrences. *)

From S2P Require Import Prelude.
From S2P Require Import GoStd.
From S2P Require Import Names.
From S2P Require Import Schema.
From S2P Require Import Types.
From S2P Require Import Db.
From S2P Require Import SqlWriter.
From S2P Require Import Actions.
From S2P Require Import Duplicate.

Record Coordinator := mkCoordinator {
  Coordinator_actions : gmap string DBAction;
  Coordinator_orderedActions : list string;
}.

(** One iteration of the loop; [slices.Delete] at index -1 panics. *)
Definition addAction (c : Coordinator) (action : DBAction) : outcome error Coordinator :=
  match c.(Coordinator_actions) !! ID action with
  | Some act =>
      match slices_Index c.(Coordinator_orderedActions) (ID act) with
      | Some idx =>
          Ok (mkCoordinator c.(Coordinator_actions)
                (slices_Delete c.(Coordinator_orderedActions) idx ++ [ID action]))
      | None => Panic
      end
  | None =>
      Ok (mkCoordinator (<[ID action := action]> c.(Coordinator_actions))
            (c.(Coordinator_orderedActions) ++ [ID action]))
  end.

Fixpoint addActions (c : Coordinator) (l : list DBAction) : outcome error Coordinator :=
  match l with
  | [] => Ok c
  | a :: l => c ← addAction c a; addActions c l
  end.

Definition NewCoordinator (actions : list DBAction) : outcome error Coordinator :=
  addActions (mkCoordinator ∅ []) actions.

(** The specification *)
Fixpoint first_with (l : list DBAction) (id : string) : option DBAction :=
  match l with
  | [] => None
  | a :: l => if decide (ID a = id) then Some a else first_with l id
  end.

Definition coordinated (l : list DBAction) : list DBAction :=
  omap (first_with l) (keep_last (ID <$> l)).

Section Execute.
Context `{!Pq} {D : Type} `{!DB D}.

Definition executeOne (fuel : nat) (a : DBAction) : M D () :=
  wrap_err (ErrorfW "failed to execute action %s: %w" [ID a]) (Execute fuel a).

Definition executeID (fuel : nat) (c : Coordinator) (id : string) : M D () :=
  match c.(Coordinator_actions) !! id with
  | None => fail (Errorf "action %s not found" [id])
  | Some action =>
      wrap_err (ErrorfW "failed to execute action %s: %w" [id]) (Execute fuel action)
  end.

Definition Coordinator_Execute (fuel : nat) (c : Coordinator) : M D () :=
  for_each (executeID fuel c) c.(Coordinator_orderedActions).

(** [NewCoordinator(actions).Execute(ctx)] *)
Definition coordinate (fuel : nat) (actions : list DBAction) : M D () :=
  c ← lift (NewCoordinator actions); Coordinator_Execute fuel c.
End Execute.

(** ** Lemmas *)

Lemma slices_Index_Some `{EqDecision A} (l : list A) x :
  x ∈ l → ∃ i, slices_Index l x = Some i.
Proof.
  induction l as [|y l IH]; [by intros ?%elem_of_nil|].
  cbn. case_decide; [eauto|]. intros [->|Hx]%elem_of_cons; [done|].
  destruct (IH Hx) as [i ->]. by eexists.
Qed.

Lemma slices_Delete_Index `{EqDecision A} (l : list A) x i :
  NoDup l → slices_Index l x = Some i → slices_Delete l i = filter (λ y, y ≠ x) l.
Proof.
  intros Hnd. revert i. induction Hnd as [|y l Hy Hl IH]; intros i; [done|].
  cbn [slices_Index]. case_decide as Heq; subst.
  - intros [= <-]. unfold slices_Delete. rewrite filter_cons_False by naive_solver.
    symmetry. apply filter_all. by intros z Hz ->.
  - destruct (slices_Index l x) as [j|]; [|done]. intros [= <-].
    rewrite filter_cons_True by done. rewrite <-(IH _ eq_refl). done.
Qed.

Definition coordinator_of (l : list DBAction) (c : Coordinator) : Prop :=
  (∀ id, c.(Coordinator_actions) !! id = first_with l id) ∧
  c.(Coordinator_orderedActions) = keep_last (ID <$> l).

Lemma first_with_snoc l a id :
  first_with (l ++ [a]) id =
    match first_with l id with Some b => Some b | None => if decide (ID a = id) then Some a else None end.
Proof.
  induction l as [|b l IH]; [done|]. cbn. by destruct (decide (ID b = id)).
Qed.

Lemma first_with_ID l id a : first_with l id = Some a → ID a = id ∧ a ∈ l.
Proof.
  induction l as [|b l IH]; cbn; [done|]. case_decide.
  - intros [= ->]. split; [done|left].
  - intros [? ?]%IH. split; [done|by right].
Qed.

Lemma first_with_is_Some l id : is_Some (first_with l id) ↔ id ∈ ID <$> l.
Proof.
  induction l as [|b l IH]; cbn.
  - split; [by intros []|by intros ?%elem_of_nil].
  - rewrite elem_of_cons, <-IH. case_decide; naive_solver.
Qed.

Lemma addAction_spec l c a :
  coordinator_of l c → ∃ c', addAction c a = Ok c' ∧ coordinator_of (l ++ [a]) c'.
Proof.
  intros [Hm Ho]. unfold addAction.
  destruct (c.(Coordinator_actions) !! ID a) as [b|] eqn:Hb; rewrite Hm in Hb.
  - destruct (first_with_ID _ _ _ Hb) as [Hid Hbl]. rewrite Ho, Hid.
    destruct (slices_Index_Some (keep_last (ID <$> l)) (ID a)) as [i Hi].
    { rewrite elem_of_keep_last, <-Hid. by apply list_elem_of_fmap_2. }
    rewrite Hi. eexists; split; [done|]. split; cbn.
    + intros id. rewrite Hm, first_with_snoc. destruct (first_with l id) eqn:E; [done|].
      rewrite decide_False; [done|]. intros <-. congruence.
    + rewrite fmap_app. cbn. rewrite keep_last_snoc.
      by rewrite (slices_Delete_Index _ _ _ (NoDup_keep_last _) Hi).
  - eexists; split; [done|]. split; cbn.
    + intros id. rewrite first_with_snoc, lookup_insert, Hm. case_decide as Heq; subst.
      * by rewrite Hb.
      * by destruct (first_with l id).
    + rewrite fmap_app, Ho. cbn. rewrite keep_last_snoc. f_equal.
      symmetry. apply filter_all. intros x Hx ->. rewrite elem_of_keep_last in Hx.
      apply first_with_is_Some in Hx as [? ?]. congruence.
Qed.

Lemma addActions_spec l1 l2 c :
  coordinator_of l1 c → ∃ c', addActions c l2 = Ok c' ∧ coordinator_of (l1 ++ l2) c'.
Proof.
  revert l1 c. induction l2 as [|a l2 IH]; intros l1 c Hc; cbn.
  - rewrite app_nil_r. eauto.
  - destruct (addAction_spec _ _ a Hc) as (c1 & -> & Hc1). cbn.
    destruct (IH _ _ Hc1) as (c2 & -> & Hc2). exists c2. split; [done|].
    by rewrite <-app_assoc in Hc2.
Qed.

Lemma NewCoordinator_spec l : ∃ c, NewCoordinator l = Ok c ∧ coordinator_of l c.
Proof. by apply (addActions_spec [] l). Qed.

Lemma elem_of_coordinated l a : a ∈ coordinated l → a ∈ l.
Proof. by intros (id & _ & [_ ?]%first_with_ID)%list_elem_of_omap. Qed.

Lemma coordinated_IDs l : ID <$> coordinated l = keep_last (ID <$> l).
Proof.
  unfold coordinated.
  assert (∀ ids, Forall (λ id, id ∈ ID <$> l) ids → ID <$> omap (first_with l) ids = ids) as Hids.
  { induction 1 as [|id ids Hid _ IH]; [done|]. apply first_with_is_Some in Hid as [a Ha].
    cbn. rewrite Ha. cbn. apply first_with_ID in Ha as [-> _]. by f_equal. }
  apply Hids, Forall_forall. intros id. by rewrite elem_of_keep_last.
Qed.

Lemma coordinated_NoDup l : NoDup (ID <$> l) → coordinated l = l.
Proof.
  intros Hnd. unfold coordinated. rewrite keep_last_NoDup by done.
  assert (∀ l1 l2, l = l1 ++ l2 → omap (first_with l) (ID <$> l2) = l2) as Hl.
  { intros l1 l2. revert l1. induction l2 as [|a l2 IH]; intros l1 Heq; [done|].
    cbn. assert (first_with l (ID a) = Some a) as ->.
    { rewrite Heq in Hnd |- *. clear -Hnd. induction l1 as [|b l1 IH]; cbn in *.
      - by rewrite decide_True by done.
      - apply NoDup_cons in Hnd as [Hb Hnd]. rewrite decide_False; [by apply IH|].
        intros Hid. apply Hb. rewrite Hid, fmap_app. set_solver. }
    f_equal. apply (IH (l1 ++ [a])). by rewrite <-app_assoc. }
  by apply (Hl []).
Qed.

(** ** Theorems *)

Lemma coordinate_unfold `{!Pq} {D} `{!DB D} fuel actions (w : World D) :
  coordinate fuel actions w = for_each (executeOne fuel) (coordinated actions) w.
Proof.
  destruct (NewCoordinator_spec actions) as (c & Hc & Ha & Ho).
  unfold coordinate. rewrite Hc.
  change (for_each (executeID fuel c) c.(Coordinator_orderedActions) w
          = for_each (executeOne fuel) (coordinated actions) w).
  rewrite Ho. unfold coordinated.
  assert (∀ ids, Forall (λ id, id ∈ ID <$> actions) ids → ∀ w,
    for_each (executeID fuel c) ids w
    = for_each (executeOne fuel) (omap (first_with actions) ids) w) as Hids.
  { induction 1 as [|id ids Hid _ IH]; intros w'; [done|].
    apply first_with_is_Some in Hid as [a Hf]. cbn [for_each omap list_omap]. rewrite Hf.
    pose proof (first_with_ID _ _ _ Hf) as [Hi _]. cbn [for_each].
    assert (executeID fuel c id w' = executeOne fuel a w') as Heq
      by (unfold executeID, executeOne; by rewrite Ha, Hf, Hi).
    unfold mbind, prog_bind. rewrite Heq. destruct (executeOne fuel a w') as [[]?]; [apply IH|done..]. }
  apply Hids, Forall_forall. intros id. by rewrite elem_of_keep_last.
Qed.

(** C24. The coordinator runs one action per identifier — the first that
    carried it, at the position of the last that did — in order, stopping at
    the first failure; it never fails to find an action and never panics of
    itself. *)
Theorem coordinate_spec `{!Pq} {D} `{!DB D} fuel actions (w : World D) :
  coordinate fuel actions w = for_each (executeOne fuel) (coordinated actions) w ∧
  ID <$> coordinated actions = keep_last (ID <$> actions) ∧
  (∀ a, a ∈ coordinated actions → first_with actions (ID a) = Some a) ∧
  (NoDup (ID <$> actions) → coordinated actions = actions).
Proof.
  split_and!; [apply coordinate_unfold|apply coordinated_IDs| |apply coordinated_NoDup].
  intros a (id & Hid & Hf)%list_elem_of_omap.
  by destruct (first_with_ID _ _ _ Hf) as [-> _].
Qed.

(** Two different drops share an identifier, so only one of them runs. *)
Lemma drop_column_IDs_collide :
  let l := [dropColumnAction "t" ["a"; "b"]; dropColumnAction "t" ["a_b"]] in
  coordinated l = [dropColumnAction "t" ["a"; "b"]].
Proof. reflexivity. Qed.
