(* ===== verification/Catalog.v ===== *)
(** * Catalog: what the completion actions rely on PostgreSQL for

    [Catalog] states the documented behaviour of the three catalog probes and
    of the four statements that have no [IF NOT EXISTS] form.  [PgCatalog] is
    a database in memory that has it: it reads the statements back from their
    text. *)

From S2P Require Import Prelude.
From S2P Require Import GoStd.
From S2P Require Import Names.
From S2P Require Import Schema.
From S2P Require Import Types.
From S2P Require Import Db.
From S2P Require Import SqlWriter.
From S2P Require Import Actions.

(** [has_table], [has_column], [has_constraint] and [has_primary_key] are the
    contents of [pg_class], [pg_attribute] and [pg_constraint] for the tables
    on the search path.  A rename that succeeds on an existing table found the
    old name and not the new one; an [ALTER TABLE IF EXISTS] of a missing
    table is a no-op. *)
Class Catalog (D : Type) `{!Pq} `{!DB D} := {
  has_table : D → string → bool;
  has_column : D → string → string → bool;
  has_constraint : D → string → string → bool;
  has_primary_key : D → string → bool;
  columnExists_spec t c (w : World D) :
    columnExists t c w = (Ok (has_column (w_db w) t c, true), w);
  constraintExists_spec t c (w : World D) :
    constraintExists t c w = (Ok (has_constraint (w_db w) t c, true), w);
  primaryKeyExists_spec t (w : World D) :
    primaryKeyExists t w = (Ok (has_primary_key (w_db w) t, true), w);
  no_table_no_op d t a b :
    has_table d t = false →
    ExecContext (renameColumnSQL t a b) d = (Ok (), d) ∧
    ExecContext (renameConstraintSQL t a b) d = (Ok (), d) ∧
    ExecContext (addUniqueSQL t a b) d = (Ok (), d);
  renameColumn_spec d t f g d' :
    has_table d t = true → ExecContext (renameColumnSQL t f g) d = (Ok (), d') →
    has_column d t f = true ∧ has_column d t g = false ∧
    has_table d' = has_table d ∧ has_constraint d' = has_constraint d ∧
    has_primary_key d' = has_primary_key d ∧
    ∀ t' c, has_column d' t' c =
      if decide (t' = t) then
        if decide (c = f) then false else if decide (c = g) then true else has_column d t c
      else has_column d t' c;
  renameConstraint_spec d t f g d' :
    has_table d t = true → ExecContext (renameConstraintSQL t f g) d = (Ok (), d') →
    has_constraint d t f = true ∧ has_constraint d t g = false ∧
    has_table d' = has_table d ∧ has_column d' = has_column d ∧
    has_primary_key d' = has_primary_key d ∧
    ∀ t' c, has_constraint d' t' c =
      if decide (t' = t) then
        if decide (c = f) then false else if decide (c = g) then true else has_constraint d t c
      else has_constraint d t' c;
  addUnique_spec d t c i d' :
    has_table d t = true → ExecContext (addUniqueSQL t c i) d = (Ok (), d') →
    has_table d' = has_table d ∧ has_column d' = has_column d ∧
    has_primary_key d' = has_primary_key d ∧
    ∀ t' c', has_constraint d' t' c' =
      bool_decide (t' = t ∧ c' = c) || has_constraint d t' c';
  addPrimaryKey_spec d t i d' :
    ExecContext (addPrimaryKeySQL t i) d = (Ok (), d') →
    has_table d' = has_table d ∧ has_column d' = has_column d ∧
    (∀ t' c', has_constraint d t' c' = true → has_constraint d' t' c' = true) ∧
    (∀ t' c', t' ≠ t → has_constraint d' t' c' = has_constraint d t' c') ∧
    ∀ t', has_primary_key d' t' = bool_decide (t' = t) || has_primary_key d t';
}.

(** ** A catalog in memory *)

(** [pq.QuoteIdentifier]: a double quote is doubled. *)
Definition dquote : ascii := Ascii.ascii_of_nat 34.
Fixpoint pg_escape (s : string) : string :=
  match s with
  | "" => ""
  | String c s =>
      if Ascii.eqb c dquote then String c (String c (pg_escape s)) else String c (pg_escape s)
  end.
Definition pg_quote (s : string) : string := String dquote (pg_escape s +:+ String dquote "").

#[export] Instance pg_pq : Pq := {|
  QuoteIdentifier := pg_quote;
  QuoteLiteral s := "'" +:+ s +:+ "'";
  NewString n := "uuid-" +:+ Nat.iter n (String.append "i") "";
|}.

(** The name a quoted identifier stands for and the text after it *)
Fixpoint pg_unescape (s : string) : option (string * string) :=
  match s with
  | "" => None
  | String c s' =>
      if Ascii.eqb c dquote then
        match s' with
        | String c' s'' =>
            if Ascii.eqb c' dquote
            then '(n, r) ← pg_unescape s''; Some (String c n, r) else Some ("", s')
        | "" => Some ("", "")
        end
      else '(n, r) ← pg_unescape s'; Some (String c n, r)
  end.
Definition pg_ident (s : string) : option (string * string) :=
  match s with
  | String c s' => if Ascii.eqb c dquote then pg_unescape s' else None
  | "" => None
  end.

Fixpoint pg_expect (p s : string) : option string :=
  match p, s with
  | "", _ => Some s
  | String a p, String b s => if Ascii.eqb a b then pg_expect p s else None
  | String _ _, "" => None
  end.

Lemma pg_unescape_escape n r :
  (∀ r', r ≠ String dquote r') → pg_unescape (pg_escape n +:+ String dquote r) = Some (n, r).
Proof.
  intros Hr. induction n as [|c n IH].
  - cbn. destruct r as [|c r]; [done|]. destruct (Ascii.eqb_spec c dquote) as [->|]; [|done].
    by destruct (Hr r).
  - cbn [pg_escape]. destruct (Ascii.eqb_spec c dquote) as [->|Hc]; cbn [String.append pg_unescape].
    + cbn. by rewrite IH.
    + rewrite (proj2 (Ascii.eqb_neq c dquote) Hc). by rewrite IH.
Qed.
Lemma pg_ident_quote n r :
  (∀ r', r ≠ String dquote r') → pg_ident (pg_quote n +:+ r) = Some (n, r).
Proof.
  intros Hr. unfold pg_ident, pg_quote. cbn [String.append]. rewrite Ascii.eqb_refl, app_assoc_str.
  by apply pg_unescape_escape.
Qed.
Lemma pg_expect_app p s : pg_expect p (p +:+ s) = Some s.
Proof. induction p as [|c p IH]; [done|]. cbn. by rewrite Ascii.eqb_refl. Qed.

Inductive pg_statement :=
  | PgRenameColumn (table from to : string)
  | PgRenameConstraint (table from to : string)
  | PgAddUnique (table constraint index : string)
  | PgAddPrimaryKey (table index : string).

Definition pg_names (sep rest : string) : option (string * string) :=
  '(a, rest) ← pg_ident rest; rest ← pg_expect sep rest; '(b, _) ← pg_ident rest; Some (a, b).

Definition pg_parse (sql : string) : option pg_statement :=
  match pg_expect "ALTER TABLE IF EXISTS " sql with
  | Some rest =>
      '(t, rest) ← pg_ident rest;
      match pg_expect " RENAME COLUMN " rest, pg_expect " RENAME CONSTRAINT " rest,
            pg_expect " ADD CONSTRAINT " rest with
      | Some rest, _, _ => '(f, g) ← pg_names " TO " rest; Some (PgRenameColumn t f g)
      | _, Some rest, _ => '(f, g) ← pg_names " TO " rest; Some (PgRenameConstraint t f g)
      | _, _, Some rest =>
          '(c, i) ← pg_names " UNIQUE USING INDEX " rest; Some (PgAddUnique t c i)
      | _, _, _ => None
      end
  | None =>
      rest ← pg_expect "ALTER TABLE " sql;
      '(t, i) ← pg_names " ADD PRIMARY KEY USING INDEX " rest; Some (PgAddPrimaryKey t i)
  end.

Lemma pg_names_app sep a b :
  (∀ r r', sep +:+ r ≠ String dquote r') →
  pg_names sep (pg_quote a +:+ sep +:+ pg_quote b) = Some (a, b).
Proof.
  intros Hsep. unfold pg_names. rewrite pg_ident_quote by done. cbn [mbind option_bind].
  rewrite pg_expect_app. cbn [mbind option_bind].
  by rewrite <-(app_nil_r_str (pg_quote b)), pg_ident_quote by done.
Qed.

Lemma pg_parse_renameColumn t f g : pg_parse (renameColumnSQL t f g) = Some (PgRenameColumn t f g).
Proof.
  unfold pg_parse, renameColumnSQL. rewrite pg_expect_app. cbn [mbind option_bind].
  rewrite pg_ident_quote by done. cbn [mbind option_bind]. rewrite pg_expect_app.
  by rewrite (pg_names_app " TO ") by done.
Qed.
Lemma pg_parse_renameConstraint t f g :
  pg_parse (renameConstraintSQL t f g) = Some (PgRenameConstraint t f g).
Proof.
  unfold pg_parse, renameConstraintSQL. rewrite pg_expect_app. cbn [mbind option_bind].
  rewrite pg_ident_quote by done. cbn [mbind option_bind].
  rewrite (pg_expect_app " RENAME CONSTRAINT ").
  change (pg_expect " RENAME COLUMN " (" RENAME CONSTRAINT " +:+ _)) with (@None string). cbn iota.
  by rewrite (pg_names_app " TO ") by done.
Qed.
Lemma pg_parse_addUnique t c i : pg_parse (addUniqueSQL t c i) = Some (PgAddUnique t c i).
Proof.
  unfold pg_parse, addUniqueSQL. rewrite pg_expect_app. cbn [mbind option_bind].
  rewrite pg_ident_quote by done. cbn [mbind option_bind].
  rewrite (pg_expect_app " ADD CONSTRAINT ").
  change (pg_expect " RENAME COLUMN " (" ADD CONSTRAINT " +:+ _)) with (@None string).
  change (pg_expect " RENAME CONSTRAINT " (" ADD CONSTRAINT " +:+ _)) with (@None string).
  cbn iota. by rewrite (pg_names_app " UNIQUE USING INDEX ") by done.
Qed.
Lemma pg_parse_addPrimaryKey t i : pg_parse (addPrimaryKeySQL t i) = Some (PgAddPrimaryKey t i).
Proof.
  unfold pg_parse, addPrimaryKeySQL.
  change (pg_expect "ALTER TABLE IF EXISTS " ("ALTER TABLE " +:+ QuoteIdentifier t +:+ _))
    with (@None string). cbn iota.
  rewrite (pg_expect_app "ALTER TABLE "). cbn [mbind option_bind].
  by rewrite (pg_names_app " ADD PRIMARY KEY USING INDEX ") by done.
Qed.

Record PgCatalog := mkPgCatalog {
  pg_tables : gset string;
  pg_columns : gset (string * string);
  pg_constraints : gset (string * string);
  pg_primary_keys : gset string;
}.

Definition pg_failed (what : string) (name : string) : error := Errorf what [name].

Definition pg_exec (s : pg_statement) (d : PgCatalog) : outcome error () * PgCatalog :=
  let '(mkPgCatalog ts cols cs pks) := d in
  match s with
  | PgRenameColumn t f g =>
      if decide (t ∉ ts) then (Ok (), d)
      else if decide ((t, f) ∉ cols) then (Err (pg_failed "column %q does not exist" f), d)
      else if decide ((t, g) ∈ cols) then (Err (pg_failed "column %q already exists" g), d)
      else (Ok (), mkPgCatalog ts ({[(t, g)]} ∪ cols ∖ {[(t, f)]}) cs pks)
  | PgRenameConstraint t f g =>
      if decide (t ∉ ts) then (Ok (), d)
      else if decide ((t, f) ∉ cs) then (Err (pg_failed "constraint %q does not exist" f), d)
      else if decide ((t, g) ∈ cs) then (Err (pg_failed "constraint %q already exists" g), d)
      else (Ok (), mkPgCatalog ts cols ({[(t, g)]} ∪ cs ∖ {[(t, f)]}) pks)
  | PgAddUnique t c i =>
      if decide (t ∉ ts) then (Ok (), d)
      else if decide ((t, c) ∈ cs) then (Err (pg_failed "constraint %q already exists" c), d)
      else (Ok (), mkPgCatalog ts cols ({[(t, c)]} ∪ cs) pks)
  | PgAddPrimaryKey t i =>
      if decide (t ∉ ts) then (Err (pg_failed "relation %q does not exist" t), d)
      else if decide (t ∈ pks) then (Err (pg_failed "multiple primary keys for %q" t), d)
      else (Ok (), mkPgCatalog ts cols ({[(t, i)]} ∪ cs) ({[t]} ∪ pks))
  end.

Definition pg_bool (b : bool) : outcome error (option Rows) :=
  Ok (Some (mkRows [[VBool b]] None)).

(** Any other statement succeeds and changes nothing here; any other query has
    no rows. *)
#[export] Instance pg_DB : DB PgCatalog := {|
  ExecContext sql d := match pg_parse sql with Some s => pg_exec s d | None => (Ok (), d) end;
  QueryContext sql args d :=
    match pg_ident (default "" (head args)), tail args with
    | Some (t, _), [n] =>
        if HasSuffix sql "AND NOT attisdropped)"
        then (pg_bool (bool_decide ((t, n) ∈ pg_columns d)), d)
        else if HasSuffix sql "AND conname = $2)"
        then (pg_bool (bool_decide ((t, n) ∈ pg_constraints d)), d)
        else (Ok (Some (mkRows [] None)), d)
    | Some (t, _), [] =>
        if HasSuffix sql "AND contype = 'p')"
        then (pg_bool (bool_decide (t ∈ pg_primary_keys d)), d)
        else (Ok (Some (mkRows [] None)), d)
    | _, _ => (Ok (Some (mkRows [] None)), d)
    end;
  WithRetryableTransaction _ d := (Ok (), d);
  is_fake := false;
  RetryBudget _ := 0%Z;
  expired d := (true, d);
|}.

Lemma pg_ident_quote_nil n : pg_ident (pg_quote n) = Some (n, "").
Proof. rewrite <-(app_nil_r_str (pg_quote n)). by apply pg_ident_quote. Qed.

Ltac pg_cases := repeat case_decide; intros; simplify_eq/=; try done.
Ltac pg_sets :=
  repeat match goal with
  | |- context [bool_decide ?P] => destruct (bool_decide_reflect P)
  | H : context [bool_decide ?P] |- _ => destruct (bool_decide_reflect P)
  end; repeat case_decide; simplify_eq; try done; set_solver.

Lemma pg_renamed (t f g : string) (m : gset (string * string)) t' c :
  (t, f) ∈ m → (t, g) ∉ m →
  bool_decide ((t', c) ∈ {[(t, g)]} ∪ m ∖ {[(t, f)]}) =
    if decide (t' = t) then
      if decide (c = f) then false else if decide (c = g) then true else bool_decide ((t, c) ∈ m)
    else bool_decide ((t', c) ∈ m).
Proof.
  intros Hf Hg.
  assert ((t', c) ∈ {[(t, g)]} ∪ m ∖ {[(t, f)]} ↔
          (t' = t ∧ c = g) ∨ (t', c) ∈ m ∧ ¬ (t' = t ∧ c = f)) as Hiff.
  { rewrite elem_of_union, elem_of_singleton, elem_of_difference, elem_of_singleton.
    naive_solver. }
  rewrite (bool_decide_ext _ _ Hiff). clear Hiff.
  repeat case_decide; subst; (apply bool_decide_eq_true || apply bool_decide_eq_false ||
    apply bool_decide_ext); naive_solver.
Qed.

#[export] Instance pg_Catalog : Catalog PgCatalog.
Proof.
  refine {|
    has_table d t := bool_decide (t ∈ pg_tables d);
    has_column d t c := bool_decide ((t, c) ∈ pg_columns d);
    has_constraint d t c := bool_decide ((t, c) ∈ pg_constraints d);
    has_primary_key d t := bool_decide (t ∈ pg_primary_keys d);
  |}.
  - intros t c [s h d u]. unfold columnExists, probeBool, query, mbind, prog_bind. cbn -[pg_ident HasSuffix].
    rewrite pg_ident_quote_nil. reflexivity.
  - intros t c [s h d u]. unfold constraintExists, probeBool, query, mbind, prog_bind.
    cbn -[pg_ident HasSuffix]. rewrite pg_ident_quote_nil. reflexivity.
  - intros t [s h d u]. unfold primaryKeyExists, probeBool, query, mbind, prog_bind.
    cbn -[pg_ident HasSuffix]. rewrite pg_ident_quote_nil. reflexivity.
  - intros [ts cols cs pks] t a b Ht%bool_decide_eq_false. cbn [ExecContext pg_DB pg_tables pg_columns pg_constraints pg_primary_keys] in *.
    rewrite pg_parse_renameColumn, pg_parse_renameConstraint, pg_parse_addUnique. cbn. pg_cases.
  - intros [ts cols cs pks] t f g d' Ht%bool_decide_eq_true. cbn [ExecContext pg_DB pg_tables pg_columns pg_constraints pg_primary_keys] in *.
    rewrite pg_parse_renameColumn. cbn [pg_exec]. pg_cases.
    split_and!; [done..|]. intros. by apply pg_renamed.
  - intros [ts cols cs pks] t f g d' Ht%bool_decide_eq_true. cbn [ExecContext pg_DB pg_tables pg_columns pg_constraints pg_primary_keys] in *.
    rewrite pg_parse_renameConstraint. cbn [pg_exec]. pg_cases.
    split_and!; [done..|]. intros. by apply pg_renamed.
  - intros [ts cols cs pks] t c i d' Ht%bool_decide_eq_true. cbn [ExecContext pg_DB pg_tables pg_columns pg_constraints pg_primary_keys] in *.
    rewrite pg_parse_addUnique. cbn. pg_cases. split_and!; try done; intros; pg_sets.
  - intros [ts cols cs pks] t i d'. cbn [ExecContext pg_DB pg_tables pg_columns pg_constraints pg_primary_keys] in *.
    rewrite pg_parse_addPrimaryKey. cbn. pg_cases. split_and!; try done; intros; pg_sets.
Defined.
