(* ===== verification/ResumeFacts.v ===== *)
(** * ResumeFacts: completing again after an interruption

    [complete] is not one transaction: a run that is interrupted is repeated
    from its first action.  Every action without an [IF NOT EXISTS] form first
    looks whether it was done; [achieved] is what it finds then.  Running the
    whole list again after any prefix of it gives the same result as running
    it once, as long as no action of the list undoes what an earlier one
    looks for ([undisturbed]). *)

From S2P Require Import Prelude.
From S2P Require Import GoStd.
From S2P Require Import Names.
From S2P Require Import Schema.
From S2P Require Import Types.
From S2P Require Import Db.
From S2P Require Import SqlWriter.
From S2P Require Import Actions.
From S2P Require Import Duplicate.
From S2P Require Import Coordinator.
From S2P Require Import Catalog.

(** The actions [catalog.go] guards *)
Definition is_guarded (a : DBAction) : bool :=
  match a with
  | renameColumnAction _ _ _ | renameConstraintAction _ _ _
  | addConstraintUsingUniqueIndexAction _ _ _ | addPrimaryKeyAction _ _ => true
  | _ => false
  end.

(** [b], run after [a], leaves alone what [a] looks for. *)
Definition undisturbed (a b : DBAction) : bool :=
  match a, b with
  | renameColumnAction t f g, renameColumnAction t' f' g' =>
      negb (String.eqb t t') || (negb (String.eqb f' g) && negb (String.eqb g' f))
  | renameConstraintAction t f g, renameConstraintAction t' f' g' =>
      negb (String.eqb t t') || (negb (String.eqb f' g) && negb (String.eqb g' f))
  | renameConstraintAction t f _, addConstraintUsingUniqueIndexAction t' c _ =>
      negb (String.eqb t t') || negb (String.eqb c f)
  | renameConstraintAction t _ _, addPrimaryKeyAction t' _ => negb (String.eqb t t')
  | addConstraintUsingUniqueIndexAction t c _, renameConstraintAction t' f' _ =>
      negb (String.eqb t t') || negb (String.eqb f' c)
  | _, _ => true
  end.

(** Every action is undisturbed by those after it. *)
Fixpoint all_undisturbed (l : list DBAction) : bool :=
  match l with
  | [] => true
  | a :: l => forallb (undisturbed a) l && all_undisturbed l
  end.

Section resume.
Context `{!Pq} {D : Type} `{!DB D} `{!Catalog D}.
Implicit Types w : World D.

(** What the guard of an action sees once the action is done *)
Definition achieved (a : DBAction) (d : D) : bool :=
  match a with
  | renameColumnAction t f g =>
      negb (has_table d t) || (negb (has_column d t f) && has_column d t g)
  | renameConstraintAction t f g =>
      negb (has_table d t) || (negb (has_constraint d t f) && has_constraint d t g)
  | addConstraintUsingUniqueIndexAction t c _ => negb (has_table d t) || has_constraint d t c
  | addPrimaryKeyAction t _ => has_primary_key d t
  | _ => false
  end.

(** What running a guarded action comes to *)
Definition guard (a : DBAction) (d : D) : bool :=
  match a with
  | renameColumnAction t f g => negb (has_column d t f) && has_column d t g
  | renameConstraintAction t f g => negb (has_constraint d t f) && has_constraint d t g
  | addConstraintUsingUniqueIndexAction t c _ => has_constraint d t c
  | addPrimaryKeyAction t _ => has_primary_key d t
  | _ => false
  end.
Definition statement (a : DBAction) : string :=
  match a with
  | renameColumnAction t f g => renameColumnSQL t f g
  | renameConstraintAction t f g => renameConstraintSQL t f g
  | addConstraintUsingUniqueIndexAction t c i => addUniqueSQL t c i
  | addPrimaryKeyAction t i => addPrimaryKeySQL t i
  | _ => ""
  end.

Lemma alreadyRenamed_eq p (h : D → string → string → bool) t f g w :
  (∀ t c w, p t c w = (Ok (h (w_db w) t c, true), w)) →
  alreadyRenamed p t f g w = (Ok (negb (h (w_db w) t f) && h (w_db w) t g), w).
Proof.
  intros Hp. unfold alreadyRenamed, try, mbind, prog_bind. rewrite Hp.
  destruct (h (w_db w) t f); [done|]. by rewrite Hp.
Qed.

Lemma Execute_guarded fuel a w :
  is_guarded a = true →
  Execute fuel a w = if guard a (w_db w) then (Ok (), w) else exec (statement a) w.
Proof.
  intros Ha. destruct a; try done; cbn [Execute guard statement];
    unfold execRenameColumn, execRenameConstraint, execAddConstraintUsingUniqueIndex,
      execAddPrimaryKey; unfold mbind at 1, prog_bind at 1.
  - rewrite (alreadyRenamed_eq _ has_column) by apply columnExists_spec. by case_match.
  - rewrite (alreadyRenamed_eq _ has_constraint) by apply constraintExists_spec. by case_match.
  - rewrite constraintExists_spec. cbn. by case_match.
  - rewrite primaryKeyExists_spec. cbn. by case_match.
Qed.

(** An action that is achieved changes nothing. *)
Lemma achieved_no_op fuel a w :
  is_guarded a = true → achieved a (w_db w) = true → Execute fuel a w = (Ok (), w).
Proof.
  intros Ha Hd. rewrite Execute_guarded by done. destruct (guard a (w_db w)) eqn:Hg; [done|].
  unfold exec. destruct a as [| | |t f g|t f g|t c i|t i| | | | | | | | | | | | | | | | | | | |];
    try done; cbn [achieved guard statement] in *; try congruence; apply orb_true_iff in Hd as [Hd|Hd]; try congruence;
    apply negb_true_iff in Hd.
  - destruct (no_table_no_op (w_db w) t f g Hd) as (-> & _). by destruct w.
  - destruct (no_table_no_op (w_db w) t f g Hd) as (_ & -> & _). by destruct w.
  - destruct (no_table_no_op (w_db w) t c i Hd) as (_ & _ & ->). by destruct w.
Qed.

(** Running an action achieves it. *)
Lemma Execute_achieves fuel a w w' :
  is_guarded a = true → Execute fuel a w = (Ok (), w') → achieved a (w_db w') = true.
Proof.
  intros Ha. rewrite Execute_guarded by done. destruct (guard a (w_db w)) eqn:Hg.
  { intros [= <-]. destruct a; try done; cbn [achieved guard] in *; by rewrite Hg, ?orb_true_r. }
  unfold exec. destruct (ExecContext _ _) as [r d'] eqn:He. intros [= -> <-].
  destruct a as [| | |t f g|t f g|t c i|t i| | | | | | | | | | | | | | | | | | | |]; try done;
    cbn [achieved guard statement w_db set_w_db] in *;
    try (destruct (has_table (w_db w) t) eqn:Ht;
         [|destruct (no_table_no_op (w_db w) t f g Ht) as (H1 & H2 & _) ||
           destruct (no_table_no_op (w_db w) t c i Ht) as (_ & _ & H1);
           rewrite ?H1, ?H2 in He; simplify_eq; by rewrite Ht]).
  - apply renameColumn_spec in He as (Hf & Hn & -> & _ & _ & Hc); [|done].
    rewrite !Hc, !decide_True by done. rewrite decide_False by congruence.
    rewrite decide_True by done. by rewrite orb_true_r.
  - apply renameConstraint_spec in He as (Hf & Hn & -> & _ & _ & Hc); [|done].
    rewrite !Hc, !decide_True by done. rewrite decide_False by congruence.
    rewrite decide_True by done. by rewrite orb_true_r.
  - apply addUnique_spec in He as (-> & _ & _ & Hc); [|done].
    rewrite Hc, bool_decide_true by done. by rewrite orb_true_r.
  - apply addPrimaryKey_spec in He as (_ & _ & _ & _ & Hp). by rewrite Hp, bool_decide_true.
Qed.

(** What a successful run of a guarded action changes *)
Definition effect (b : DBAction) (d d' : D) : Prop :=
  d' = d ∨
  has_table d' = has_table d ∧
  match b with
  | renameColumnAction t f g =>
      has_constraint d' = has_constraint d ∧ has_primary_key d' = has_primary_key d ∧
      has_column d t f = true ∧ has_column d t g = false ∧
      ∀ t' c, t' ≠ t ∨ (c ≠ f ∧ c ≠ g) → has_column d' t' c = has_column d t' c
  | renameConstraintAction t f g =>
      has_column d' = has_column d ∧ has_primary_key d' = has_primary_key d ∧
      has_constraint d t f = true ∧ has_constraint d t g = false ∧
      ∀ t' c, t' ≠ t ∨ (c ≠ f ∧ c ≠ g) → has_constraint d' t' c = has_constraint d t' c
  | addConstraintUsingUniqueIndexAction t c _ =>
      has_column d' = has_column d ∧ has_primary_key d' = has_primary_key d ∧
      (∀ t' c', t' ≠ t ∨ c' ≠ c → has_constraint d' t' c' = has_constraint d t' c') ∧
      has_constraint d' t c = true
  | addPrimaryKeyAction t _ =>
      has_column d' = has_column d ∧
      (∀ t' c', has_constraint d t' c' = true → has_constraint d' t' c' = true) ∧
      (∀ t' c', t' ≠ t → has_constraint d' t' c' = has_constraint d t' c') ∧
      ∀ t', has_primary_key d t' = true → has_primary_key d' t' = true
  | _ => False
  end.

Lemma Execute_effect fuel b w w' :
  is_guarded b = true → Execute fuel b w = (Ok (), w') → effect b (w_db w) (w_db w').
Proof.
  intros Hb. rewrite Execute_guarded by done. destruct (guard b (w_db w)).
  { intros [= <-]. by left. }
  unfold exec. destruct (ExecContext _ _) as [r d'] eqn:He. intros [= -> <-].
  destruct b as [| | |t f g|t f g|t c i|t i| | | | | | | | | | | | | | | | | | | |]; try done;
    cbn [statement w_db set_w_db] in *;
    try (destruct (has_table (w_db w) t) eqn:Ht;
         [right|left; destruct (no_table_no_op (w_db w) t f g Ht) as (H1 & H2 & _) ||
                destruct (no_table_no_op (w_db w) t c i Ht) as (_ & _ & H1);
                rewrite ?H1, ?H2 in He; by simplify_eq]).
  - apply renameColumn_spec in He as (? & ? & -> & -> & -> & Hc); [|done]. split_and!; try done.
    intros t' c' Hne. rewrite Hc. repeat case_decide; naive_solver.
  - apply renameConstraint_spec in He as (? & ? & -> & -> & -> & Hc); [|done]. split_and!; try done.
    intros t' c' Hne. rewrite Hc. repeat case_decide; naive_solver.
  - apply addUnique_spec in He as (-> & -> & -> & Hc); [|done]. split_and!; try done.
    + intros t' c' Hne. rewrite Hc, bool_decide_false by naive_solver. done.
    + by rewrite Hc, bool_decide_true.
  - right. apply addPrimaryKey_spec in He as (-> & -> & Hm & Hc & Hp). split_and!; try done.
    intros t' Ht. by rewrite Hp, Ht, orb_true_r.
Qed.

Ltac solve_elsewhere := first [done | left; congruence | right; congruence | right; split; congruence].

Lemma undisturbed_achieved a b d d' :
  is_guarded a = true → is_guarded b = true → undisturbed a b = true →
  effect b d d' → achieved a d = true → achieved a d' = true.
Proof.
  intros Ha Hb Hu [->|[Ht He]] Had; [done|].
  destruct a as [| | |t f g|t f g|t c i|t i| | | | | | | | | | | | | | | | | | | |]; try done;
  destruct b as [| | |t1 f1 g1|t1 f1 g1|t1 c1 i1|t1 i1| | | | | | | | | | | | | | | | | | | |];
    try done; cbn [achieved undisturbed] in *; destruct_and?; rewrite ?Ht.
  all: repeat match goal with
       | H : has_column _ = _ |- _ => rewrite H
       | H : has_constraint _ = _ |- _ => rewrite H
       | H : has_primary_key _ = _ |- _ => rewrite H
       end; try done; auto.
  all: destruct (has_table d t); [cbn [negb orb] in *; destruct_and?|done].
  all: repeat match goal with
       | H : context [String.eqb ?a ?b] |- _ => destruct (String.eqb_spec a b); simplify_eq/=
       end.
  all: repeat match goal with H : negb _ = true |- _ => apply negb_true_iff in H end.
  all: rewrite ?andb_true_iff, ?negb_true_iff in *; destruct_and?; split_and?; auto.
  all: match goal with
       | Hc : ∀ t' c, _ → ?h ?x t' c = ?h ?y t' c |- ?h ?x ?t ?c = _ =>
           try (rewrite (Hc t c) by solve_elsewhere; done)
       end.
  all: match goal with
       | H1 : ?h ?x ?t1 ?c1 = true, Hc : ∀ t' c, _ → ?h ?x t' c = ?h ?y t' c |- ?h ?x ?t ?c = _ =>
           destruct (decide (t = t1)); [destruct (decide (c = c1)); [congruence|]|];
           (rewrite (Hc t c) by solve_elsewhere; done)
       end.
Qed.

Definition run (fuel : nat) (l : list DBAction) : M D () := for_each (executeOne fuel) l.

Lemma executeOne_ok fuel a w w' :
  executeOne fuel a w = (Ok (), w') ↔ Execute fuel a w = (Ok (), w').
Proof. apply wrap_err_ok. Qed.

Lemma run_app fuel l1 l2 w w' :
  run fuel (l1 ++ l2) w = (Ok (), w') ↔
  ∃ w1, run fuel l1 w = (Ok (), w1) ∧ run fuel l2 w1 = (Ok (), w').
Proof.
  unfold run. revert w. induction l1 as [|a l1 IH]; intros w; cbn [for_each app].
  - split; [intros Hr; by exists w|]. by intros (w1 & [= <-] & Hr).
  - rewrite bind_ok. setoid_rewrite IH. setoid_rewrite bind_ok. naive_solver.
Qed.

(** What was achieved stays achieved. *)
Lemma run_keeps fuel a l w w' :
  is_guarded a = true → forallb is_guarded l = true → forallb (undisturbed a) l = true →
  achieved a (w_db w) = true → run fuel l w = (Ok (), w') → achieved a (w_db w') = true.
Proof.
  intros Ha. revert w. induction l as [|b l IH]; intros w Hg Hu Had Hr.
  { by injection Hr as <-. }
  cbn in Hg, Hu. apply andb_true_iff in Hg as [Hb Hg], Hu as [Hub Hu].
  apply bind_ok in Hr as ([] & w1 & H1%executeOne_ok & H2).
  apply (IH w1); [done..| |done]. eapply undisturbed_achieved; [..|exact Had]; [done..|].
  by eapply Execute_effect.
Qed.

Lemma run_achieves fuel l w w' :
  forallb is_guarded l = true → all_undisturbed l = true → run fuel l w = (Ok (), w') →
  Forall (λ a, achieved a (w_db w') = true) l.
Proof.
  revert w. induction l as [|a l IH]; intros w Hg Hu Hr; [done|].
  cbn in Hg, Hu. apply andb_true_iff in Hg as [Ha Hg], Hu as [Hua Hu].
  apply bind_ok in Hr as ([] & w1 & H1%executeOne_ok & H2). constructor; [|by eapply IH].
  eapply (run_keeps fuel a l w1); try done. by eapply Execute_achieves.
Qed.

Lemma run_achieved fuel l w :
  forallb is_guarded l = true → Forall (λ a, achieved a (w_db w) = true) l →
  run fuel l w = (Ok (), w).
Proof.
  induction l as [|a l IH]; intros Hg Had; [done|].
  cbn in Hg. apply andb_true_iff in Hg as [Ha Hg]. apply Forall_cons in Had as [Haa Had].
  unfold run in *. cbn [for_each]. apply bind_ok. exists (), w. split; [|by apply IH].
  by apply executeOne_ok, achieved_no_op.
Qed.

(** C26. An interrupted completion can be repeated.  Take the guarded actions
    of a completion, none of which undoes what an earlier one looks for.  If
    running them all succeeds, then running them all again after any prefix of
    them (the part done when the first run was interrupted) succeeds and gives
    the same store as the uninterrupted run. *)
Theorem completion_resumes fuel actions k w w1 w' :
  forallb is_guarded (coordinated actions) = true →
  all_undisturbed (coordinated actions) = true →
  coordinate fuel actions w = (Ok (), w') →
  for_each (executeOne fuel) (take k (coordinated actions)) w = (Ok (), w1) →
  coordinate fuel actions w1 = (Ok (), w').
Proof.
  rewrite !coordinate_unfold. set (l := coordinated actions). intros Hg Hu Hall Hk.
  fold (run fuel (take k l)) in Hk. fold (run fuel l) in Hall |- *.
  rewrite <-(take_drop k l) in Hall, Hg, Hu |- *.
  apply run_app in Hall as (w2 & Hk2 & Hrest). rewrite Hk in Hk2. injection Hk2 as <-.
  apply run_app. exists w1. split; [|done].
  rewrite forallb_app in Hg. apply andb_true_iff in Hg as [Hg _].
  apply run_achieved; [done|]. eapply run_achieves; [done| |exact Hk].
  clear -Hu. induction (take k l) as [|a l' IH]; [done|]. cbn in *.
  rewrite forallb_app, !andb_true_iff in Hu. apply andb_true_iff. naive_solver.
Qed.
End resume.

(** ** Completions on the catalog in memory *)

Definition resume_catalog : PgCatalog :=
  mkPgCatalog {["users"]} {[("users", "a"); ("users", "id")]} {[("users", "old_check")]} ∅.
Definition resume_world (d : PgCatalog) : World PgCatalog :=
  mkWorld (mkSchema "public" ∅ "" ∅) ∅ d 0.
Definition resume_actions : list DBAction :=
  [renameColumnAction "users" "a" "b"; addPrimaryKeyAction "users" "users_pkey";
   renameConstraintAction "users" "old_check" "new_check";
   addConstraintUsingUniqueIndexAction "users" "users_b_key" "users_b_idx"].

(** Interrupted after two of the four actions *)
Lemma completion_resumes_witness :
  let w := resume_world resume_catalog in
  let w1 := (for_each (executeOne 0) (take 2 (coordinated resume_actions)) w).2 in
  let w' := (coordinate 0 resume_actions w).2 in
  has_primary_key (w_db w1) "users" = true ∧ has_constraint (w_db w1) "users" "new_check" = false ∧
  has_constraint (w_db w') "users" "new_check" = true ∧
  coordinate 0 resume_actions w1 = (Ok (), w').
Proof.
  intros w w1 w'. split_and!; [vm_compute; reflexivity..|].
  refine (completion_resumes 0 resume_actions 2 w w1 w' _ _ _ _); vm_compute; reflexivity.
Defined.
