(* ===== verification/Backfill.v ===== *)
(** * Backfill: tasks, triggers and the backfill job of [pkg/backfill]

    A trigger names the columns its function declares, either a copy of the
    table's column map or the live map itself, which later operations of the
    same migration still change; [ColumnsOf] keeps that sharing. *)

From S2P Require Import Prelude.
From S2P Require Import GoStd.
From S2P Require Import Names.
From S2P Require Import Schema.
From S2P Require Import Types.
From S2P Require Import Db.

Inductive TriggerDirection := TriggerDirectionUp | TriggerDirectionDown.

Inductive TriggerColumns :=
  | ColumnsCopy (columns : gmap string (option Column))
  | ColumnsOf (table : loc).

Record OperationTrigger := mkOperationTrigger {
  OperationTrigger_Name : string;
  OperationTrigger_Direction : TriggerDirection;
  OperationTrigger_Columns : TriggerColumns;
  OperationTrigger_TableName : string;
  OperationTrigger_PhysicalColumn : string;
  OperationTrigger_SQL : string;
}.

(** [triggerConfig] *)
Record triggerConfig := mkTriggerConfig {
  tc_Name : string;
  tc_Direction : TriggerDirection;
  tc_Columns : TriggerColumns;
  tc_SchemaName : string;
  tc_TableName : string;
  tc_PhysicalColumn : string;
  tc_LatestSchema : string;
  tc_SQL : list string;
  tc_NeedsBackfillColumn : string;
  tc_MigrationScope : string;
}.

Record Task := mkTask {
  Task_table : option loc;
  Task_triggers : list OperationTrigger;
}.

Record Job := mkJob {
  Job_schemaName : string;
  Job_latestSchema : string;
  Job_migrationScope : string;
  Job_triggers : gmap string triggerConfig;
  Job_Tables : list loc;
}.

Definition NewTask (table : option loc) (triggers : list OperationTrigger) : Task :=
  mkTask table triggers.

Definition NewJob (schemaName latestSchema migrationScope : string) : Job :=
  mkJob schemaName latestSchema migrationScope ∅ [].

(** [task.AddTriggers(other)], a nil [other] being a nil dereference *)
Definition AddTriggers {E} (t : Task) (other : option Task) : outcome E Task :=
  match other with
  | Some o => Ok (mkTask t.(Task_table) (t.(Task_triggers) ++ o.(Task_triggers)))
  | None => Panic
  end.

Section Backfill.
Context `{!Pq} {D : Type}.

Definition rewriteTriggerSQL (sql from to : string) : string :=
  ReplaceAll sql from ("NEW." +:+ QuoteIdentifier to).

Definition columns_of (c : TriggerColumns) : M D (gmap string (option Column)) :=
  match c with
  | ColumnsCopy m => mret m
  | ColumnsOf l => t ← load l; mret t.(Table_Columns)
  end.

(** The first entry of the range loop whose column has the physical name;
    a nil entry reached before it panics. *)
Fixpoint findColumnName_in {E} (l : list (string * option Column)) (columnName : string) :
    outcome E string :=
  match l with
  | [] => Ok columnName
  | (_, None) :: _ => Panic
  | (name, Some col) :: l =>
      if decide (col.(Column_Name) = columnName) then Ok name
      else findColumnName_in l columnName
  end.

Definition findColumnName {E} (columns : gmap string (option Column)) (columnName : string) :
    outcome E string := findColumnName_in (map_to_list columns) columnName.

(** One iteration of the loop of [AddTask] *)
Definition addTrigger (j : Job) (trigger : OperationTrigger) : M D Job :=
  let name := trigger.(OperationTrigger_Name) in
  match j.(Job_triggers) !! name with
  | Some tg =>
      cols ← columns_of trigger.(OperationTrigger_Columns);
      from ← lift (findColumnName cols trigger.(OperationTrigger_PhysicalColumn));
      let sql := rewriteTriggerSQL trigger.(OperationTrigger_SQL) from
                   trigger.(OperationTrigger_PhysicalColumn) in
      let tg' := mkTriggerConfig tg.(tc_Name) tg.(tc_Direction) tg.(tc_Columns)
        tg.(tc_SchemaName) tg.(tc_TableName) tg.(tc_PhysicalColumn) tg.(tc_LatestSchema)
        (tg.(tc_SQL) ++ [sql]) tg.(tc_NeedsBackfillColumn) tg.(tc_MigrationScope) in
      mret (mkJob j.(Job_schemaName) j.(Job_latestSchema) j.(Job_migrationScope)
              (<[name := tg']> j.(Job_triggers)) j.(Job_Tables))
  | None =>
      let tg := mkTriggerConfig name trigger.(OperationTrigger_Direction)
        trigger.(OperationTrigger_Columns) j.(Job_schemaName)
        trigger.(OperationTrigger_TableName) trigger.(OperationTrigger_PhysicalColumn)
        j.(Job_latestSchema) [trigger.(OperationTrigger_SQL)]
        (NeedsBackfillColumnName j.(Job_migrationScope)) j.(Job_migrationScope) in
      mret (mkJob j.(Job_schemaName) j.(Job_latestSchema) j.(Job_migrationScope)
              (<[name := tg]> j.(Job_triggers)) j.(Job_Tables))
  end.

Fixpoint addTriggers (j : Job) (l : list OperationTrigger) : M D Job :=
  match l with
  | [] => mret j
  | t :: l => j ← addTrigger j t; addTriggers j l
  end.

Definition AddTask (j : Job) (t : Task) : M D Job :=
  addTriggers
    (mkJob j.(Job_schemaName) j.(Job_latestSchema) j.(Job_migrationScope) j.(Job_triggers)
       (j.(Job_Tables) ++ match t.(Task_table) with Some l => [l] | None => [] end))
    t.(Task_triggers).
End Backfill.
