(* ===== verification/OpsBase.v ===== *)
(** * OpsBase: what the operations share

    The result of [Start], the raw-SQL action's UUID, the validation of the
    constraint structs ([check.go], [unique.go], [fk_reference.go]) and the
    fast-path probe for column defaults ([internal/defaults]). *)

From S2P Require Import Prelude.
From S2P Require Import GoStd.
From S2P Require Import Names.
From S2P Require Import Schema.
From S2P Require Import Types.
From S2P Require Import Db.
From S2P Require Import SqlWriter.
From S2P Require Import Actions.
From S2P Require Import Backfill.

Record StartResult := mkStartResult {
  StartResult_Actions : list DBAction;
  StartResult_BackfillTask : option Task;
}.

Section OpsBase.
Context `{!Pq} {D : Type} `{!DB D}.

(** [NewRawSQLAction], which draws a UUID *)
Definition NewRawSQLAction (sql : string) : M D DBAction := λ w,
  (Ok (rawSQLAction (NewString (w_uuid w)) sql),
   mkWorld (w_schema w) (w_heap w) (w_db w) (S (w_uuid w))).

Definition field_required (v name : string) : M D () :=
  fail_if (bool_decide (v = "")) (FieldRequiredError name).

(** [CheckConstraint.Validate] *)
Definition CheckConstraint_Validate (c : MigCheckConstraint) : M D () :=
  field_required c.(MigCheckConstraint_Name) "name" ;;
  validate_length c.(MigCheckConstraint_Name) ;;
  field_required c.(MigCheckConstraint_Constraint) "constraint".

(** [UniqueConstraint.Validate] *)
Definition UniqueConstraint_Validate (c : MigUniqueConstraint) : M D () :=
  field_required c.(MigUniqueConstraint_Name) "name".

(** [ForeignKeyReference.Validate] *)
Definition ForeignKeyReference_Validate (f : ForeignKeyReference) : M D () :=
  field_required f.(ForeignKeyReference_Name) "name" ;;
  validate_length f.(ForeignKeyReference_Name) ;;
  l ← table_named f.(ForeignKeyReference_Table);
  column_named l f.(ForeignKeyReference_Table) f.(ForeignKeyReference_Column) ;;
  fail_if (negb (slices_Contains
    [ForeignKeyActionNOACTION; ForeignKeyActionRESTRICT; ForeignKeyActionSETDEFAULT;
     ForeignKeyActionSETNULL; ForeignKeyActionCASCADE; ""]
    (ToUpper f.(ForeignKeyReference_OnDelete))))
    (InvalidOnDeleteSettingError f.(ForeignKeyReference_Name)
       f.(ForeignKeyReference_OnDelete)).

Definition cNewTableName : string := "_pgroll_temp_fastpath_check".
Definition cNewColumnName : string := "_pgroll_fastpath_check_column".

(** [defaults.UsesFastPath]; the deferred cleanup runs whatever happens. *)
Definition UsesFastPath (tableName columnType defaultExpr : string) : M D bool :=
  if is_fake then mret true
  else
    wrap_err (ErrorfW "failed to create schema-only copy of table: %w" [])
      (exec ("CREATE UNLOGGED TABLE " +:+ QuoteIdentifier cNewTableName +:+
             " AS SELECT * FROM " +:+ QuoteIdentifier tableName +:+ " WHERE false")) ;;
    with_defer
      (wrap_err (ErrorfW "failed to add column to schema-only copy: %w" [])
         (exec ("ALTER TABLE " +:+ QuoteIdentifier cNewTableName +:+ " ADD COLUMN " +:+
                QuoteIdentifier cNewColumnName +:+ " " +:+ columnType +:+ " DEFAULT " +:+
                defaultExpr)) ;;
       rows ← wrap_err (ErrorfW "failed to query pg_attribute: %w" [])
         (query "SELECT atthasmissing FROM pg_attribute WHERE attrelid::regclass = $1::regclass AND attname = $2"
            [cNewTableName; cNewColumnName]);
       rows ← deref rows;
       wrap_err (ErrorfW "failed to read pg_attribute result: %w" [])
         (lift (ScanFirstValue_bool rows false)))
      (try (exec ("DROP TABLE IF EXISTS " +:+ QuoteIdentifier cNewTableName)) ;; mret ()).
End OpsBase.
