(* ===== verification/OpsColumn.v ===== *)
(** * OpsColumn: add column, drop column, rename column

    The four methods of [OpAddColumn], [OpDropColumn] and [OpRenameColumn]
    ([op_add_column.go], [op_drop_column.go], [op_rename_column.go]). *)

From S2P Require Import Prelude.
From S2P Require Import GoStd.
From S2P Require Import Names.
From S2P Require Import Schema.
From S2P Require Import Types.
From S2P Require Import Db.
From S2P Require Import SqlWriter.
From S2P Require Import Actions.
From S2P Require Import Backfill.
From S2P Require Import OpsBase.

Section OpsColumn.
Context `{!Pq} {D : Type} `{!DB D}.

(** ** Add column *)

(** The column [addColumn] sends in the [ADD COLUMN]: constraints and
    defaults that would lock or scan the table are left for later. *)
Definition strippedColumn (c : MigColumn) (fastPathDefault : bool) : MigColumn :=
  mkMigColumn None c.(MigColumn_Comment)
    (if fastPathDefault then c.(MigColumn_Default) else None)
    c.(MigColumn_Generated) c.(MigColumn_Name)
    (if negb fastPathDefault then true
     else if negb c.(MigColumn_Nullable) && bool_decide (c.(MigColumn_Default) = None)
     then true else c.(MigColumn_Nullable))
    c.(MigColumn_Pk) c.(MigColumn_References) c.(MigColumn_Type) false.

Definition set_MigColumn_Name (v : string) (c : MigColumn) : MigColumn :=
  mkMigColumn c.(MigColumn_Check) c.(MigColumn_Comment) c.(MigColumn_Default)
    c.(MigColumn_Generated) v c.(MigColumn_Nullable) c.(MigColumn_Pk) c.(MigColumn_References)
    c.(MigColumn_Type) c.(MigColumn_Unique).

Definition addColumn (scope : string) (o : OpAddColumn) (t : Table) (fastPathDefault : bool) :
    outcome error DBAction :=
  if bool_decide (is_Some o.(OpAddColumn_Column).(MigColumn_Generated)) then
    Err (Errorf "adding generated columns to existing tables is not supported" [])
  else
    let c := strippedColumn o.(OpAddColumn_Column) fastPathDefault in
    let notNullName :=
      if c.(MigColumn_Nullable) then ""
      else CanonicalNotNullName t.(Table_Name) c.(MigColumn_Name) in
    Ok (addColumnAction t.(Table_Name)
          (set_MigColumn_Name (TemporaryName scope c.(MigColumn_Name)) c) true notNullName).

Definition toSchemaColumn (c : MigColumn) : Column :=
  mkColumn c.(MigColumn_Name) c.(MigColumn_Type) c.(MigColumn_Default) c.(MigColumn_Nullable)
    c.(MigColumn_Unique) (default "" c.(MigColumn_Comment)) [] false "" "".

Definition upgradeNotNullConstraintToNotNullAttribute (tableName columnName : string) :
    list DBAction :=
  [validateConstraintAction tableName (NotNullConstraintName columnName);
   setNotNullAction tableName columnName (CanonicalNotNullName tableName columnName);
   dropConstraintAction tableName (NotNullConstraintName columnName)].

Definition AddColumn_Start (o : OpAddColumn) : M D (option StartResult) :=
  let col := o.(OpAddColumn_Column) in
  let name := col.(MigColumn_Name) in
  scope ← MigrationScope;
  l ← table_named o.(OpAddColumn_Table);
  table ← load l;
  schemaName ← gets (λ w, Schema_Name (w_schema w));
  fastPathDefault ←
    match col.(MigColumn_Default) with
    | Some d =>
        wrap_err (ErrorfW "failed to check for fast path default optimization: %w" [])
          (UsesFastPath table.(Table_Name) col.(MigColumn_Type) d)
    | None => mret false
    end;
  action ← lift (addColumn scope o table fastPathDefault);
  let dbActions :=
    [action] ++
    (if decide (col.(MigColumn_Comment) = None) then []
     else [commentColumnAction table.(Table_Name) (TemporaryName scope name)
             col.(MigColumn_Comment)]) ++
    (if negb col.(MigColumn_Nullable)
        && (bool_decide (col.(MigColumn_Default) = None) || negb fastPathDefault)
     then [CreateCheckConstraintAction scope table.(Table_Name) [name]
             (NotNullConstraintName name) (name +:+ " IS NOT NULL") false true]
     else []) ++
    (match col.(MigColumn_Check) with
     | Some c => [CreateCheckConstraintAction scope table.(Table_Name) [name]
                    c.(MigCheckConstraint_Name) c.(MigCheckConstraint_Constraint) false true]
     | None => []
     end) ++
    (if col.(MigColumn_Unique)
     then [NewCreateUniqueIndexAction schemaName (UniqueIndexName name) table
             [TemporaryName scope name]]
     else []) in
  fail_if (bool_decide (is_Some col.(MigColumn_Default)) && negb fastPathDefault
           && negb (bool_decide (Some o.(OpAddColumn_Up) = col.(MigColumn_Default))))
    (UpSQLMustBeColumnDefaultError name) ;;
  let task :=
    if decide (o.(OpAddColumn_Up) = "") then None
    else Some (NewTask (Some l)
      [mkOperationTrigger (TriggerName scope o.(OpAddColumn_Table) name) TriggerDirectionUp
         (ColumnsOf l) table.(Table_Name) (TemporaryName scope name) o.(OpAddColumn_Up)]) in
  update_table (AddColumn name (set_Column_Name (TemporaryName scope name)
    (toSchemaColumn col))) l ;;
  mret (Some (mkStartResult dbActions task)).

Definition AddColumn_Complete (o : OpAddColumn) : M D (list DBAction) :=
  let col := o.(OpAddColumn_Column) in
  let name := col.(MigColumn_Name) in
  scope ← MigrationScope;
  l ← table_named o.(OpAddColumn_Table);
  table ← load l;
  let tn := table.(Table_Name) in
  let dbActions :=
    [renameColumnAction tn (TemporaryName scope name) name;
     dropFunctionAction [TriggerFunctionName scope o.(OpAddColumn_Table) name];
     dropColumnAction tn [NeedsBackfillColumnName scope]] ++
    (if negb col.(MigColumn_Nullable) && bool_decide (col.(MigColumn_Default) = None)
     then upgradeNotNullConstraintToNotNullAttribute tn name else []) ++
    (match col.(MigColumn_Check) with
     | Some c => [validateConstraintAction tn c.(MigCheckConstraint_Name)] | None => [] end) ++
    (if col.(MigColumn_Unique)
     then [addConstraintUsingUniqueIndexAction tn name (UniqueIndexName name)] else []) in
  column ← get_column l (TemporaryName scope name);
  match col.(MigColumn_Default) with
  | None => mret dbActions
  | Some d =>
      column ← deref column;
      mret (dbActions ++
        if decide (column.(Column_Default) = None) then
          setDefaultAction tn name d ::
          (if negb col.(MigColumn_Nullable)
           then upgradeNotNullConstraintToNotNullAttribute tn name else [])
        else [])
  end.

Definition AddColumn_Rollback (o : OpAddColumn) : M D (list DBAction) :=
  let name := o.(OpAddColumn_Column).(MigColumn_Name) in
  scope ← MigrationScope;
  l ← table_named o.(OpAddColumn_Table);
  table ← load l;
  column ← column_named l o.(OpAddColumn_Table) name;
  mret [dropColumnAction table.(Table_Name) [column.(Column_Name)];
        dropFunctionAction [TriggerFunctionName scope o.(OpAddColumn_Table) name];
        dropColumnAction table.(Table_Name) [NeedsBackfillColumnName scope]].

(** The column [Validate] leaves in the schema for later validations *)
Definition placeholderColumn (name : string) : Column :=
  mkColumn name "" None false false "" [] false "" "".

Definition AddColumn_Validate (o : OpAddColumn) : M D () :=
  let col := o.(OpAddColumn_Column) in
  let name := col.(MigColumn_Name) in
  validate_length name ;;
  fail_if (negb (Column_Validate col)) (ColumnIsInvalidError o.(OpAddColumn_Table) name) ;;
  l ← table_named o.(OpAddColumn_Table);
  c ← get_column l name;
  fail_if (bool_decide (is_Some c)) (ColumnAlreadyExistsError o.(OpAddColumn_Table) name) ;;
  match col.(MigColumn_References) with
  | None => mret ()
  | Some r => wrap_err (ColumnReferenceError o.(OpAddColumn_Table) name)
                (ForeignKeyReference_Validate r)
  end ;;
  match col.(MigColumn_Check) with
  | None => mret ()
  | Some c => wrap_err (CheckConstraintError o.(OpAddColumn_Table) name "")
                (CheckConstraint_Validate c)
  end ;;
  fail_if (match col.(MigColumn_Generated) with
           | Some g => negb (bool_decide (g.(ColumnGenerated_Expression) = ""))
                       && bool_decide (is_Some g.(ColumnGenerated_Identity))
           | None => false
           end) (InvalidGeneratedColumnError o.(OpAddColumn_Table) name) ;;
  fail_if (negb col.(MigColumn_Nullable) && bool_decide (col.(MigColumn_Default) = None)
           && bool_decide (o.(OpAddColumn_Up) = "") && negb (HasImplicitDefault col)
           && bool_decide (col.(MigColumn_Generated) = None)) (FieldRequiredError "up") ;;
  fail_if col.(MigColumn_Pk) (Errorf "adding primary key columns is not supported" []) ;;
  scope ← MigrationScope;
  update_table (AddColumn name (placeholderColumn (TemporaryName scope name))) l.

(** ** Drop column *)

(** With a [down] expression the trigger is built from [s.GetTable(o.Table)]
    before the table is checked. *)
Definition DropColumn_Start (o : OpDropColumn) : M D (option StartResult) :=
  scope ← MigrationScope;
  task ←
    (if decide (o.(OpDropColumn_Down) = "") then mret None
     else
       l ← get_table o.(OpDropColumn_Table);
       l ← deref l;
       t ← load l;
       mret (Some (NewTask None
         [mkOperationTrigger
            (TriggerName scope o.(OpDropColumn_Table) o.(OpDropColumn_Column))
            TriggerDirectionDown (ColumnsOf l) t.(Table_Name) o.(OpDropColumn_Column)
            o.(OpDropColumn_Down)])));
  l ← table_named o.(OpDropColumn_Table);
  column_named l o.(OpDropColumn_Table) o.(OpDropColumn_Column) ;;
  set_column_deleted true l o.(OpDropColumn_Column) ;;
  mret (Some (mkStartResult [] task)).

Definition DropColumn_Complete (o : OpDropColumn) : M D (list DBAction) :=
  scope ← MigrationScope;
  l ← table_named o.(OpDropColumn_Table);
  table ← load l;
  mret [dropColumnAction table.(Table_Name) [o.(OpDropColumn_Column)];
        dropFunctionAction
          [TriggerFunctionName scope o.(OpDropColumn_Table) o.(OpDropColumn_Column)];
        dropColumnAction table.(Table_Name) [NeedsBackfillColumnName scope]].

Definition DropColumn_Rollback (o : OpDropColumn) : M D (list DBAction) :=
  scope ← MigrationScope;
  l ← table_named o.(OpDropColumn_Table);
  set_column_deleted false l o.(OpDropColumn_Column) ;;
  table ← load l;
  mret [dropFunctionAction
          [TriggerFunctionName scope o.(OpDropColumn_Table) o.(OpDropColumn_Column)];
        dropColumnAction table.(Table_Name) [NeedsBackfillColumnName scope]].

Definition DropColumn_Validate (o : OpDropColumn) : M D () :=
  l ← table_named o.(OpDropColumn_Table);
  column_named l o.(OpDropColumn_Table) o.(OpDropColumn_Column) ;;
  mret ().

(** ** Rename column *)

Definition renameColumnIn (from to : string) (t : Table) : Table :=
  RenameConstraintColumns from to (RenameColumn from to t).

Definition RenameColumn_Start (o : OpRenameColumn) : M D (option StartResult) :=
  l ← table_named o.(OpRenameColumn_Table);
  column_named l o.(OpRenameColumn_Table) o.(OpRenameColumn_From) ;;
  update_table (renameColumnIn o.(OpRenameColumn_From) o.(OpRenameColumn_To)) l ;;
  mret None.

Definition RenameColumn_Complete (o : OpRenameColumn) : M D (list DBAction) :=
  l ← table_named o.(OpRenameColumn_Table);
  update_table (renameColumnIn o.(OpRenameColumn_From) o.(OpRenameColumn_To)) l ;;
  table ← load l;
  mret [renameColumnAction table.(Table_Name) o.(OpRenameColumn_From) o.(OpRenameColumn_To)].

(** Only the column moves back; the constraints keep the new name. *)
Definition RenameColumn_Rollback (o : OpRenameColumn) : M D (list DBAction) :=
  l ← table_named o.(OpRenameColumn_Table);
  update_table (RenameColumn o.(OpRenameColumn_To) o.(OpRenameColumn_From)) l ;;
  mret [].

Definition RenameColumn_Validate (o : OpRenameColumn) : M D () :=
  table ← get_table o.(OpRenameColumn_Table);
  field_required o.(OpRenameColumn_From) "from" ;;
  field_required o.(OpRenameColumn_To) "to" ;;
  l ← require table (TableDoesNotExistError o.(OpRenameColumn_Table));
  column_named l o.(OpRenameColumn_Table) o.(OpRenameColumn_From) ;;
  c ← get_column l o.(OpRenameColumn_To);
  fail_if (bool_decide (is_Some c))
    (ColumnAlreadyExistsError o.(OpRenameColumn_Table) o.(OpRenameColumn_To)) ;;
  update_table (renameColumnIn o.(OpRenameColumn_From) o.(OpRenameColumn_To)) l.
End OpsColumn.
