(* ===== verification/OpsTable.v ===== *)
(** * OpsTable: operations on tables and indexes, raw SQL, replica identity,
      constraint renames

    The methods of [OpCreateTable], [OpDropTable], [OpRenameTable],
    [OpCreateIndex], [OpDropIndex], [OpRawSQL], [OpSetReplicaIdentity] and
    [OpRenameConstraint].  Where the code ranges over the map [s.Tables] and
    stops at the first hit, the model takes the tables in the order of
    [map_to_list]; Go's order is unspecified. *)

From S2P Require Import Prelude.
From S2P Require Import GoStd.
From S2P Require Import Names.
From S2P Require Import Schema.
From S2P Require Import Types.
From S2P Require Import Db.
From S2P Require Import SqlWriter.
From S2P Require Import Actions.
From S2P Require Import Backfill.
From S2P Require Import OpsBase.

Section OpsTable.
Context `{!Pq} {D : Type} `{!DB D}.

(** ** Create table *)

(** The schema column [updateSchema] builds *)
Definition createdColumn (c : MigColumn) : Column :=
  mkColumn c.(MigColumn_Name) c.(MigColumn_Type) c.(MigColumn_Default) c.(MigColumn_Nullable)
    c.(MigColumn_Unique) (default "" c.(MigColumn_Comment)) [] false "" "".

(** The maps [updateSchema] fills while it ranges over the constraints *)
Record createdConstraints := mkCreatedConstraints {
  cc_primaryKeys : list string;
  cc_unique : gmap string UniqueConstraint;
  cc_check : gmap string CheckConstraint;
  cc_foreignKeys : gmap string ForeignKey;
  cc_exclude : gmap string ExcludeConstraint;
}.

Definition addCreatedConstraint (acc : createdConstraints) (c : Constraint) :
    outcome error createdConstraints :=
  let '(mkCreatedConstraints pks uqs chs fks exs) := acc in
  let name := c.(Constraint_Name) in
  let cols := c.(Constraint_Columns) in
  if decide (c.(Constraint_Type) = ConstraintTypeUnique) then
    Ok (mkCreatedConstraints pks (<[name := mkUniqueConstraint name cols]> uqs) chs fks exs)
  else if decide (c.(Constraint_Type) = ConstraintTypeCheck) then
    Ok (mkCreatedConstraints pks uqs
          (<[name := mkCheckConstraint name cols c.(Constraint_Check)
                       c.(Constraint_NoInherit)]> chs) fks exs)
  else if decide (c.(Constraint_Type) = ConstraintTypePrimaryKey) then
    Ok (mkCreatedConstraints cols uqs chs fks exs)
  else if decide (c.(Constraint_Type) = ConstraintTypeForeignKey) then
    match c.(Constraint_References) with
    | None => Panic
    | Some r =>
        Ok (mkCreatedConstraints pks uqs chs
              (<[name := mkForeignKey name cols r.(TableForeignKeyReference_Table)
                   r.(TableForeignKeyReference_Columns) r.(TableForeignKeyReference_OnDelete) []
                   r.(TableForeignKeyReference_OnUpdate)
                   r.(TableForeignKeyReference_MatchType)]> fks) exs)
    end
  else if decide (c.(Constraint_Type) = ConstraintTypeExclude) then
    match c.(Constraint_Exclude) with
    | None => Panic
    | Some e =>
        Ok (mkCreatedConstraints pks uqs chs fks
              (<[name := mkExcludeConstraint name e.(ConstraintExclude_IndexMethod)
                   e.(ConstraintExclude_Predicate) [] ""]> exs))
    end
  else Ok acc.

Fixpoint addCreatedConstraints (acc : createdConstraints) (cs : list Constraint) :
    outcome error createdConstraints :=
  match cs with
  | [] => Ok acc
  | c :: cs => acc ← addCreatedConstraint acc c; addCreatedConstraints acc cs
  end.

(** The table [updateSchema] adds *)
Definition createdTable (o : OpCreateTable) : outcome error Table :=
  let columns := foldl (λ m c, <[c.(MigColumn_Name) := Some (createdColumn c)]> m) ∅
                   o.(OpCreateTable_Columns) in
  let primaryKeys :=
    MigColumn_Name <$> filter (λ c, MigColumn_Pk c = true) o.(OpCreateTable_Columns) in
  cc ← addCreatedConstraints (mkCreatedConstraints primaryKeys ∅ ∅ ∅ ∅)
         o.(OpCreateTable_Constraints);
  Ok (mkTable "" o.(OpCreateTable_Name) "" columns ∅ cc.(cc_primaryKeys) cc.(cc_foreignKeys)
        cc.(cc_check) cc.(cc_unique) cc.(cc_exclude) false true).

Definition updateSchema (o : OpCreateTable) : M D () :=
  t ← lift (createdTable o);
  l ← alloc t;
  on_schema (Schema.AddTable o.(OpCreateTable_Name) l).

Definition CreateTable_Start (o : OpCreateTable) : M D (option StartResult) :=
  let columnsSQL := columnsToSQL o.(OpCreateTable_Columns) in
  constraintsSQL ← wrap_err (ErrorfW "failed to create constraints SQL: %w" [])
                     (lift (constraintsToSQL o.(OpCreateTable_Constraints)));
  let dbActions :=
    [createTableAction o.(OpCreateTable_Name) columnsSQL constraintsSQL] ++
    ((λ col, commentColumnAction o.(OpCreateTable_Name) col.(MigColumn_Name)
               col.(MigColumn_Comment))
       <$> filter (λ col, is_Some (MigColumn_Comment col)) o.(OpCreateTable_Columns)) ++
    (if decide (o.(OpCreateTable_Comment) = None) then []
     else [commentTableAction o.(OpCreateTable_Name) o.(OpCreateTable_Comment)]) in
  updateSchema o ;;
  mret (Some (mkStartResult dbActions None)).

Definition CreateTable_Complete (o : OpCreateTable) : M D (list DBAction) := mret [].

Definition CreateTable_Rollback (o : OpCreateTable) : M D (list DBAction) :=
  mret [DropTableAction o.(OpCreateTable_Name)].

(** One iteration of the loop over the columns *)
Definition CreateTable_validateColumn (o : OpCreateTable) (col : MigColumn) : M D () :=
  wrap_err (ErrorfW "invalid column: %w" []) (validate_length col.(MigColumn_Name)) ;;
  fail_if (negb (Column_Validate col))
    (ColumnIsInvalidError o.(OpCreateTable_Name) col.(MigColumn_Name)) ;;
  match col.(MigColumn_References) with
  | None => mret ()
  | Some r => wrap_err (ColumnReferenceError o.(OpCreateTable_Name) col.(MigColumn_Name))
                (ForeignKeyReference_Validate r)
  end ;;
  match col.(MigColumn_Check) with
  | None => mret ()
  | Some c => wrap_err (CheckConstraintError o.(OpCreateTable_Name) col.(MigColumn_Name) "")
                (CheckConstraint_Validate c)
  end.

(** One iteration of the loop over the constraints *)
Definition CreateTable_validateConstraint (o : OpCreateTable) (hasPrimaryKeyColumns : bool)
    (c : Constraint) : M D () :=
  let table := o.(OpCreateTable_Name) in
  let check_error reason :=
    CheckConstraintError table "" c.(Constraint_Name) (Errorf reason []) in
  let need_columns :=
    fail_if (bool_decide (c.(Constraint_Columns) = [])) (FieldRequiredError "columns") in
  fail_if (bool_decide (c.(Constraint_Name) = "")) (FieldRequiredError "name") ;;
  wrap_err (ErrorfW "invalid constraint: %w" []) (validate_length c.(Constraint_Name)) ;;
  if decide (c.(Constraint_Type) = ConstraintTypeUnique) then need_columns
  else if decide (c.(Constraint_Type) = ConstraintTypeCheck) then
    fail_if (bool_decide (c.(Constraint_Check) = "")) (FieldRequiredError "check") ;;
    fail_if (c.(Constraint_Deferrable) || c.(Constraint_InitiallyDeferred))
      (check_error "CHECK constraints cannot be marked DEFERRABLE") ;;
    fail_if (bool_decide (is_Some c.(Constraint_IndexParameters)))
      (check_error "CHECK constraints cannot have index parameters") ;;
    fail_if c.(Constraint_NullsNotDistinct)
      (check_error "CHECK constraints cannot have NULLS NOT DISTINCT")
  else if decide (c.(Constraint_Type) = ConstraintTypePrimaryKey) then
    fail_if hasPrimaryKeyColumns (PrimaryKeysAreAlreadySetError table) ;;
    need_columns
  else if decide (c.(Constraint_Type) = ConstraintTypeForeignKey) then
    need_columns ;;
    r ← require c.(Constraint_References) (FieldRequiredError "references");
    if decide (r.(TableForeignKeyReference_OnDeleteSetColumns) = []) then mret ()
    else
      fail_if (negb (bool_decide
                 (r.(TableForeignKeyReference_OnDelete) = ForeignKeyActionSETDEFAULT))
               && negb (bool_decide
                 (r.(TableForeignKeyReference_OnDelete) = ForeignKeyActionSETNULL)))
        (UnexpectedOnDeleteSetColumnError table) ;;
      for_each (λ col, fail_if (negb (slices_Contains c.(Constraint_Columns) col))
                         (InvalidOnDeleteSetColumnError table col))
        r.(TableForeignKeyReference_OnDeleteSetColumns)
  else mret ().

Definition CreateTable_Validate (o : OpCreateTable) : M D () :=
  validate_length o.(OpCreateTable_Name) ;;
  table ← get_table o.(OpCreateTable_Name);
  fail_if (bool_decide (is_Some table)) (TableAlreadyExistsError o.(OpCreateTable_Name)) ;;
  for_each (CreateTable_validateColumn o) o.(OpCreateTable_Columns) ;;
  for_each (CreateTable_validateConstraint o
              (existsb MigColumn_Pk o.(OpCreateTable_Columns)))
    o.(OpCreateTable_Constraints) ;;
  updateSchema o.

(** ** Drop table *)

Definition DropTable_Start (o : OpDropTable) : M D (option StartResult) :=
  scope ← MigrationScope;
  l ← table_named o.(OpDropTable_Name);
  s_RemoveTable o.(OpDropTable_Name) ;;
  table ← load l;
  mret (Some (mkStartResult
    [renameTableAction table.(Table_Name) (DeletionName scope table.(Table_Name))] None)).

Definition DropTable_Complete (o : OpDropTable) : M D (list DBAction) :=
  scope ← MigrationScope;
  s_RemoveTable (DeletionName scope o.(OpDropTable_Name)) ;;
  mret [DropTableAction (DeletionName scope o.(OpDropTable_Name))].

Definition DropTable_Rollback (o : OpDropTable) : M D (list DBAction) :=
  scope ← MigrationScope;
  s_UnRemoveTable o.(OpDropTable_Name) ;;
  l ← get_table o.(OpDropTable_Name);
  l ← deref l;
  table ← load l;
  mret [renameTableAction (DeletionName scope table.(Table_Name)) table.(Table_Name)].

(** The removal goes by the physical name. *)
Definition DropTable_Validate (o : OpDropTable) : M D () :=
  l ← table_named o.(OpDropTable_Name);
  table ← load l;
  s_RemoveTable table.(Table_Name).

(** ** Rename table *)

Definition RenameTable_Start (o : OpRenameTable) : M D (option StartResult) :=
  s_RenameTable o.(OpRenameTable_From) o.(OpRenameTable_To) ;;
  mret None.

(** The error of the in-memory rename is dropped. *)
Definition RenameTable_Complete (o : OpRenameTable) : M D (list DBAction) :=
  try (s_RenameTable o.(OpRenameTable_From) o.(OpRenameTable_To)) ;;
  t ← get_table o.(OpRenameTable_To);
  match t with
  | Some l => update_table (set_Table_Name o.(OpRenameTable_To)) l
  | None => mret ()
  end ;;
  mret [renameTableAction o.(OpRenameTable_From) o.(OpRenameTable_To)].

Definition RenameTable_Rollback (o : OpRenameTable) : M D (list DBAction) :=
  try (s_RenameTable o.(OpRenameTable_To) o.(OpRenameTable_From)) ;;
  mret [].

Definition RenameTable_Validate (o : OpRenameTable) : M D () :=
  table_named o.(OpRenameTable_From) ;;
  t ← get_table o.(OpRenameTable_To);
  fail_if (bool_decide (is_Some t)) (TableAlreadyExistsError o.(OpRenameTable_To)) ;;
  validate_length o.(OpRenameTable_To) ;;
  try (s_RenameTable o.(OpRenameTable_From) o.(OpRenameTable_To)) ;;
  mret ().

(** ** Create index *)

Definition set_IndexField_Column (v : string) (f : IndexField) : IndexField :=
  mkIndexField f.(IndexField_Collate) v f.(IndexField_Nulls) f.(IndexField_Opclass)
    f.(IndexField_Sort).

Definition CreateIndex_Start (o : OpCreateIndex) : M D (option StartResult) :=
  l ← table_named o.(OpCreateIndex_Table);
  table ← load l;
  cols ← map_each (λ settings,
           physicalName ← lift (PhysicalColumnNamesFor table [settings.(IndexField_Column)]);
           physicalName ← deref (head physicalName);
           mret (set_IndexField_Column physicalName settings)) o.(OpCreateIndex_Columns);
  mret (Some (mkStartResult
    [NewCreateIndexAction table o.(OpCreateIndex_Name) o.(OpCreateIndex_Method)
       o.(OpCreateIndex_Unique) cols o.(OpCreateIndex_StorageParameters)
       o.(OpCreateIndex_Predicate)] None)).

Definition CreateIndex_Complete (o : OpCreateIndex) : M D (list DBAction) := mret [].

Definition CreateIndex_Rollback (o : OpCreateIndex) : M D (list DBAction) :=
  mret [dropIndexAction o.(OpCreateIndex_Name)].

(** [for _, table := range s.Tables]: the pointers, deleted tables included *)
Definition all_tables : M D (list loc) :=
  gets (λ w, (map_to_list (Schema_Tables (w_schema w))).*2).

(** [_, ok := table.Indexes[name]] *)
Definition has_index (name : string) (l : loc) : M D bool :=
  table ← load l; mret (bool_decide (is_Some (table.(Table_Indexes) !! name))).

(** The first table of the list with the index *)
Fixpoint table_with_index (name : string) (ls : list loc) : M D (option loc) :=
  match ls with
  | [] => mret None
  | l :: ls => ok ← has_index name l;
               if (ok : bool) then mret (Some l) else table_with_index name ls
  end.

Definition CreateIndex_Validate (o : OpCreateIndex) : M D () :=
  field_required o.(OpCreateIndex_Name) "name" ;;
  validate_length o.(OpCreateIndex_Name) ;;
  l ← table_named o.(OpCreateIndex_Table);
  for_each (λ field,
      field_required field.(IndexField_Column) "column" ;;
      column_named l o.(OpCreateIndex_Table) field.(IndexField_Column) ;;
      mret ()) o.(OpCreateIndex_Columns) ;;
  ls ← all_tables;
  hit ← table_with_index o.(OpCreateIndex_Name) ls;
  fail_if (bool_decide (is_Some hit)) (IndexAlreadyExistsError o.(OpCreateIndex_Name)).

Definition ParseCreateIndexMethod (method : string) : string * option error :=
  if slices_Contains [OpCreateIndexMethodBtree; OpCreateIndexMethodHash; OpCreateIndexMethodGist;
       OpCreateIndexMethodSpgist; OpCreateIndexMethodGin; OpCreateIndexMethodBrin] method
  then (method, None)
  else (OpCreateIndexMethodBtree, Some (Errorf "unknown method: %s" [method])).

(** ** Drop index *)

Definition deleteIndex (name : string) (t : Table) : Table :=
  set_Table_Indexes (delete name t.(Table_Indexes)) t.

Definition DropIndex_Start (o : OpDropIndex) : M D (option StartResult) :=
  ls ← all_tables;
  hit ← table_with_index o.(OpDropIndex_Name) ls;
  match hit with
  | Some l => update_table (deleteIndex o.(OpDropIndex_Name)) l
  | None => mret ()
  end ;;
  mret None.

Definition DropIndex_Complete (o : OpDropIndex) : M D (list DBAction) :=
  mret [dropIndexAction o.(OpDropIndex_Name)].

Definition DropIndex_Rollback (o : OpDropIndex) : M D (list DBAction) := mret [].

Definition DropIndex_Validate (o : OpDropIndex) : M D () :=
  ls ← all_tables;
  hit ← table_with_index o.(OpDropIndex_Name) ls;
  require hit (IndexDoesNotExistError o.(OpDropIndex_Name)) ;;
  mret ().

(** ** Raw SQL *)

Definition RawSQL_Start (o : OpRawSQL) : M D (option StartResult) :=
  if o.(OpRawSQL_OnComplete) then mret None
  else a ← NewRawSQLAction o.(OpRawSQL_Up); mret (Some (mkStartResult [a] None)).

Definition RawSQL_Complete (o : OpRawSQL) : M D (list DBAction) :=
  if negb o.(OpRawSQL_OnComplete) then mret []
  else a ← NewRawSQLAction o.(OpRawSQL_Up); mret [a].

Definition RawSQL_Rollback (o : OpRawSQL) : M D (list DBAction) :=
  if decide (o.(OpRawSQL_Down) = "") then mret []
  else a ← NewRawSQLAction o.(OpRawSQL_Down); mret [a].

Definition RawSQL_Validate (o : OpRawSQL) : M D () :=
  fail_if (bool_decide (o.(OpRawSQL_Up) = "")) EmptyMigrationError ;;
  fail_if (o.(OpRawSQL_OnComplete) && negb (bool_decide (o.(OpRawSQL_Down) = "")))
    (InvalidMigrationError "down is not allowed with onComplete").

Definition RawSQL_IsIsolated (o : OpRawSQL) : bool := negb o.(OpRawSQL_OnComplete).

(** ** Set replica identity *)

Definition SetReplicaIdentity_Start (o : OpSetReplicaIdentity) : M D (option StartResult) :=
  l ← table_named o.(OpSetReplicaIdentity_Table);
  table ← load l;
  mret (Some (mkStartResult
    [NewSetReplicaIdentityAction table.(Table_Name)
       o.(OpSetReplicaIdentity_Identity).(ReplicaIdentity_Type)
       o.(OpSetReplicaIdentity_Identity).(ReplicaIdentity_Index)] None)).

Definition SetReplicaIdentity_Complete (o : OpSetReplicaIdentity) : M D (list DBAction) :=
  mret [].
Definition SetReplicaIdentity_Rollback (o : OpSetReplicaIdentity) : M D (list DBAction) :=
  mret [].

Definition SetReplicaIdentity_Validate (o : OpSetReplicaIdentity) : M D () :=
  let i := o.(OpSetReplicaIdentity_Identity) in
  let identityType := ToUpper i.(ReplicaIdentity_Type) in
  l ← table_named o.(OpSetReplicaIdentity_Table);
  table ← load l;
  fail_if (negb (slices_Contains ["NOTHING"; "DEFAULT"; "INDEX"; "FULL"] identityType))
    (InvalidReplicaIdentityError o.(OpSetReplicaIdentity_Table) i.(ReplicaIdentity_Type)) ;;
  if decide (identityType = "INDEX") then
    fail_if (bool_decide (table.(Table_Indexes) !! i.(ReplicaIdentity_Index) = None))
      (IndexDoesNotExistError i.(ReplicaIdentity_Index))
  else mret ().

(** ** Rename constraint *)

Definition RenameConstraint_Start (o : OpRenameConstraint) : M D (option StartResult) :=
  mret None.

Definition RenameConstraint_Complete (o : OpRenameConstraint) : M D (list DBAction) :=
  l ← table_named o.(OpRenameConstraint_Table);
  table ← load l;
  mret [renameConstraintAction table.(Table_Name) o.(OpRenameConstraint_From)
          o.(OpRenameConstraint_To)].

Definition RenameConstraint_Rollback (o : OpRenameConstraint) : M D (list DBAction) :=
  mret [].

Definition RenameConstraint_RollbackCompleted (o : OpRenameConstraint) :
    M D (list DBAction) :=
  l ← table_named o.(OpRenameConstraint_Table);
  table ← load l;
  mret [renameConstraintAction table.(Table_Name) o.(OpRenameConstraint_To)
          o.(OpRenameConstraint_From)].

Definition RenameConstraint_Validate (o : OpRenameConstraint) : M D () :=
  l ← table_named o.(OpRenameConstraint_Table);
  table ← load l;
  fail_if (negb (ConstraintExists table o.(OpRenameConstraint_From)))
    (ConstraintDoesNotExistError o.(OpRenameConstraint_Table) o.(OpRenameConstraint_From)) ;;
  fail_if (ConstraintExists table o.(OpRenameConstraint_To))
    (ConstraintAlreadyExistsError o.(OpRenameConstraint_Table) o.(OpRenameConstraint_To)) ;;
  validate_length o.(OpRenameConstraint_To).
End OpsTable.
