(* ===== verification/OpsSub.v ===== *)
(** * OpsSub: the sub-operations of alter column

    [OpChangeType], [OpSetCheckConstraint], [OpSetForeignKey],
    [OpSetNotNull], [OpDropNotNull], [OpSetUnique], [OpSetDefault] and
    [OpSetComment]: what [OpAlterColumn] delegates each changed attribute to,
    and what [OpCreateConstraint] completes through.  [SubOp] is the sum of
    the eight, with the methods dispatched as the interface does. *)

From S2P Require Import Prelude.
From S2P Require Import GoStd.
From S2P Require Import Names.
From S2P Require Import Schema.
From S2P Require Import Types.
From S2P Require Import Db.
From S2P Require Import SqlWriter.
From S2P Require Import Actions.
From S2P Require Import Backfill.
From S2P Require Import OpsBase.

Record OpChangeType := mkOpChangeType {
  OpChangeType_Table : string; OpChangeType_Column : string; OpChangeType_Type : string;
  OpChangeType_Up : string; OpChangeType_Down : string;
}.

Record OpSetCheckConstraint := mkOpSetCheckConstraint {
  OpSetCheckConstraint_Table : string; OpSetCheckConstraint_Column : string;
  OpSetCheckConstraint_Check : MigCheckConstraint;
  OpSetCheckConstraint_Up : string; OpSetCheckConstraint_Down : string;
}.

Record OpSetForeignKey := mkOpSetForeignKey {
  OpSetForeignKey_Table : string; OpSetForeignKey_Column : string;
  OpSetForeignKey_References : ForeignKeyReference;
  OpSetForeignKey_Up : string; OpSetForeignKey_Down : string;
}.

Record OpSetNotNull := mkOpSetNotNull {
  OpSetNotNull_Table : string; OpSetNotNull_Column : string;
  OpSetNotNull_Up : string; OpSetNotNull_Down : string;
}.

Record OpDropNotNull := mkOpDropNotNull {
  OpDropNotNull_Table : string; OpDropNotNull_Column : string;
  OpDropNotNull_Up : string; OpDropNotNull_Down : string;
}.

Record OpSetUnique := mkOpSetUnique {
  OpSetUnique_Name : string; OpSetUnique_Table : string; OpSetUnique_Column : string;
  OpSetUnique_Up : string; OpSetUnique_Down : string;
}.

Record OpSetDefault := mkOpSetDefault {
  OpSetDefault_Table : string; OpSetDefault_Column : string;
  OpSetDefault_Default : option string;
  OpSetDefault_Up : string; OpSetDefault_Down : string;
}.

Record OpSetComment := mkOpSetComment {
  OpSetComment_Table : string; OpSetComment_Column : string;
  OpSetComment_Comment : option string;
  OpSetComment_Up : string; OpSetComment_Down : string;
}.

Inductive SubOp :=
  | ChangeType_ (o : OpChangeType)
  | SetCheckConstraint_ (o : OpSetCheckConstraint)
  | SetForeignKey_ (o : OpSetForeignKey)
  | SetNotNull_ (o : OpSetNotNull)
  | DropNotNull_ (o : OpDropNotNull)
  | SetUnique_ (o : OpSetUnique)
  | SetDefault_ (o : OpSetDefault)
  | SetComment_ (o : OpSetComment).

(** Registrations of constraints in the in-memory table *)
Definition putCheckConstraint (c : CheckConstraint) (t : Table) : Table :=
  set_Table_CheckConstraints
    (<[c.(CheckConstraint_Name) := c]> t.(Table_CheckConstraints)) t.
Definition putForeignKey (f : ForeignKey) (t : Table) : Table :=
  set_Table_ForeignKeys (<[f.(ForeignKey_Name) := f]> t.(Table_ForeignKeys)) t.
Definition putUniqueConstraint (u : UniqueConstraint) (t : Table) : Table :=
  set_Table_UniqueConstraints
    (<[u.(UniqueConstraint_Name) := u]> t.(Table_UniqueConstraints)) t.
Definition deleteCheckConstraint (name : string) (t : Table) : Table :=
  set_Table_CheckConstraints (delete name t.(Table_CheckConstraints)) t.

Section OpsSub.
Context `{!Pq} {D : Type} `{!DB D}.

(** Writes through the pointer [table.GetColumn(name)] returned *)
Definition update_column (l : loc) (name : string) (f : Column → Column) : M D () :=
  c ← get_column l name; c ← deref c; update_table (AddColumn name (f c)) l.

(** ** Change type *)

Definition ChangeType_Start (o : OpChangeType) : M D StartResult :=
  l ← table_named o.(OpChangeType_Table);
  mret (mkStartResult [] (Some (NewTask (Some l) []))).

Definition ChangeType_Validate (o : OpChangeType) : M D () :=
  field_required o.(OpChangeType_Up) "up" ;;
  field_required o.(OpChangeType_Down) "down".

(** ** Set check *)

Definition SetCheckConstraint_Start (o : OpSetCheckConstraint) : M D StartResult :=
  let check := o.(OpSetCheckConstraint_Check) in
  let name := check.(MigCheckConstraint_Name) in
  let cols := [o.(OpSetCheckConstraint_Column)] in
  l ← table_named o.(OpSetCheckConstraint_Table);
  table ← load l;
  scope ← MigrationScope;
  update_table (putCheckConstraint
    (mkCheckConstraint name cols check.(MigCheckConstraint_Constraint)
       check.(MigCheckConstraint_NoInherit))) l ;;
  mret (mkStartResult
    [CreateCheckConstraintAction scope table.(Table_Name) cols name
       check.(MigCheckConstraint_Constraint) check.(MigCheckConstraint_NoInherit) true]
    (Some (NewTask (Some l) []))).

Definition SetCheckConstraint_Complete (o : OpSetCheckConstraint) : M D (list DBAction) :=
  l ← table_named o.(OpSetCheckConstraint_Table);
  table ← load l;
  mret [validateConstraintAction table.(Table_Name)
          o.(OpSetCheckConstraint_Check).(MigCheckConstraint_Name)].

Definition SetCheckConstraint_Validate (o : OpSetCheckConstraint) : M D () :=
  let name := o.(OpSetCheckConstraint_Check).(MigCheckConstraint_Name) in
  wrap_err (CheckConstraintError o.(OpSetCheckConstraint_Table)
              o.(OpSetCheckConstraint_Column) "")
    (CheckConstraint_Validate o.(OpSetCheckConstraint_Check)) ;;
  l ← table_named o.(OpSetCheckConstraint_Table);
  table ← load l;
  fail_if (ConstraintExists table name)
    (ConstraintAlreadyExistsError table.(Table_Name) name) ;;
  field_required o.(OpSetCheckConstraint_Up) "up" ;;
  field_required o.(OpSetCheckConstraint_Down) "down".

(** ** Set foreign key *)

Definition SetForeignKey_Start (o : OpSetForeignKey) : M D StartResult :=
  let r := o.(OpSetForeignKey_References) in
  l ← table_named o.(OpSetForeignKey_Table);
  table ← load l;
  column ← column_named l o.(OpSetForeignKey_Table) o.(OpSetForeignKey_Column);
  rl ← table_named r.(ForeignKeyReference_Table);
  referencedTable ← load rl;
  referencedColumn ← column_named rl r.(ForeignKeyReference_Table)
                       r.(ForeignKeyReference_Column);
  update_table (putForeignKey
    (mkForeignKey r.(ForeignKeyReference_Name) [o.(OpSetForeignKey_Column)]
       r.(ForeignKeyReference_Table) [r.(ForeignKeyReference_Column)]
       r.(ForeignKeyReference_OnDelete) [] r.(ForeignKeyReference_OnUpdate)
       r.(ForeignKeyReference_MatchType))) l ;;
  mret (mkStartResult
    [createFKConstraintAction table.(Table_Name) r.(ForeignKeyReference_Name)
       [column.(Column_Name)] r.(ForeignKeyReference_InitiallyDeferred)
       r.(ForeignKeyReference_Deferrable)
       (Some (mkTableForeignKeyReference [referencedColumn.(Column_Name)]
          r.(ForeignKeyReference_MatchType) r.(ForeignKeyReference_OnDelete) []
          r.(ForeignKeyReference_OnUpdate) referencedTable.(Table_Name)))
       true]
    (Some (NewTask (Some l) []))).

Definition SetForeignKey_Complete (o : OpSetForeignKey) : M D (list DBAction) :=
  let r := o.(OpSetForeignKey_References) in
  l ← table_named o.(OpSetForeignKey_Table);
  update_table (putForeignKey
    (mkForeignKey r.(ForeignKeyReference_Name) [o.(OpSetForeignKey_Column)]
       r.(ForeignKeyReference_Table) [r.(ForeignKeyReference_Column)] "" [] "" "")) l ;;
  table ← load l;
  mret [validateConstraintAction table.(Table_Name) r.(ForeignKeyReference_Name)].

Definition SetForeignKey_Validate (o : OpSetForeignKey) : M D () :=
  let name := o.(OpSetForeignKey_References).(ForeignKeyReference_Name) in
  wrap_err (ColumnReferenceError o.(OpSetForeignKey_Table) o.(OpSetForeignKey_Column))
    (ForeignKeyReference_Validate o.(OpSetForeignKey_References)) ;;
  l ← table_named o.(OpSetForeignKey_Table);
  table ← load l;
  fail_if (ConstraintExists table name)
    (ConstraintAlreadyExistsError table.(Table_Name) name) ;;
  field_required o.(OpSetForeignKey_Up) "up" ;;
  field_required o.(OpSetForeignKey_Down) "down".

(** ** Set and drop NOT NULL *)

Definition SetNotNull_Start (o : OpSetNotNull) : M D StartResult :=
  let col := o.(OpSetNotNull_Column) in
  l ← table_named o.(OpSetNotNull_Table);
  table ← load l;
  column_named l o.(OpSetNotNull_Table) col ;;
  scope ← MigrationScope;
  mret (mkStartResult
    [CreateCheckConstraintAction scope table.(Table_Name) [col] (NotNullConstraintName col)
       (col +:+ " IS NOT NULL") false true]
    (Some (NewTask (Some l) []))).

Definition SetNotNull_Complete (o : OpSetNotNull) : M D (list DBAction) :=
  let col := o.(OpSetNotNull_Column) in
  l ← table_named o.(OpSetNotNull_Table);
  column_named l o.(OpSetNotNull_Table) col ;;
  update_column l col (set_Column_Nullable false) ;;
  update_table (deleteCheckConstraint (NotNullConstraintName col)) l ;;
  table ← load l;
  scope ← MigrationScope;
  mret [validateConstraintAction table.(Table_Name) (NotNullConstraintName col);
        setNotNullAction table.(Table_Name) (TemporaryName scope col)
          (CanonicalNotNullName table.(Table_Name) col);
        dropConstraintAction table.(Table_Name) (NotNullConstraintName col)].

(** [s.GetTable(o.Table).GetColumn(o.Column)], both pointers dereferenced *)
Definition deref_column (table column : string) : M D Column :=
  l ← get_table table; l ← deref l; c ← get_column l column; deref c.

Definition SetNotNull_Validate (o : OpSetNotNull) : M D () :=
  column ← deref_column o.(OpSetNotNull_Table) o.(OpSetNotNull_Column);
  fail_if (negb column.(Column_Nullable))
    (ColumnIsNotNullableError o.(OpSetNotNull_Table) o.(OpSetNotNull_Column)) ;;
  field_required o.(OpSetNotNull_Up) "up".

Definition DropNotNull_Start (o : OpDropNotNull) : M D StartResult :=
  l ← table_named o.(OpDropNotNull_Table);
  mret (mkStartResult [] (Some (NewTask (Some l) []))).

Definition DropNotNull_Validate (o : OpDropNotNull) : M D () :=
  column ← deref_column o.(OpDropNotNull_Table) o.(OpDropNotNull_Column);
  fail_if column.(Column_Nullable)
    (ColumnIsNullableError o.(OpDropNotNull_Table) o.(OpDropNotNull_Column)) ;;
  field_required o.(OpDropNotNull_Down) "down".

(** ** Set unique *)

Definition SetUnique_Start (o : OpSetUnique) : M D StartResult :=
  l ← table_named o.(OpSetUnique_Table);
  table ← load l;
  column ← column_named l o.(OpSetUnique_Table) o.(OpSetUnique_Column);
  schemaName ← gets (λ w, Schema_Name (w_schema w));
  update_table (putUniqueConstraint
    (mkUniqueConstraint o.(OpSetUnique_Name) [o.(OpSetUnique_Column)])) l ;;
  mret (mkStartResult
    [NewCreateUniqueIndexAction schemaName o.(OpSetUnique_Name) table [column.(Column_Name)]]
    (Some (NewTask (Some l) []))).

Definition SetUnique_Complete (o : OpSetUnique) : M D (list DBAction) :=
  l ← table_named o.(OpSetUnique_Table);
  table ← load l;
  mret [addConstraintUsingUniqueIndexAction table.(Table_Name) o.(OpSetUnique_Name)
          o.(OpSetUnique_Name)].

Definition SetUnique_Validate (o : OpSetUnique) : M D () :=
  field_required o.(OpSetUnique_Name) "name" ;;
  l ← table_named o.(OpSetUnique_Table);
  column_named l o.(OpSetUnique_Table) o.(OpSetUnique_Column) ;;
  table ← load l;
  fail_if (ConstraintExists table o.(OpSetUnique_Name))
    (ConstraintAlreadyExistsError table.(Table_Name) o.(OpSetUnique_Name)).

(** ** Set default *)

Definition SetDefault_Start (o : OpSetDefault) : M D StartResult :=
  l ← table_named o.(OpSetDefault_Table);
  table ← load l;
  column ← column_named l o.(OpSetDefault_Table) o.(OpSetDefault_Column);
  update_column l o.(OpSetDefault_Column) (set_Column_Default o.(OpSetDefault_Default)) ;;
  mret (mkStartResult
    [match o.(OpSetDefault_Default) with
     | None => dropDefaultAction table.(Table_Name) column.(Column_Name)
     | Some d => setDefaultAction table.(Table_Name) column.(Column_Name) d
     end]
    (Some (NewTask (Some l) []))).

(** ** Set comment *)

Definition SetComment_Start (o : OpSetComment) : M D StartResult :=
  l ← table_named o.(OpSetComment_Table);
  table ← load l;
  scope ← MigrationScope;
  mret (mkStartResult
    [commentColumnAction table.(Table_Name) (TemporaryName scope o.(OpSetComment_Column))
       o.(OpSetComment_Comment)]
    (Some (NewTask (Some l) []))).

Definition SetComment_Complete (o : OpSetComment) : M D (list DBAction) :=
  l ← table_named o.(OpSetComment_Table);
  table ← load l;
  mret [commentColumnAction table.(Table_Name) o.(OpSetComment_Column)
          o.(OpSetComment_Comment)].

(** ** The interface *)

Definition SubOp_Start (o : SubOp) : M D StartResult :=
  match o with
  | ChangeType_ o => ChangeType_Start o
  | SetCheckConstraint_ o => SetCheckConstraint_Start o
  | SetForeignKey_ o => SetForeignKey_Start o
  | SetNotNull_ o => SetNotNull_Start o
  | DropNotNull_ o => DropNotNull_Start o
  | SetUnique_ o => SetUnique_Start o
  | SetDefault_ o => SetDefault_Start o
  | SetComment_ o => SetComment_Start o
  end.

Definition SubOp_Complete (o : SubOp) : M D (list DBAction) :=
  match o with
  | ChangeType_ _ | DropNotNull_ _ | SetDefault_ _ => mret []
  | SetCheckConstraint_ o => SetCheckConstraint_Complete o
  | SetForeignKey_ o => SetForeignKey_Complete o
  | SetNotNull_ o => SetNotNull_Complete o
  | SetUnique_ o => SetUnique_Complete o
  | SetComment_ o => SetComment_Complete o
  end.

(** Every sub-operation's [Rollback] is empty. *)
Definition SubOp_Rollback (o : SubOp) : M D (list DBAction) := mret [].

Definition SubOp_Validate (o : SubOp) : M D () :=
  match o with
  | ChangeType_ o => ChangeType_Validate o
  | SetCheckConstraint_ o => SetCheckConstraint_Validate o
  | SetForeignKey_ o => SetForeignKey_Validate o
  | SetNotNull_ o => SetNotNull_Validate o
  | DropNotNull_ o => DropNotNull_Validate o
  | SetUnique_ o => SetUnique_Validate o
  | SetDefault_ _ | SetComment_ _ => mret ()
  end.
End OpsSub.
