(* ===== verification/OpsAlter.v ===== *)
(** * OpsAlter: alter column

    [OpAlterColumn] splits into sub-operations, duplicates the column (the
    duplication runs inside [Start], before any action is coordinated), keeps
    the two columns in sync with a pair of triggers, and at completion puts
    the duplicate in the column's place. *)

From S2P Require Import Prelude.
From S2P Require Import GoStd.
From S2P Require Import Names.
From S2P Require Import Schema.
From S2P Require Import Types.
From S2P Require Import Db.
From S2P Require Import SqlWriter.
From S2P Require Import Actions.
From S2P Require Import Duplicate.
From S2P Require Import Backfill.
From S2P Require Import OpsBase.
From S2P Require Import OpsSub.

Section OpsAlter.
Context `{!Pq} {D : Type} `{!DB D}.

(** [Default] and [Comment] reach the sub-operation as a pointer, nil for
    an explicit null. *)
Definition subOperations (o : OpAlterColumn) : list SubOp :=
  let t := o.(OpAlterColumn_Table) in
  let c := o.(OpAlterColumn_Column) in
  let up := o.(OpAlterColumn_Up) in
  let down := o.(OpAlterColumn_Down) in
  (match o.(OpAlterColumn_Type) with
   | Some ty => [ChangeType_ (mkOpChangeType t c ty up down)] | None => [] end) ++
  (match o.(OpAlterColumn_Check) with
   | Some ch => [SetCheckConstraint_ (mkOpSetCheckConstraint t c ch up down)]
   | None => [] end) ++
  (match o.(OpAlterColumn_References) with
   | Some r => [SetForeignKey_ (mkOpSetForeignKey t c r up down)] | None => [] end) ++
  (match o.(OpAlterColumn_Nullable) with
   | Some false => [SetNotNull_ (mkOpSetNotNull t c up down)] | _ => [] end) ++
  (match o.(OpAlterColumn_Nullable) with
   | Some true => [DropNotNull_ (mkOpDropNotNull t c up down)] | _ => [] end) ++
  (match o.(OpAlterColumn_Unique) with
   | Some u => [SetUnique_ (mkOpSetUnique u.(MigUniqueConstraint_Name) t c up down)]
   | None => [] end) ++
  (if IsSpecified o.(OpAlterColumn_Default)
   then [SetDefault_ (mkOpSetDefault t c (Nullable_Get o.(OpAlterColumn_Default)) up down)]
   else []) ++
  (if IsSpecified o.(OpAlterColumn_Comment)
   then [SetComment_ (mkOpSetComment t c (Nullable_Get o.(OpAlterColumn_Comment)) up down)]
   else []).

Fixpoint applySubOps (columnName : string) (ops : list SubOp) (d : duplicator) :
    outcome error duplicator :=
  match ops with
  | [] => Ok d
  | DropNotNull_ _ :: ops =>
      d ← WithoutNotNull columnName d; applySubOps columnName ops d
  | ChangeType_ op :: ops =>
      d ← WithType columnName op.(OpChangeType_Type) d; applySubOps columnName ops d
  | _ :: ops => applySubOps columnName ops d
  end.

Definition duplicatorForOperations (ops : list SubOp) (scope : string) (l : loc)
    (table : Table) (column : Column) : outcome error duplicator :=
  applySubOps column.(Column_Name) ops (NewColumnDuplicator scope l table [column]).

Definition defaultsDown (op : SubOp) : bool :=
  match op with
  | SetUnique_ _ | SetNotNull_ _ | SetDefault_ _ | SetComment_ _ => true
  | _ => false
  end.
Definition defaultsUp (op : SubOp) : bool :=
  match op with DropNotNull_ _ | SetDefault_ _ | SetComment_ _ => true | _ => false end.

Definition downSQLForOperations (o : OpAlterColumn) (ops : list SubOp) : string :=
  if decide (o.(OpAlterColumn_Down) = "") then
    if existsb defaultsDown ops then QuoteIdentifier o.(OpAlterColumn_Column) else ""
  else o.(OpAlterColumn_Down).
Definition upSQLForOperations (o : OpAlterColumn) (ops : list SubOp) : string :=
  if decide (o.(OpAlterColumn_Up) = "") then
    if existsb defaultsUp ops then QuoteIdentifier o.(OpAlterColumn_Column) else ""
  else o.(OpAlterColumn_Up).

(** The column [Start] leaves in the schema *)
Definition alteredColumn (scope : string) (o : OpAlterColumn) (column : Column) : Column :=
  let typeChanged :=
    match o.(OpAlterColumn_Type) with
    | Some ty => negb (bool_decide (ty = column.(Column_Type)))
    | None => false
    end in
  let newCol := set_Column_Type (default column.(Column_Type) o.(OpAlterColumn_Type))
                  (set_Column_Name (TemporaryName scope o.(OpAlterColumn_Column)) column) in
  if typeChanged then set_Column_Default None newCol else newCol.

(** The loop over the sub-operations' [Start] *)
Fixpoint startSubOps (ops : list SubOp) (task : Task) (actions : list DBAction) :
    M D (Task * list DBAction) :=
  match ops with
  | [] => mret (task, actions)
  | op :: ops =>
      r ← SubOp_Start op;
      task ← lift (AddTriggers task r.(StartResult_BackfillTask));
      startSubOps ops task (actions ++ r.(StartResult_Actions))
  end.

Definition AlterColumn_Start (fuel : nat) (o : OpAlterColumn) : M D (option StartResult) :=
  let tn := o.(OpAlterColumn_Table) in
  let cn := o.(OpAlterColumn_Column) in
  scope ← MigrationScope;
  l ← table_named tn;
  table ← load l;
  column ← column_named l tn cn;
  let ops := subOperations o in
  d ← lift (duplicatorForOperations ops scope l table column);
  d ← lift (WithName column.(Column_Name) (TemporaryName scope cn) d);
  wrap_err (ErrorfW "failed to duplicate column: %w" []) (duplicator_Execute fuel d) ;;
  update_table (AddColumn cn (alteredColumn scope o column)) l ;;
  let triggers :=
    [mkOperationTrigger (TriggerName scope tn cn) TriggerDirectionUp
       (ColumnsCopy table.(Table_Columns)) table.(Table_Name) (TemporaryName scope cn)
       (upSQLForOperations o ops);
     mkOperationTrigger (TriggerName scope tn (TemporaryName scope cn)) TriggerDirectionDown
       (ColumnsOf l) table.(Table_Name) column.(Column_Name) (downSQLForOperations o ops)] in
  '(task, dbActions) ← startSubOps ops (NewTask (Some l) triggers) [];
  mret (Some (mkStartResult dbActions (Some task))).

Definition AlterColumn_Complete (o : OpAlterColumn) : M D (list DBAction) :=
  let tn := o.(OpAlterColumn_Table) in
  let cn := o.(OpAlterColumn_Column) in
  scope ← MigrationScope;
  subActions ← map_each SubOp_Complete (subOperations o);
  l ← table_named tn;
  table ← load l;
  column ← column_named l tn cn;
  let t := table.(Table_Name) in
  mret (concat subActions ++
    [alterSequenceOwnerAction t column.(Column_Name)
       (TemporaryName scope column.(Column_Name));
     dropColumnAction t [cn];
     dropFunctionAction [TriggerFunctionName scope tn cn;
                         TriggerFunctionName scope tn (TemporaryName scope cn)];
     dropColumnAction t [NeedsBackfillColumnName scope];
     NewRenameDuplicatedColumnAction scope l table cn]).

Definition AlterColumn_Rollback (o : OpAlterColumn) : M D (list DBAction) :=
  let tn := o.(OpAlterColumn_Table) in
  let cn := o.(OpAlterColumn_Column) in
  scope ← MigrationScope;
  l ← table_named tn;
  table ← load l;
  column ← column_named l tn cn;
  subActions ← map_each SubOp_Rollback (subOperations o);
  mret (concat subActions ++
    [dropColumnAction table.(Table_Name) [column.(Column_Name)];
     dropFunctionAction [TriggerFunctionName scope tn cn;
                         TriggerFunctionName scope tn (TemporaryName scope cn)];
     dropColumnAction table.(Table_Name) [NeedsBackfillColumnName scope]]).

Definition AlterColumn_Validate (o : OpAlterColumn) : M D () :=
  l ← table_named o.(OpAlterColumn_Table);
  column_named l o.(OpAlterColumn_Table) o.(OpAlterColumn_Column) ;;
  fail_if (bool_decide (length (subOperations o) = 0))
    (AlterColumnNoChangesError o.(OpAlterColumn_Table) o.(OpAlterColumn_Column)) ;;
  for_each SubOp_Validate (subOperations o).
End OpsAlter.
