(* ===== verification/OpsConstraint.v ===== *)
(** * OpsConstraint: create constraint, drop constraint, drop multi-column
      constraint

    The three operations duplicate the columns of a constraint, sync them
    with up and down triggers, and swap them in at completion. *)

From S2P Require Import Prelude.
From S2P Require Import GoStd.
From S2P Require Import Names.
From S2P Require Import Schema.
From S2P Require Import Types.
From S2P Require Import Db.
From S2P Require Import SqlWriter.
From S2P Require Import Actions.
From S2P Require Import Duplicate.
From S2P Require Import Backfill.
From S2P Require Import OpsBase.
From S2P Require Import OpsSub.

Section OpsConstraint.
Context `{!Pq} {D : Type} `{!DB D}.

(** [for _, c := range names { d = d.WithName(table.GetColumn(c).Name, ...) }] *)
Fixpoint nameDuplicates (scope : string) (table : Table) (names : list string)
    (d : duplicator) : outcome error duplicator :=
  match names with
  | [] => Ok d
  | c :: names =>
      col ← GetColumn table c;
      match col with
      | None => Panic
      | Some col =>
          d ← WithName col.(Column_Name) (TemporaryName scope c) d;
          nameDuplicates scope table names d
      end
  end.

(** One iteration of the loops that set up the triggers: the up trigger,
    the column replaced in the schema, the down trigger. *)
Definition columnTriggers (scope tableName : string) (l : loc) (upColumns : TriggerColumns)
    (colName upSQL downSQL : string) : M D (list OperationTrigger) :=
  oldCol ← get_column l colName;
  oldCol ← deref oldCol;
  update_table (AddColumn colName (set_Column_Name (TemporaryName scope colName) oldCol)) l ;;
  table ← load l;
  mret [mkOperationTrigger (TriggerName scope tableName colName) TriggerDirectionUp upColumns
          table.(Table_Name) (TemporaryName scope colName) upSQL;
        mkOperationTrigger (TriggerName scope tableName (TemporaryName scope colName))
          TriggerDirectionDown (ColumnsOf l) table.(Table_Name) oldCol.(Column_Name) downSQL].

(** ** Create constraint *)

Definition removeTriggers (scope : string) (o : OpCreateConstraint) : DBAction :=
  dropFunctionAction (o.(OpCreateConstraint_Columns) ≫= λ column,
    [TriggerFunctionName scope o.(OpCreateConstraint_Table) column;
     TriggerFunctionName scope o.(OpCreateConstraint_Table) (TemporaryName scope column)]).

(** The action the constraint's type adds to [Start] *)
Definition constraintAction (scope schemaName : string) (table : Table)
    (o : OpCreateConstraint) : outcome error (list DBAction) :=
  let name := o.(OpCreateConstraint_Name) in
  let cols := o.(OpCreateConstraint_Columns) in
  if decide (o.(OpCreateConstraint_Type) = OpCreateConstraintTypeUnique
             ∨ o.(OpCreateConstraint_Type) = OpCreateConstraintTypePrimaryKey) then
    Ok [NewCreateUniqueIndexAction schemaName name table (temporaryNames scope cols)]
  else if decide (o.(OpCreateConstraint_Type) = OpCreateConstraintTypeCheck) then
    match o.(OpCreateConstraint_Check) with
    | None => Panic
    | Some check => Ok [CreateCheckConstraintAction scope table.(Table_Name) cols name check
                          o.(OpCreateConstraint_NoInherit) true]
    end
  else if decide (o.(OpCreateConstraint_Type) = OpCreateConstraintTypeForeignKey) then
    Ok [createFKConstraintAction table.(Table_Name) name (temporaryNames scope cols) false false
          o.(OpCreateConstraint_References) true]
  else Ok [].

Definition CreateConstraint_Start (o : OpCreateConstraint) : M D (option StartResult) :=
  let tn := o.(OpCreateConstraint_Table) in
  let names := o.(OpCreateConstraint_Columns) in
  scope ← MigrationScope;
  l ← table_named tn;
  table ← load l;
  columns ← map_each (column_named l tn) names;
  d ← lift (nameDuplicates scope table names (NewColumnDuplicator scope l table columns));
  triggers ← map_each (λ colName,
      columnTriggers scope tn l (ColumnsCopy table.(Table_Columns)) colName
        (default "" (o.(OpCreateConstraint_Up) !! colName))
        (default "" (o.(OpCreateConstraint_Down) !! colName))) names;
  schemaName ← gets (λ w, Schema_Name (w_schema w));
  actions ← lift (constraintAction scope schemaName table o);
  mret (Some (mkStartResult (duplicateAction d :: actions)
                (Some (NewTask (Some l) (concat triggers))))).

(** The completion of the matching sub-operation, without a column *)
Definition completeConstraint (o : OpCreateConstraint) (table : Table) : M D (list DBAction) :=
  let tn := o.(OpCreateConstraint_Table) in
  let name := o.(OpCreateConstraint_Name) in
  let ty := o.(OpCreateConstraint_Type) in
  if decide (ty = OpCreateConstraintTypeUnique) then
    SetUnique_Complete (mkOpSetUnique name tn "" "" "")
  else if decide (ty = OpCreateConstraintTypeCheck) then
    SetCheckConstraint_Complete
      (mkOpSetCheckConstraint tn "" (mkMigCheckConstraint "" name false) "" "")
  else if decide (ty = OpCreateConstraintTypeForeignKey) then
    SetForeignKey_Complete
      (mkOpSetForeignKey tn "" (mkForeignKeyReference "" false false "" name "" "" "") "" "")
  else if decide (ty = OpCreateConstraintTypePrimaryKey) then
    mret [addPrimaryKeyAction table.(Table_Name) name]
  else mret [].

Definition CreateConstraint_Complete (o : OpCreateConstraint) : M D (list DBAction) :=
  let tn := o.(OpCreateConstraint_Table) in
  let names := o.(OpCreateConstraint_Columns) in
  scope ← MigrationScope;
  l ← table_named tn;
  table ← load l;
  let t := table.(Table_Name) in
  actions ← completeConstraint o table;
  for_each (λ col, column_named l tn col ;; mret ()) names ;;
  mret (actions ++
    ((λ col, alterSequenceOwnerAction t col (TemporaryName scope col)) <$> names) ++
    [dropColumnAction t names] ++
    (NewRenameDuplicatedColumnAction scope l table <$> names) ++
    [removeTriggers scope o; dropColumnAction t [NeedsBackfillColumnName scope]]).

Definition CreateConstraint_Rollback (o : OpCreateConstraint) : M D (list DBAction) :=
  scope ← MigrationScope;
  l ← table_named o.(OpCreateConstraint_Table);
  table ← load l;
  mret [dropColumnAction table.(Table_Name)
          (temporaryNames scope o.(OpCreateConstraint_Columns));
        removeTriggers scope o;
        dropColumnAction table.(Table_Name) [NeedsBackfillColumnName scope]].

Definition CreateConstraint_RollbackCompleted (o : OpCreateConstraint) :
    M D (list DBAction) :=
  l ← table_named o.(OpCreateConstraint_Table);
  table ← load l;
  mret [dropConstraintAction table.(Table_Name) o.(OpCreateConstraint_Name)].

Definition CreateConstraint_Validate (o : OpCreateConstraint) : M D () :=
  let tn := o.(OpCreateConstraint_Table) in
  let ty := o.(OpCreateConstraint_Type) in
  l ← table_named tn;
  validate_length o.(OpCreateConstraint_Name) ;;
  table ← load l;
  fail_if (ConstraintExists table o.(OpCreateConstraint_Name))
    (ConstraintAlreadyExistsError tn o.(OpCreateConstraint_Name)) ;;
  for_each (λ col,
      column_named l tn col ;;
      require (o.(OpCreateConstraint_Up) !! col) (ColumnMigrationMissingError tn col) ;;
      require (o.(OpCreateConstraint_Down) !! col) (ColumnMigrationMissingError tn col) ;;
      mret ()) o.(OpCreateConstraint_Columns) ;;
  if decide (ty = OpCreateConstraintTypeUnique) then
    fail_if (bool_decide (o.(OpCreateConstraint_Columns) = [])) (FieldRequiredError "columns")
  else if decide (ty = OpCreateConstraintTypeCheck) then
    field_required (default "" o.(OpCreateConstraint_Check)) "check"
  else if decide (ty = OpCreateConstraintTypeForeignKey) then
    r ← require o.(OpCreateConstraint_References) (FieldRequiredError "references");
    rl ← table_named r.(TableForeignKeyReference_Table);
    for_each (λ col, column_named rl r.(TableForeignKeyReference_Table) col ;; mret ())
      r.(TableForeignKeyReference_Columns)
  else mret ().

(** ** Drop constraint *)

Definition DropConstraint_upSQL (o : OpDropConstraint) (column : string) : string :=
  if decide (o.(OpDropConstraint_Up) = "") then QuoteIdentifier column
  else o.(OpDropConstraint_Up).

(** A constraint the schema does not know is skipped. *)
Definition DropConstraint_Start (o : OpDropConstraint) : M D (option StartResult) :=
  let tn := o.(OpDropConstraint_Table) in
  scope ← MigrationScope;
  l ← table_named tn;
  table ← load l;
  match GetConstraintColumns table o.(OpDropConstraint_Name) with
  | [] => mret None
  | first :: _ =>
      column ← column_named l tn first;
      let name := column.(Column_Name) in
      update_table (AddColumn name (set_Column_Name (TemporaryName scope name) column)) l ;;
      let d := WithoutConstraint o.(OpDropConstraint_Name)
                 (NewColumnDuplicator scope l table [column]) in
      let triggers :=
        [mkOperationTrigger (TriggerName scope tn name) TriggerDirectionUp
           (ColumnsCopy table.(Table_Columns)) tn (TemporaryName scope name)
           (DropConstraint_upSQL o name);
         mkOperationTrigger (TriggerName scope tn (TemporaryName scope name))
           TriggerDirectionDown (ColumnsOf l) tn name o.(OpDropConstraint_Down)] in
      mret (Some (mkStartResult [duplicateAction d] (Some (NewTask (Some l) triggers))))
  end.

Definition DropConstraint_Complete (o : OpDropConstraint) : M D (list DBAction) :=
  let tn := o.(OpDropConstraint_Table) in
  scope ← MigrationScope;
  l ← table_named tn;
  table ← load l;
  first ← deref (head (GetConstraintColumns table o.(OpDropConstraint_Name)));
  column ← get_column l first;
  column ← deref column;
  let name := column.(Column_Name) in
  let t := table.(Table_Name) in
  mret [dropFunctionAction [TriggerFunctionName scope tn name;
                            TriggerFunctionName scope tn (TemporaryName scope name)];
        alterSequenceOwnerAction t name (TemporaryName scope name);
        dropColumnAction t [NeedsBackfillColumnName scope];
        dropColumnAction t [name];
        NewRenameDuplicatedColumnAction scope l table name].

Definition DropConstraint_Rollback (o : OpDropConstraint) : M D (list DBAction) :=
  let tn := o.(OpDropConstraint_Table) in
  scope ← MigrationScope;
  l ← table_named tn;
  table ← load l;
  columnName ← deref (head (GetConstraintColumns table o.(OpDropConstraint_Name)));
  mret [dropColumnAction table.(Table_Name) [TemporaryName scope columnName];
        dropFunctionAction [TriggerFunctionName scope tn columnName;
                            TriggerFunctionName scope tn (TemporaryName scope columnName)];
        dropColumnAction table.(Table_Name) [NeedsBackfillColumnName scope]].

Definition DropConstraint_Validate (o : OpDropConstraint) : M D () :=
  let name := o.(OpDropConstraint_Name) in
  l ← table_named o.(OpDropConstraint_Table);
  field_required name "name" ;;
  table ← load l;
  fail_if (negb (ConstraintExists table name))
    (ConstraintDoesNotExistError o.(OpDropConstraint_Table) name) ;;
  fail_if (1 <? length (GetConstraintColumns table name))%nat
    (MultiColumnConstraintsNotSupportedError table.(Table_Name) name) ;;
  field_required o.(OpDropConstraint_Down) "down".

(** ** Drop multi-column constraint *)

(** [o.Up[column]], reading a nil map as an empty one *)
Definition read_map (m : option (gmap string string)) (k : string) : string :=
  default "" (default ∅ m !! k).

Definition DropMulti_upSQL (o : OpDropMultiColumnConstraint) (column : string) : string :=
  if decide (read_map o.(OpDropMultiColumnConstraint_Up) column = "")
  then QuoteIdentifier column
  else read_map o.(OpDropMultiColumnConstraint_Up) column.

(** The columns a loop's up trigger declares are copied in each iteration. *)
Definition DropMultiColumnConstraint_Start (o : OpDropMultiColumnConstraint) :
    M D (option StartResult) :=
  let tn := o.(OpDropMultiColumnConstraint_Table) in
  scope ← MigrationScope;
  l ← table_named tn;
  table ← load l;
  let names := GetConstraintColumns table o.(OpDropMultiColumnConstraint_Name) in
  columns ← map_each (column_named l tn) names;
  d ← lift (nameDuplicates scope table names
        (WithoutConstraint o.(OpDropMultiColumnConstraint_Name)
           (NewColumnDuplicator scope l table columns)));
  triggers ← map_each (λ colName,
      table ← load l;
      columnTriggers scope tn l (ColumnsCopy table.(Table_Columns)) colName
        (DropMulti_upSQL o colName)
        (read_map o.(OpDropMultiColumnConstraint_Down) colName)) names;
  mret (Some (mkStartResult [duplicateAction d]
                (Some (NewTask (Some l) (concat triggers))))).

Definition DropMultiColumnConstraint_Complete (o : OpDropMultiColumnConstraint) :
    M D (list DBAction) :=
  let tn := o.(OpDropMultiColumnConstraint_Table) in
  scope ← MigrationScope;
  l ← table_named tn;
  table ← load l;
  let t := table.(Table_Name) in
  mret (GetConstraintColumns table o.(OpDropMultiColumnConstraint_Name) ≫= λ columnName,
    [dropFunctionAction [TriggerFunctionName scope tn columnName;
                         TriggerFunctionName scope tn (TemporaryName scope columnName)];
     alterSequenceOwnerAction t columnName (TemporaryName scope columnName);
     dropColumnAction t [NeedsBackfillColumnName scope];
     dropColumnAction t [columnName];
     NewRenameDuplicatedColumnAction scope l table columnName]).

Definition DropMultiColumnConstraint_Rollback (o : OpDropMultiColumnConstraint) :
    M D (list DBAction) :=
  let tn := o.(OpDropMultiColumnConstraint_Table) in
  scope ← MigrationScope;
  l ← table_named tn;
  table ← load l;
  let t := table.(Table_Name) in
  mret (GetConstraintColumns table o.(OpDropMultiColumnConstraint_Name) ≫= λ columnName,
    [dropColumnAction t [TemporaryName scope columnName];
     dropFunctionAction [TriggerFunctionName scope tn columnName;
                         TriggerFunctionName scope tn (TemporaryName scope columnName)];
     dropColumnAction t [NeedsBackfillColumnName scope]]).

(** The maps are ranged over in key order; Go's order is unspecified. *)
Definition DropMultiColumnConstraint_Validate (o : OpDropMultiColumnConstraint) : M D () :=
  let tn := o.(OpDropMultiColumnConstraint_Table) in
  let name := o.(OpDropMultiColumnConstraint_Name) in
  l ← table_named tn;
  field_required name "name" ;;
  table ← load l;
  fail_if (negb (ConstraintExists table name)) (ConstraintDoesNotExistError tn name) ;;
  down ← require o.(OpDropMultiColumnConstraint_Down) (FieldRequiredError "down");
  let cols := GetConstraintColumns table name in
  for_each (λ c, fail_if (bool_decide (down !! c = None)) (ColumnMigrationMissingError tn c))
    cols ;;
  for_each (λ m,
      for_each (λ c, fail_if (negb (slices_Contains cols c))
                       (ColumnMigrationRedundantError tn c)) (sorted_keys m))
    [down; default ∅ o.(OpDropMultiColumnConstraint_Up)].
End OpsConstraint.
