(* ===== verification/Operations.v ===== *)
(** * Operations: the interface [Operation] and its optional companions

    Dynamic dispatch over the sum of operations: the four methods of
    [Operation], and the interfaces a value may or may not implement
    ([IsolatedOperation], [CompletedRollbackable],
    [RequiresSchemaRefreshOperation]), an operation without the method being
    [None] or [false]. *)

From S2P Require Import Prelude.
From S2P Require Import GoStd.
From S2P Require Import Names.
From S2P Require Import Schema.
From S2P Require Import Types.
From S2P Require Import Db.
From S2P Require Import Actions.
From S2P Require Import Backfill.
From S2P Require Import OpsBase.
From S2P Require Import OpsColumn.
From S2P Require Import OpsTable.
From S2P Require Import OpsAlter.
From S2P Require Import OpsConstraint.

Section Operations.
Context `{!Pq} {D : Type} `{!DB D}.

Definition Start (fuel : nat) (op : Operation) : M D (option StartResult) :=
  match op with
  | AddColumn_ o => AddColumn_Start o
  | AlterColumn_ o => AlterColumn_Start fuel o
  | CreateConstraint_ o => CreateConstraint_Start o
  | CreateIndex_ o => CreateIndex_Start o
  | CreateTable_ o => CreateTable_Start o
  | DropColumn_ o => DropColumn_Start o
  | DropConstraint_ o => DropConstraint_Start o
  | DropIndex_ o => DropIndex_Start o
  | DropMultiColumnConstraint_ o => DropMultiColumnConstraint_Start o
  | DropTable_ o => DropTable_Start o
  | RawSQL_ o => RawSQL_Start o
  | RenameColumn_ o => RenameColumn_Start o
  | RenameConstraint_ o => RenameConstraint_Start o
  | RenameTable_ o => RenameTable_Start o
  | SetReplicaIdentity_ o => SetReplicaIdentity_Start o
  end.

Definition Complete (op : Operation) : M D (list DBAction) :=
  match op with
  | AddColumn_ o => AddColumn_Complete o
  | AlterColumn_ o => AlterColumn_Complete o
  | CreateConstraint_ o => CreateConstraint_Complete o
  | CreateIndex_ o => CreateIndex_Complete o
  | CreateTable_ o => CreateTable_Complete o
  | DropColumn_ o => DropColumn_Complete o
  | DropConstraint_ o => DropConstraint_Complete o
  | DropIndex_ o => DropIndex_Complete o
  | DropMultiColumnConstraint_ o => DropMultiColumnConstraint_Complete o
  | DropTable_ o => DropTable_Complete o
  | RawSQL_ o => RawSQL_Complete o
  | RenameColumn_ o => RenameColumn_Complete o
  | RenameConstraint_ o => RenameConstraint_Complete o
  | RenameTable_ o => RenameTable_Complete o
  | SetReplicaIdentity_ o => SetReplicaIdentity_Complete o
  end.

Definition Rollback (op : Operation) : M D (list DBAction) :=
  match op with
  | AddColumn_ o => AddColumn_Rollback o
  | AlterColumn_ o => AlterColumn_Rollback o
  | CreateConstraint_ o => CreateConstraint_Rollback o
  | CreateIndex_ o => CreateIndex_Rollback o
  | CreateTable_ o => CreateTable_Rollback o
  | DropColumn_ o => DropColumn_Rollback o
  | DropConstraint_ o => DropConstraint_Rollback o
  | DropIndex_ o => DropIndex_Rollback o
  | DropMultiColumnConstraint_ o => DropMultiColumnConstraint_Rollback o
  | DropTable_ o => DropTable_Rollback o
  | RawSQL_ o => RawSQL_Rollback o
  | RenameColumn_ o => RenameColumn_Rollback o
  | RenameConstraint_ o => RenameConstraint_Rollback o
  | RenameTable_ o => RenameTable_Rollback o
  | SetReplicaIdentity_ o => SetReplicaIdentity_Rollback o
  end.

Definition Validate (op : Operation) : M D () :=
  match op with
  | AddColumn_ o => AddColumn_Validate o
  | AlterColumn_ o => AlterColumn_Validate o
  | CreateConstraint_ o => CreateConstraint_Validate o
  | CreateIndex_ o => CreateIndex_Validate o
  | CreateTable_ o => CreateTable_Validate o
  | DropColumn_ o => DropColumn_Validate o
  | DropConstraint_ o => DropConstraint_Validate o
  | DropIndex_ o => DropIndex_Validate o
  | DropMultiColumnConstraint_ o => DropMultiColumnConstraint_Validate o
  | DropTable_ o => DropTable_Validate o
  | RawSQL_ o => RawSQL_Validate o
  | RenameColumn_ o => RenameColumn_Validate o
  | RenameConstraint_ o => RenameConstraint_Validate o
  | RenameTable_ o => RenameTable_Validate o
  | SetReplicaIdentity_ o => SetReplicaIdentity_Validate o
  end.

(** [op.( CompletedRollbackable )] *)
Definition RollbackCompleted (op : Operation) : option (M D (list DBAction)) :=
  match op with
  | CreateConstraint_ o => Some (CreateConstraint_RollbackCompleted o)
  | RenameConstraint_ o => Some (RenameConstraint_RollbackCompleted o)
  | _ => None
  end.
End Operations.

(** [op.( IsolatedOperation )] and then [IsIsolated()] *)
Definition IsIsolated (op : Operation) : bool :=
  match op with RawSQL_ o => RawSQL_IsIsolated o | _ => false end.

(** [op.( RequiresSchemaRefreshOperation )] *)
Definition RequiresSchemaRefresh (op : Operation) : bool :=
  match op with RawSQL_ _ => true | _ => false end.
