(* ===== verification/Preconditions.v ===== *)
(** * Preconditions: the assertions of [preconditions.go]

    Schema-level preconditions read the virtual schema; the two
    database-level ones read rows.  The column checks read the raw map
    [table.Columns], deleted columns included. *)

From S2P Require Import Prelude.
From S2P Require Import GoStd.
From S2P Require Import Schema.
From S2P Require Import Types.
From S2P Require Import Db.

Section Preconditions.
Context {D : Type} `{!DB D}.

Definition validateTableExists (tableName : string) : M D () :=
  t ← get_table tableName;
  require t (Errorf "precondition failed: table %q does not exist" [tableName]) ;;
  mret ().

Definition validateTableNotExists (tableName : string) : M D () :=
  t ← get_table tableName;
  fail_if (bool_decide (is_Some t))
    (Errorf "precondition failed: table %q exists but should not" [tableName]).

Definition validateColumnExists (ref : PreconditionColumnExists) : M D () :=
  let tn := ref.(PreconditionColumnExists_Table) in
  let cn := ref.(PreconditionColumnExists_Column) in
  l ← table_or tn
    (Errorf "precondition failed: table %q does not exist (checking for column %q)" [tn; cn]);
  table ← load l;
  col ← require (table.(Table_Columns) !! cn)
    (Errorf "precondition failed: column %q does not exist on table %q" [cn; tn]);
  match ref.(PreconditionColumnExists_Type) with
  | None => mret ()
  | Some ty =>
      col ← deref col;
      fail_if (negb (bool_decide (col.(Column_Type) = ty)))
        (Errorf "precondition failed: column %q on table %q has type %q but expected %q"
           [cn; tn; col.(Column_Type); ty])
  end.

Definition validateColumnNotExists (ref : PreconditionColumnRef) : M D () :=
  let tn := ref.(PreconditionColumnRef_Table) in
  let cn := ref.(PreconditionColumnRef_Column) in
  t ← get_table tn;
  match t with
  | None => mret ()
  | Some l =>
      table ← load l;
      fail_if (bool_decide (is_Some (table.(Table_Columns) !! cn)))
        (Errorf "precondition failed: column %q exists on table %q but should not" [cn; tn])
  end.

Definition validateIndexExists (ref : PreconditionIndexRef) : M D () :=
  let tn := ref.(PreconditionIndexRef_Table) in
  let i := ref.(PreconditionIndexRef_Index) in
  l ← table_or tn
    (Errorf "precondition failed: table %q does not exist (checking for index %q)" [tn; i]);
  table ← load l;
  fail_if (bool_decide (table.(Table_Indexes) !! i = None))
    (Errorf "precondition failed: index %q does not exist on table %q" [i; tn]).

Definition hasConstraint (table : Table) (c : string) : bool :=
  bool_decide (is_Some (table.(Table_CheckConstraints) !! c))
  || bool_decide (is_Some (table.(Table_UniqueConstraints) !! c))
  || bool_decide (is_Some (table.(Table_ForeignKeys) !! c))
  || bool_decide (is_Some (table.(Table_ExcludeConstraints) !! c)).

Definition validateConstraintExists (ref : PreconditionConstraintRef) : M D () :=
  let tn := ref.(PreconditionConstraintRef_Table) in
  let c := ref.(PreconditionConstraintRef_Constraint) in
  l ← table_or tn
    (Errorf "precondition failed: table %q does not exist (checking for constraint %q)"
       [tn; c]);
  table ← load l;
  fail_if (negb (hasConstraint table c))
    (Errorf "precondition failed: constraint %q does not exist on table %q" [c; tn]).

(** The first assertion set, in the order of the switch *)
Definition validatePrecondition (p : Precondition) : M D () :=
  match p.(Precondition_TableExists), p.(Precondition_TableNotExists),
        p.(Precondition_ColumnExists), p.(Precondition_ColumnNotExists),
        p.(Precondition_IndexExists), p.(Precondition_ConstraintExists),
        p.(Precondition_FunctionExists), p.(Precondition_TypeExists) with
  | Some t, _, _, _, _, _, _, _ => validateTableExists t
  | _, Some t, _, _, _, _, _, _ => validateTableNotExists t
  | _, _, Some r, _, _, _, _, _ => validateColumnExists r
  | _, _, _, Some r, _, _, _, _ => validateColumnNotExists r
  | _, _, _, _, Some r, _, _, _ => validateIndexExists r
  | _, _, _, _, _, Some r, _, _ => validateConstraintExists r
  | _, _, _, _, _, _, Some _, _ => mret ()
  | _, _, _, _, _, _, _, Some _ => mret ()
  | _, _, _, _, _, _, _, _ => fail (Errorf "precondition has no assertion specified" [])
  end.

Definition ValidatePreconditions (preconditions : list Precondition) : M D () :=
  for_each validatePrecondition preconditions.

(** ** Against the database *)

Definition sha256_tag (s : string) : string := "sha256:" +:+ Sha256.EncodeToString (Sha256.Sum256 s).

(** The rows of [pg_proc], one overload each: body and signature *)
Fixpoint matchFunction (ref : PreconditionFunctionRef) (fnSchema : string) (found : bool)
    (rows : list (list sqlval)) (rows_err : option error) : outcome error () :=
  let name := ref.(PreconditionFunctionRef_Name) in
  match rows with
  | [] =>
      match rows_err with
      | Some e =>
          Err (ErrorfW "precondition check failed: iterating function %q.%q results: %w"
                 [fnSchema; name] e)
      | None =>
          if negb found then
            Err (Errorf "precondition failed: function %q.%q does not exist" [fnSchema; name])
          else
            match ref.(PreconditionFunctionRef_Signature) with
            | Some sig =>
                Err (Errorf "precondition failed: function %q.%q exists but no overload matches signature %q"
                       [fnSchema; name; sig])
            | None => Ok ()
            end
      end
  | [VString body; VString signature] :: rows =>
      if match ref.(PreconditionFunctionRef_Signature) with
         | Some sig => negb (bool_decide (signature = sig))
         | None => false
         end
      then matchFunction ref fnSchema true rows rows_err
      else
        match ref.(PreconditionFunctionRef_BodyHash) with
        | Some hash =>
            if decide (sha256_tag body = hash) then Ok ()
            else Err (Errorf "precondition failed: function %q.%q body hash mismatch: expected %q, got %q"
                        [fnSchema; name; hash; sha256_tag body])
        | None => Ok ()
        end
  | _ :: _ =>
      Err (ErrorfW "precondition check failed: scanning function %q.%q: %w" [fnSchema; name]
             scan_error)
  end.

Definition validateFunctionExists (ref : PreconditionFunctionRef) (defaultSchema : string) :
    M D () :=
  let fnSchema := if decide (ref.(PreconditionFunctionRef_Schema) = "") then defaultSchema
                  else ref.(PreconditionFunctionRef_Schema) in
  rows ← wrap_err (ErrorfW "precondition check failed: querying function %q.%q: %w"
                     [fnSchema; ref.(PreconditionFunctionRef_Name)])
    (query "SELECT p.prosrc,
		pg_get_function_arguments(p.oid) || ' -> ' || pg_get_function_result(p.oid) AS signature
		FROM pg_proc p
		JOIN pg_namespace n ON p.pronamespace = n.oid
		WHERE n.nspname = $1 AND p.proname = $2" [fnSchema; ref.(PreconditionFunctionRef_Name)]);
  rows ← deref rows;
  lift (matchFunction ref fnSchema false rows.(Rows_data) rows.(Rows_err)).

(** The values of the enum; without a row the slice stays nil. *)
Definition enumValues (rows : Rows) : outcome error (list string) :=
  match rows.(Rows_data) with
  | [] => Ok []
  | [VArray vs] :: _ => Ok vs
  | [VNull] :: _ => Ok []
  | _ :: _ => Err scan_error
  end.

Definition validateTypeExists (ref : PreconditionTypeRef) (defaultSchema : string) : M D () :=
  let name := ref.(PreconditionTypeRef_Name) in
  let typeSchema := if decide (ref.(PreconditionTypeRef_Schema) = "") then defaultSchema
                    else ref.(PreconditionTypeRef_Schema) in
  rows ← wrap_err (ErrorfW "precondition check failed: querying type %q.%q: %w"
                     [typeSchema; name])
    (query "SELECT t.typtype
		FROM pg_type t
		JOIN pg_namespace n ON t.typnamespace = n.oid
		WHERE n.nspname = $1 AND t.typname = $2" [typeSchema; name]);
  rows ← deref rows;
  row ← require (head rows.(Rows_data))
    (Errorf "precondition failed: type %q.%q does not exist" [typeSchema; name]);
  typType ← match row with
            | [VString s] => mret s
            | _ => fail (ErrorfW "precondition check failed: scanning type %q.%q: %w"
                           [typeSchema; name] scan_error)
            end;
  match ref.(PreconditionTypeRef_ValuesHash) with
  | None => mret ()
  | Some hash =>
      fail_if (negb (bool_decide (typType = "e")))
        (Errorf "precondition failed: type %q.%q is not an enum (cannot check values_hash)"
           [typeSchema; name]) ;;
      enumRows ← wrap_err
        (ErrorfW "precondition check failed: querying enum values for %q.%q: %w"
           [typeSchema; name])
        (query "SELECT array_agg(e.enumlabel ORDER BY e.enumsortorder)
			FROM pg_enum e
			JOIN pg_type t ON e.enumtypid = t.oid
			JOIN pg_namespace n ON t.typnamespace = n.oid
			WHERE n.nspname = $1 AND t.typname = $2" [typeSchema; name]);
      enumRows ← deref enumRows;
      values ← wrap_err
        (ErrorfW "precondition check failed: scanning enum values for %q.%q: %w"
           [typeSchema; name]) (lift (enumValues enumRows));
      let joined := Join (slices_Sort values) "," in
      fail_if (negb (bool_decide (sha256_tag joined = hash)))
        (Errorf "precondition failed: enum %q.%q values hash mismatch: expected %q, got %q (values: [%s])"
           [typeSchema; name; hash; sha256_tag joined; joined])
  end.

Definition validateDBPrecondition (schemaName : string) (p : Precondition) : M D () :=
  match p.(Precondition_FunctionExists), p.(Precondition_TypeExists) with
  | Some r, _ => validateFunctionExists r schemaName
  | None, Some r => validateTypeExists r schemaName
  | None, None => mret ()
  end.

Definition ValidateDBPreconditions (preconditions : list Precondition)
    (schemaName : string) : M D () :=
  for_each (validateDBPrecondition schemaName) preconditions.
End Preconditions.
