(* ===== verification/Migration.v ===== *)
(** * Migration: a migration as a whole ([migrations.go])

    Validation against a schema, reversibility, the two questions the
    lifecycle asks about a migration's completion, and the replay of its
    [Start] effects on the virtual schema. *)

From S2P Require Import Prelude.
From S2P Require Import GoStd.
From S2P Require Import Names.
From S2P Require Import Schema.
From S2P Require Import Types.
From S2P Require Import Db.
From S2P Require Import Actions.
From S2P Require Import Backfill.
From S2P Require Import OpsBase.
From S2P Require Import Operations.
From S2P Require Import Preconditions.

Definition VersionSchemaName (m : Migration) : string :=
  if decide (m.(Migration_VersionSchema) = "") then m.(Migration_Name)
  else m.(Migration_VersionSchema).

(** [RawMigration.SelectedBy] *)
Definition SelectedBy (targets : list string) (t : string) : bool :=
  if decide (t = "") then true else slices_Contains targets t.

(** [%q] of an operation name, which needs no escapes *)
Definition q (s : string) : string :=
  String (Ascii.ascii_of_nat 34) s +:+ String (Ascii.ascii_of_nat 34) EmptyString.

(** The check of one operation *)
Definition irreversibleReason (op : Operation) : option error :=
  match op with
  | RawSQL_ o =>
      if negb o.(OpRawSQL_OnComplete) && bool_decide (o.(OpRawSQL_Down) = "") then
        Some (InvalidMigrationError ("operation " +:+ q (OperationName op) +:+
          " requires a 'down' expression so the migration can be reverted; add one or mark the migration 'irreversible: true'"))
      else None
  | DropColumn_ o =>
      if decide (o.(OpDropColumn_Down) = "") then
        Some (InvalidMigrationError ("operation " +:+ q (OperationName op) +:+ " on " +:+
          o.(OpDropColumn_Table) +:+ "." +:+ o.(OpDropColumn_Column) +:+
          " requires a 'down' expression to restore column data on revert; add one or mark the migration 'irreversible: true'"))
      else None
  | _ => None
  end.

Definition ValidateReversibility (m : Migration) : option error :=
  if m.(Migration_Irreversible) then None
  else head (omap irreversibleReason m.(Migration_Operations)).

Definition completesDestructively (op : Operation) : bool :=
  match op with
  | DropColumn_ _ | DropTable_ _ | DropConstraint_ _ | DropIndex_ _
  | DropMultiColumnConstraint_ _ | RenameColumn_ _ | RenameTable_ _ | AlterColumn_ _ => true
  | RawSQL_ o => o.(OpRawSQL_OnComplete)
  | _ => false
  end.

Definition CompleteMustBeDeferred (m : Migration) : bool :=
  existsb completesDestructively m.(Migration_Operations).

Definition isOnCompleteSQL (op : Operation) : bool :=
  match op with RawSQL_ o => o.(OpRawSQL_OnComplete) | _ => false end.

Definition CompleteRequiresLiveSchemaDrop (m : Migration) : bool :=
  existsb isOnCompleteSQL m.(Migration_Operations).

Section Migration.
Context `{!Pq} {D : Type} `{!DB D}.

(** The loop that refuses an isolated operation in company *)
Definition validateIsolation (m : Migration) : M D () :=
  for_each (λ op,
    fail_if (IsIsolated op && (1 <? length m.(Migration_Operations))%nat)
      (InvalidMigrationError ("operation " +:+ q (OperationName op) +:+
         " cannot be executed with other operations"))) m.(Migration_Operations).

(** [Migration.Validate] *)
Definition Migration_Validate (m : Migration) : M D () :=
  ValidatePreconditions m.(Migration_Preconditions) ;;
  validateIsolation m ;;
  for_each Validate m.(Migration_Operations).
End Migration.

Section UpdateVirtualSchema.
Context `{!Pq}.

(** Against the fake connection one unit of fuel is enough: no index is
    ever in progress or invalid there. *)
Definition virtualFuel : nat := 1.

Definition UpdateVirtualSchema (m : Migration) : M () () :=
  for_each (λ op, Start virtualFuel op ;; mret ()) m.(Migration_Operations).
End UpdateVirtualSchema.
