(* ===== verification/TerminationFacts.v ===== *)
(** * TerminationFacts: the index builds end, and fuel decides nothing

    The two loops of [dbactions.go] end when the database lets them: a build
    in progress finishes, and the retry budget runs out.  [Progress] says so
    with a measure on the database.  [settles n m m']: on every store whose
    measure is at most [n], [m] and [m'] are the same run, which ends. *)

From S2P Require Import Prelude.
From S2P Require Import GoStd.
From S2P Require Import Names.
From S2P Require Import Schema.
From S2P Require Import Types.
From S2P Require Import Db.
From S2P Require Import SqlWriter.
From S2P Require Import Samples.
From S2P Require Import Actions.
From S2P Require Import Duplicate.
From S2P Require Import Coordinator.
From S2P Require Import Backfill.
From S2P Require Import OpsBase.
From S2P Require Import OpsColumn.
From S2P Require Import OpsTable.
From S2P Require Import OpsSub.
From S2P Require Import OpsAlter.
From S2P Require Import OpsConstraint.
From S2P Require Import Operations.

Create HintDb settles discriminated.

Definition out_of_fuel {E A} (o : outcome E A) : bool :=
  match o with OutOfFuel => true | _ => false end.

(** What the loops need of the database: its calls return, no call adds work, an index build
    seen in progress is closer to its end at the next probe, and so is the end
    of the retry budget at each look at the clock. *)
Class Progress (D : Type) `{!DB D} := {
  work : D → nat;
  exec_returns sql d : out_of_fuel (ExecContext sql d).1 = false;
  query_returns sql args d : out_of_fuel (QueryContext sql args d).1 = false;
  work_exec sql d : work (ExecContext sql d).2 ≤ work d;
  work_query sql args d : work (QueryContext sql args d).2 ≤ work d;
  work_clock d : work (expired d).2 ≤ work d;
  work_in_progress i (w : World D) :
    (isIndexInProgress i w).1 = Ok true → work (w_db (isIndexInProgress i w).2) < work (w_db w);
  work_expires d : (expired d).1 = false → work (expired d).2 < work d;
}.

Section settles.
Context `{!Pq} {D : Type} `{!DB D} `{!Progress D}.

Definition settles {A} (n : nat) (m m' : M D A) : Prop :=
  ∀ w, work (w_db w) ≤ n →
    m w = m' w ∧ out_of_fuel (m w).1 = false ∧ work (w_db (m w).2) ≤ n.

Lemma settles_bind {A B} n (m m' : M D A) (f f' : A → M D B) :
  settles n m m' → (∀ a, settles n (f a) (f' a)) → settles n (m ≫= f) (m' ≫= f').
Proof.
  intros Hm Hf w Hw. destruct (Hm w Hw) as (Heq & Ho & Hw1). unfold mbind, prog_bind.
  rewrite <-Heq. destruct (m w) as [[a|e| |] w1]; [by apply Hf|done..].
Qed.
(** A program that ignores the database *)
Lemma settles_local {A} n (m : M D A) :
  (∀ w, out_of_fuel (m w).1 = false ∧ w_db (m w).2 = w_db w) → settles n m m.
Proof. intros Hm w Hw. destruct (Hm w) as [? Hdb]. by rewrite Hdb. Qed.
Lemma settles_wrap_err {A} n f (m m' : M D A) :
  settles n m m' → settles n (wrap_err f m) (wrap_err f m').
Proof.
  intros Hm w Hw. destruct (Hm w Hw) as (Heq & Ho & Hw1). unfold wrap_err. rewrite <-Heq.
  by destruct (m w) as [[]?].
Qed.
Lemma settles_try {A} n (m m' : M D A) : settles n m m' → settles n (try m) (try m').
Proof.
  intros Hm w Hw. destruct (Hm w Hw) as (Heq & Ho & Hw1). unfold try. rewrite <-Heq.
  by destruct (m w) as [[]?].
Qed.
Lemma settles_with_defer {A} n (m m' : M D A) f f' :
  settles n m m' → settles n f f' → settles n (with_defer m f) (with_defer m' f').
Proof.
  intros Hm Hf w Hw. destruct (Hm w Hw) as (Heq & Ho & Hw1). unfold with_defer. rewrite <-Heq.
  destruct (m w) as [r w1]. destruct (Hf w1 Hw1) as (<- & ? & ?). by destruct (f w1) as [[]?].
Qed.
Lemma settles_for_each {A} n (f f' : A → M D ()) l :
  (∀ x, settles n (f x) (f' x)) → settles n (for_each f l) (for_each f' l).
Proof.
  intros Hf. induction l as [|x l IH]; [by apply settles_local|].
  apply settles_bind; [done|by intros].
Qed.
Lemma settles_map_each {A B} n (f f' : A → M D B) l :
  (∀ x, settles n (f x) (f' x)) → settles n (map_each f l) (map_each f' l).
Proof.
  intros Hf. induction l as [|x l IH]; [by apply settles_local|].
  apply settles_bind; [done|intros y]. apply settles_bind; [done|intros]. by apply settles_local.
Qed.
Lemma settles_lift {A} n (o : outcome error A) :
  out_of_fuel o = false → settles n (lift o : M D A) (lift o).
Proof. intros Ho. by apply settles_local. Qed.
Lemma settles_exec n sql : settles n (exec sql : M D _) (exec sql).
Proof.
  intros w Hw. unfold exec. pose proof (work_exec sql (w_db w)).
  pose proof (exec_returns sql (w_db w)) as Ho.
  destruct (ExecContext sql (w_db w)) as [r d]; cbn in *. split_and!; [done..|lia].
Qed.
Lemma settles_query n sql args : settles n (query sql args : M D _) (query sql args).
Proof.
  intros w Hw. unfold query. pose proof (work_query sql args (w_db w)).
  pose proof (query_returns sql args (w_db w)) as Ho.
  destruct (QueryContext sql args (w_db w)) as [r d]; cbn in *. split_and!; [done..|lia].
Qed.
Lemma settles_clock n : settles n (deadline_passed : M D _) deadline_passed.
Proof.
  intros w Hw. unfold deadline_passed. pose proof (work_clock (w_db w)).
  destruct (expired (w_db w)) as [b d]; cbn in *. split_and!; [done..|lia].
Qed.
Lemma settles_panic {A} n : settles n (panic : M D A) panic.
Proof. by apply settles_local. Qed.
Lemma settles_fail {A} n e : settles n (fail e : M D A) (fail e).
Proof. by apply settles_local. Qed.
Lemma settles_ret {A} n (a : A) : settles n (mret a : M D A) (mret a).
Proof. by apply settles_local. Qed.
Lemma settles_gets {A} n (f : World D → A) : settles n (gets f : M D A) (gets f).
Proof. by apply settles_local. Qed.
Lemma settles_fail_if n (c : bool) e : settles n (fail_if c e : M D _) (fail_if c e).
Proof. destruct c; by apply settles_local. Qed.
Lemma settles_require {A} n (o : option A) e : settles n (require o e : M D _) (require o e).
Proof. destruct o; by apply settles_local. Qed.
Lemma settles_deref {A} n (o : option A) : settles n (deref o : M D _) (deref o).
Proof. destruct o; by apply settles_local. Qed.
End settles.

#[export] Hint Resolve settles_exec settles_query settles_clock settles_panic settles_fail settles_ret
  settles_gets settles_fail_if settles_require settles_deref : settles.

(** *** Pure results *)

Lemma ends_bind {E A B} (o : outcome E A) (f : A → outcome E B) :
  out_of_fuel o = false → (∀ a, out_of_fuel (f a) = false) → out_of_fuel (o ≫= f) = false.
Proof. by destruct o; cbn. Qed.
Lemma ends_map {E A B} (f : A → outcome E B) l :
  (∀ x, out_of_fuel (f x) = false) → out_of_fuel (map_outcome f l) = false.
Proof.
  intros Hf. induction l as [|x l IH]; [done|]. cbn. specialize (Hf x).
  destruct (f x); [|done..]. by destruct (map_outcome f l).
Qed.

(** Walks through a pure computation of an outcome. *)
Ltac ends_steps :=
  repeat first
    [ progress intros
    | reflexivity
    | solve [auto with settles nocore]
    | apply ends_bind
    | apply ends_map
    | match goal with
      | |- out_of_fuel (match ?x with _ => _ end) = _ => destruct x
      end ].

Lemma ends_GetColumn {E} t n : out_of_fuel (GetColumn t n : outcome E _) = false.
Proof. unfold GetColumn. ends_steps. Qed.
Lemma ends_setColumnDeleted {E} d c t : out_of_fuel (setColumnDeleted d c t : outcome E _) = false.
Proof. unfold setColumnDeleted. ends_steps. Qed.
Lemma ends_ScanBool r d : out_of_fuel (ScanFirstValue_bool r d) = false.
Proof. unfold ScanFirstValue_bool. ends_steps. Qed.
Lemma ends_foldr {E A B} (f : A → outcome E B → outcome E B) b l :
  (∀ a o, out_of_fuel o = false → out_of_fuel (f a o) = false) →
  out_of_fuel b = false → out_of_fuel (foldr f b l) = false.
Proof. intros Hf Hb. induction l as [|a l IH]; [done|]. by apply Hf. Qed.
#[export] Hint Resolve ends_GetColumn ends_setColumnDeleted ends_ScanBool : settles.

Lemma ends_PhysicalColumnNamesFor {E} t ns :
  out_of_fuel (PhysicalColumnNamesFor t ns : outcome E _) = false.
Proof. apply ends_foldr; [|done]. ends_steps. Qed.
Lemma ends_columnIsDuplicated sc t c ds : out_of_fuel (columnIsDuplicated sc t c ds) = false.
Proof. unfold columnIsDuplicated. ends_steps. Qed.
#[export] Hint Resolve ends_PhysicalColumnNamesFor ends_columnIsDuplicated : settles.

Lemma ends_duplicatedConstraintColumns sc t cs ds :
  out_of_fuel (duplicatedConstraintColumns sc t cs ds) = false.
Proof. apply ends_foldr; [|done]. ends_steps. Qed.
Lemma ends_allConstraintColumns sc t cs ds :
  out_of_fuel (allConstraintColumns sc t cs ds) = false.
Proof. apply ends_foldr; [|done]. ends_steps. Qed.
Lemma ends_concatStatements {A} (f : A → outcome error (list string)) l :
  (∀ x, out_of_fuel (f x) = false) → out_of_fuel (concatStatements f l) = false.
Proof. intros Hf. apply ends_foldr; [|done]. ends_steps; auto. Qed.
#[export] Hint Resolve ends_duplicatedConstraintColumns ends_allConstraintColumns : settles.

Section pure.
Context `{!Pq}.

Lemma ends_duplicateCheck sc t wc cs cc :
  out_of_fuel (duplicateCheckConstraint sc t wc cs cc) = false.
Proof. unfold duplicateCheckConstraint. ends_steps. Qed.
Lemma ends_duplicateFK sc t wc cs fk :
  out_of_fuel (duplicateForeignKeyConstraint sc t wc cs fk) = false.
Proof. unfold duplicateForeignKeyConstraint. ends_steps. Qed.
Lemma ends_duplicateIndex sc t wc cs i : out_of_fuel (duplicateIndex sc t wc cs i) = false.
Proof. unfold duplicateIndex. ends_steps. Qed.
Lemma ends_dup_update {E} c f d : out_of_fuel (dup_update c f d : outcome E _) = false.
Proof. unfold dup_update. ends_steps. Qed.
Lemma ends_applySubOps c ops d : out_of_fuel (applySubOps c ops d) = false.
Proof.
  revert d. induction ops as [|[] ops IH]; intros d; cbn; auto;
    (apply ends_bind; [apply ends_dup_update|auto]).
Qed.
Lemma ends_addColumn sc o t b : out_of_fuel (addColumn sc o t b) = false.
Proof. unfold addColumn. ends_steps. Qed.
Lemma ends_AddTriggers {E} t o : out_of_fuel (AddTriggers t o : outcome E _) = false.
Proof. unfold AddTriggers. ends_steps. Qed.
Lemma ends_nameDuplicates sc t ns d : out_of_fuel (nameDuplicates sc t ns d) = false.
Proof.
  revert d. induction ns as [|n ns IH]; intros d; [done|]. cbn [nameDuplicates].
  apply ends_bind; [apply ends_GetColumn|]. intros [col|]; [|done].
  apply ends_bind; [apply ends_dup_update|auto].
Qed.
Lemma ends_constraintAction sc s t o : out_of_fuel (constraintAction sc s t o) = false.
Proof. unfold constraintAction. ends_steps. Qed.
Lemma ends_addCreatedConstraints a cs : out_of_fuel (addCreatedConstraints a cs) = false.
Proof.
  revert a. induction cs as [|c cs IH]; intros a; [done|]. cbn [addCreatedConstraints].
  apply ends_bind; [|auto]. unfold addCreatedConstraint. ends_steps.
Qed.
Lemma ends_createdTable o : out_of_fuel (createdTable o) = false.
Proof. apply ends_bind; [apply ends_addCreatedConstraints|done]. Qed.
Lemma ends_constraintsToSQL cs : out_of_fuel (constraintsToSQL cs) = false.
Proof.
  apply ends_bind; [|by intros; case_decide]. apply ends_foldr; [|done]. intros c o Ho.
  apply ends_bind; [unfold constraintToSQL; ends_steps|by destruct o].
Qed.
Lemma ends_NewCoordinator l : out_of_fuel (NewCoordinator l) = false.
Proof.
  unfold NewCoordinator. generalize (mkCoordinator ∅ []).
  induction l as [|a l IH]; intros c; [done|]. cbn [addActions].
  apply ends_bind; [unfold addAction; ends_steps|auto].
Qed.
End pure.
#[export] Hint Resolve ends_concatStatements ends_duplicateCheck ends_duplicateFK ends_duplicateIndex
  ends_applySubOps ends_addColumn ends_AddTriggers ends_nameDuplicates ends_constraintAction
  ends_createdTable ends_constraintsToSQL ends_NewCoordinator ends_dup_update : settles.

(** Walks through two copies of a program that differ in their fuel. *)
Ltac settle_steps :=
  repeat first
    [ progress intros
    | solve [auto with settles nocore]
    | apply settles_bind
    | apply settles_wrap_err
    | apply settles_try
    | apply settles_with_defer
    | apply settles_for_each
    | apply settles_map_each
    | apply settles_lift
    | match goal with
      | |- settles _ (match ?x with _ => _ end) _ => destruct x
      | |- settles _ (let '_ := ?x in _) _ => destruct x
      end
    | by apply settles_local ].

Section loops.
Context `{!Pq} {D : Type} `{!DB D} `{!Progress D}.

Lemma settles_get_table n t : settles n (get_table t : M D _) (get_table t).
Proof. apply settles_gets. Qed.
Lemma settles_table_or n t e : settles n (table_or t e : M D _) (table_or t e).
Proof. unfold table_or, get_table. settle_steps. Qed.
Lemma settles_load n l : settles n (load l : M D _) (load l).
Proof. unfold load. settle_steps. Qed.
Hint Resolve settles_get_table settles_table_or settles_load : settles.
Lemma settles_get_column n l c : settles n (get_column l c : M D _) (get_column l c).
Proof. unfold get_column. settle_steps. Qed.
Hint Resolve settles_get_column : settles.
Lemma settles_column_named n l t c : settles n (column_named l t c : M D _) (column_named l t c).
Proof. unfold column_named. settle_steps. Qed.
Lemma settles_update_table n f l : settles n (update_table f l : M D _) (update_table f l).
Proof. by apply settles_local. Qed.
Hint Resolve settles_column_named settles_update_table : settles.
Lemma settles_set_column_deleted n d l c :
  settles n (set_column_deleted d l c : M D _) (set_column_deleted d l c).
Proof. unfold set_column_deleted. settle_steps. Qed.
Lemma settles_probeBool n sql args : settles n (probeBool sql args : M D _) (probeBool sql args).
Proof. unfold probeBool. settle_steps. Qed.
Lemma settles_dropInvalid n q : settles n (dropIndexIfInvalid q : M D _) (dropIndexIfInvalid q).
Proof. unfold dropIndexIfInvalid. settle_steps. Qed.
Lemma settles_isIndexValid n q : settles n (isIndexValid q : M D _) (isIndexValid q).
Proof. unfold isIndexValid. settle_steps. Qed.
Lemma settles_inProgress n q : settles n (isIndexInProgress q : M D _) (isIndexInProgress q).
Proof. unfold isIndexInProgress. settle_steps. Qed.
Hint Resolve settles_set_column_deleted settles_probeBool settles_dropInvalid
  settles_isIndexValid settles_inProgress : settles.

Lemma settles_wait fuel fuel' n q :
  n < fuel → n < fuel' → settles n (waitForIndexBuild fuel q : M D _) (waitForIndexBuild fuel' q).
Proof.
  revert fuel' n. induction fuel as [|fuel IH]; intros [|fuel'] n Hf Hf' w Hw; try lia.
  cbn [waitForIndexBuild]. unfold mbind, prog_bind.
  destruct (settles_inProgress n q w Hw) as (_ & Ho & Hw1).
  pose proof (work_in_progress q w) as Hp.
  destruct (isIndexInProgress q w) as [[[]|e| |] w1]; try done. cbn in Hp, Hw1.
  specialize (Hp eq_refl).
  destruct (IH fuel' (n - 1) ltac:(lia) ltac:(lia) w1 ltac:(lia)) as (-> & ? & ?).
  split_and!; [done..|lia].
Qed.

Lemma settles_attempts fuel fuel' n i q sql :
  n < fuel → n < fuel' →
  settles n (buildIndexAttempts fuel i q sql : M D _) (buildIndexAttempts fuel' i q sql).
Proof.
  revert fuel' n. induction fuel as [|fuel IH]; intros [|fuel'] n Hf Hf'; try lia.
  cbn [buildIndexAttempts].
  apply settles_bind; [settle_steps|intros _].
  apply settles_bind; [by apply settles_wait|intros _].
  apply settles_bind; [settle_steps|intros [|]]; [settle_steps|].
  apply settles_bind; [settle_steps|intros _].
  intros w Hw. unfold mbind, prog_bind, deadline_passed.
  pose proof (work_clock (w_db w)). pose proof (work_expires (w_db w)) as Hx.
  destruct (expired (w_db w)) as [[] d]; cbn in *; [split_and!; [done..|lia]|].
  specialize (Hx eq_refl).
  destruct (IH fuel' (n - 1) ltac:(lia) ltac:(lia) (set_w_db d w)) as (-> & ? & ?); [cbn; lia|].
  split_and!; [done..|lia].
Qed.

Lemma settles_execCreateIndex fuel fuel' n c i q sql :
  n < fuel → n < fuel' →
  settles n (execCreateIndex fuel c i q sql : M D _) (execCreateIndex fuel' c i q sql).
Proof.
  intros Hf Hf'. pose proof (settles_attempts fuel fuel' n i q sql Hf Hf').
  unfold execCreateIndex, buildIndexConcurrently, buildIndexPlain, raiseLockTimeout,
    restoreLockTimeout.
  settle_steps.
Qed.
End loops.
#[export] Hint Resolve settles_get_table settles_table_or settles_load settles_get_column
  settles_column_named settles_update_table settles_set_column_deleted settles_probeBool : settles.

Section programs.
Context `{!Pq} {D : Type} `{!DB D} `{!Progress D}.
Context (n fuel fuel' : nat) (Hf : n < fuel) (Hf' : n < fuel').

Lemma settles_duplicator d : settles n (duplicator_Execute fuel d : M D _) (duplicator_Execute fuel' d).
Proof.
  pose proof (λ c i q s, settles_execCreateIndex fuel fuel' n c i q s Hf Hf').
  unfold duplicator_Execute, duplicateOne, duplicateColumn, exec_ignoring, duplicateUnique,
    execCreateUniqueIndex. settle_steps; auto.
Qed.
Lemma settles_renameDuplicated l f t :
  settles n (execRenameDuplicatedColumn l f t : M D _) (execRenameDuplicatedColumn l f t).
Proof.
  unfold execRenameDuplicatedColumn, renameDuplicatedFK, renameDuplicatedCheck,
    renameDuplicatedIndex, execValidateConstraint, execDropConstraint. settle_steps.
Qed.
Hint Resolve settles_duplicator settles_renameDuplicated : settles.

Lemma settles_Execute a : settles n (Execute fuel a : M D _) (Execute fuel' a).
Proof.
  pose proof (λ c i q s, settles_execCreateIndex fuel fuel' n c i q s Hf Hf').
  destruct a; cbn [Execute];
    unfold addColumnAction_Execute, dropColumnAction_Execute, renameTableAction_Execute,
      dropFunctionAction_Execute, commentColumnAction_Execute, commentTableAction_Execute,
      createTableAction_Execute, dropIndexAction_Execute, DropTableAction_Execute,
      CreateCheckConstraintAction_Execute, createFKConstraintAction_Execute,
      alterSequenceOwnerAction_Execute, setDefaultAction_Execute, dropDefaultAction_Execute,
      setReplicaIdentityAction_Execute, execCreateUniqueIndex, execRenameColumn,
      execRenameConstraint, execAddConstraintUsingUniqueIndex, execAddPrimaryKey,
      execSetNotNull, ensureNotNullConstraintName, execValidateConstraint, execDropConstraint,
      alreadyRenamed, columnExists, constraintExists, primaryKeyExists,
      getSequenceNameForColumn; settle_steps; auto.
Qed.
Hint Resolve settles_Execute : settles.

Lemma settles_coordinate acts : settles n (coordinate fuel acts : M D _) (coordinate fuel' acts).
Proof.
  unfold coordinate, Coordinator_Execute. apply settles_bind; [settle_steps|intros c].
  apply settles_for_each. intros id. unfold executeID. settle_steps.
Qed.

Lemma settles_UsesFastPath t c d : settles n (UsesFastPath t c d : M D _) (UsesFastPath t c d).
Proof. unfold UsesFastPath. settle_steps. Qed.
Lemma settles_SubOp_Start o : settles n (SubOp_Start o : M D _) (SubOp_Start o).
Proof.
  destruct o; cbn [SubOp_Start];
    unfold ChangeType_Start, SetCheckConstraint_Start, SetForeignKey_Start, SetNotNull_Start,
      DropNotNull_Start, SetUnique_Start, SetDefault_Start, SetComment_Start, table_named,
      update_column, MigrationScope; settle_steps.
Qed.
Hint Resolve settles_UsesFastPath settles_SubOp_Start : settles.
Lemma settles_startSubOps ops task acts :
  settles n (startSubOps ops task acts : M D _) (startSubOps ops task acts).
Proof.
  revert task acts. induction ops as [|o ops IH]; intros; cbn [startSubOps]; settle_steps.
Qed.
Lemma settles_columnTriggers sc tn l u c up down :
  settles n (columnTriggers sc tn l u c up down : M D _) (columnTriggers sc tn l u c up down).
Proof. unfold columnTriggers. settle_steps. Qed.
Lemma settles_updateSchema o : settles n (updateSchema o : M D _) (updateSchema o).
Proof. unfold updateSchema, alloc, on_schema. settle_steps. Qed.
Lemma settles_table_with_index i ls :
  settles n (table_with_index i ls : M D _) (table_with_index i ls).
Proof. induction ls as [|l ls IH]; cbn [table_with_index]; unfold has_index; settle_steps. Qed.
Hint Resolve settles_startSubOps settles_columnTriggers settles_updateSchema
  settles_table_with_index : settles.

Lemma settles_s_RenameTable from to :
  settles n (s_RenameTable from to : M D _) (s_RenameTable from to).
Proof.
  apply settles_local. intros w. unfold s_RenameTable, RenameTable. by repeat case_match.
Qed.
Hint Resolve settles_s_RenameTable : settles.

Lemma settles_Start op : settles n (Start fuel op : M D _) (Start fuel' op).
Proof.
  destruct op; cbn [Start];
    unfold AddColumn_Start, AlterColumn_Start, CreateConstraint_Start, CreateIndex_Start,
      CreateTable_Start, DropColumn_Start, DropConstraint_Start, DropIndex_Start,
      DropMultiColumnConstraint_Start, DropTable_Start, RawSQL_Start, RenameColumn_Start,
      RenameConstraint_Start, RenameTable_Start, SetReplicaIdentity_Start, table_named,
      duplicatorForOperations, WithName, MigrationScope, NewRawSQLAction, all_tables; settle_steps.
Qed.
End programs.

Section theorem.
Context `{!Pq} {D : Type} `{!DB D} `{!Progress D}.

(** C27. Starting and executing always come to an end.  When the database
    finishes the index builds it works on and the clock runs, [Start] of every
    operation and the execution of every list of actions return a result, and
    any fuel above the work the database has left gives that same result. *)
Theorem index_builds_terminate (w : World D) fuel :
  work (w_db w) < fuel →
  (∀ acts, out_of_fuel (coordinate fuel acts w).1 = false ∧
     ∀ fuel', work (w_db w) < fuel' → coordinate fuel' acts w = coordinate fuel acts w) ∧
  (∀ op, out_of_fuel (Start fuel op w).1 = false ∧
     ∀ fuel', work (w_db w) < fuel' → Start fuel' op w = Start fuel op w).
Proof.
  intros Hf. split; intros x.
  - split; [|intros fuel' Hf'].
    + by destruct (settles_coordinate (work (w_db w)) fuel fuel Hf Hf x w) as (_ & ? & _).
    + by destruct (settles_coordinate (work (w_db w)) fuel' fuel Hf' Hf x w) as (? & _ & _).
  - split; [|intros fuel' Hf'].
    + by destruct (settles_Start (work (w_db w)) fuel fuel Hf Hf x w) as (_ & ? & _).
    + by destruct (settles_Start (work (w_db w)) fuel' fuel Hf' Hf x w) as (? & _ & _).
Qed.
End theorem.

(** ** A database that takes its time

    A build is in progress for a number of probes, every index ends invalid,
    and the retry budget runs out after a number of looks at the clock. *)

Record slow := mkSlow { slow_builds : nat; slow_clock : nat; slow_log : list string }.

#[export] Instance slow_DB : DB slow := {|
  ExecContext sql d := (Ok (), mkSlow (slow_builds d) (slow_clock d) (slow_log d ++ [sql]));
  QueryContext sql _ d :=
    if HasPrefix sql "SELECT EXISTS(
			SELECT * FROM pg_catalog.pg_stat_progress" then
      (Ok (Some (mkRows [[VBool (0 <? slow_builds d)%nat]] None)),
       mkSlow (slow_builds d - 1) (slow_clock d) (slow_log d))
    else (Ok (Some (mkRows [[VBool false]] None)), d);
  WithRetryableTransaction sqls d := (Ok (), mkSlow (slow_builds d) (slow_clock d) (slow_log d ++ sqls));
  is_fake := false;
  RetryBudget _ := DefaultLockRetryTimeout;
  expired d := ((slow_clock d =? 0)%nat, mkSlow (slow_builds d) (slow_clock d - 1) (slow_log d));
|}.

#[export] Instance slow_Progress : Progress slow.
Proof.
  refine {| work d := slow_builds d + slow_clock d |}.
  - done.
  - intros sql args d. cbn. by case_match.
  - done.
  - intros sql args d. cbn. case_match; cbn; lia.
  - intros d. cbn. lia.
  - intros i [s h [b c l] u]. cbn. unfold isIndexInProgress, mbind, prog_bind, wrap_err, query. cbn.
    intros [= Hb]. destruct b; [done|lia].
  - intros [b c l]. cbn. intros ?%Nat.eqb_neq. lia.
Defined.

Definition slow_world : World slow :=
  mkWorld sample_schema sample_heap (mkSlow 3 1 []) 0.
Definition slow_action : DBAction :=
  createUniqueIndexAction "" "users_name_key" "users" ["name"] true.

(** Two attempts, the first of which waits for three probes *)
Lemma index_builds_terminate_witness :
  (coordinate 5 [slow_action] slow_world).1 =
    Err (ErrorfW "failed to execute action %s: %w" [ID slow_action]
      (Errorf "failed to create index %q: %d attempt(s) over %s all ended INVALID%s"
         ["users_name_key"])) ∧
  ∀ fuel', 4 < fuel' → coordinate fuel' [slow_action] slow_world = coordinate 5 [slow_action] slow_world.
Proof.
  split; [vm_compute; reflexivity|].
  refine (proj2 (proj1 (index_builds_terminate slow_world 5 _) [slow_action])).
  vm_compute. lia.
Defined.
