(* ===== verification/OpsFacts.v ===== *)
(** * OpsFacts: actions and operations keep the virtual schema well-formed

    Every action, and every method of every operation, leaves the virtual
    schema well-formed whatever the database answers; against the fake
    connection the index builds finish on their first attempt. *)

From S2P Require Import Prelude.
From S2P Require Import GoStd.
From S2P Require Import Names.
From S2P Require Import Schema.
From S2P Require Import SchemaFacts.
From S2P Require Import Types.
From S2P Require Import Db.
From S2P Require Import WorldFacts.
From S2P Require Import Samples.
From S2P Require Import SqlWriter.
From S2P Require Import Actions.
From S2P Require Import Duplicate.
From S2P Require Import Backfill.
From S2P Require Import OpsBase.
From S2P Require Import OpsColumn.
From S2P Require Import OpsTable.
From S2P Require Import OpsSub.
From S2P Require Import OpsAlter.
From S2P Require Import OpsConstraint.
From S2P Require Import Operations.
From S2P Require Import Preconditions.
From S2P Require Import Migration.

(** ** The actions *)

Section pres.
Context `{!Pq} {D : Type} `{!DB D} (I : World D → Prop) (HI : StoreInv I).

Lemma pres_with_defer {A} (m : M D A) f :
  pres I m → pres I f → pres I (with_defer m f).
Proof.
  intros Hm Hf w Hw. unfold with_defer. specialize (Hm w Hw). destruct (m w) as [r w1].
  specialize (Hf w1 Hm). by destruct (f w1) as [[]?].
Qed.

Lemma pres_probe sql args : pres I (probeBool sql args : M D _).
Proof. unfold probeBool. pres_steps. Qed.
Hint Resolve pres_probe : pgroll.

Lemma pres_renamed (p : string → string → M D (bool * bool)) t from to :
  (∀ a b, pres I (p a b)) → pres I (alreadyRenamed p t from to).
Proof. intros Hp. unfold alreadyRenamed. pres_steps. Qed.

Lemma pres_execRenameColumn t f to : pres I (execRenameColumn t f to : M D _).
Proof. apply pres_bind; [apply pres_renamed; intros; apply pres_probe|]. pres_steps. Qed.
Lemma pres_execRenameConstraint t f to : pres I (execRenameConstraint t f to : M D _).
Proof. apply pres_bind; [apply pres_renamed; intros; apply pres_probe|]. pres_steps. Qed.
Lemma pres_execAddConstraint t c i :
  pres I (execAddConstraintUsingUniqueIndex t c i : M D _).
Proof. unfold execAddConstraintUsingUniqueIndex, constraintExists. pres_steps. Qed.
Lemma pres_execAddPrimaryKey t i : pres I (execAddPrimaryKey t i : M D _).
Proof. unfold execAddPrimaryKey, primaryKeyExists. pres_steps. Qed.
Lemma pres_execSetNotNull t c n : pres I (execSetNotNull t c n : M D _).
Proof. unfold execSetNotNull, ensureNotNullConstraintName. pres_steps. Qed.
Lemma pres_execValidate t c : pres I (execValidateConstraint t c : M D _).
Proof. apply inv_exec. Qed.
Lemma pres_execDropConstraint t c : pres I (execDropConstraint t c : M D _).
Proof. apply inv_exec. Qed.
Hint Resolve pres_execRenameColumn pres_execRenameConstraint pres_execAddConstraint
  pres_execAddPrimaryKey pres_execSetNotNull pres_execValidate pres_execDropConstraint : pgroll.

Lemma pres_dropInvalid q : pres I (dropIndexIfInvalid q : M D _).
Proof. unfold dropIndexIfInvalid. pres_steps. Qed.
Hint Resolve pres_dropInvalid : pgroll.

Lemma pres_wait fuel q : pres I (waitForIndexBuild fuel q : M D _).
Proof.
  induction fuel as [|fuel IH]; [by intros w|]. cbn [waitForIndexBuild].
  unfold isIndexInProgress. pres_steps.
Qed.
Hint Resolve pres_wait : pgroll.

Lemma pres_attempts fuel n q sql : pres I (buildIndexAttempts fuel n q sql : M D _).
Proof.
  induction fuel as [|fuel IH]; [by intros w|]. cbn [buildIndexAttempts].
  unfold isIndexValid. pres_steps.
Qed.
Hint Resolve pres_attempts : pgroll.

Lemma pres_execCreateIndex fuel c n q sql : pres I (execCreateIndex fuel c n q sql : M D _).
Proof.
  unfold execCreateIndex, buildIndexConcurrently, buildIndexPlain, raiseLockTimeout.
  pres_steps. apply pres_with_defer; unfold restoreLockTimeout; pres_steps.
Qed.
Hint Resolve pres_execCreateIndex : pgroll.

Lemma pres_duplicator fuel d : pres I (duplicator_Execute fuel d : M D _).
Proof.
  unfold duplicator_Execute, duplicateOne, duplicateColumn, exec_ignoring, duplicateUnique,
    execCreateUniqueIndex. pres_steps.
Qed.

Lemma pres_renameDuplicated l f t : pres I (execRenameDuplicatedColumn l f t : M D _).
Proof.
  unfold execRenameDuplicatedColumn, renameDuplicatedFK, renameDuplicatedCheck,
    renameDuplicatedIndex. pres_steps.
Qed.

Lemma pres_sequence t c : pres I (getSequenceNameForColumn t c : M D _).
Proof. unfold getSequenceNameForColumn. pres_steps. Qed.
Hint Resolve pres_duplicator pres_renameDuplicated pres_sequence : pgroll.

Lemma pres_Execute fuel a : pres I (Execute fuel a : M D _).
Proof.
  destruct a; cbn [Execute];
    unfold addColumnAction_Execute, dropColumnAction_Execute, renameTableAction_Execute,
      dropFunctionAction_Execute, commentColumnAction_Execute, commentTableAction_Execute,
      createTableAction_Execute, dropIndexAction_Execute, DropTableAction_Execute,
      CreateCheckConstraintAction_Execute, createFKConstraintAction_Execute,
      alterSequenceOwnerAction_Execute, setDefaultAction_Execute, dropDefaultAction_Execute,
      setReplicaIdentityAction_Execute, execCreateUniqueIndex; pres_steps.
Qed.
End pres.

#[export] Hint Resolve pres_duplicator pres_Execute : pgroll.

(** ** The operations *)


(** Validation and the look-ups touch the virtual schema only. *)
Section validation.
Context `{!Pq} {D : Type} `{!DB D} (I : World D → Prop) (HI : SchemaInv I).

Lemma pres_CheckConstraint_Validate c : pres I (CheckConstraint_Validate c : M D _).
Proof. unfold CheckConstraint_Validate, field_required. pres_steps. Qed.
Lemma pres_FKReference_Validate r : pres I (ForeignKeyReference_Validate r : M D _).
Proof. unfold ForeignKeyReference_Validate, field_required, table_named. pres_steps. Qed.
Lemma pres_updateSchema o : pres I (updateSchema o : M D _).
Proof. apply pres_bind; [apply pres_lift|intros t; apply inv_add_table]. Qed.
Lemma pres_table_with_index n ls : pres I (table_with_index n ls : M D _).
Proof. induction ls as [|l ls IH]; cbn [table_with_index]; unfold has_index; pres_steps. Qed.
Lemma pres_all_tables : pres I (all_tables : M D _).
Proof. apply pres_gets. Qed.
Lemma pres_update_column l n f : pres I (update_column l n f : M D _).
Proof. unfold update_column. pres_steps. Qed.
Lemma pres_field_required v n : pres I (field_required v n : M D _).
Proof. apply pres_fail_if. Qed.
Lemma pres_scope : pres I (MigrationScope : M D _).
Proof. apply pres_gets. Qed.
Lemma pres_table_named n : pres I (table_named n : M D _).
Proof. apply pres_table_or. Qed.
Hint Resolve pres_CheckConstraint_Validate pres_FKReference_Validate pres_updateSchema
  pres_table_with_index pres_all_tables pres_update_column pres_field_required pres_scope
  pres_table_named : pgroll.

Lemma pres_SubOp_Validate o : pres I (SubOp_Validate o : M D _).
Proof.
  destruct o; cbn [SubOp_Validate];
    unfold ChangeType_Validate, SetCheckConstraint_Validate, SetForeignKey_Validate,
      SetNotNull_Validate, DropNotNull_Validate, SetUnique_Validate, deref_column; pres_steps.
Qed.
Hint Resolve pres_SubOp_Validate : pgroll.

Lemma pres_Validate op : pres I (Validate op : M D _).
Proof.
  destruct op; cbn [Validate];
    unfold AddColumn_Validate, AlterColumn_Validate, CreateConstraint_Validate,
      CreateIndex_Validate, CreateTable_Validate, CreateTable_validateColumn,
      CreateTable_validateConstraint, DropColumn_Validate, DropConstraint_Validate,
      DropIndex_Validate, DropMultiColumnConstraint_Validate, DropTable_Validate,
      RawSQL_Validate, RenameColumn_Validate, RenameConstraint_Validate, RenameTable_Validate,
      SetReplicaIdentity_Validate; pres_steps.
Qed.
Lemma pres_Migration_Validate m : pres I (Migration_Validate m : M D _).
Proof.
  pose proof pres_Validate.
  unfold Migration_Validate, ValidatePreconditions, validatePrecondition, validateIsolation,
    validateTableExists, validateTableNotExists, validateColumnExists, validateColumnNotExists,
    validateIndexExists, validateConstraintExists. pres_steps; auto.
Qed.
End validation.
#[export] Hint Resolve pres_CheckConstraint_Validate pres_FKReference_Validate pres_updateSchema
  pres_table_with_index pres_all_tables pres_update_column pres_field_required pres_scope
  pres_table_named pres_SubOp_Validate pres_Validate pres_Migration_Validate : pgroll.

Section pres.
Context `{!Pq} {D : Type} `{!DB D} (I : World D → Prop) (HI : StoreInv I).

Lemma pres_NewRawSQLAction sql : pres I (NewRawSQLAction sql : M D _).
Proof. intros w Hw. by apply inv_uuid. Qed.
Lemma pres_UsesFastPath t c d : pres I (UsesFastPath t c d : M D _).
Proof. unfold UsesFastPath. pres_steps. apply pres_with_defer; pres_steps. Qed.
Hint Resolve pres_NewRawSQLAction pres_UsesFastPath : pgroll.

Lemma pres_SubOp_Start o : pres I (SubOp_Start o : M D _).
Proof.
  destruct o; cbn [SubOp_Start];
    unfold ChangeType_Start, SetCheckConstraint_Start, SetForeignKey_Start, SetNotNull_Start,
      DropNotNull_Start, SetUnique_Start, SetDefault_Start, SetComment_Start; pres_steps.
Qed.
Lemma pres_SubOp_Complete o : pres I (SubOp_Complete o : M D _).
Proof.
  destruct o; cbn [SubOp_Complete];
    unfold SetCheckConstraint_Complete, SetForeignKey_Complete, SetNotNull_Complete,
      SetUnique_Complete, SetComment_Complete; pres_steps.
Qed.
Hint Resolve pres_SubOp_Start pres_SubOp_Complete : pgroll.

Lemma pres_startSubOps ops task actions : pres I (startSubOps ops task actions : M D _).
Proof.
  revert task actions. induction ops as [|o ops IH]; intros; cbn [startSubOps]; pres_steps.
Qed.
Lemma pres_columnTriggers sc tn l u c up down :
  pres I (columnTriggers sc tn l u c up down : M D _).
Proof. unfold columnTriggers. pres_steps. Qed.
Hint Resolve pres_startSubOps pres_columnTriggers : pgroll.

Lemma pres_Start fuel op : pres I (Start fuel op : M D _).
Proof.
  destruct op; cbn [Start];
    unfold AddColumn_Start, AlterColumn_Start, CreateConstraint_Start, CreateIndex_Start,
      CreateTable_Start, DropColumn_Start, DropConstraint_Start, DropIndex_Start,
      DropMultiColumnConstraint_Start, DropTable_Start, RawSQL_Start, RenameColumn_Start,
      RenameConstraint_Start, RenameTable_Start, SetReplicaIdentity_Start; pres_steps.
Qed.

Lemma pres_Complete op : pres I (Complete op : M D _).
Proof.
  destruct op; cbn [Complete];
    unfold AddColumn_Complete, AlterColumn_Complete, CreateConstraint_Complete,
      completeConstraint, CreateIndex_Complete,
      CreateTable_Complete, DropColumn_Complete, DropConstraint_Complete, DropIndex_Complete,
      DropMultiColumnConstraint_Complete, DropTable_Complete, RawSQL_Complete,
      RenameColumn_Complete, RenameConstraint_Complete, RenameTable_Complete,
      SetReplicaIdentity_Complete, SetUnique_Complete, SetCheckConstraint_Complete,
      SetForeignKey_Complete; pres_steps.
Qed.

Lemma pres_Rollback op : pres I (Rollback op : M D _).
Proof.
  destruct op; cbn [Rollback];
    unfold AddColumn_Rollback, AlterColumn_Rollback, SubOp_Rollback, CreateConstraint_Rollback,
      CreateIndex_Rollback,
      CreateTable_Rollback, DropColumn_Rollback, DropConstraint_Rollback, DropIndex_Rollback,
      DropMultiColumnConstraint_Rollback, DropTable_Rollback, RawSQL_Rollback,
      RenameColumn_Rollback, RenameConstraint_Rollback, RenameTable_Rollback,
      SetReplicaIdentity_Rollback; pres_steps.
Qed.

Lemma pres_ValidateDBPreconditions ps s : pres I (ValidateDBPreconditions ps s : M D _).
Proof.
  unfold ValidateDBPreconditions, validateDBPrecondition, validateFunctionExists,
    validateTypeExists, matchFunction, enumValues. pres_steps.
Qed.
End pres.
#[export] Hint Resolve pres_Start pres_Complete pres_Rollback pres_ValidateDBPreconditions : pgroll.

(** C25. Whatever the database answers and whatever way a call ends, the four
    methods of every operation, the execution of every action and the
    validation of a whole migration leave the virtual schema well-formed. *)
Theorem operations_preserve_wf `{!Pq} {D : Type} `{!DB D} (w : World D) :
  wf (w_heap w) (w_schema w) →
  let ok {A} (m : M D A) := wf (w_heap (m w).2) (w_schema (m w).2) in
  (∀ fuel op, ok (Start fuel op)) ∧ (∀ op, ok (Complete op)) ∧ (∀ op, ok (Rollback op)) ∧
  (∀ op, ok (Validate op)) ∧ (∀ fuel a, ok (Execute fuel a)) ∧
  (∀ m, ok (Migration_Validate m)).
Proof.
  intros Hw ok. pose proof world_wf_inv as HI. split_and!; intros;
    [by apply (pres_Start world_wf)|by apply (pres_Complete world_wf)
    |by apply (pres_Rollback world_wf)|by apply (pres_Validate world_wf world_wf_schema_inv)
    |by apply (pres_Execute world_wf)|by apply (pres_Migration_Validate world_wf world_wf_schema_inv)].
Qed.

Lemma operations_preserve_wf_witness :
  let w := (Start virtualFuel (RenameTable_ (mkOpRenameTable "users" "people")) sample_world).2 in
  GetTable (w_heap w) (w_schema w) "people" = Some 1%positive ∧ wf (w_heap w) (w_schema w).
Proof.
  split; [vm_compute; reflexivity|].
  exact (proj1 (operations_preserve_wf sample_world sample_wf) virtualFuel
    (RenameTable_ (mkOpRenameTable "users" "people"))).
Defined.
