(* ===== verification/RunFacts.v ===== *)
(** * RunFacts: successful runs against the fake connection

    [runs m w]: the program returns.  The lemmas [*_ok] read a successful
    primitive step backwards, the lemmas [runs_*] forwards; [grows w w']
    says that [w'] has every live table and column of [w]. *)

From S2P Require Import Prelude.
From S2P Require Import GoStd.
From S2P Require Import Names.
From S2P Require Import Schema.
From S2P Require Import SchemaFacts.
From S2P Require Import Types.
From S2P Require Import Db.
From S2P Require Import WorldFacts.
From S2P Require Import SqlWriter.
From S2P Require Import Actions.
From S2P Require Import Duplicate.
From S2P Require Import OpsBase.
From S2P Require Import OpsTable.

Definition runs {W E A} (m : prog W E A) (w : W) : Prop := ∃ a w', m w = (Ok a, w').

Section runs.
Context {W E : Type}.
Lemma runs_bind {A B} (m : prog W E A) (f : A → prog W E B) w a w' :
  m w = (Ok a, w') → runs (f a) w' → runs (m ≫= f) w.
Proof. intros Hm (b & w2 & Hf). exists b, w2. apply bind_ok. eauto. Qed.
Lemma runs_ret {A} (a : A) (w : W) : runs (mret a : prog W E A) w.
Proof. by eexists _, _. Qed.
Lemma run_bind {A B} (m : prog W E A) (f : A → prog W E B) w a w' :
  m w = (Ok a, w') → (m ≫= f) w = f a w'.
Proof. intros Hm. unfold mbind, prog_bind. by rewrite Hm. Qed.
Lemma runs_map_each {A B} (f : A → prog W E B) (P : W → Prop) l w :
  P w → (∀ x w, x ∈ l → P w → ∃ y w', f x w = (Ok y, w') ∧ P w') →
  ∃ ys w', map_each f l w = (Ok ys, w') ∧ P w' ∧ length ys = length l.
Proof.
  revert w. induction l as [|x l IH]; intros w HP Hf; [by exists [], w|].
  destruct (Hf x w ltac:(left) HP) as (y & w1 & Hx & HP1).
  destruct (IH w1 HP1) as (ys & w2 & Hl & HP2 & Hlen); [intros; apply Hf; [by right|done]|].
  exists (y :: ys), w2. cbn [map_each]. rewrite (run_bind _ _ _ _ _ Hx), (run_bind _ _ _ _ _ Hl).
  split_and!; [done|done|cbn; lia].
Qed.
Lemma runs_for_each {A} (f : A → prog W E ()) (P : W → Prop) l w :
  P w → (∀ x w, x ∈ l → P w → ∃ w', f x w = (Ok (), w') ∧ P w') →
  ∃ w', for_each f l w = (Ok (), w') ∧ P w'.
Proof.
  revert w. induction l as [|x l IH]; intros w HP Hf; [by exists w|].
  destruct (Hf x w ltac:(left) HP) as (w1 & Hx & HP1). cbn [for_each].
  rewrite (run_bind _ _ _ _ _ Hx). apply IH; [done|]. intros; apply Hf; [by right|done].
Qed.
Lemma for_each_ok {A} (f : A → prog W E ()) l w w' :
  (∀ x w u w', f x w = (Ok u, w') → w' = w) → for_each f l w = (Ok (), w') →
  w' = w ∧ ∀ x, x ∈ l → f x w = (Ok (), w).
Proof.
  intros Hpure. induction l as [|x l IH]; cbn [for_each].
  { intros [= <-]. split; [done|]. by intros ? ?%elem_of_nil. }
  intros ([] & w1 & Hx & Hl)%bind_ok. pose proof (Hpure _ _ _ _ Hx) as ->.
  destruct (IH Hl) as [-> Hall]. split; [done|]. intros y [->|Hy]%elem_of_cons; auto.
Qed.
End runs.

Section steps.
Context {D : Type}.
Implicit Types w : World D.

Definition table_at w (l : loc) (t : Table) : Prop := w_heap w !! l = Some t.
Definition column_at (t : Table) (n : string) (c : Column) : Prop :=
  t.(Table_Columns) !! n = Some (Some c) ∧ c.(Column_Deleted) = false.

(** The live table behind a name *)
Definition table_of w (n : string) : option Table :=
  l ← GetTable (w_heap w) (w_schema w) n; w_heap w !! l.

Lemma table_of_at w n l t :
  GetTable (w_heap w) (w_schema w) n = Some l → table_at w l t → table_of w n = Some t.
Proof. intros Hl Ht. unfold table_of. rewrite Hl. exact Ht. Qed.

Lemma get_table_ok n w o w' :
  get_table n w = (Ok o, w') ↔ o = GetTable (w_heap w) (w_schema w) n ∧ w' = w.
Proof. unfold get_table, gets. naive_solver. Qed.

Lemma table_or_ok n e w l w' :
  table_or n e w = (Ok l, w') ↔ GetTable (w_heap w) (w_schema w) n = Some l ∧ w' = w.
Proof.
  unfold table_or. rewrite bind_ok. split.
  - intros (o & w1 & [-> ->]%get_table_ok & [Ho ->]%require_ok). done.
  - intros [Ho ->]. exists (Some l), w. rewrite get_table_ok, require_ok. done.
Qed.

Lemma load_ok l w t w' : load l w = (Ok t, w') ↔ table_at w l t ∧ w' = w.
Proof.
  unfold load. rewrite bind_ok. split.
  - intros (h & w1 & [= <- <-] & [Ho ->]%deref_ok). done.
  - intros [Ho ->]. exists (w_heap w), w. rewrite deref_ok. done.
Qed.

Lemma GetColumn_Ok {E} t n (o : option Column) :
  GetColumn (E := E) t n = Ok o ↔
  match o with
  | Some c => column_at t n c
  | None => t.(Table_Columns) !! n = None ∨
            ∃ c, t.(Table_Columns) !! n = Some (Some c) ∧ c.(Column_Deleted) = true
  end.
Proof.
  unfold GetColumn, column_at.
  destruct (Table_Columns t !! n) as [[c|]|] eqn:Hn; [destruct (Column_Deleted c) eqn:Hd|..];
    destruct o as [c'|]; (split; [intros [=]|intros H]); subst;
    repeat match goal with
    | H : _ ∧ _ |- _ => destruct H
    | H : _ ∨ _ |- _ => destruct H
    | H : ∃ _, _ |- _ => destruct H
    end; simplify_eq; try congruence; eauto.
Qed.

Lemma get_column_ok l n w o w' :
  get_column l n w = (Ok o, w') ↔
  ∃ t, table_at w l t ∧ GetColumn (E := error) t n = Ok o ∧ w' = w.
Proof.
  unfold get_column. rewrite bind_ok. split.
  - intros (t & w1 & [Ht ->]%load_ok & [Ho ->]%lift_ok). eauto.
  - intros (t & Ht & Ho & ->). exists t, w. rewrite load_ok, lift_ok. done.
Qed.

Lemma column_named_ok l tn n w c w' :
  column_named l tn n w = (Ok c, w') ↔ ∃ t, table_at w l t ∧ column_at t n c ∧ w' = w.
Proof.
  unfold column_named. rewrite bind_ok. split.
  - intros (o & w1 & (t & Ht & Ho & ->)%get_column_ok & [-> ->]%require_ok).
    apply GetColumn_Ok in Ho. eauto.
  - intros (t & Ht & Hc & ->). exists (Some c), w. rewrite get_column_ok, require_ok.
    split; [|done]. exists t. split_and!; [done| |done]. by apply GetColumn_Ok.
Qed.

Lemma validate_length_ok n w u w' :
  validate_length n w = (Ok u, w') → ValidateIdentifierLength n = None ∧ w' = w.
Proof. unfold validate_length. destruct (ValidateIdentifierLength n); [done|by intros [= _ <-]]. Qed.

Lemma field_required_ok v n w u w' :
  field_required v n w = (Ok u, w') → v ≠ "" ∧ w' = w.
Proof.
  unfold field_required. intros [Hc ->]%fail_if_ok. split; [|done].
  by intros ->.
Qed.

(** *** Growth *)

Record grows w w' : Prop := {
  grows_schema : w_schema w' = w_schema w;
  grows_table : ∀ l t, table_at w l t → ∃ t', table_at w' l t' ∧
    t'.(Table_Deleted) = t.(Table_Deleted) ∧
    (no_nil_columns t → no_nil_columns t') ∧
    ∀ n c, column_at t n c → ∃ c', column_at t' n c';
}.

#[export] Instance grows_preorder : PreOrder grows.
Proof.
  split.
  - intros w. split; [done|]. intros l t Ht. exists t. split_and!; eauto.
  - intros w1 w2 w3 [Hs1 Ht1] [Hs2 Ht2]. split; [congruence|]. intros l t Ht.
    destruct (Ht1 l t Ht) as (t2 & H2 & Hd2 & Hn2 & Hc2).
    destruct (Ht2 l t2 H2) as (t3 & H3 & Hd3 & Hn3 & Hc3).
    exists t3. split_and!; [done|congruence|auto|].
    intros n c (c2 & Hcc)%Hc2. eauto.
Qed.

Lemma grows_GetTable w w' n l :
  grows w w' → GetTable (w_heap w) (w_schema w) n = Some l →
  GetTable (w_heap w') (w_schema w') n = Some l.
Proof.
  intros [Hs Hg] (Hn & t & Ht & Hd)%GetTable_Some. apply GetTable_Some. rewrite Hs.
  destruct (Hg l t Ht) as (t' & Ht' & Hd' & _). split; [done|]. exists t'. split; [done|congruence].
Qed.

(** A table rewritten in place without losing a column *)
Definition keeps (f : Table → Table) : Prop := ∀ t,
  (f t).(Table_Deleted) = t.(Table_Deleted) ∧ (no_nil_columns t → no_nil_columns (f t)) ∧
  ∀ n c, column_at t n c → ∃ c', column_at (f t) n c'.

Lemma grows_update w f l : keeps f → grows w (update_table f l w).2.
Proof.
  intros Hf. split; [done|]. intros l' t Ht. cbn. unfold table_at in *. cbn.
  destruct (decide (l = l')) as [<-|Hne].
  - exists (f t). rewrite lookup_alter_eq, Ht. destruct (Hf t) as (? & ? & ?). done.
  - exists t. rewrite lookup_alter_ne by done. split_and!; eauto.
Qed.

Lemma keeps_columns f :
  (∀ t, (f t).(Table_Deleted) = t.(Table_Deleted)) →
  (∀ t, (f t).(Table_Columns) = t.(Table_Columns)) → keeps f.
Proof.
  intros Hd Hc t. split_and!; [done| |]; unfold no_nil_columns, column_at; rewrite Hc; eauto.
Qed.

Lemma keeps_AddColumn n c : c.(Column_Deleted) = false → keeps (AddColumn n c).
Proof.
  intros Hd t. split_and!; [done| |].
  - intros Hn m. cbn. destruct (decide (n = m)) as [<-|Hne].
    + by rewrite lookup_insert_eq.
    + by rewrite lookup_insert_ne.
  - intros m c' [Hc Hd']. unfold column_at. cbn. destruct (decide (n = m)) as [<-|Hne].
    + exists c. by rewrite lookup_insert_eq.
    + exists c'. by rewrite lookup_insert_ne.
Qed.

Lemma GetTable_at w n l :
  GetTable (w_heap w) (w_schema w) n = Some l → ∃ t, table_at w l t ∧ t.(Table_Deleted) = false.
Proof. intros (_ & t & ? & ?)%GetTable_Some. eauto. Qed.
End steps.

(** Reads every primitive step among the hypotheses backwards. *)
Ltac inv_steps :=
  repeat match goal with
  | H : context [table_named] |- _ => unfold table_named in H
  | H : (_ ≫= _) _ = (Ok _, _) |- _ =>
      apply bind_ok in H; let x := fresh "x" in let w := fresh "w" in
      destruct H as (x & w & ? & H)
  | H : get_table _ _ = (Ok _, _) |- _ => apply get_table_ok in H; destruct H as [-> ->]
  | H : table_or _ _ _ = (Ok _, _) |- _ => apply table_or_ok in H; destruct H as [H ->]
  | H : load _ _ = (Ok _, _) |- _ => apply load_ok in H; destruct H as [H ->]
  | H : column_named _ _ _ _ = (Ok _, _) |- _ =>
      apply column_named_ok in H; destruct H as (? & ? & H & ->)
  | H : get_column _ _ _ = (Ok _, _) |- _ =>
      apply get_column_ok in H; destruct H as (? & ? & H & ->)
  | H : validate_length _ _ = (Ok _, _) |- _ =>
      apply validate_length_ok in H; destruct H as [H ->]
  | H : field_required _ _ _ = (Ok _, _) |- _ =>
      apply field_required_ok in H; destruct H as [H ->]
  | H : fail_if _ _ _ = (Ok _, _) |- _ => apply fail_if_ok in H; destruct H as [H ->]
  | H : require _ _ _ = (Ok _, _) |- _ => apply require_ok in H; destruct H as [H ->]
  | H : deref _ _ = (Ok _, _) |- _ => apply deref_ok in H; destruct H as [H ->]
  | H : wrap_err _ _ _ = (Ok _, _) |- _ => apply wrap_err_ok in H
  | H : mret _ _ = (Ok _, _) |- _ => injection H as <- <-
  end.

(** Solves a membership in a list written with conses and appends. *)
Ltac find_elem :=
  lazymatch goal with
  | |- _ ∈ _ ++ _ => apply elem_of_app; first [left; find_elem | right; find_elem]
  | |- _ ∈ _ :: _ => first [apply list_elem_of_here | apply list_elem_of_further; find_elem]
  end.

(** Reads the steps, those on the migration scope included. *)
Ltac inv_scope :=
  repeat (inv_steps; match goal with
  | HS : MigrationScope _ = (Ok _, _) |- _ => injection HS as <- <-
  | HG : gets _ _ = (Ok _, _) |- _ => injection HG as <- <-
  | HL : lift _ _ = (Ok _, _) |- _ => apply lift_ok in HL; destruct HL as [HL ->]
  end); inv_steps.
