(* ===== verification/StartFacts.v ===== *)
(** * StartFacts: virtual starts after a successful validation

    [safe m w]: against the fake connection [m] returns and loses no table or
    column.  With it the file shows that an operation that validates can be
    started virtually on the same schema, up to the cases of [start_ready]
    where the code's validation is weaker than its [Start]. *)

From S2P Require Import Prelude.
From S2P Require Import GoStd.
From S2P Require Import Names.
From S2P Require Import Schema.
From S2P Require Import SchemaFacts.
From S2P Require Import Types.
From S2P Require Import Db.
From S2P Require Import WorldFacts.
From S2P Require Import SqlWriter.
From S2P Require Import Actions.
From S2P Require Import Duplicate.
From S2P Require Import Backfill.
From S2P Require Import OpsBase.
From S2P Require Import OpsColumn.
From S2P Require Import OpsTable.
From S2P Require Import OpsSub.
From S2P Require Import OpsAlter.
From S2P Require Import OpsConstraint.
From S2P Require Import Operations.
From S2P Require Import Migration.
From S2P Require Import RunFacts.

Section safe.
Context `{!Pq}.
Implicit Types w : World ().

Definition safe {A} (m : M () A) w : Prop := ∃ a w', m w = (Ok a, w') ∧ grows w w'.

Lemma safe_bind {A B} (m : M () A) (f : A → M () B) w :
  safe m w → (∀ a w', m w = (Ok a, w') → grows w w' → safe (f a) w') → safe (m ≫= f) w.
Proof.
  intros (a & w1 & Hm & Hg) Hf. destruct (Hf a w1 Hm Hg) as (b & w2 & Hb & Hg2).
  exists b, w2. rewrite (run_bind _ _ _ _ _ Hm). split; [done|by etrans].
Qed.
Lemma safe_ret {A} (a : A) w : safe (mret a) w.
Proof. by exists a, w. Qed.
Lemma safe_gets {A} (f : World () → A) w : safe (gets f) w.
Proof. by exists (f w), w. Qed.
Lemma safe_lift {A} (o : outcome error A) a w : o = Ok a → safe (lift o) w.
Proof. intros ->. by exists a, w. Qed.
Lemma safe_fail_if c e w : c = false → safe (fail_if c e) w.
Proof. intros ->. by exists (), w. Qed.
Lemma safe_deref {A} (o : option A) a w : o = Some a → safe (deref o) w.
Proof. intros ->. by exists a, w. Qed.
Lemma safe_wrap_err {A} f (m : M () A) w : safe m w → safe (wrap_err f m) w.
Proof. intros (a & w' & Hm & Hg). exists a, w'. by rewrite wrap_err_ok. Qed.
Lemma safe_load l t w : table_at w l t → safe (load l) w.
Proof. intros Ht. exists t, w. by rewrite load_ok. Qed.
Lemma safe_table_or n e l w :
  GetTable (w_heap w) (w_schema w) n = Some l → safe (table_or n e) w.
Proof. intros Ht. exists l, w. by rewrite table_or_ok. Qed.
Lemma safe_column_named l tn n t c w :
  table_at w l t → column_at t n c → safe (column_named l tn n) w.
Proof. intros Ht Hc. exists c, w. rewrite column_named_ok. split; [by exists t|done]. Qed.
Lemma safe_update f l w : keeps f → safe (update_table f l) w.
Proof. intros Hf. exists (), (update_table f l w).2. split; [done|by apply grows_update]. Qed.

Lemma exec_fake sql w : exec sql w = (Ok (), w).
Proof. by destruct w as [s h [] u]. Qed.
Lemma query_fake sql args w : query sql args w = (Ok None, w).
Proof. by destruct w as [s h [] u]. Qed.
Lemma safe_exec sql w : safe (exec sql) w.
Proof. exists (), w. by rewrite exec_fake. Qed.

Lemma safe_for_each {A} (f : A → M () ()) l w :
  (∀ x w', x ∈ l → grows w w' → safe (f x) w') → safe (for_each f l) w.
Proof.
  intros Hf. destruct (runs_for_each f (grows w) l w) as (w' & Hw & Hg); [done| |by exists (), w'].
  intros x w1 Hx Hg1. destruct (Hf x w1 Hx Hg1) as ([] & w2 & H2 & Hg2).
  exists w2. split; [done|by etrans].
Qed.
Lemma safe_map_each {A B} (f : A → M () B) l w :
  (∀ x w', x ∈ l → grows w w' → safe (f x) w') → safe (map_each f l) w.
Proof.
  intros Hf. destruct (runs_map_each f (grows w) l w) as (ys & w' & Hw & Hg & _);
    [done| |by exists ys, w'].
  intros x w1 Hx Hg1. destruct (Hf x w1 Hx Hg1) as (y & w2 & H2 & Hg2).
  exists y, w2. split; [done|by etrans].
Qed.

(** *** The executed part of alter column *)

Lemma fake_attempts n q sql w :
  buildIndexAttempts virtualFuel n q sql w = (Ok (), w).
Proof. by destruct w as [s h [] u]. Qed.

Lemma fake_createIndex c n q sql w : execCreateIndex virtualFuel c n q sql w = (Ok (), w).
Proof. by destruct c, w as [s h [] u]. Qed.

Lemma safe_exec_ignoring code sql w : safe (exec_ignoring code sql) w.
Proof.
  exists (), w. split; [|done]. unfold exec_ignoring, try, mbind, prog_bind. by rewrite exec_fake.
Qed.

Definition no_panic_columns (t : Table) : Prop :=
  ∀ n, ∃ o, GetColumn (E := error) t n = Ok o.

Lemma no_nil_no_panic t : no_nil_columns t → no_panic_columns t.
Proof.
  intros Hn n. unfold GetColumn. specialize (Hn n).
  destruct (Table_Columns t !! n) as [[c|]|]; [|done|by eexists].
  destruct (Column_Deleted c); by eexists.
Qed.

Lemma columnIsDuplicated_Ok scope t c cols :
  no_panic_columns t → ∃ b, columnIsDuplicated scope t c cols = Ok b.
Proof.
  intros Hn. unfold columnIsDuplicated. case_match; [by eexists|].
  destruct (Hn c) as [[c'|] Hc]; rewrite Hc; cbn; [case_decide|]; by eexists.
Qed.

Lemma duplicatedConstraintColumns_Ok scope t cs cols :
  no_panic_columns t → ∃ l, duplicatedConstraintColumns scope t cs cols = Ok l.
Proof.
  intros Hn. induction cs as [|c cs [l IH]]; [by eexists|]. cbn.
  destruct (columnIsDuplicated_Ok scope t c cols Hn) as [b ->]. cbn.
  unfold duplicatedConstraintColumns in IH. rewrite IH. by eexists.
Qed.

Lemma allConstraintColumns_Ok scope t cs cols :
  no_panic_columns t → ∃ p, allConstraintColumns scope t cs cols = Ok p.
Proof.
  intros Hn. induction cs as [|c cs [[b0 l] IH]]; [by eexists|]. cbn.
  destruct (columnIsDuplicated_Ok scope t c cols Hn) as [b ->]. cbn.
  match goal with |- context [foldr ?f ?a cs] =>
    change (foldr f a cs) with (allConstraintColumns scope t cs cols) end.
  rewrite IH. cbn. destruct b; by eexists.
Qed.

Lemma concatStatements_Ok {A} (f : A → outcome error (list string)) l :
  (∀ x, ∃ s, f x = Ok s) → ∃ s, concatStatements f l = Ok s.
Proof.
  intros Hf. induction l as [|x l [s IH]]; [by eexists|]. cbn.
  destruct (Hf x) as [s1 ->]. cbn. unfold concatStatements in IH. rewrite IH. by eexists.
Qed.

Lemma duplicateCheckConstraint_Ok scope t wc cols cc :
  no_panic_columns t → ∃ s, duplicateCheckConstraint scope t wc cols cc = Ok s.
Proof.
  intros Hn. unfold duplicateCheckConstraint. case_match; [by eexists|].
  edestruct (duplicatedConstraintColumns_Ok scope t) as [l ->]; [done|]. cbn.
  case_decide; by eexists.
Qed.
Lemma duplicateForeignKeyConstraint_Ok scope t wc cols fk :
  no_panic_columns t → ∃ s, duplicateForeignKeyConstraint scope t wc cols fk = Ok s.
Proof.
  intros Hn. unfold duplicateForeignKeyConstraint. case_match; [by eexists|].
  edestruct (allConstraintColumns_Ok scope t) as [[b l] ->]; [done|]. cbn.
  destruct b; by eexists.
Qed.
Lemma duplicateIndex_Ok scope t wc cols i :
  no_panic_columns t → ∃ s, duplicateIndex scope t wc cols i = Ok s.
Proof.
  intros Hn. unfold duplicateIndex. case_match; [by eexists|]. case_match; [by eexists|].
  edestruct (allConstraintColumns_Ok scope t) as [[b l] ->]; [done|]. cbn.
  destruct b; by eexists.
Qed.
End safe.

(** Discharges the parts of a goal [safe m w] that need no thought. *)
Ltac safe_steps :=
  repeat first
    [ apply safe_ret | apply safe_gets | apply safe_exec | apply safe_exec_ignoring
    | apply safe_wrap_err
    | apply safe_update; first
        [ apply keeps_columns; reflexivity | by apply keeps_AddColumn ]
    | match goal with
      | |- safe (if ?c then _ else _) _ => destruct c
      | |- safe (match ?o with Some _ => _ | None => _ end) _ => destruct o
      end ].

Section starts.
Context `{!Pq}.
Implicit Types w : World ().

Lemma safe_load_then {A} l t (f : Table → M () A) w :
  table_at w l t → no_nil_columns t →
  (∀ t', table_at w l t' → no_nil_columns t' → safe (f t') w) → safe (load l ≫= f) w.
Proof.
  intros Ht Hn Hf. apply safe_bind; [by eapply safe_load|].
  intros t' w' [Ht' ->]%load_ok _. assert (t' = t) as -> by (unfold table_at in *; congruence).
  by apply Hf.
Qed.

Lemma grows_no_nil w w' l t :
  grows w w' → table_at w l t → no_nil_columns t →
  ∃ t', table_at w' l t' ∧ no_nil_columns t'.
Proof. intros [_ Hg] Ht Hn. destruct (Hg l t Ht) as (t' & ? & _ & ? & _). eauto. Qed.

Lemma safe_duplicateOne d n l t w :
  d.(dup_table) = l → table_at w l t → no_nil_columns t → is_Some (d.(dup_columns) !! n) →
  safe (duplicateOne d n) w.
Proof.
  intros <- Ht Hn [c Hc]. unfold duplicateOne.
  apply safe_bind; [by eapply safe_deref|]. intros c' w1 [_ ->]%deref_ok _.
  apply safe_bind.
  - unfold duplicateColumn. apply safe_load_then with t; [done..|]. intros t' Ht' _.
    safe_steps. apply safe_bind; [|intros]; safe_steps.
  - intros sql w2 _ Hg. destruct (grows_no_nil _ _ _ _ Hg Ht Hn) as (t2 & Ht2 & Hn2).
    apply safe_bind; [safe_steps|]. intros [] w3 Hw3 _. rewrite exec_fake in Hw3.
    injection Hw3 as <-. apply safe_load_then with t2; [done..|]. intros t3 _ _.
    apply safe_bind; [safe_steps|]. intros; safe_steps.
Qed.

Lemma safe_duplicateUnique d uc l t w :
  d.(dup_table) = l → table_at w l t → no_nil_columns t →
  safe (duplicateUnique virtualFuel d uc) w.
Proof.
  intros <- Ht Hn. unfold duplicateUnique. case_match; [apply safe_ret|].
  apply safe_load_then with t; [done..|]. intros t' _ Hn'.
  edestruct allConstraintColumns_Ok as [[b cs] Hcs]; [by apply no_nil_no_panic|].
  apply safe_bind; [by eapply safe_lift|]. intros [b' cs'] w' [_ ->]%lift_ok _.
  destruct b'; [|apply safe_ret]. exists (), w. split; [apply fake_createIndex|done].
Qed.

Lemma safe_duplicator d t w :
  table_at w d.(dup_table) t → no_nil_columns t →
  (∀ n, n ∈ d.(dup_columnOrder) → is_Some (d.(dup_columns) !! n)) →
  safe (duplicator_Execute virtualFuel d) w.
Proof.
  intros Ht Hn Hcols. unfold duplicator_Execute. apply safe_bind.
  { apply safe_for_each. intros n w' Hin Hg.
    destruct (grows_no_nil _ _ _ _ Hg Ht Hn) as (t' & Ht' & Hn').
    eapply safe_duplicateOne; [done..|by apply Hcols]. }
  intros [] w1 _ Hg1. destruct (grows_no_nil _ _ _ _ Hg1 Ht Hn) as (t1 & Ht1 & Hn1).
  assert (∀ {A} (f : Table → M () A) w2, grows w1 w2 →
    (∀ t', table_at w2 d.(dup_table) t' → no_nil_columns t' → safe (f t') w2) →
    safe (load d.(dup_table) ≫= f) w2) as Hload.
  { intros A f w2 Hg Hf. destruct (grows_no_nil _ _ _ _ Hg Ht1 Hn1) as (t2 & Ht2 & Hn2).
    by eapply safe_load_then. }
  assert (∀ {A} (f : A → outcome error (list string)) l (k : list string → M () ()) w2,
    (∀ x, ∃ s, f x = Ok s) → (∀ ss, safe (k ss) w2) →
    safe (lift (concatStatements f l) ≫= k) w2) as Hstmts.
  { intros A f l k w2 Hf Hk. destruct (concatStatements_Ok f l Hf) as [ss Hss].
    apply safe_bind; [by eapply safe_lift|]. by intros ss' w' [_ ->]%lift_ok _. }
  apply Hload; [done|]. intros t2 _ Hn2%no_nil_no_panic. apply Hstmts.
  { intros x. by apply duplicateCheckConstraint_Ok. }
  intros checks. apply safe_bind; [apply safe_for_each; intros; safe_steps|].
  intros [] w2 _ Hg2. apply Hload; [done|]. intros t3 Ht3 Hn3. apply safe_bind.
  { apply safe_for_each. intros uc w' _ Hg'.
    destruct (grows_no_nil _ _ _ _ Hg' Ht3 Hn3) as (t4 & Ht4 & Hn4).
    by eapply safe_duplicateUnique. }
  intros [] w3 _ Hg3. assert (grows w1 w3) as Hg13 by (by etrans).
  apply Hload; [done|]. intros t4 _ Hn4%no_nil_no_panic. apply Hstmts.
  { intros x. by apply duplicateForeignKeyConstraint_Ok. }
  intros fks. apply safe_bind; [apply safe_for_each; intros; safe_steps|].
  intros [] w4 _ Hg4. apply Hload; [by etrans|]. intros t5 _ Hn5%no_nil_no_panic. apply Hstmts.
  { intros x. by apply duplicateIndex_Ok. }
  intros idxs. apply safe_for_each. intros. apply safe_exec.
Qed.
End starts.

(** The columns of a constraint are live columns of the table. *)
Definition constraint_columns_live (w : World ()) (table name : string) : Prop :=
  ∀ l t, GetTable (w_heap w) (w_schema w) table = Some l → table_at w l t →
  ∀ c, c ∈ GetConstraintColumns t name → ∃ col, column_at t c col.

(** What [Validate] does not check although [Start] depends on it *)
Definition start_ready (w : World ()) (op : Operation) : Prop :=
  match op with
  | AddColumn_ o => o.(OpAddColumn_Column).(MigColumn_Generated) = None
  | CreateTable_ o => Forall (λ c, c.(Constraint_Type) = ConstraintTypeExclude →
                               is_Some c.(Constraint_Exclude)) o.(OpCreateTable_Constraints)
  | DropConstraint_ o =>
      constraint_columns_live w o.(OpDropConstraint_Table) o.(OpDropConstraint_Name)
  | DropMultiColumnConstraint_ o =>
      constraint_columns_live w o.(OpDropMultiColumnConstraint_Table)
        o.(OpDropMultiColumnConstraint_Name)
  | _ => True
  end.

Lemma table_at_inj {D} (w : World D) l t t' : table_at w l t → table_at w l t' → t = t'.
Proof. unfold table_at. congruence. Qed.
Lemma column_at_inj t n c c' : column_at t n c → column_at t n c' → c = c'.
Proof. unfold column_at. intros [? _] [? _]. congruence. Qed.

(** Identifies the results of two equal lookups. *)
Ltac unify_facts :=
  repeat match goal with
  | H1 : GetTable ?h ?s ?n = Some ?a, H2 : GetTable ?h ?s ?n = Some ?b |- _ =>
      first [constr_eq a b; clear H2 | assert (b = a) by congruence; subst b]
  | H1 : table_at ?w ?l ?a, H2 : table_at ?w ?l ?b |- _ =>
      first [constr_eq a b; clear H2 | pose proof (table_at_inj _ _ _ _ H1 H2); subst b]
  | H1 : column_at ?t ?n ?a, H2 : column_at ?t ?n ?b |- _ =>
      first [constr_eq a b; clear H2 | pose proof (column_at_inj _ _ _ _ H1 H2); subst b]
  end.

(** Names the table found and what it holds. *)
Tactic Notation "lookups" ident(l) ident(t) ident(Hl) ident(Ht) :=
  match goal with HT : GetTable _ _ _ = Some ?x, HA : table_at _ ?x ?y |- _ =>
    rename HT into Hl, HA into Ht; rename x into l; rename y into t end.
Tactic Notation "column_lookup" ident(t) ident(c) ident(Hc) :=
  match goal with HC : column_at t _ ?x |- _ =>
    rename HC into Hc; rename x into c end.

(** Reads the table and column lookups of a goal [safe (x ← m; f x) w] whose
    result is known. *)
Ltac safe_step :=
  lazymatch goal with
  | |- safe (MigrationScope ≫= _) _ =>
      apply safe_bind; [apply safe_gets|intros ? ? [= <- <-] _]
  | |- safe (gets _ ≫= _) _ => apply safe_bind; [apply safe_gets|intros ? ? [= <- <-] _]
  | |- safe (mret _ ≫= _) _ => apply safe_bind; [apply safe_ret|intros ? ? [= <- <-] _]
  | |- safe (table_named _ ≫= _) _ =>
      apply safe_bind; [by eapply safe_table_or|];
      let l := fresh "l" in let H := fresh "Hl" in intros l ? [H ->]%table_or_ok _; unify_facts
  | |- safe (load _ ≫= _) _ =>
      apply safe_bind; [by eapply safe_load|];
      let t := fresh "t" in let H := fresh "Ht" in intros t ? [H ->]%load_ok _; unify_facts
  | |- safe (column_named _ _ _ ≫= _) _ =>
      apply safe_bind; [by eapply safe_column_named|];
      let c := fresh "c" in let H := fresh "Hc" in
      intros c ? (? & ? & H & ->)%column_named_ok _; unify_facts
  end.

Section ops.
Context `{!Pq}.
Implicit Types w : World ().

Lemma safe_runs {A} (m : M () A) w : safe m w → runs m w.
Proof. intros (a & w' & Hm & _). by exists a, w'. Qed.

Lemma AddColumn_Start_runs o w :
  o.(OpAddColumn_Column).(MigColumn_Generated) = None →
  runs (AddColumn_Validate o) w → runs (AddColumn_Start o) w.
Proof.
  intros Hgen (u & w1 & Hv). unfold AddColumn_Validate in Hv. inv_steps.
  match goal with HT : GetTable _ _ _ = Some _ |- _ => rename HT into Hl end.
  destruct (GetTable_at _ _ _ Hl) as (t & Ht & _).
  apply safe_runs. unfold AddColumn_Start. do 4 safe_step.
  apply safe_bind; [by destruct (MigColumn_Default (OpAddColumn_Column o));
    [apply safe_wrap_err, safe_ret|apply safe_ret]|].
  intros fast w' Hf _.
  assert (w' = w ∧ (is_Some (MigColumn_Default (OpAddColumn_Column o)) → fast = true)) as [-> Hfast].
  { destruct (MigColumn_Default (OpAddColumn_Column o)).
    - apply wrap_err_ok in Hf. by injection Hf as <- <-.
    - injection Hf as <- <-. split; [done|]. by intros []. }
  apply safe_bind; [eapply safe_lift; unfold addColumn; rewrite bool_decide_eq_false_2;
    [reflexivity|rewrite Hgen; by intros []]|].
  intros action w2 [_ ->]%lift_ok _. apply safe_bind.
  { apply safe_fail_if. destruct (MigColumn_Default (OpAddColumn_Column o)) as [d|].
    - rewrite Hfast by (by eexists). by rewrite andb_false_r.
    - by rewrite bool_decide_eq_false_2 by (by intros []). }
  intros [] w3 _ _. apply safe_bind; [|intros; safe_steps]. apply safe_update.
  by apply keeps_AddColumn.
Qed.
End ops.

(** ** Alter column *)

Section alter.
Context `{!Pq}.
Implicit Types w : World ().

(** A column the operations can see *)
Definition live w (tn cn : string) : Prop :=
  ∃ l t c, GetTable (w_heap w) (w_schema w) tn = Some l ∧ table_at w l t ∧ column_at t cn c.

Lemma live_grows w w' tn cn : grows w w' → live w tn cn → live w' tn cn.
Proof.
  intros Hg (l & t & c & Hl & Ht & Hc). pose proof (grows_GetTable _ _ _ _ Hg Hl) as Hl'.
  destruct Hg as [_ Hg]. destruct (Hg l t Ht) as (t' & Ht' & _ & _ & Hcol).
  destruct (Hcol cn c Hc) as [c' Hc']. exists l, t', c'. done.
Qed.

Definition SubOp_target (o : SubOp) : string * string :=
  match o with
  | ChangeType_ o => (o.(OpChangeType_Table), o.(OpChangeType_Column))
  | SetCheckConstraint_ o => (o.(OpSetCheckConstraint_Table), o.(OpSetCheckConstraint_Column))
  | SetForeignKey_ o => (o.(OpSetForeignKey_Table), o.(OpSetForeignKey_Column))
  | SetNotNull_ o => (o.(OpSetNotNull_Table), o.(OpSetNotNull_Column))
  | DropNotNull_ o => (o.(OpDropNotNull_Table), o.(OpDropNotNull_Column))
  | SetUnique_ o => (o.(OpSetUnique_Table), o.(OpSetUnique_Column))
  | SetDefault_ o => (o.(OpSetDefault_Table), o.(OpSetDefault_Column))
  | SetComment_ o => (o.(OpSetComment_Table), o.(OpSetComment_Column))
  end.

Definition SubOp_reference (o : SubOp) : option (string * string) :=
  match o with
  | SetForeignKey_ o => Some (o.(OpSetForeignKey_References).(ForeignKeyReference_Table),
                              o.(OpSetForeignKey_References).(ForeignKeyReference_Column))
  | _ => None
  end.

Lemma safe_update_column l n f t c w :
  table_at w l t → column_at t n c → (∀ c, (f c).(Column_Deleted) = c.(Column_Deleted)) →
  safe (update_column l n f) w.
Proof.
  intros Ht Hc Hf. unfold update_column.
  apply safe_bind; [exists (Some c), w; rewrite get_column_ok; split;
    [exists t; split_and!; [done|by apply GetColumn_Ok|done]|done]|].
  intros o w1 (t' & Ht' & Ho & ->)%get_column_ok _. unify_facts.
  apply GetColumn_Ok in Ho. destruct o as [c'|]; [|destruct Hc as [Hc Hd];
    destruct Ho as [?|(? & ? & ?)]; congruence].
  unify_facts. apply safe_bind; [by eapply safe_deref|]. intros c' w2 [[= <-] ->]%deref_ok _.
  apply safe_update, keeps_AddColumn. rewrite Hf. apply Hc.
Qed.

Lemma safe_SubOp_Start o w :
  live w (SubOp_target o).1 (SubOp_target o).2 →
  (∀ p, SubOp_reference o = Some p → live w p.1 p.2) →
  safe (SubOp_Start o) w.
Proof.
  intros (l & t & c & Hl & Ht & Hc) Hr.
  destruct o as [o|o|o|o|o|o|o|o]; cbn in Hl, Hc; cbn [SubOp_Start].
  3: { destruct (Hr _ eq_refl) as (rl & rt & rc & Hrl & Hrt & Hrc). cbn in Hrl, Hrc.
       unfold SetForeignKey_Start. do 6 safe_step. apply safe_bind; [safe_steps|intros; safe_steps]. }
  - unfold ChangeType_Start. safe_step. safe_steps.
  - unfold SetCheckConstraint_Start. do 3 safe_step. apply safe_bind; [safe_steps|intros; safe_steps].
  - unfold SetNotNull_Start. do 4 safe_step. safe_steps.
  - unfold DropNotNull_Start. safe_step. safe_steps.
  - unfold SetUnique_Start. do 4 safe_step. apply safe_bind; [safe_steps|intros; safe_steps].
  - unfold SetDefault_Start. do 3 safe_step. apply safe_bind; [by eapply safe_update_column|].
    intros; safe_steps.
  - unfold SetComment_Start. do 3 safe_step. safe_steps.
Qed.
Lemma SubOp_Start_task o w r w' :
  SubOp_Start o w = (Ok r, w') → is_Some r.(StartResult_BackfillTask).
Proof.
  destruct o as [o|o|o|o|o|o|o|o]; cbn [SubOp_Start];
    unfold ChangeType_Start, SetCheckConstraint_Start, SetForeignKey_Start, SetNotNull_Start,
      DropNotNull_Start, SetUnique_Start, SetDefault_Start, SetComment_Start; intros Hs;
    repeat match type of Hs with
    | (_ ≫= _) _ = (Ok _, _) => apply bind_ok in Hs as (? & ? & _ & Hs)
    end; injection Hs as <- _; by eexists.
Qed.

Lemma safe_startSubOps ops task actions w :
  (∀ o, o ∈ ops → live w (SubOp_target o).1 (SubOp_target o).2 ∧
                  ∀ p, SubOp_reference o = Some p → live w p.1 p.2) →
  safe (startSubOps ops task actions) w.
Proof.
  revert task actions w. induction ops as [|o ops IH]; intros task actions w Hops; [apply safe_ret|].
  cbn [startSubOps]. destruct (Hops o ltac:(left)) as [Hl Hr].
  apply safe_bind; [by apply safe_SubOp_Start|]. intros r w1 Hw1 Hg1.
  destruct (SubOp_Start_task _ _ _ _ Hw1) as [task' Ht].
  apply safe_bind; [eapply safe_lift; by rewrite Ht|]. intros task2 w2 [_ ->]%lift_ok _.
  apply IH. intros o' Ho'. destruct (Hops o' ltac:(by right)) as [Hl' Hr'].
  split; [by eapply live_grows|]. intros p Hp. eapply live_grows; [done|by apply Hr'].
Qed.

Lemma subOperations_target o op :
  op ∈ subOperations o →
  SubOp_target op = (o.(OpAlterColumn_Table), o.(OpAlterColumn_Column)) ∧
  (∀ p, SubOp_reference op = Some p → ∃ r, o.(OpAlterColumn_References) = Some r ∧
     p = (r.(ForeignKeyReference_Table), r.(ForeignKeyReference_Column)) ∧
     op = SetForeignKey_ (mkOpSetForeignKey o.(OpAlterColumn_Table) o.(OpAlterColumn_Column) r
            o.(OpAlterColumn_Up) o.(OpAlterColumn_Down))).
Proof.
  unfold subOperations. intros Hin.
  repeat (apply elem_of_app in Hin as [Hin|Hin]);
    repeat match type of Hin with
    | _ ∈ match ?x with _ => _ end => destruct x eqn:?
    | _ ∈ [] => by apply elem_of_nil in Hin
    end; apply list_elem_of_singleton in Hin as ->; (split; [done|]); intros p Hp;
    try discriminate Hp.
  injection Hp as <-. by eexists.
Qed.

Lemma FKReference_Validate_live r w u w' :
  ForeignKeyReference_Validate r w = (Ok u, w') →
  live w r.(ForeignKeyReference_Table) r.(ForeignKeyReference_Column).
Proof.
  unfold ForeignKeyReference_Validate. intros Hv. inv_steps.
  match goal with HT : GetTable _ _ _ = Some ?l, HA : table_at _ ?l ?t, HC : column_at ?t _ ?c |- _ =>
    exists l, t, c end. done.
Qed.

Lemma SubOp_Validate_pure o w u w' : SubOp_Validate o w = (Ok u, w') → w' = w.
Proof.
  destruct o as [o|o|o|o|o|o|o|o]; cbn [SubOp_Validate];
    unfold ChangeType_Validate, SetCheckConstraint_Validate, CheckConstraint_Validate,
      SetForeignKey_Validate, ForeignKeyReference_Validate, SetNotNull_Validate,
      DropNotNull_Validate, SetUnique_Validate, deref_column; intros Hv; by inv_steps.
Qed.

Lemma applySubOps_Ok name ops d :
  is_Some (d.(dup_columns) !! name) →
  ∃ d', applySubOps name ops d = Ok d' ∧ is_Some (d'.(dup_columns) !! name) ∧
    d'.(dup_table) = d.(dup_table) ∧ d'.(dup_columnOrder) = d.(dup_columnOrder).
Proof.
  revert d. induction ops as [|op ops IH]; intros d Hd; [by exists d|].
  assert (∀ f, ∃ d1, dup_update (E := error) name f d = Ok d1 ∧ is_Some (d1.(dup_columns) !! name) ∧
    d1.(dup_table) = d.(dup_table) ∧ d1.(dup_columnOrder) = d.(dup_columnOrder)) as Hupd.
  { intros f. unfold dup_update. destruct Hd as [c ->]. eexists. split; [done|].
    cbn. rewrite lookup_insert_eq. split; [by eexists|done]. }
  destruct op as [o|o|o|o|o|o|o|o]; cbn [applySubOps]; try by apply IH.
  - destruct (Hupd (λ c, mkColumnToDuplicate c.(ctd_column) c.(ctd_asName)
      c.(ctd_withoutNotNull) o.(OpChangeType_Type))) as (d1 & H1 & Hd1 & Ht1 & Ho1).
    unfold WithType. rewrite H1. cbn. destruct (IH d1 Hd1) as (d' & -> & ? & ? & ?).
    exists d'. split_and!; [done|done|congruence|congruence].
  - destruct (Hupd (λ c, mkColumnToDuplicate c.(ctd_column) c.(ctd_asName) true c.(ctd_withType)))
      as (d1 & H1 & Hd1 & Ht1 & Ho1).
    unfold WithoutNotNull. rewrite H1. cbn. destruct (IH d1 Hd1) as (d' & -> & ? & ? & ?).
    exists d'. split_and!; [done|done|congruence|congruence].
Qed.

(** The duplicator [Start] executes *)
Lemma alter_duplicator ops scope l t c asName :
  ∃ d1 d2, duplicatorForOperations ops scope l t c = Ok d1 ∧
    WithName (E := error) c.(Column_Name) asName d1 = Ok d2 ∧ d2.(dup_table) = l ∧
    ∀ n, n ∈ d2.(dup_columnOrder) → is_Some (d2.(dup_columns) !! n).
Proof.
  set (d0 := NewColumnDuplicator scope l t [c]).
  assert (is_Some (d0.(dup_columns) !! c.(Column_Name))) as Hd0.
  { cbn. rewrite lookup_insert_eq. by eexists. }
  destruct (applySubOps_Ok c.(Column_Name) ops d0 Hd0) as (d1 & H1 & [cd1 Hd1] & Ht1 & Ho1).
  exists d1. eexists. split; [exact H1|]. split; [unfold WithName, dup_update; by rewrite Hd1|].
  split; [exact Ht1|]. cbn. rewrite Ho1. cbn. intros n ->%list_elem_of_singleton.
  rewrite lookup_insert_eq. by eexists.
Qed.

Lemma AlterColumn_Start_runs o w :
  world_ok w → runs (AlterColumn_Validate o) w → runs (AlterColumn_Start virtualFuel o) w.
Proof.
  intros [_ Hcols] ([] & w1 & Hv). unfold AlterColumn_Validate in Hv. inv_steps.
  apply for_each_ok in Hv as [_ Hsub]; [|by intros; eapply SubOp_Validate_pure].
  apply safe_runs. unfold AlterColumn_Start. do 4 safe_step.
  lookups l t Hl Ht. column_lookup t c Hc.
  set (scope := Schema_MigrationScope (w_schema w)).
  destruct (alter_duplicator (subOperations o) scope l t c
    (TemporaryName scope o.(OpAlterColumn_Column))) as (d1 & d2 & Hdup & Hname & Hdt & Hdc).
  apply safe_bind; [eapply safe_lift, Hdup|]. intros d1' w2 [Hd1 ->]%lift_ok _.
  assert (d1' = d1) as -> by congruence.
  apply safe_bind; [eapply safe_lift, Hname|]. intros d2' w2 [Hd2 ->]%lift_ok _.
  assert (d2' = d2) as -> by congruence. apply safe_bind.
  { apply safe_wrap_err, safe_duplicator with t; [by rewrite Hdt|by apply (Hcols l)|done]. }
  intros [] w2 _ Hg2. apply safe_bind.
  { apply safe_update, keeps_AddColumn. destruct Hc as [_ Hc]. unfold alteredColumn.
    destruct (OpAlterColumn_Type o); [case_match|]; done. }
  intros [] w3 _ Hg3. assert (grows w w3) as Hg by (by etrans).
  apply safe_bind; [|intros [] ? ? ?; apply safe_ret].
  apply safe_startSubOps. intros op Hop. destruct (subOperations_target o op Hop) as [-> Hr].
  split; [eapply live_grows; [exact Hg|by exists l, t, c]|].
  intros p (r & Hro & -> & ->)%Hr. eapply live_grows; [exact Hg|]. specialize (Hsub _ Hop).
  cbn [SubOp_Validate] in Hsub. unfold SetForeignKey_Validate in Hsub.
  apply bind_ok in Hsub as ([] & w4 & Hfk%wrap_err_ok & _). by eapply FKReference_Validate_live.
Qed.
End alter.
