(* ===== verification/MigrationFacts.v ===== *)
(** * MigrationFacts: validation, reversibility and the completion of a
      migration as a whole *)

From S2P Require Import Prelude.
From S2P Require Import GoStd.
From S2P Require Import Names.
From S2P Require Import Schema.
From S2P Require Import SchemaFacts.
From S2P Require Import Types.
From S2P Require Import Db.
From S2P Require Import WorldFacts.
From S2P Require Import Samples.
From S2P Require Import SqlWriter.
From S2P Require Import Actions.
From S2P Require Import Duplicate.
From S2P Require Import Backfill.
From S2P Require Import OpsBase.
From S2P Require Import OpsColumn.
From S2P Require Import OpsTable.
From S2P Require Import OpsSub.
From S2P Require Import OpsAlter.
From S2P Require Import OpsConstraint.
From S2P Require Import Operations.
From S2P Require Import Preconditions.
From S2P Require Import Migration.
From S2P Require Import OpsFacts.
From S2P Require Import RunFacts.

(** ** Preconditions *)

(** What the first assertion of a precondition says of the virtual schema;
    functions and types are asked of the database instead. *)
Definition precondition_holds {D} (w : World D) (p : Precondition) : Prop :=
  match p.(Precondition_TableExists), p.(Precondition_TableNotExists),
        p.(Precondition_ColumnExists), p.(Precondition_ColumnNotExists),
        p.(Precondition_IndexExists), p.(Precondition_ConstraintExists),
        p.(Precondition_FunctionExists), p.(Precondition_TypeExists) with
  | Some t, _, _, _, _, _, _, _ => is_Some (table_of w t)
  | _, Some t, _, _, _, _, _, _ => table_of w t = None
  | _, _, Some r, _, _, _, _, _ =>
      ∃ t c, table_of w r.(PreconditionColumnExists_Table) = Some t ∧
        t.(Table_Columns) !! r.(PreconditionColumnExists_Column) = Some (Some c) ∧
        ∀ ty, r.(PreconditionColumnExists_Type) = Some ty → c.(Column_Type) = ty
  | _, _, _, Some r, _, _, _, _ =>
      ∀ t, table_of w r.(PreconditionColumnRef_Table) = Some t →
        t.(Table_Columns) !! r.(PreconditionColumnRef_Column) = None
  | _, _, _, _, Some r, _, _, _ =>
      ∃ t, table_of w r.(PreconditionIndexRef_Table) = Some t ∧
        is_Some (t.(Table_Indexes) !! r.(PreconditionIndexRef_Index))
  | _, _, _, _, _, Some r, _, _ =>
      ∃ t, table_of w r.(PreconditionConstraintRef_Table) = Some t ∧
        let c := r.(PreconditionConstraintRef_Constraint) in
        (is_Some (t.(Table_CheckConstraints) !! c) ∨ is_Some (t.(Table_UniqueConstraints) !! c) ∨
         is_Some (t.(Table_ForeignKeys) !! c) ∨ is_Some (t.(Table_ExcludeConstraints) !! c))
  | _, _, _, _, _, _, Some _, _ | _, _, _, _, _, _, _, Some _ => True
  | _, _, _, _, _, _, _, _ => False
  end.

(** The result [r] of a check of [P] *)
Definition decides {D} (P : Prop) (w : World D) (r : outcome error () * World D) : Prop :=
  match r with
  | (Ok _, w') => w' = w ∧ P
  | (Err _, w') => w' = w ∧ ¬ P
  | _ => False
  end.

Section preconditions.
Context {D : Type} `{!DB D}.
Implicit Types w : World D.

Lemma decides_fail_if (b : bool) (P : Prop) e w :
  (b = false ↔ P) → decides P w (fail_if b e w).
Proof. intros Hb. destruct b; cbn; (split; [done|]); [|by apply Hb]. by intros ?%Hb. Qed.

Lemma table_of_cases w n :
  (∃ l t, GetTable (w_heap w) (w_schema w) n = Some l ∧ w_heap w !! l = Some t ∧
     table_of w n = Some t) ∨
  (GetTable (w_heap w) (w_schema w) n = None ∧ table_of w n = None).
Proof.
  unfold table_of. destruct (GetTable (w_heap w) (w_schema w) n) as [l|] eqn:Hl; [|by right].
  destruct (GetTable_at _ _ _ Hl) as (t & Ht & _). left. exists l, t. done.
Qed.

(** A table is looked up, or the check fails. *)
Lemma decides_table w n e (f : Table → M D ()) (P : Table → Prop) (Q : Prop) :
  (Q ↔ ∃ t, table_of w n = Some t ∧ P t) → (∀ t, table_of w n = Some t → decides (P t) w (f t w)) →
  decides Q w ((l ← table_or n e; table ← load l; f table) w).
Proof.
  intros HQ Hf. destruct (table_of_cases w n) as [(l & t & Hl & Ht & Hto)|[Hl Hto]].
  - erewrite run_bind by (by apply table_or_ok). erewrite run_bind by (by apply load_ok).
    specialize (Hf t Hto). unfold decides in *. destruct (f t w) as [[]w']; try done.
    + destruct Hf as [-> HP]. split; [done|]. apply HQ. eauto.
    + destruct Hf as [-> HP]. split; [done|]. intros (t' & Ht' & ?)%HQ. congruence.
  - unfold table_or, get_table, mbind, prog_bind, gets. rewrite Hl. cbn. split; [done|].
    intros (t' & Ht' & _)%HQ. congruence.
Qed.

Lemma decides_column w t (r : PreconditionColumnExists) :
  no_nil_columns t →
  decides (∃ c, t.(Table_Columns) !! r.(PreconditionColumnExists_Column) = Some (Some c) ∧
             ∀ ty, r.(PreconditionColumnExists_Type) = Some ty → c.(Column_Type) = ty) w
    ((col ← require (t.(Table_Columns) !! r.(PreconditionColumnExists_Column))
       (Errorf "precondition failed: column %q does not exist on table %q"
          [r.(PreconditionColumnExists_Column); r.(PreconditionColumnExists_Table)]);
     match r.(PreconditionColumnExists_Type) with
     | None => mret ()
     | Some ty =>
         col ← deref col;
         fail_if (negb (bool_decide (col.(Column_Type) = ty)))
           (Errorf "precondition failed: column %q on table %q has type %q but expected %q"
              [r.(PreconditionColumnExists_Column); r.(PreconditionColumnExists_Table);
               col.(Column_Type); ty])
     end : M D ()) w).
Proof.
  intros Hn. specialize (Hn (PreconditionColumnExists_Column r)).
  destruct (Table_Columns t !! PreconditionColumnExists_Column r) as [[c|]|] eqn:Hc; [|done|].
  - erewrite run_bind by (by apply require_ok).
    destruct (PreconditionColumnExists_Type r) as [ty|]; [|split; [done|by exists c]].
    erewrite run_bind by (by apply deref_ok). apply decides_fail_if.
    rewrite negb_false_iff, bool_decide_eq_true. split.
    + intros Hty. exists c. split; [done|]. by intros ty' [= <-].
    + intros (c' & [= <-] & Hty). by apply Hty.
  - unfold require, mbind, prog_bind. cbn. split; [done|]. by intros (c & ? & _).
Qed.

Lemma hasConstraint_true t c :
  hasConstraint t c = true ↔
  (is_Some (t.(Table_CheckConstraints) !! c) ∨ is_Some (t.(Table_UniqueConstraints) !! c) ∨
   is_Some (t.(Table_ForeignKeys) !! c) ∨ is_Some (t.(Table_ExcludeConstraints) !! c)).
Proof. unfold hasConstraint. rewrite !orb_true_iff, !bool_decide_eq_true. tauto. Qed.

Lemma validatePrecondition_spec w p :
  world_ok w → decides (precondition_holds w p) w (validatePrecondition p w).
Proof.
  intros [_ Hok]. destruct p as [ce ce' co fn ix te te' ty].
  unfold validatePrecondition, precondition_holds;
    cbn [Precondition_TableExists Precondition_TableNotExists Precondition_ColumnExists
      Precondition_ColumnNotExists Precondition_IndexExists Precondition_ConstraintExists
      Precondition_FunctionExists Precondition_TypeExists].
  destruct te as [t|].
  { unfold validateTableExists. erewrite run_bind by (by apply get_table_ok).
    destruct (table_of_cases w t) as [(l & tb & -> & _ & ->)|[-> ->]]; cbn; split; done. }
  destruct te' as [t|].
  { unfold validateTableNotExists. erewrite run_bind by (by apply get_table_ok).
    apply decides_fail_if. rewrite bool_decide_eq_false.
    destruct (table_of_cases w t) as [(l & tb & -> & _ & ->)|[-> ->]]; (split; [|done]).
    - intros []. by eexists.
    - done. }
  destruct ce as [r|].
  { apply decides_table with (P := λ t, ∃ c,
      t.(Table_Columns) !! r.(PreconditionColumnExists_Column) = Some (Some c) ∧
      ∀ ty, r.(PreconditionColumnExists_Type) = Some ty → c.(Column_Type) = ty).
    { split; [intros (t & c & ? & ? & ?)|intros (t & ? & c & ? & ?)]; eauto 6. }
    intros t Ht. apply decides_column. apply bind_Some in Ht as (l & _ & Ht). by eapply Hok. }
  destruct ce' as [r|].
  { unfold validateColumnNotExists. erewrite run_bind by (by apply get_table_ok).
    destruct (table_of_cases w (PreconditionColumnRef_Table r)) as [(l & t & -> & Ht & ->)|[-> ->]].
    - erewrite run_bind by (by apply load_ok). apply decides_fail_if.
      rewrite bool_decide_eq_false, <-eq_None_not_Some.
      split; [by intros H1 t' [= <-]|intros H1; by apply H1].
    - split; [done|]. intros t' [=]. }
  destruct ix as [r|].
  { apply decides_table with (P := λ t,
      is_Some (t.(Table_Indexes) !! r.(PreconditionIndexRef_Index))); [done|].
    intros t _. apply decides_fail_if. rewrite bool_decide_eq_false. apply not_eq_None_Some. }
  destruct co as [r|].
  { apply decides_table with (P := λ t,
      hasConstraint t r.(PreconditionConstraintRef_Constraint) = true).
    - by setoid_rewrite hasConstraint_true.
    - intros t _. apply decides_fail_if. by rewrite negb_false_iff. }
  destruct fn as [r|]; [by split|]. destruct ty; (split; [done|]); [done|by intros []].
Qed.

Lemma ValidatePreconditions_decides w ps :
  world_ok w → decides (Forall (precondition_holds w) ps) w (ValidatePreconditions ps w).
Proof.
  intros Hw. unfold ValidatePreconditions. induction ps as [|p ps IH]; cbn [for_each].
  { split; [done|constructor]. }
  pose proof (validatePrecondition_spec w p Hw) as Hp. unfold mbind, prog_bind.
  unfold decides in *. destruct (validatePrecondition p w) as [[[]|e| |] w1]; try done.
  - destruct Hp as [-> Hp]. destruct (for_each validatePrecondition ps w) as [[]w2]; try done.
    + destruct IH as [-> Hps]. split; [done|by constructor].
    + destruct IH as [-> Hps]. split; [done|]. by intros [_ ?]%Forall_cons.
  - destruct Hp as [-> Hp]. split; [done|]. by intros [? _]%Forall_cons.
Qed.

(** C30. What a successful validation of a migration guarantees.  On a schema
    the readers produce: every schema-level precondition holds, an operation
    that must run alone is alone, and no precondition check changes the
    schema or dereferences nil whether it succeeds or fails. *)
Theorem Migration_Validate_spec w m :
  world_ok w →
  match ValidatePreconditions m.(Migration_Preconditions) w with
  | (Ok _, w') => w' = w ∧ Forall (precondition_holds w) m.(Migration_Preconditions)
  | (Err _, w') => w' = w ∧ ¬ Forall (precondition_holds w) m.(Migration_Preconditions)
  | _ => False
  end ∧
  ∀ w', Migration_Validate m w = (Ok (), w') →
    Forall (precondition_holds w) m.(Migration_Preconditions) ∧
    ∀ op, op ∈ m.(Migration_Operations) → IsIsolated op = true →
      m.(Migration_Operations) = [op].
Proof.
  intros Hw. pose proof (ValidatePreconditions_decides w m.(Migration_Preconditions) Hw) as Hp.
  split; [exact Hp|]. intros w' ([] & w1 & Hpre & ([] & w2 & Hiso & _)%bind_ok)%bind_ok.
  rewrite Hpre in Hp. destruct Hp as [-> Hp]. split; [done|]. intros op Hop Hi.
  apply for_each_ok in Hiso as [_ Hiso]; [|by intros ? ? ? ? [_ ->]%fail_if_ok].
  specialize (Hiso op Hop). apply fail_if_ok in Hiso as [Hiso _]. rewrite Hi in Hiso.
  destruct (Migration_Operations m) as [|o1 [|o2 ops]]; [by apply elem_of_nil in Hop| |done].
  by apply list_elem_of_singleton in Hop as ->.
Qed.
End preconditions.

Definition sample_precondition : Precondition :=
  mkPrecondition (Some (mkPreconditionColumnExists "name" "users" (Some "int"))) None None None None
    None None None.

Lemma Migration_Validate_spec_witness :
  let m := mkMigration "02_sql" "" [RawSQL_ (mkOpRawSQL "SELECT 1" false "SELECT 2")] []
             [sample_precondition] false false [] "" in
  (Migration_Validate m sample_world).1 = Ok () ∧
  Forall (precondition_holds sample_world) (Migration_Preconditions m).
Proof.
  intros m. split; [vm_compute; reflexivity|].
  apply (Migration_Validate_spec sample_world m sample_world_ok) with (w' := sample_world).
  vm_compute. reflexivity.
Defined.

(** ** Completion inside a batch *)

Lemma existsb_false_iff {A} (f : A → bool) l : existsb f l = false ↔ ∀ x, x ∈ l → f x = false.
Proof.
  rewrite <-not_true_iff_false, existsb_exists. split.
  - intros Hn x Hx. destruct (f x) eqn:Hf; [|done]. destruct Hn. exists x.
    by rewrite <-list_elem_of_In.
  - intros Hf (x & Hx%list_elem_of_In & Ht). rewrite Hf in Ht; done.
Qed.

(** What the completion of [op] may do while older version schemas are in use.
    It drops and renames objects pgroll made for itself, with two exceptions:
    [create_constraint] replaces the columns it constrains by their duplicates,
    and [rename_constraint] renames the constraint it names. *)
Definition inline_action (scope : string) (op : Operation) (a : DBAction) : Prop :=
  match a with
  | DropTableAction _ | dropIndexAction _ | renameTableAction _ _ | rawSQLAction _ _ => False
  | dropColumnAction _ cs =>
      cs = [NeedsBackfillColumnName scope] ∨
      ∃ o, op = CreateConstraint_ o ∧ cs = o.(OpCreateConstraint_Columns)
  | renameColumnAction _ from _ => HasPrefix from temporaryPrefix = true
  | renameDuplicatedColumnAction _ _ from to =>
      ∃ o, op = CreateConstraint_ o ∧ to ∈ o.(OpCreateConstraint_Columns) ∧ from = TemporaryName scope to
  | renameConstraintAction _ from to =>
      ∃ o, op = RenameConstraint_ o ∧ from = o.(OpRenameConstraint_From) ∧
        to = o.(OpRenameConstraint_To)
  | dropConstraintAction _ c => IsNotNullConstraintName c = true
  | _ => True
  end.

(** Every column the completion of a [create_constraint] drops comes back: a
    later action gives its duplicate the column's name. *)
Definition columns_replaced (scope : string) (op : Operation) (acts : list DBAction) : Prop :=
  match op with
  | CreateConstraint_ o => ∀ c, c ∈ o.(OpCreateConstraint_Columns) →
      ∃ pre t mid id l post, acts = pre ++ dropColumnAction t o.(OpCreateConstraint_Columns) :: mid ++
        renameDuplicatedColumnAction id l (TemporaryName scope c) c :: post
  | _ => True
  end.

Section completion.
Context `{!Pq} {D : Type} `{!DB D}.
Implicit Types w : World D.

Lemma upgrade_inline sc op tn n :
  Forall (inline_action sc op) (upgradeNotNullConstraintToNotNullAttribute tn n).
Proof. repeat constructor. apply HasPrefix_app. Qed.

Lemma AddColumn_Complete_inline o w acts w' :
  AddColumn_Complete o w = (Ok acts, w') →
  Forall (inline_action (Schema_MigrationScope (w_schema w)) (AddColumn_ o)) acts.
Proof.
  unfold AddColumn_Complete. intros Hc. inv_scope.
  destruct (MigColumn_Default (OpAddColumn_Column o)); inv_scope;
    repeat match goal with
    | |- Forall _ (_ ++ _) => apply Forall_app; split
    | |- Forall _ (upgradeNotNullConstraintToNotNullAttribute _ _) => apply upgrade_inline
    | |- Forall _ (_ :: _) => constructor
    | |- Forall _ [] => constructor
    | |- Forall _ (if ?c then _ else _) => destruct c
    | |- Forall _ (match ?c with Some _ => _ | None => _ end) => destruct c
    | |- inline_action _ _ _ => first [exact I | by left | apply HasPrefix_app]
    end.
Qed.

Lemma completeConstraint_inline o table w acts w' sc op :
  completeConstraint o table w = (Ok acts, w') → Forall (inline_action sc op) acts.
Proof.
  unfold completeConstraint. intros Hc.
  repeat destruct (decide _); unfold SetUnique_Complete, SetCheckConstraint_Complete,
    SetForeignKey_Complete in Hc; inv_scope; repeat constructor.
Qed.

Lemma CreateConstraint_Complete_inline o w acts w' :
  CreateConstraint_Complete o w = (Ok acts, w') →
  Forall (inline_action (Schema_MigrationScope (w_schema w)) (CreateConstraint_ o)) acts ∧
  columns_replaced (Schema_MigrationScope (w_schema w)) (CreateConstraint_ o) acts.
Proof.
  unfold CreateConstraint_Complete. intros Hc. inv_scope.
  match goal with HC : completeConstraint _ _ _ = (Ok ?x, _) |- _ =>
    pose proof (λ sc op, completeConstraint_inline _ _ _ _ _ sc op HC) as Hacts end.
  set (names := OpCreateConstraint_Columns o). split.
  - rewrite !Forall_app. split_and!; [apply Hacts|..].
    + by apply Forall_fmap, Forall_true.
    + constructor; [right; by exists o|]. apply Forall_app. split; [|repeat constructor].
      apply Forall_fmap, Forall_forall. intros c Hc'. by exists o.
  - intros c Hc'. destruct (list_elem_of_split names c Hc') as (a & b & Hab).
    set (ren := NewRenameDuplicatedColumnAction (Schema_MigrationScope (w_schema w)) x0 x1).
    assert (ren <$> names = (ren <$> a) ++ ren c :: (ren <$> b)) as -> by (by rewrite Hab, fmap_app).
    rewrite <-app_assoc, (app_assoc x2). eexists _, _, (ren <$> a), _, _, _. reflexivity.
Qed.

End completion.

Definition sample_add : OpAddColumn :=
  mkOpAddColumn (mkMigColumn None None None None "age" true false None "int" true) "users" "".


(** ** Reversibility *)

Section reversibility.
Context `{!Pq} {D : Type} `{!DB D}.
Implicit Types w : World D.

(** A migration that passes the reversibility check can undo what
    pgroll cannot undo by itself.  Unless it is marked irreversible, every
    raw SQL operation that runs in [Start] rolls back by running its
    non-empty [down], and every [drop_column] that starts asks for a down
    trigger that fills the column from its non-empty [down]; the first
    operation without one is the error reported. *)
Theorem ValidateReversibility_spec m :
  match ValidateReversibility m with
  | None => m.(Migration_Irreversible) = true ∨
      ∀ op, op ∈ m.(Migration_Operations) →
      match op with
      | RawSQL_ o => o.(OpRawSQL_OnComplete) = false → ∀ w, ∃ uuid w',
          Rollback op w = (Ok [rawSQLAction uuid o.(OpRawSQL_Down)], w') ∧
          o.(OpRawSQL_Down) ≠ ""
      | DropColumn_ o => ∀ fuel w r w', Start fuel op w = (Ok r, w') →
          ∃ acts task tr, r = Some (mkStartResult acts (Some task)) ∧
            task.(Task_triggers) = [tr] ∧ tr.(OperationTrigger_Direction) = TriggerDirectionDown ∧
            tr.(OperationTrigger_PhysicalColumn) = o.(OpDropColumn_Column) ∧
            tr.(OperationTrigger_SQL) = o.(OpDropColumn_Down) ∧ o.(OpDropColumn_Down) ≠ ""
      | _ => True
      end
  | Some e => m.(Migration_Irreversible) = false ∧
      ∃ before op after, m.(Migration_Operations) = before ++ op :: after ∧
        Forall (λ op, irreversibleReason op = None) before ∧ irreversibleReason op = Some e ∧
        match op with
        | RawSQL_ o => o.(OpRawSQL_OnComplete) = false ∧ o.(OpRawSQL_Down) = ""
        | DropColumn_ o => o.(OpDropColumn_Down) = ""
        | _ => False
        end
  end.
Proof.
  unfold ValidateReversibility. destruct (Migration_Irreversible m) eqn:Hi; [by left|].
  destruct (head (omap irreversibleReason (Migration_Operations m))) as [e|] eqn:Hh.
  - split; [done|]. clear Hi. induction (Migration_Operations m) as [|op ops IH]; [done|].
    cbn in Hh. destruct (irreversibleReason op) as [e'|] eqn:Hr.
    + injection Hh as ->. exists [], op, ops. split_and!; [done|constructor|done|].
      destruct op as [| | | | |o| | | | |o| | | |]; try discriminate Hr; cbn in Hr.
      * by case_decide.
      * destruct (OpRawSQL_OnComplete o); [done|]. split; [done|].
        by destruct (OpRawSQL_Down o).
    + destruct (IH Hh) as (b & o & a & -> & Hb & Ho & Hc).
      exists (op :: b), o, a. split_and!; [done|by constructor|done|done].
  - right. intros op Hop.
    assert (irreversibleReason op = None) as Hr.
    { destruct (irreversibleReason op) as [e|] eqn:Hr; [|done].
      assert (e ∈ omap irreversibleReason (Migration_Operations m)) as He
        by (apply list_elem_of_omap; eauto).
      destruct (omap irreversibleReason (Migration_Operations m)); [by apply elem_of_nil in He|done]. }
    destruct op as [| | | | |o| | | | |o| | | |]; try exact I; cbn in Hr.
    + intros fuel w r w' Hs. case_decide as Hd; [done|]. cbn [Start] in Hs.
      unfold DropColumn_Start in Hs. inv_scope. rewrite decide_False in * by done.
      inv_scope. do 3 eexists. split_and!; done.
    + intros Hoc w. rewrite Hoc in Hr. cbn [Rollback]. unfold RawSQL_Rollback.
      destruct (decide (OpRawSQL_Down o = "")) as [Hd|Hd]; [by rewrite Hd in Hr|].
      do 2 eexists. split; [reflexivity|done].
Qed.
End reversibility.

Lemma ValidateReversibility_gap :
  let m := mkMigration "02" "" [RawSQL_ (mkOpRawSQL "" true "DROP VIEW v")] [] [] false false [] "" in
  ValidateReversibility m = None.
Proof. reflexivity. Qed.

(** ** Operation names *)

(** The name written for an operation and the operation read for a name
    match: every operation's name is read back as an operation of that name,
    reading a name never yields an operation of another name, and the names
    offered to users are all read. *)
Theorem operation_names_roundtrip :
  (∀ op, ∃ op', OperationFromName (OperationName op) = Ok op' ∧
     OperationName op' = OperationName op) ∧
  (∀ n op, OperationFromName n = Ok op → OperationName op = n) ∧
  (∀ n, n ∈ AllNonDeprecatedOperations → ∃ op, OperationFromName n = Ok op).
Proof.
  split_and!.
  - intros op. destruct op; eexists; (split; [reflexivity|reflexivity]).
  - intros n op. unfold OperationFromName. intros Hn.
    repeat match type of Hn with
    | context [decide (n = ?x)] => destruct (decide (n = x)) as [->|_]; [by injection Hn as <-|]
    end. done.
  - apply Forall_forall. repeat (constructor; [by eexists|]). constructor.
Qed.
