(* ===== verification/StartOps.v ===== *)
(** * StartOps: an operation that validates can be started virtually

    The lemmas [*_Start_runs] for the operations other than add and alter
    column, and the theorem over all operations. *)

From S2P Require Import Prelude.
From S2P Require Import GoStd.
From S2P Require Import Names.
From S2P Require Import Schema.
From S2P Require Import SchemaFacts.
From S2P Require Import Types.
From S2P Require Import Db.
From S2P Require Import WorldFacts.
From S2P Require Import Samples.
From S2P Require Import SqlWriter.
From S2P Require Import Actions.
From S2P Require Import Duplicate.
From S2P Require Import Backfill.
From S2P Require Import OpsBase.
From S2P Require Import OpsColumn.
From S2P Require Import OpsTable.
From S2P Require Import OpsSub.
From S2P Require Import OpsAlter.
From S2P Require Import OpsConstraint.
From S2P Require Import Operations.
From S2P Require Import Preconditions.
From S2P Require Import Migration.
From S2P Require Import RunFacts.
From S2P Require Import StartFacts.

(** ** The other operations *)

(** Names the table found. *)
Tactic Notation "lookups" ident(l) ident(Hl) :=
  match goal with HT : GetTable _ _ _ = Some ?x |- _ =>
    rename HT into Hl; rename x into l end.

Section others.
Context `{!Pq}.
Implicit Types w : World ().

Lemma runs_lookup {A} n l (f : loc → M () A) w :
  GetTable (w_heap w) (w_schema w) n = Some l → runs (f l) w → runs (table_named n ≫= f) w.
Proof. intros Hl Hf. eapply runs_bind; [|exact Hf]. by apply table_or_ok. Qed.

Lemma DropColumn_Start_runs o w :
  runs (DropColumn_Validate o) w → runs (DropColumn_Start o) w.
Proof.
  intros (u & w1 & Hv). unfold DropColumn_Validate in Hv. inv_steps. lookups l t Hl Ht.
  column_lookup t c Hc. unfold DropColumn_Start.
  eapply runs_bind; [reflexivity|].
  match goal with |- runs (?m ≫= _) _ => assert (∃ task, m w = (Ok task, w)) as [task Htask] end.
  { case_decide; [by eexists|]. erewrite run_bind by (by apply get_table_ok).
    erewrite run_bind by (by apply deref_ok). erewrite run_bind by (by apply load_ok).
    by eexists. }
  eapply runs_bind; [exact Htask|].
  apply runs_lookup with l; [done|]. eapply runs_bind; [by apply column_named_ok; exists t|].
  unfold set_column_deleted.
  eapply runs_bind; [|apply runs_ret].
  erewrite run_bind by (by apply load_ok). unfold setColumnDeleted.
  destruct Hc as [Hc _]. rewrite Hc. reflexivity.
Qed.

Lemma RenameColumn_Start_runs o w :
  runs (RenameColumn_Validate o) w → runs (RenameColumn_Start o) w.
Proof.
  intros (u & w1 & Hv). unfold RenameColumn_Validate in Hv. inv_steps. unify_facts. lookups l t Hl Ht.
  column_lookup t c Hc. unfold RenameColumn_Start. apply runs_lookup with l; [done|].
  eapply runs_bind; [by apply column_named_ok; exists t|].
  eapply runs_bind; [reflexivity|apply runs_ret].
Qed.

Lemma constraintsToSQL_Ok cs :
  Forall (λ c, (c.(Constraint_Type) = ConstraintTypeForeignKey → is_Some c.(Constraint_References)) ∧
               (c.(Constraint_Type) = ConstraintTypeExclude → is_Some c.(Constraint_Exclude))) cs →
  (∃ s, constraintsToSQL cs = Ok s) ∧
  ∀ acc, ∃ acc', addCreatedConstraints acc cs = Ok acc'.
Proof.
  intros Hcs. split.
  - enough (∃ ss, foldr (λ c acc, s ← constraintToSQL c; ss ← acc; Ok (s :: ss)) (Ok []) cs = Ok ss)
      as [ss Hss] by (unfold constraintsToSQL; rewrite Hss; by eexists).
    induction Hcs as [|c cs [Hf He] _ [ss IH]]; [by eexists|]. cbn.
    assert (∃ s, constraintToSQL c = Ok s) as [s ->].
    { unfold constraintToSQL. destruct (Constraint_IndexParameters c); repeat case_decide;
        try by eexists.
      all: first [destruct (Hf ltac:(done)) as [r ->]|destruct (He ltac:(done)) as [r ->]];
        by eexists. }
    cbn. rewrite IH. by eexists.
  - induction Hcs as [|c cs [Hf He] _ IH]; intros acc; [by eexists|]. cbn.
    assert (∃ acc', addCreatedConstraint acc c = Ok acc') as [acc' ->]; [|apply IH].
    unfold addCreatedConstraint. destruct acc. repeat case_decide; try by eexists.
    + destruct (Hf ltac:(done)) as [r ->]. by eexists.
    + destruct (He ltac:(done)) as [r ->]. by eexists.
Qed.

Lemma validateConstraint_pure o b c w u w' :
  CreateTable_validateConstraint o b c w = (Ok u, w') →
  w' = w ∧ (c.(Constraint_Type) = ConstraintTypeForeignKey → is_Some c.(Constraint_References)).
Proof.
  unfold CreateTable_validateConstraint. intros Hv. inv_steps.
  destruct (decide (Constraint_Type c = ConstraintTypeUnique)) as [Hc|_];
    [inv_steps; split; [done|by rewrite Hc]|].
  destruct (decide (Constraint_Type c = ConstraintTypeCheck)) as [Hc|_];
    [inv_steps; split; [done|by rewrite Hc]|].
  destruct (decide (Constraint_Type c = ConstraintTypePrimaryKey)) as [Hc|_];
    [inv_steps; split; [done|by rewrite Hc]|].
  destruct (decide (Constraint_Type c = ConstraintTypeForeignKey)) as [_|Hc];
    [|inv_steps; split; [done|by intros ?]].
  inv_steps. match goal with HR : Constraint_References c = Some _ |- _ => rewrite HR end.
  split; [|by eexists]. case_decide; inv_steps; [done|]. destruct u.
  apply for_each_ok in Hv as [-> _]; [done|]. by intros ? ? ? ? [_ ->]%fail_if_ok.
Qed.

Lemma DropTable_Start_runs o w :
  runs (DropTable_Validate o) w → runs (DropTable_Start o) w.
Proof.
  intros (u & w1 & Hv). unfold DropTable_Validate in Hv. inv_steps. lookups l t Hl Ht.
  unfold DropTable_Start. eapply runs_bind; [reflexivity|].
  apply runs_lookup with l; [done|]. eapply runs_bind; [reflexivity|].
  eapply runs_bind; [|apply runs_ret]. apply load_ok. split; [|done]. unfold table_at. cbn.
  apply GetTable_Some in Hl as [Hl _]. unfold RemoveTable. rewrite Hl.
  rewrite lookup_alter_eq, Ht. reflexivity.
Qed.

Lemma RenameTable_exists h from to s :
  is_Some (GetTable h s from) → GetTable h s to = None → ∃ s', RenameTable h from to s = Ok s'.
Proof.
  intros [l Hl] Hto. unfold RenameTable. rewrite Hl, Hto. case_match; by eexists.
Qed.

Lemma RenameTable_Start_runs o w :
  runs (RenameTable_Validate o) w → runs (RenameTable_Start o) w.
Proof.
  intros (u & w1 & Hv). unfold RenameTable_Validate in Hv. inv_steps.
  match goal with
  | H1 : GetTable _ _ _ = Some ?l, H2 : bool_decide (is_Some _) = false |- _ =>
      destruct (RenameTable_exists (w_heap w) (OpRenameTable_From o) (OpRenameTable_To o)
        (w_schema w)) as [s' Hs]; [by exists l| |]
  end.
  { by eapply eq_None_not_Some, bool_decide_eq_false. }
  eapply (runs_bind _ _ w ()); [|apply runs_ret]. unfold s_RenameTable. by rewrite Hs.
Qed.

Lemma CreateIndex_Start_runs o w :
  runs (CreateIndex_Validate o) w → runs (CreateIndex_Start o) w.
Proof.
  intros (u & w1 & Hv). unfold CreateIndex_Validate in Hv. inv_steps.
  match goal with HF : for_each _ _ _ = (Ok ?x, _) |- _ => destruct x;
    apply for_each_ok in HF as [-> Hcols]; [|intros; by inv_steps] end.
  lookups l Hl. destruct (GetTable_at _ _ _ Hl) as (t & Ht & _).
  apply safe_runs. unfold CreateIndex_Start. do 2 safe_step.
  apply safe_bind; [|intros; apply safe_ret].
  apply safe_map_each. intros f w' Hf _. specialize (Hcols f Hf). inv_steps. unify_facts.
  match goal with HC : column_at _ _ _ |- _ => rename HC into Hc end. apply (GetColumn_Ok (E := error) _ _ (Some _)) in Hc.
  apply safe_bind; [eapply safe_lift; cbn; by rewrite Hc|].
  intros ns w2 [Hns ->]%lift_ok _. cbn in Hns. rewrite Hc in Hns. cbn in Hns.
  injection Hns as <-. apply safe_bind; [by eapply safe_deref|intros; apply safe_ret].
Qed.

Lemma table_with_index_pure n ls w r w' : table_with_index n ls w = (Ok r, w') → w' = w.
Proof.
  induction ls as [|l ls IH]; cbn [table_with_index]; [by intros [= _ <-]|].
  unfold has_index. intros Hr. inv_steps. case_match; inv_steps; [done|by apply IH].
Qed.

Lemma DropIndex_Start_runs o w :
  runs (DropIndex_Validate o) w → runs (DropIndex_Start o) w.
Proof.
  intros (u & w1 & Hv). unfold DropIndex_Validate in Hv. inv_steps.
  match goal with HA : all_tables _ = _, HT : table_with_index _ _ _ = _ |- _ =>
    injection HA as <- <-; pose proof (table_with_index_pure _ _ _ _ _ HT) as ->;
    unfold DropIndex_Start; eapply runs_bind; [reflexivity|]; eapply runs_bind; [exact HT|] end.
  subst. eapply runs_bind; [reflexivity|apply runs_ret].
Qed.

Lemma RawSQL_Start_runs o w : runs (RawSQL_Start o) w.
Proof.
  unfold RawSQL_Start. case_match; [apply runs_ret|].
  eapply runs_bind; [reflexivity|apply runs_ret].
Qed.

Lemma SetReplicaIdentity_Start_runs o w :
  runs (SetReplicaIdentity_Validate o) w → runs (SetReplicaIdentity_Start o) w.
Proof.
  intros (u & w1 & Hv). unfold SetReplicaIdentity_Validate in Hv. inv_steps. lookups l t Hl Ht.
  apply safe_runs. unfold SetReplicaIdentity_Start. do 2 safe_step. safe_steps.
Qed.

(** *** Create table *)

Lemma validateColumn_pure o c w u w' :
  CreateTable_validateColumn o c w = (Ok u, w') → w' = w.
Proof.
  unfold CreateTable_validateColumn, ForeignKeyReference_Validate, CheckConstraint_Validate.
  intros Hv. inv_steps. repeat case_match; by inv_steps.
Qed.

Lemma CreateTable_Start_runs o w :
  start_ready w (CreateTable_ o) →
  runs (CreateTable_Validate o) w → runs (CreateTable_Start o) w.
Proof.
  intros Hready ([] & w1 & Hv). unfold CreateTable_Validate in Hv.
  apply bind_ok in Hv as (? & ? & _ & Hv). apply bind_ok in Hv as (? & ? & _ & Hv).
  apply bind_ok in Hv as (? & w2 & _ & Hv). apply bind_ok in Hv as ([] & w3 & _ & Hv).
  apply bind_ok in Hv as ([] & w4 & Hc & _). apply for_each_ok in Hc as [_ Hc];
    [|intros; by eapply validateConstraint_pure].
  destruct (constraintsToSQL_Ok (OpCreateTable_Constraints o)) as [[s Hs] Hacc].
  { apply Forall_forall. intros c Hin. cbn in Hready. rewrite Forall_forall in Hready. split; [|by apply Hready].
    by eapply validateConstraint_pure, Hc. }
  unfold CreateTable_Start. eapply runs_bind; [by apply wrap_err_ok, lift_ok|].
  match goal with |- runs (updateSchema o ≫= _) _ => unfold updateSchema, createdTable end.
  match goal with |- context [addCreatedConstraints ?a ?cs] =>
    destruct (Hacc a) as [cc Hcc] end.
  eapply runs_bind; [|apply runs_ret].
  erewrite run_bind by (apply lift_ok; cbn; rewrite Hcc; done).
  erewrite run_bind by reflexivity. reflexivity.
Qed.
End others.

(** ** Constraints *)

Section constraints.
Context `{!Pq}.
Implicit Types w : World ().

Lemma foldl_insert_is_Some {A B} (k : A → string) (v : A → B) cols (m : gmap string B) n :
  n ∈ k <$> cols ∨ is_Some (m !! n) →
  is_Some (foldl (λ m c, <[k c := v c]> m) m cols !! n).
Proof.
  revert m. induction cols as [|c cols IH]; intros m; [by intros [?%elem_of_nil|]|].
  rewrite fmap_cons, elem_of_cons. intros Hn. cbn. apply IH.
  destruct (decide (n = k c)) as [->|Hne].
  - right. rewrite lookup_insert_eq. by eexists.
  - rewrite lookup_insert_ne by done. naive_solver.
Qed.

Lemma dup_columns_lookup scope l t cols n :
  n ∈ Column_Name <$> cols → is_Some ((NewColumnDuplicator scope l t cols).(dup_columns) !! n).
Proof. intros Hn. cbn. apply foldl_insert_is_Some. by left. Qed.

Lemma nameDuplicates_Ok scope t names d :
  (∀ n, n ∈ names → ∃ c, column_at t n c ∧ is_Some (d.(dup_columns) !! c.(Column_Name))) →
  ∃ d', nameDuplicates scope t names d = Ok d' ∧ d'.(dup_table) = d.(dup_table) ∧
    d'.(dup_columnOrder) = d.(dup_columnOrder) ∧
    ∀ n, is_Some (d.(dup_columns) !! n) → is_Some (d'.(dup_columns) !! n).
Proof.
  revert d. induction names as [|n names IH]; intros d Hn; [by exists d|].
  destruct (Hn n ltac:(left)) as (c & Hc & [cd Hd]). cbn.
  apply (GetColumn_Ok (E := error) _ _ (Some _)) in Hc. rewrite Hc. cbn.
  unfold WithName, dup_update. rewrite Hd. cbn.
  assert (∀ m, is_Some (d.(dup_columns) !! m) → is_Some
    (<[Column_Name c := mkColumnToDuplicate (ctd_column cd) (TemporaryName scope n)
       (ctd_withoutNotNull cd) (ctd_withType cd)]> (dup_columns d) !! m)) as Hkeep.
  { intros m Hm. destruct (decide (Column_Name c = m)) as [->|Hne].
    - rewrite lookup_insert_eq. by eexists.
    - by rewrite lookup_insert_ne. }
  edestruct IH as (d' & -> & Ht & Ho & Hall).
  { intros m Hm. destruct (Hn m ltac:(by right)) as (c' & Hc' & Hd').
    exists c'. split; [done|]. cbn. by apply Hkeep. }
  exists d'. split_and!; [done|by rewrite Ht|by rewrite Ho|]. intros m Hm. by apply Hall, Hkeep.
Qed.

Lemma safe_columnTriggers scope tn l cs n up down t c w :
  table_at w l t → column_at t n c → safe (columnTriggers scope tn l cs n up down) w.
Proof.
  intros Ht Hc. unfold columnTriggers. apply safe_bind.
  { exists (Some c), w. rewrite get_column_ok. split; [|done]. exists t.
    split_and!; [done| |done]. by apply GetColumn_Ok. }
  intros o w1 (t' & Ht' & Ho & ->)%get_column_ok _. unify_facts.
  apply (GetColumn_Ok (E := error) _ _ (Some _)) in Hc as Hc'.
  assert (o = Some c) as -> by congruence.
  apply safe_bind; [by eapply safe_deref|]. intros c' w2 [[= <-] ->]%deref_ok _.
  apply safe_bind; [apply safe_update, keeps_AddColumn, Hc|]. intros [] w3 _ [_ Hg].
  destruct (Hg l t Ht) as (t3 & Ht3 & _). apply safe_bind; [by eapply safe_load|].
  intros; apply safe_ret.
Qed.

Lemma map_each_column_named l tn names t w :
  table_at w l t → (∀ n, n ∈ names → ∃ c, column_at t n c) →
  ∃ cols, map_each (column_named l tn) names w = (Ok cols, w) ∧
    ∀ n c, n ∈ names → column_at t n c → c ∈ cols.
Proof.
  intros Ht. induction names as [|n names IH]; intros Hn; [exists []; split; [done|];
    by intros ? ? ?%elem_of_nil|].
  destruct IH as (cols & Hcols & Hin); [intros; apply Hn; by right|].
  destruct (Hn n ltac:(left)) as [c Hc]. exists (c :: cols). cbn [map_each].
  erewrite run_bind by (apply column_named_ok; by exists t).
  rewrite (run_bind _ _ _ _ _ Hcols). split; [done|].
  intros n' c' [->|Hn']%elem_of_cons Hc'; [|right; eauto].
  pose proof (column_at_inj _ _ _ _ Hc Hc') as <-. left.
Qed.

Lemma safe_map_columnTriggers scope tn l (cs : Table → TriggerColumns) up down names t w :
  table_at w l t → (∀ n, n ∈ names → ∃ c, column_at t n c) →
  safe (map_each (λ n, columnTriggers scope tn l (cs t) n (up n) (down n)) names) w ∧
  safe (map_each (λ n, table ← load l;
    columnTriggers scope tn l (cs table) n (up n) (down n)) names) w.
Proof.
  intros Ht Hn. split; apply safe_map_each; intros n w' Hin [_ Hg];
    destruct (Hn n Hin) as [c Hc]; destruct (Hg l t Ht) as (t' & Ht' & _ & _ & Hcol);
    destruct (Hcol n c Hc) as [c' Hc']; [by eapply safe_columnTriggers|].
  safe_step. by eapply safe_columnTriggers.
Qed.

(** The duplicator of the constraint operations *)
Lemma constraint_duplicator scope l t cols names (f : duplicator → duplicator) :
  (∀ d, (f d).(dup_columns) = d.(dup_columns)) →
  (∀ n, n ∈ names → ∃ c, column_at t n c ∧ c ∈ cols) →
  ∃ d, nameDuplicates scope t names (f (NewColumnDuplicator scope l t cols)) = Ok d.
Proof.
  intros Hf Hn. edestruct nameDuplicates_Ok as (d & Hd & _); [|by exists d].
  intros n (c & Hc & Hin)%Hn. exists c. split; [done|]. rewrite Hf. apply dup_columns_lookup.
  by apply list_elem_of_fmap_2.
Qed.

Lemma CreateConstraint_Start_runs o w :
  runs (CreateConstraint_Validate o) w → runs (CreateConstraint_Start o) w.
Proof.
  intros (u & w1 & Hv). unfold CreateConstraint_Validate in Hv. inv_steps. lookups l t Hl Ht.
  match goal with HF : for_each _ _ _ = (Ok ?x, _) |- _ => destruct x;
    apply for_each_ok in HF as [-> Hcols]; [|intros; by inv_steps] end.
  assert (∀ n, n ∈ OpCreateConstraint_Columns o → ∃ c, column_at t n c) as Hn.
  { intros n Hin. specialize (Hcols n Hin). inv_steps. unify_facts. eauto. }
  apply safe_runs. unfold CreateConstraint_Start. do 3 safe_step.
  destruct (map_each_column_named l (OpCreateConstraint_Table o) _ _ _ Ht Hn)
    as (cols & Hc & Hin).
  apply safe_bind; [by exists cols, w|]. intros cols' w2 Hc' _. rewrite Hc in Hc'.
  injection Hc' as <- <-.
  destruct (constraint_duplicator (Schema_MigrationScope (w_schema w)) l t cols
    (OpCreateConstraint_Columns o) id) as [d Hd]; [done| |].
  { intros n Hi. destruct (Hn n Hi) as [c Hcn]. eauto. }
  apply safe_bind; [by eapply safe_lift|]. intros d' w2 [_ ->]%lift_ok _.
  apply safe_bind; [by apply (safe_map_columnTriggers _ _ _
    (λ t, ColumnsCopy (Table_Columns t)) _ _ _ t)|].
  intros triggers w2 _ _. safe_step. apply safe_bind; [|intros; apply safe_ret].
  assert (∃ a, constraintAction (Schema_MigrationScope (w_schema w)) (Schema_Name (w_schema w2))
    t o = Ok a) as [a Ha]; [|by eapply safe_lift].
  unfold constraintAction.
  destruct (decide (_ ∨ _)) as [|Hno]; [by eexists|].
  destruct (decide (OpCreateConstraint_Type o = OpCreateConstraintTypeCheck)) as [Hch|];
    [|match goal with |- context [decide ?P] => destruct (decide P) end; by eexists].
  rewrite decide_False in Hv by tauto. inv_steps.
  destruct (OpCreateConstraint_Check o); [by eexists|done].
Qed.

Lemma DropConstraint_Start_runs o w :
  start_ready w (DropConstraint_ o) →
  runs (DropConstraint_Validate o) w → runs (DropConstraint_Start o) w.
Proof.
  intros Hready (u & w1 & Hv). unfold DropConstraint_Validate in Hv. inv_steps.
  lookups l t Hl Ht. specialize (Hready l t Hl Ht).
  apply safe_runs. unfold DropConstraint_Start. do 3 safe_step.
  destruct (GetConstraintColumns t (OpDropConstraint_Name o)) as [|first rest];
    [apply safe_ret|]. destruct (Hready first ltac:(left)) as [c Hc]. safe_step.
  apply safe_bind; [apply safe_update, keeps_AddColumn, Hc|]. intros; apply safe_ret.
Qed.

Lemma DropMultiColumnConstraint_Start_runs o w :
  start_ready w (DropMultiColumnConstraint_ o) →
  runs (DropMultiColumnConstraint_Validate o) w → runs (DropMultiColumnConstraint_Start o) w.
Proof.
  intros Hready (u & w1 & Hv). unfold DropMultiColumnConstraint_Validate in Hv.
  inv_steps. lookups l t Hl Ht. specialize (Hready l t Hl Ht).
  apply safe_runs. unfold DropMultiColumnConstraint_Start. do 3 safe_step.
  set (names := GetConstraintColumns t _) in *.
  destruct (map_each_column_named l (OpDropMultiColumnConstraint_Table o) _ _ _ Ht Hready)
    as (cols & Hc & Hin).
  apply safe_bind; [by exists cols, w|]. intros cols' w2 Hc' _. rewrite Hc in Hc'.
  injection Hc' as <- <-.
  destruct (constraint_duplicator (Schema_MigrationScope (w_schema w)) l t cols
    names (WithoutConstraint (OpDropMultiColumnConstraint_Name o))) as [d Hd]; [done| |].
  { intros n Hi. destruct (Hready n Hi) as [c Hcn]. eauto. }
  apply safe_bind; [by eapply safe_lift|]. intros d' w2 [_ ->]%lift_ok _.
  apply safe_bind; [by apply (safe_map_columnTriggers _ _ _
    (λ t, ColumnsCopy (Table_Columns t)) _ _ _ t)|].
  intros; apply safe_ret.
Qed.
End constraints.

Section theorem.
Context `{!Pq}.

(** C28. Against the fake connection of the virtual replay, an operation that
    validates can be started on the same schema: [Start] returns, without an
    error and without dereferencing nil.  The schema is one that the readers
    and the operations produce ([world_ok]); [start_ready] names the three
    conditions [Start] needs and [Validate] does not check. *)
Theorem Validate_then_Start (w w1 : World ()) op :
  world_ok w → start_ready w op → Validate op w = (Ok (), w1) →
  ∃ r w2, Start virtualFuel op w = (Ok r, w2).
Proof.
  intros Hw Hready Hv. change (runs (Start virtualFuel op) w).
  assert (runs (Validate op) w) as Hrv by (by exists (), w1). clear Hv.
  destruct op; cbn [Validate] in Hrv; cbn [Start].
  - by apply AddColumn_Start_runs.
  - by apply AlterColumn_Start_runs.
  - by apply CreateConstraint_Start_runs.
  - by apply CreateIndex_Start_runs.
  - by apply CreateTable_Start_runs.
  - by apply DropColumn_Start_runs.
  - by apply DropConstraint_Start_runs.
  - by apply DropIndex_Start_runs.
  - by apply DropMultiColumnConstraint_Start_runs.
  - by apply DropTable_Start_runs.
  - apply RawSQL_Start_runs.
  - by apply RenameColumn_Start_runs.
  - apply runs_ret.
  - by apply RenameTable_Start_runs.
  - by apply SetReplicaIdentity_Start_runs.
Qed.
End theorem.

(** ** Witness and gaps *)

Lemma Validate_then_Start_witness :
  Validate (AlterColumn_ sample_alter) sample_world = (Ok (), sample_world) ∧
  ∃ r w2, Start virtualFuel (AlterColumn_ sample_alter) sample_world = (Ok r, w2).
Proof.
  assert (Validate (AlterColumn_ sample_alter) sample_world = (Ok (), sample_world)) as Hv
    by (vm_compute; reflexivity).
  split; [exact Hv|]. exact (Validate_then_Start _ _ (AlterColumn_ sample_alter) sample_world_ok I Hv).
Defined.

Definition sample_migcolumn (name : string) (generated : option ColumnGenerated) : MigColumn :=
  mkMigColumn None None None generated name true false None "int" false.

(** A generated column validates but cannot be started. *)
Lemma generated_column_gap :
  let op := AddColumn_ (mkOpAddColumn
    (sample_migcolumn "twice" (Some (mkColumnGenerated "id * 2" None))) "users" "") in
  (Validate op sample_world).1 = Ok () ∧
  (Start virtualFuel op sample_world).1 =
    Err (Errorf "adding generated columns to existing tables is not supported" []).
Proof. split; vm_compute; reflexivity. Qed.

(** An exclusion constraint without its [exclude] struct makes [Validate]
    itself dereference nil. *)
Lemma exclude_panics :
  (Validate (CreateTable_ (mkOpCreateTable [sample_migcolumn "id" None] None
    [mkConstraint "" ["id"] false None None false "ex" false false None ConstraintTypeExclude]
    "bookings")) sample_world).1 = Panic.
Proof. vm_compute. reflexivity. Qed.

(** Dropping a constraint whose column was dropped validates but does not
    start: validation does not mark the column deleted either. *)
Lemma dropped_column_gap :
  let ops := [DropColumn_ (mkOpDropColumn "name" "''" "users");
              DropConstraint_ (mkOpDropConstraint "name" "name_check" "users" "")] in
  let m := mkMigration "02_drop" "" ops [] [] false false [] "" in
  (Migration_Validate m sample_world).1 = Ok () ∧
  (UpdateVirtualSchema m sample_world).1 = Err (ColumnDoesNotExistError "users" "name").
Proof. split; vm_compute; reflexivity. Qed.

(** A [drop_column] with a [down] expression on a missing table dereferences
    nil before the table is checked. *)
Lemma drop_column_panics :
  (Start virtualFuel (DropColumn_ (mkOpDropColumn "c" "''" "missing")) sample_world).1 = Panic.
Proof. vm_compute. reflexivity. Qed.
