(* ===== verification/CleanupFacts.v ===== *)
(** * CleanupFacts: completing or rolling back removes the triggers

    A trigger and the function behind it share their name, and dropping the
    function drops the trigger.  Every trigger [Start] asks the backfill job
    for is dropped by the actions of [Complete] and by those of [Rollback],
    whatever the database does in between, as long as the names the triggers
    are derived from are the same. *)

From S2P Require Import Prelude.
From S2P Require Import GoStd.
From S2P Require Import Names.
From S2P Require Import Schema.
From S2P Require Import SchemaFacts.
From S2P Require Import Types.
From S2P Require Import Db.
From S2P Require Import WorldFacts.
From S2P Require Import Samples.
From S2P Require Import SqlWriter.
From S2P Require Import Actions.
From S2P Require Import Duplicate.
From S2P Require Import Backfill.
From S2P Require Import OpsBase.
From S2P Require Import OpsColumn.
From S2P Require Import OpsTable.
From S2P Require Import OpsSub.
From S2P Require Import OpsAlter.
From S2P Require Import OpsConstraint.
From S2P Require Import Operations.
From S2P Require Import Migration.
From S2P Require Import RunFacts.
From S2P Require Import StartFacts.

Definition drops_function (acts : list DBAction) (f : string) : Prop :=
  ∃ fs, dropFunctionAction fs ∈ acts ∧ f ∈ fs.

(** The columns of a constraint as a store knows them *)
Definition constraint_columns {D} (w : World D) (table name : string) : list string :=
  match table_of w table with Some t => GetConstraintColumns t name | None => [] end.

(** The triggers of a column and of its duplicate *)
Definition trigger_pair (scope table column : string) : list string :=
  [TriggerName scope table column; TriggerName scope table (TemporaryName scope column)].

(** The names of the triggers an operation works with *)
Definition trigger_names {D} (w : World D) (op : Operation) : list string :=
  let scope := Schema_MigrationScope (w_schema w) in
  match op with
  | AddColumn_ o =>
      [TriggerName scope o.(OpAddColumn_Table) o.(OpAddColumn_Column).(MigColumn_Name)]
  | AlterColumn_ o => trigger_pair scope o.(OpAlterColumn_Table) o.(OpAlterColumn_Column)
  | CreateConstraint_ o =>
      o.(OpCreateConstraint_Columns) ≫= trigger_pair scope o.(OpCreateConstraint_Table)
  | DropColumn_ o => [TriggerName scope o.(OpDropColumn_Table) o.(OpDropColumn_Column)]
  | DropConstraint_ o =>
      take 1 (constraint_columns w o.(OpDropConstraint_Table) o.(OpDropConstraint_Name))
        ≫= trigger_pair scope o.(OpDropConstraint_Table)
  | DropMultiColumnConstraint_ o =>
      constraint_columns w o.(OpDropMultiColumnConstraint_Table)
          o.(OpDropMultiColumnConstraint_Name)
        ≫= trigger_pair scope o.(OpDropMultiColumnConstraint_Table)
  | _ => []
  end.

(** [drop_constraint] names its triggers after the physical column in [Start]
    and [Complete] and after the virtual one in [Rollback]. *)
Definition names_agree {D} (w : World D) (op : Operation) : Prop :=
  match op with
  | DropConstraint_ o =>
      ∀ t n c, table_of w o.(OpDropConstraint_Table) = Some t →
      head (GetConstraintColumns t o.(OpDropConstraint_Name)) = Some n →
      column_at t n c → c.(Column_Name) = n
  | _ => True
  end.

Section cleanup.
Context `{!Pq} {D : Type} `{!DB D}.
Implicit Types w : World D.

Lemma map_each_elem {A B} (f : A → M D B) l w ys w' :
  map_each f l w = (Ok ys, w') →
  ∀ y, y ∈ ys → ∃ x w1 w2, x ∈ l ∧ f x w1 = (Ok y, w2).
Proof.
  revert w ys. induction l as [|x l IH]; intros w ys; cbn [map_each].
  - intros [= <- <-] y ?%elem_of_nil. done.
  - intros (y0 & w1 & Hx & (ys0 & w2 & Hl & [= <- <-])%bind_ok)%bind_ok y [->|Hy]%elem_of_cons.
    + exists x, w, w1. split; [left|done].
    + destruct (IH _ _ Hl y Hy) as (x' & w3 & w4 & ? & ?). exists x', w3, w4.
      split; [by right|done].
Qed.

(** The triggers of [columnTriggers] *)
Lemma columnTriggers_names sc tn l cs n up down w ts w' tr :
  columnTriggers sc tn l cs n up down w = (Ok ts, w') → tr ∈ ts →
  OperationTrigger_Name tr ∈ trigger_pair sc tn n.
Proof.
  unfold columnTriggers. intros Hs Htr. inv_scope.
  match goal with HU : update_table _ _ _ = _ |- _ => clear HU end.
  apply elem_of_cons in Htr as [->|Htr]; [left|].
  apply list_elem_of_singleton in Htr as ->. right. left.
Qed.

Lemma startSubOps_triggers ops task actions w task' actions' w' :
  startSubOps ops task actions w = (Ok (task', actions'), w') →
  task'.(Task_triggers) = task.(Task_triggers).
Proof.
  revert task actions w. induction ops as [|o ops IH]; intros task actions w; cbn [startSubOps].
  - by intros [= -> _ _].
  - intros (r & w1 & Hr & (task1 & w2 & [Ht ->]%lift_ok & Hs)%bind_ok)%bind_ok.
    rewrite (IH _ _ _ Hs). destruct o as [o|o|o|o|o|o|o|o]; cbn [SubOp_Start] in Hr;
      unfold ChangeType_Start, SetCheckConstraint_Start, SetForeignKey_Start, SetNotNull_Start,
        DropNotNull_Start, SetUnique_Start, SetDefault_Start, SetComment_Start in Hr;
      repeat match type of Hr with
      | (_ ≫= _) _ = (Ok _, _) => apply bind_ok in Hr as (? & ? & _ & Hr)
      end; injection Hr as <- _; injection Ht as <-; cbn; by rewrite app_nil_r.
Qed.

Lemma map_columnTriggers_names sc tn names (f : string → M D (list OperationTrigger))
    w tss w' tr :
  (∀ n w ts w' tr, f n w = (Ok ts, w') → tr ∈ ts →
     OperationTrigger_Name tr ∈ trigger_pair sc tn n) →
  map_each f names w = (Ok tss, w') → tr ∈ concat tss →
  OperationTrigger_Name tr ∈ names ≫= trigger_pair sc tn.
Proof.
  intros Hf Hm (ts & Hts%list_elem_of_In & Htr%list_elem_of_In)%list_elem_of_In%in_concat.
  destruct (map_each_elem _ _ _ _ _ Hm ts Hts) as (n & w1 & w2 & Hn & Hc).
  apply list_elem_of_bind. exists n. split; [by eapply Hf|done].
Qed.

Lemma constraint_columns_at w tn cn l t :
  GetTable (w_heap w) (w_schema w) tn = Some l → table_at w l t →
  constraint_columns w tn cn = GetConstraintColumns t cn.
Proof.
  intros Hl Ht. unfold constraint_columns. by rewrite (table_of_at _ _ _ _ Hl Ht).
Qed.

(** *** What [Start] asks for *)

Lemma Start_triggers fuel op w r w1 task tr :
  names_agree w op → Start fuel op w = (Ok (Some r), w1) →
  r.(StartResult_BackfillTask) = Some task → tr ∈ task.(Task_triggers) →
  OperationTrigger_Name tr ∈ trigger_names w op.
Proof.
  intros Hag Hs Ht Htr. destruct op; cbn [Start trigger_names] in *.
  - unfold AddColumn_Start in Hs. inv_scope.
    cbn in Ht. destruct (decide (OpAddColumn_Up o = "")); [done|]. injection Ht as <-. cbn in Htr.
    apply list_elem_of_singleton in Htr as ->. left.
  - unfold AlterColumn_Start in Hs. inv_scope.
    match goal with HS : startSubOps _ _ _ _ = (Ok ?p, _) |- _ => destruct p;
      apply startSubOps_triggers in HS as Htask end.
    injection Hs as <- _. injection Ht as <-. rewrite Htask in Htr. cbn in Htr.
    apply elem_of_cons in Htr as [->|Htr%list_elem_of_singleton]; subst; cbn; unfold trigger_pair; find_elem.
  - unfold CreateConstraint_Start in Hs. inv_scope. injection Ht as <-. cbn in Htr.
    match goal with HM : map_each _ _ _ = (Ok ?x, _), HT : tr ∈ concat ?x |- _ =>
      eapply map_columnTriggers_names; [|exact HM|exact HT] end. intros n w' ts w'' tr' Hts Htr'.
    exact (columnTriggers_names _ _ _ _ _ _ _ _ _ _ _ Hts Htr').
  - unfold CreateIndex_Start in Hs. inv_scope. done.
  - unfold CreateTable_Start in Hs. inv_scope. done.
  - unfold DropColumn_Start in Hs. inv_scope. cbn in Ht.
    destruct (decide (OpDropColumn_Down o = "")); inv_scope; [done|]. injection Ht as <-.
    apply list_elem_of_singleton in Htr as ->. left.
  - unfold DropConstraint_Start in Hs. inv_scope. lookups l t Hl Htab.
    rewrite (constraint_columns_at _ _ _ _ _ Hl Htab).
    specialize (Hag t). rewrite (table_of_at _ _ _ _ Hl Htab) in Hag.
    destruct (GetConstraintColumns t (OpDropConstraint_Name o)) as [|n ns]; inv_scope; [done|].
    unify_facts. injection Ht as <-. cbn in Htr. erewrite Hag in Htr by done.
    cbn. apply elem_of_cons in Htr as [->|Htr%list_elem_of_singleton]; subst; cbn; unfold trigger_pair; find_elem.
  - unfold DropIndex_Start in Hs. inv_scope. done.
  - unfold DropMultiColumnConstraint_Start in Hs. inv_scope. lookups l t Hl Htab.
    rewrite (constraint_columns_at _ _ _ _ _ Hl Htab). injection Ht as <-. cbn in Htr.
    match goal with HM : map_each _ _ _ = (Ok ?x, _), HT : tr ∈ concat ?x |- _ =>
      eapply map_columnTriggers_names; [|exact HM|exact HT] end. intros n w' ts w'' tr' Hts Htr'.
    cbn in Hts. apply bind_ok in Hts as (? & ? & _ & Hts). exact (columnTriggers_names _ _ _ _ _ _ _ _ _ _ _ Hts Htr').
  - unfold DropTable_Start in Hs. inv_scope. done.
  - unfold RawSQL_Start in Hs. destruct (OpRawSQL_OnComplete o); inv_scope; done.
  - unfold RenameColumn_Start in Hs. by inv_scope.
  - unfold RenameConstraint_Start in Hs. by inv_scope.
  - unfold RenameTable_Start in Hs. by inv_scope.
  - unfold SetReplicaIdentity_Start in Hs. by inv_scope.
Qed.

(** *** What [Complete] and [Rollback] drop *)

Lemma drops_intro acts fs f : dropFunctionAction fs ∈ acts → f ∈ fs → drops_function acts f.
Proof. intros. by exists fs. Qed.

Lemma drops_bind {A} (l : list A) (g : A → list DBAction) (h : A → list string) f :
  f ∈ l ≫= h → (∀ x y, y ∈ h x → drops_function (g x) y) → drops_function (l ≫= g) f.
Proof.
  intros (x & Hf & Hx)%list_elem_of_bind Hg. destruct (Hg x f Hf) as (fs & Hfs & Hin).
  exists fs. split; [|done]. apply list_elem_of_bind. by exists x.
Qed.

Lemma drops_pair acts sc tn n f :
  dropFunctionAction [TriggerFunctionName sc tn n;
                      TriggerFunctionName sc tn (TemporaryName sc n)] ∈ acts →
  f ∈ trigger_pair sc tn n → drops_function acts f.
Proof. intros Ha Hf. by eapply drops_intro. Qed.

Lemma removeTriggers_drops sc o acts f :
  removeTriggers sc o ∈ acts →
  f ∈ OpCreateConstraint_Columns o ≫= trigger_pair sc o.(OpCreateConstraint_Table) →
  drops_function acts f.
Proof. intros Ha Hf. by eapply drops_intro. Qed.

Lemma Rollback_drops op w acts w1 f :
  Rollback op w = (Ok acts, w1) → f ∈ trigger_names w op → drops_function acts f.
Proof.
  intros Hr Hf. destruct op; cbn [Rollback trigger_names] in *; try by apply elem_of_nil in Hf.
  - unfold AddColumn_Rollback in Hr. inv_scope. eapply drops_intro; [|exact Hf]. find_elem.
  - unfold AlterColumn_Rollback in Hr. inv_scope. eapply drops_pair; [|exact Hf]. find_elem.
  - unfold CreateConstraint_Rollback in Hr. inv_scope.
    eapply removeTriggers_drops; [|exact Hf]. find_elem.
  - unfold DropColumn_Rollback in Hr. apply bind_ok in Hr as (sc & w2 & [= <- <-] & Hr).
    inv_scope. eapply drops_intro; [|exact Hf]. find_elem.
  - unfold DropConstraint_Rollback in Hr. inv_scope. lookups l t Hl Htab.
    rewrite (constraint_columns_at _ _ _ _ _ Hl Htab) in Hf.
    destruct (GetConstraintColumns t (OpDropConstraint_Name o)) as [|n ns]; [done|].
    match goal with HH : head _ = Some _ |- _ => injection HH as <- end.
    cbn in Hf. eapply drops_pair; [|exact Hf]. find_elem.
  - unfold DropMultiColumnConstraint_Rollback in Hr. inv_scope. lookups l t Hl Htab.
    rewrite (constraint_columns_at _ _ _ _ _ Hl Htab) in Hf.
    eapply drops_bind; [exact Hf|]. intros n y Hy. eapply drops_pair; [|exact Hy]. find_elem.
Qed.

Lemma Complete_drops op w acts w1 f :
  names_agree w op →
  Complete op w = (Ok acts, w1) → f ∈ trigger_names w op → drops_function acts f.
Proof.
  intros Hag Hr Hf. destruct op; cbn [Complete trigger_names] in *;
    try by apply elem_of_nil in Hf.
  - unfold AddColumn_Complete in Hr. inv_scope. eapply drops_intro; [|exact Hf].
    destruct (MigColumn_Default (OpAddColumn_Column o)); inv_scope; find_elem.
  - unfold AlterColumn_Complete in Hr. inv_scope. eapply drops_pair; [|exact Hf]. find_elem.
  - unfold CreateConstraint_Complete in Hr. inv_scope.
    eapply removeTriggers_drops; [|exact Hf]. find_elem.
  - unfold DropColumn_Complete in Hr. inv_scope. eapply drops_intro; [|exact Hf]. find_elem.
  - unfold DropConstraint_Complete in Hr. inv_scope. unify_facts. lookups l t Hl Htab.
    rewrite (constraint_columns_at _ _ _ _ _ Hl Htab) in Hf.
    specialize (Hag t). rewrite (table_of_at _ _ _ _ Hl Htab) in Hag.
    destruct (GetConstraintColumns t (OpDropConstraint_Name o)) as [|n ns]; [done|].
    match goal with
    | HH : head _ = Some ?a, HG : GetColumn _ ?a = Ok ?b, HS : ?b = Some _ |- _ =>
        injection HH as <-; subst b; apply GetColumn_Ok in HG;
        rewrite (Hag _ _ eq_refl eq_refl HG) end.
    cbn in Hf. eapply drops_pair; [|exact Hf]. find_elem.
  - unfold DropMultiColumnConstraint_Complete in Hr. inv_scope. lookups l t Hl Htab.
    rewrite (constraint_columns_at _ _ _ _ _ Hl Htab) in Hf.
    eapply drops_bind; [exact Hf|]. intros n y Hy. eapply drops_pair; [|exact Hy]. find_elem.
Qed.

(** C29. The triggers of a migration go with it, where the names they are
    derived from have not changed.  Every trigger an operation asks
    for in [Start] has its function dropped by the actions of [Complete] and
    by the actions of [Rollback], in whatever store [w2] these run, as long
    as it has the names the triggers are derived from: the migration's scope
    and, for the two drop-constraint operations, the constraint's columns; the
    deprecated one also needs the column's physical name to be the virtual
    one where [Start] and [Complete] run ([names_agree]). *)
Theorem triggers_are_dropped fuel op w r w1 task w2 :
  Start fuel op w = (Ok (Some r), w1) → r.(StartResult_BackfillTask) = Some task →
  trigger_names w op = trigger_names w2 op → names_agree w op →
  ∀ tr, tr ∈ task.(Task_triggers) →
  (∀ acts w3, names_agree w2 op → Complete op w2 = (Ok acts, w3) →
     ∃ fs, dropFunctionAction fs ∈ acts ∧ tr.(OperationTrigger_Name) ∈ fs) ∧
  (∀ acts w3, Rollback op w2 = (Ok acts, w3) →
     ∃ fs, dropFunctionAction fs ∈ acts ∧ tr.(OperationTrigger_Name) ∈ fs).
Proof.
  intros Hs Ht Hn Ha tr Htr. pose proof (Start_triggers _ _ _ _ _ _ _ Ha Hs Ht Htr) as H1.
  rewrite Hn in H1. split.
  - intros acts w3 Ha2 Hr. exact (Complete_drops _ _ _ _ _ Ha2 Hr H1).
  - intros acts w3 Hr. exact (Rollback_drops _ _ _ _ _ Hr H1).
Qed.
End cleanup.

Lemma triggers_are_dropped_witness :
  let w1 := (Start virtualFuel (AlterColumn_ sample_alter) sample_world).2 in
  ∃ acts w3 fs, Rollback (AlterColumn_ sample_alter) w1 = (Ok acts, w3) ∧
    dropFunctionAction fs ∈ acts ∧ "_pgroll_trigger_posts_author_0badcafe" ∈ fs.
Proof.
  cbv zeta.
  assert (∃ r w1 task tr, Start virtualFuel (AlterColumn_ sample_alter) sample_world = (Ok (Some r), w1)
    ∧ r.(StartResult_BackfillTask) = Some task ∧ head task.(Task_triggers) = Some tr
    ∧ tr.(OperationTrigger_Name) = "_pgroll_trigger_posts_author_0badcafe")
    as (r & w1 & task & tr & Hs & Ht & Htr & Hn).
  { do 4 eexists. split_and!; vm_compute; reflexivity. }
  assert (trigger_names sample_world (AlterColumn_ sample_alter) =
    trigger_names w1 (AlterColumn_ sample_alter)) as Hsame.
  { vm_compute in Hs. injection Hs as _ <-. vm_compute. reflexivity. }
  assert (∃ acts w3, Rollback (AlterColumn_ sample_alter)
    (Start virtualFuel (AlterColumn_ sample_alter) sample_world).2 = (Ok acts, w3))
    as (acts & w3 & Hr) by (do 2 eexists; vm_compute; reflexivity).
  assert (tr ∈ task.(Task_triggers)) as Hin.
  { destruct (Task_triggers task); [discriminate Htr|]. injection Htr as ->. left. }
  rewrite Hs in Hr |- *. cbn in Hr.
  destruct (triggers_are_dropped virtualFuel _ _ _ _ _ _ Hs Ht Hsame I tr Hin) as [_ Hroll].
  destruct (Hroll acts w3 Hr) as (fs & Hfs & Hin'). rewrite Hn in Hin'.
  exists acts, w3, fs. split; [exact Hr|]. split; [exact Hfs|exact Hin'].
Defined.

(** Without [names_agree]: after an [alter_column] of the same column in the
    migration, [drop_constraint] starts triggers named after the physical
    column, which its [Rollback] does not drop. *)
Definition sample_alter_name : Operation :=
  AlterColumn_ (mkOpAlterColumn None "name" Unspecified Unspecified "name" None None "users"
    (Some "bigint") None "name").
Definition sample_drop_check : Operation :=
  DropConstraint_ (mkOpDropConstraint "name" "name_check" "users" "").

Definition task_triggers (r : outcome error (option StartResult)) : list string :=
  match r with
  | Ok (Some r) =>
      match r.(StartResult_BackfillTask) with
      | Some t => OperationTrigger_Name <$> t.(Task_triggers) | None => [] end
  | _ => []
  end.

Lemma drop_constraint_leaks_trigger :
  let w1 := (Start virtualFuel sample_alter_name sample_world).2 in
  let leaked := "_pgroll_trigger_users__pgroll_new__pgroll_new_name_0badcafe_0badcafe_0badcafe" in
  leaked ∈ task_triggers (Start virtualFuel sample_drop_check w1).1 ∧
  match (Rollback sample_drop_check w1).1 with
  | Ok acts => forallb (λ a, match a with
                  | dropFunctionAction fs => negb (slices_Contains fs leaked) | _ => true end) acts
  | _ => false
  end = true.
Proof.
  split; [|vm_compute; reflexivity].
  apply list_elem_of_In. vm_compute. right. left. reflexivity.
Qed.
