(* ===== verification/Invert.v ===== *)
(** * Invert: inverse migrations ([invert.go])

    The inverse of each operation against the schema state it ran on, and
    [InvertSegment], which rebuilds those states by replaying the segment's
    [Start] methods on a copy of the boundary schema.  A snapshot is a schema
    with a heap of its own. *)

From S2P Require Import Prelude.
From S2P Require Import GoStd.
From S2P Require Import Names.
From S2P Require Import Schema.
From S2P Require Import Types.
From S2P Require Import Db.
From S2P Require Import Actions.
From S2P Require Import Backfill.
From S2P Require Import OpsBase.
From S2P Require Import Operations.
From S2P Require Import Migration.

(** ** Snapshots *)

Definition snapshot : Type := heap * Schema.

(** What a table keeps over the JSON round trip and the restored markers *)
Definition copyTable (t : Table) : Table := set_Table_CreatedInMigration false t.

(** The copy shares no table with the original: its tables are numbered
    afresh.  [MigrationScope], [shadowed] and [CreatedInMigration] are not
    marshalled. *)
Definition copySchema (p : snapshot) : snapshot :=
  let '(h, s) := p in
  let entries := map_to_list s.(Schema_Tables) in
  (list_to_map (omap id (imap (λ i nl,
      t ← h !! nl.2; Some (Pos.of_succ_nat i, copyTable t)) entries)),
   mkSchema s.(Schema_Name)
     (list_to_map (imap (λ i nl, (nl.1, Pos.of_succ_nat i)) entries)) "" ∅).

Definition snap_table (p : snapshot) (name : string) : option Table :=
  l ← GetTable p.1 p.2 name; p.1 !! l.

(** ** Helpers *)

Definition serialTypeFor (c : Column) (table column : string) : option string :=
  match c.(Column_Default) with
  | None => None
  | Some def =>
      if negb (Contains def "nextval(")
         || negb (Contains def (table +:+ "_" +:+ column +:+ "_seq")) then None
      else if slices_Contains ["integer"; "int4"; "int"] c.(Column_Type) then Some "serial"
      else if slices_Contains ["bigint"; "int8"] c.(Column_Type) then Some "bigserial"
      else if slices_Contains ["smallint"; "int2"] c.(Column_Type) then Some "smallserial"
      else None
  end.

Definition stripCheckDefinition (def : string) : string :=
  let trimmed := TrimSpace def in
  let trimmed :=
    if HasPrefix (ToUpper trimmed) "CHECK" then TrimSpace (drop_str 5 trimmed) else trimmed in
  if HasPrefix trimmed "(" && HasSuffix trimmed ")"
  then TrimSpace (take_str (String.length trimmed - 2) (drop_str 1 trimmed))
  else trimmed.

Definition isPrimaryKeyIndex (name : string) (table : Table) : bool :=
  (0 <? length table.(Table_PrimaryKey))%nat && HasSuffix name "_pkey".

Definition optional (s : string) : option string := if decide (s = "") then None else Some s.

(** The column an inverse adds back: a serial column comes back as serial. *)
Definition restoredColumn (table key : string) (pk : bool) (c : Column) : MigColumn :=
  mkMigColumn None (optional c.(Column_Comment))
    (match serialTypeFor c table key with Some _ => None | None => c.(Column_Default) end)
    None key c.(Column_Nullable) pk None
    (default c.(Column_Type) (serialTypeFor c table key)) c.(Column_Unique).

Section Invert.
Context `{!Pq}.

(** ** Per-operation inverses *)

Definition AddColumn_Invert (o : OpAddColumn) : outcome error (list Operation) :=
  let col := o.(OpAddColumn_Column) in
  let drop down := Ok [DropColumn_ (mkOpDropColumn col.(MigColumn_Name) down
                                      o.(OpAddColumn_Table))] in
  if decide (o.(OpAddColumn_Up) = "") then
    match col.(MigColumn_Default) with
    | Some d => drop d
    | None =>
        if col.(MigColumn_Nullable) then drop "NULL"
        else Err (Errorf "add_column %q on %q has no up expression, no default, and is not nullable; its inverse drop cannot re-derive values"
                    [col.(MigColumn_Name); o.(OpAddColumn_Table)])
    end
  else drop o.(OpAddColumn_Up).

Definition RawSQL_Invert (o : OpRawSQL) : outcome error (list Operation) :=
  if decide (o.(OpRawSQL_Down) = "")
  then Err (Errorf "raw SQL operation has no down expression" [])
  else Ok [RawSQL_ (mkOpRawSQL "" true o.(OpRawSQL_Down))].

(** The tables are tried in the order of [map_to_list]. *)
Definition find_index (p : snapshot) (name : string) : option Index :=
  head (omap (λ l, t ← p.1 !! l; t.(Table_Indexes) !! name)
          (map_to_list p.2.(Schema_Tables)).*2).

Definition DropIndex_Invert (pre : snapshot) (o : OpDropIndex) :
    outcome error (list Operation) :=
  match find_index pre o.(OpDropIndex_Name) with
  | None => Err (Errorf "index %q not found in the parent snapshot" [o.(OpDropIndex_Name)])
  | Some idx =>
      if decide (idx.(Index_Definition) = "") then
        Err (Errorf "index %q has no recorded definition in the parent snapshot"
               [o.(OpDropIndex_Name)])
      else Ok [RawSQL_ (mkOpRawSQL "" true idx.(Index_Definition))]
  end.

Definition snap_table_or (pre : snapshot) (name : string) : outcome error Table :=
  match snap_table pre name with
  | Some t => Ok t
  | None => Err (Errorf "table %q not found in the parent snapshot" [name])
  end.

Definition snap_column_or (t : Table) (column table : string) : outcome error Column :=
  c ← GetColumn t column;
  match c with
  | Some c => Ok c
  | None => Err (Errorf "column %q on %q not found in the parent snapshot" [column; table])
  end.

Definition DropColumn_Invert (pre : snapshot) (o : OpDropColumn) :
    outcome error (list Operation) :=
  let tn := o.(OpDropColumn_Table) in
  let cn := o.(OpDropColumn_Column) in
  table ← snap_table_or pre tn;
  col ← snap_column_or table cn tn;
  if decide (o.(OpDropColumn_Down) = "") then
    Err (Errorf "drop_column %q on %q has no down expression; its inverse add cannot re-derive values"
           [cn; tn])
  else if decide (col.(Column_Identity) = "") then
    Ok [AddColumn_ (mkOpAddColumn (restoredColumn tn cn false col) tn o.(OpDropColumn_Down))]
  else Err (Errorf "column %q on %q was a GENERATED AS IDENTITY column; identity restoration is not supported and recreating it as a plain column would silently break inserts"
              [cn; tn]).

(** [x], or the identity projection of [col] when it is empty *)
Definition or_identity (col x : string) : string :=
  if decide (x = "") then QuoteIdentifier col else x.

Definition addedConstraintNames (o : OpAlterColumn) : list string :=
  (match o.(OpAlterColumn_Check) with Some c => [c.(MigCheckConstraint_Name)] | None => [] end)
  ++ (match o.(OpAlterColumn_Unique) with Some u => [u.(MigUniqueConstraint_Name)] | None => [] end)
  ++ (match o.(OpAlterColumn_References) with Some r => [r.(ForeignKeyReference_Name)] | None => [] end).

Definition otherChanges (o : OpAlterColumn) : bool :=
  bool_decide (is_Some o.(OpAlterColumn_Type)) || bool_decide (is_Some o.(OpAlterColumn_Nullable))
  || IsSpecified o.(OpAlterColumn_Default) || IsSpecified o.(OpAlterColumn_Comment).

(** The prior value of an attribute, null when there was none *)
Definition priorValue (specified : Nullable) (prior : option string) : Nullable :=
  if IsSpecified specified then
    match prior with Some v => Value v | None => Null end
  else Unspecified.

Definition AlterColumn_Invert (pre : snapshot) (o : OpAlterColumn) :
    outcome error (list Operation) :=
  let tn := o.(OpAlterColumn_Table) in
  let cn := o.(OpAlterColumn_Column) in
  match addedConstraintNames o with
  | name :: others =>
      if (0 <? length others)%nat || otherChanges o then
        Err (Errorf "alter_column on %q.%q combines a constraint with other changes; its inverse cannot be synthesized soundly"
               [tn; cn])
      else
        Ok [DropMultiColumnConstraint_ (mkOpDropMultiColumnConstraint
              (Some {[cn := or_identity cn o.(OpAlterColumn_Up)]}) name tn
              (Some {[cn := or_identity cn o.(OpAlterColumn_Down)]}))]
  | [] =>
      table ← snap_table_or pre tn;
      col ← snap_column_or table cn tn;
      if otherChanges o then
        Ok [AlterColumn_ (mkOpAlterColumn None cn
              (priorValue o.(OpAlterColumn_Comment) (optional col.(Column_Comment)))
              (priorValue o.(OpAlterColumn_Default) col.(Column_Default))
              o.(OpAlterColumn_Up)
              ((λ _, col.(Column_Nullable)) <$> o.(OpAlterColumn_Nullable))
              None tn ((λ _, col.(Column_Type)) <$> o.(OpAlterColumn_Type)) None
              o.(OpAlterColumn_Down))]
      else Err (Errorf "alter_column on %q.%q has no invertible sub-operation" [tn; cn])
  end.

(** ** Dropped tables *)

(** One iteration of the loop over the columns, [[]] when it continues *)
Definition recreatedColumn (o : OpDropTable) (table : Table) (key : string) :
    outcome error (list MigColumn) :=
  match mjoin (table.(Table_Columns) !! key) with
  | None => Ok []
  | Some c =>
      if c.(Column_Deleted) then Ok []
      else if decide (c.(Column_Identity) = "") then
        Ok [restoredColumn o.(OpDropTable_Name) key
              (slices_Contains table.(Table_PrimaryKey) key) c]
      else Err (Errorf "column %q on dropped table %q was a GENERATED AS IDENTITY column; identity restoration is not supported and recreating it as a plain column would silently break inserts"
                  [key; o.(OpDropTable_Name)])
  end.

(** The values of a map in the order of its sorted keys *)
Definition sorted_values {A} (m : gmap string A) : list A :=
  omap (λ k, m !! k) (sorted_keys m).

Definition recreatedCheck (cc : CheckConstraint) : Constraint :=
  mkConstraint (stripCheckDefinition cc.(CheckConstraint_Definition))
    cc.(CheckConstraint_Columns) false None None false cc.(CheckConstraint_Name)
    cc.(CheckConstraint_NoInherit) false None ConstraintTypeCheck.
Definition recreatedUnique (uc : UniqueConstraint) : Constraint :=
  mkConstraint "" uc.(UniqueConstraint_Columns) false None None false
    uc.(UniqueConstraint_Name) false false None ConstraintTypeUnique.
Definition recreatedForeignKey (fk : ForeignKey) : Constraint :=
  mkConstraint "" fk.(ForeignKey_Columns) false None None false fk.(ForeignKey_Name) false false
    (Some (mkTableForeignKeyReference fk.(ForeignKey_ReferencedColumns) ""
             fk.(ForeignKey_OnDelete) [] fk.(ForeignKey_OnUpdate)
             fk.(ForeignKey_ReferencedTable)))
    ConstraintTypeForeignKey.

(** One iteration of the loop over the indexes *)
Definition recreatedIndex (o : OpDropTable) (table : Table) (idx : Index) :
    outcome error (list Operation) :=
  if decide (is_Some (table.(Table_UniqueConstraints) !! idx.(Index_Name))) then Ok []
  else if isPrimaryKeyIndex idx.(Index_Name) table then Ok []
  else if decide (idx.(Index_Definition) = "") then
    Err (Errorf "index %q on dropped table %q has no recorded definition"
           [idx.(Index_Name); o.(OpDropTable_Name)])
  else Ok [RawSQL_ (mkOpRawSQL "" true idx.(Index_Definition))].

Definition DropTable_Invert (pre : snapshot) (o : OpDropTable) :
    outcome error (list Operation) :=
  table ← snap_table_or pre o.(OpDropTable_Name);
  columns ← map_outcome (recreatedColumn o table) (sorted_keys table.(Table_Columns));
  let create := mkOpCreateTable (concat columns) (optional table.(Table_Comment))
    ((recreatedCheck <$> sorted_values table.(Table_CheckConstraints)) ++
     (recreatedUnique <$> sorted_values table.(Table_UniqueConstraints)) ++
     (recreatedForeignKey <$> sorted_values table.(Table_ForeignKeys)))
    o.(OpDropTable_Name) in
  indexes ← map_outcome (recreatedIndex o table) (sorted_values table.(Table_Indexes));
  Ok (CreateTable_ create :: concat indexes).

(** ** Constraints *)

Definition map_of (cols : list string) (f : string → string) : gmap string string :=
  list_to_map ((λ c, (c, f c)) <$> cols).

Definition CreateConstraint_Invert (o : OpCreateConstraint) : outcome error (list Operation) :=
  if decide (o.(OpCreateConstraint_Type) = OpCreateConstraintTypePrimaryKey) then
    Err (Errorf "create_constraint %q on %q adds a primary key; primary key inverses are not supported"
           [o.(OpCreateConstraint_Name); o.(OpCreateConstraint_Table)])
  else
    let cols := o.(OpCreateConstraint_Columns) in
    Ok [DropMultiColumnConstraint_ (mkOpDropMultiColumnConstraint
          (Some (map_of cols (λ c, default "" (o.(OpCreateConstraint_Up) !! c))))
          o.(OpCreateConstraint_Name) o.(OpCreateConstraint_Table)
          (Some (map_of cols (λ c, default "" (o.(OpCreateConstraint_Down) !! c)))))].

(** The switch of [invertConstraintDrop]: type, check, columns, NO INHERIT
    and reference of the constraint to create *)
Definition recoveredConstraint (table : Table) (name : string) :
    option (string * option string * list string * bool * option TableForeignKeyReference) :=
  match table.(Table_CheckConstraints) !! name with
  | Some cc =>
      Some (OpCreateConstraintTypeCheck,
            Some (stripCheckDefinition cc.(CheckConstraint_Definition)),
            cc.(CheckConstraint_Columns), cc.(CheckConstraint_NoInherit), None)
  | None =>
      match table.(Table_UniqueConstraints) !! name with
      | Some uc =>
          Some (OpCreateConstraintTypeUnique, None, uc.(UniqueConstraint_Columns), false, None)
      | None =>
          match table.(Table_ForeignKeys) !! name with
          | Some fk =>
              Some (OpCreateConstraintTypeForeignKey, None, fk.(ForeignKey_Columns), false,
                Some (mkTableForeignKeyReference fk.(ForeignKey_ReferencedColumns)
                  (if decide (fk.(ForeignKey_MatchType) = ForeignKeyMatchTypeSIMPLE) then ""
                   else fk.(ForeignKey_MatchType))
                  fk.(ForeignKey_OnDelete) [] fk.(ForeignKey_OnUpdate)
                  fk.(ForeignKey_ReferencedTable)))
          | None => None
          end
      end
  end.

Definition invertConstraintDrop (pre : snapshot) (tableName name : string)
    (dropUp dropDown : gmap string string) : outcome error (list Operation) :=
  table ← snap_table_or pre tableName;
  match recoveredConstraint table name with
  | None =>
      Err (Errorf "constraint %q on %q not found in the parent snapshot as a check, unique, or foreign key constraint (exclusion and primary key constraints cannot be recreated)"
             [name; tableName])
  | Some (ty, check, columns, noInherit, references) =>
      Ok [CreateConstraint_ (mkOpCreateConstraint check columns
            (map_of columns (λ c, or_identity c (default "" (dropUp !! c)))) None name noInherit
            references tableName ty
            (map_of columns (λ c, or_identity c (default "" (dropDown !! c)))))]
  end.

Definition DropMultiColumnConstraint_Invert (pre : snapshot) (o : OpDropMultiColumnConstraint) :
    outcome error (list Operation) :=
  invertConstraintDrop pre o.(OpDropMultiColumnConstraint_Table)
    o.(OpDropMultiColumnConstraint_Name) (default ∅ o.(OpDropMultiColumnConstraint_Up))
    (default ∅ o.(OpDropMultiColumnConstraint_Down)).

Definition DropConstraint_Invert (pre : snapshot) (o : OpDropConstraint) :
    outcome error (list Operation) :=
  let tn := o.(OpDropConstraint_Table) in
  let name := o.(OpDropConstraint_Name) in
  table ← snap_table_or pre tn;
  match GetConstraintColumns table name with
  | [c] => invertConstraintDrop pre tn name {[c := o.(OpDropConstraint_Up)]}
             {[c := o.(OpDropConstraint_Down)]}
  | _ => Err (Errorf "constraint %q on %q covers %d columns; the deprecated drop_constraint form is only invertible for single-column constraints"
                [name; tn])
  end.

(** [op.( Invertible )], [None] when the operation has no [Invert] *)
Definition Invert (pre : snapshot) (op : Operation) : option (outcome error (list Operation)) :=
  match op with
  | RenameColumn_ o =>
      Some (Ok [RenameColumn_ (mkOpRenameColumn o.(OpRenameColumn_To)
                  o.(OpRenameColumn_Table) o.(OpRenameColumn_From))])
  | RenameTable_ o =>
      Some (Ok [RenameTable_ (mkOpRenameTable o.(OpRenameTable_To) o.(OpRenameTable_From))])
  | RenameConstraint_ o =>
      Some (Ok [RenameConstraint_ (mkOpRenameConstraint o.(OpRenameConstraint_To)
                  o.(OpRenameConstraint_Table) o.(OpRenameConstraint_From))])
  | CreateTable_ o => Some (Ok [DropTable_ (mkOpDropTable o.(OpCreateTable_Name))])
  | CreateIndex_ o => Some (Ok [DropIndex_ (mkOpDropIndex o.(OpCreateIndex_Name))])
  | AddColumn_ o => Some (AddColumn_Invert o)
  | RawSQL_ o => Some (RawSQL_Invert o)
  | DropIndex_ o => Some (DropIndex_Invert pre o)
  | DropColumn_ o => Some (DropColumn_Invert pre o)
  | AlterColumn_ o => Some (AlterColumn_Invert pre o)
  | DropTable_ o => Some (DropTable_Invert pre o)
  | CreateConstraint_ o => Some (CreateConstraint_Invert o)
  | DropMultiColumnConstraint_ o => Some (DropMultiColumnConstraint_Invert pre o)
  | DropConstraint_ o => Some (DropConstraint_Invert pre o)
  | SetReplicaIdentity_ _ => None
  end.

Definition invertReadsPreState (op : Operation) : bool :=
  match op with
  | DropColumn_ _ | DropTable_ _ | DropIndex_ _ | AlterColumn_ _
  | DropMultiColumnConstraint_ _ | DropConstraint_ _ => true
  | _ => false
  end.

(** ** Segments *)

(** A panic of [Start] is recovered and becomes an error. *)
Definition replayStart (op : Operation) (migName : string) : M () () := λ w,
  match Start virtualFuel op w with
  | (Ok _, w') => (Ok (), w')
  | (Err e, w') =>
      (Err (ErrorfW "unable to replay operation %q of %q: %w" [OperationName op; migName] e), w')
  | (Panic, w') =>
      (Err (Errorf "unable to replay operation %q of %q against the reconstructed schema (it likely references objects created by raw SQL in the segment): %v"
              [OperationName op; migName]), w')
  | (OutOfFuel, w') => (OutOfFuel, w')
  end.

(** A copy of the work schema, with its scope *)
Definition takeSnapshot : M () snapshot :=
  gets (λ w,
    let '(h, s) := copySchema (w_heap w, w_schema w) in
    (h, set_Schema_MigrationScope (Schema_MigrationScope (w_schema w)) s)).

Definition isRawSQL (op : Operation) : bool :=
  match op with RawSQL_ _ => true | _ => false end.

(** The inner loop: the pre-state of each operation, and who tainted the
    replay so far *)
Fixpoint replayOperations (migName taintedBy : string) (ops : list Operation) :
    M () (list snapshot * string) :=
  match ops with
  | [] => mret ([], taintedBy)
  | op :: ops =>
      let taintedBy' := if isRawSQL op then migName else taintedBy in
      fail_if (negb (isRawSQL op) && negb (bool_decide (taintedBy = ""))
               && invertReadsPreState op)
        (Errorf "cannot invert: migration %q contains raw SQL whose schema effects cannot be replayed, so the pre-state for %q in %q is untrustworthy; revert this segment manually or choose a boundary above %q"
           [taintedBy; OperationName op; migName; taintedBy]) ;;
      pre ← takeSnapshot;
      replayStart op migName ;;
      '(pres, taintedBy'') ← replayOperations migName taintedBy' ops;
      mret (pre :: pres, taintedBy'')
  end.

Fixpoint replaySegment (taintedBy : string) (migs : list Migration) :
    M () (list (Migration * list snapshot)) :=
  match migs with
  | [] => mret []
  | mig :: migs =>
      on_schema (set_Schema_MigrationScope (MigrationScopeFor mig.(Migration_Name))) ;;
      '(pres, taintedBy) ← replayOperations mig.(Migration_Name) taintedBy
                             mig.(Migration_Operations);
      rest ← replaySegment taintedBy migs;
      mret ((mig, pres) :: rest)
  end.

Definition invertOperation (mig : Migration) (op : Operation) (pre : snapshot) :
    outcome error (list Operation) :=
  match Invert pre op with
  | None => Err (Errorf "operation %q in migration %q does not support inversion"
                   [OperationName op; mig.(Migration_Name)])
  | Some (Err e) => Err (ErrorfW "unable to invert operation %q in migration %q: %w"
                           [OperationName op; mig.(Migration_Name)] e)
  | Some r => r
  end.

(** One iteration of the second loop *)
Definition invertMigration (mp : Migration * list snapshot) : outcome error Migration :=
  let '(mig, pres) := mp in
  opss ← map_outcome (λ '(op, pre), invertOperation mig op pre)
           (reverse (zip mig.(Migration_Operations) pres));
  let ops := concat opss in
  match (if (1 <? length ops)%nat then List.find IsIsolated ops else None) with
  | Some op =>
      Err (Errorf "internal: synthesized inverse of %q combines isolated operation %q with other operations"
             [mig.(Migration_Name); OperationName op])
  | None =>
      Ok (mkMigration ("revert_" +:+ mig.(Migration_Name)) "" ops [] [] false false []
            mig.(Migration_Name))
  end.

Definition InvertSegment (migs : list Migration) (base : snapshot) :
    outcome error (list Migration) :=
  let '(h, s) := copySchema base in
  pres ← (replaySegment "" migs (mkWorld s h () 0)).1;
  map_outcome invertMigration (reverse pres).

(** [Migration.Invert], which takes the first inverse *)
Definition Migration_Invert (m : Migration) (parent : snapshot) : outcome error Migration :=
  inverses ← InvertSegment [m] parent;
  match inverses with inv :: _ => Ok inv | [] => Panic end.
End Invert.
