(* ===== verification/InvertFacts.v ===== *)
(** * InvertFacts: the inverse migrations of a segment *)

From S2P Require Import Prelude.
From S2P Require Import GoStd.
From S2P Require Import Names.
From S2P Require Import Schema.
From S2P Require Import SchemaFacts.
From S2P Require Import Types.
From S2P Require Import Db.
From S2P Require Import WorldFacts.
From S2P Require Import Samples.
From S2P Require Import Actions.
From S2P Require Import Backfill.
From S2P Require Import OpsBase.
From S2P Require Import OpsColumn.
From S2P Require Import OpsTable.
From S2P Require Import Operations.
From S2P Require Import Migration.
From S2P Require Import OpsFacts.
From S2P Require Import RunFacts.
From S2P Require Import Invert.

(** ** Per-operation inverses *)

Section inverses.
Context `{!Pq}.

Lemma map_outcome_elem {E A B} (f : A → outcome E B) l ys y :
  map_outcome f l = Ok ys → y ∈ ys → ∃ x, x ∈ l ∧ f x = Ok y.
Proof.
  intros Hm Hy. apply map_outcome_ok in Hm.
  apply list_elem_of_lookup in Hy as [i Hi].
  destruct (Forall2_lookup_r _ _ _ _ _ Hm Hi) as (x & Hx & Hf).
  exists x. split; [by eapply list_elem_of_lookup_2|done].
Qed.

(** What an inverse is made of: raw SQL in it runs at completion, so that it
    may stand next to other operations, and a dropped column's values can be
    derived again. *)
Definition inverse_ok (op : Operation) : Prop :=
  match op with
  | RawSQL_ o => o.(OpRawSQL_OnComplete) = true ∧ o.(OpRawSQL_Down) = ""
  | SetReplicaIdentity_ _ => False
  | _ => True
  end.

Lemma recreatedIndex_ok o t i ops op :
  recreatedIndex o t i = Ok ops → op ∈ ops → inverse_ok op.
Proof.
  unfold recreatedIndex. intros Hr Ho. repeat (case_decide || case_match); try discriminate Hr;
    injection Hr as <-; try by apply elem_of_nil in Ho.
  by apply list_elem_of_singleton in Ho as ->.
Qed.

Lemma invertConstraintDrop_ok pre t n up down ops op :
  invertConstraintDrop pre t n up down = Ok ops → op ∈ ops → inverse_ok op.
Proof.
  unfold invertConstraintDrop. intros Hr Ho. destruct (snap_table_or pre t); try discriminate Hr.
  cbn in Hr. repeat case_match; try discriminate Hr. injection Hr as <-.
  by apply list_elem_of_singleton in Ho as ->.
Qed.

Lemma Invert_ok pre op ops op' : Invert pre op = Some (Ok ops) → op' ∈ ops → inverse_ok op'.
Proof.
  destruct op; cbn [Invert]; try (intros [= <-] ->%list_elem_of_singleton; done);
    try discriminate; intros [= Hr] Ho.
  - unfold AddColumn_Invert in Hr. repeat (case_decide || case_match); try discriminate Hr;
      injection Hr as <-; by apply list_elem_of_singleton in Ho as ->.
  - unfold AlterColumn_Invert in Hr. destruct (addedConstraintNames o) as [|n ns].
    + destruct (snap_table_or pre (OpAlterColumn_Table o)); try discriminate Hr. cbn in Hr.
      destruct (snap_column_or _ _ _); try discriminate Hr. cbn in Hr.
      case_match; try discriminate Hr. injection Hr as <-.
      by apply list_elem_of_singleton in Ho as ->.
    + case_match; try discriminate Hr. injection Hr as <-.
      by apply list_elem_of_singleton in Ho as ->.
  - unfold CreateConstraint_Invert in Hr. case_decide; try discriminate Hr. injection Hr as <-.
    by apply list_elem_of_singleton in Ho as ->.
  - unfold DropColumn_Invert in Hr. destruct (snap_table_or _ _); try discriminate Hr. cbn in Hr.
    destruct (snap_column_or _ _ _); try discriminate Hr. cbn in Hr.
    repeat case_decide; try discriminate Hr. injection Hr as <-.
    by apply list_elem_of_singleton in Ho as ->.
  - unfold DropConstraint_Invert in Hr. destruct (snap_table_or _ _); try discriminate Hr.
    cbn in Hr. destruct (GetConstraintColumns _ _) as [|c [|]]; try discriminate Hr.
    by eapply invertConstraintDrop_ok.
  - unfold DropIndex_Invert in Hr. case_match; try discriminate Hr. case_decide; try discriminate Hr.
    injection Hr as <-. by apply list_elem_of_singleton in Ho as ->.
  - by eapply invertConstraintDrop_ok.
  - unfold DropTable_Invert in Hr. destruct (snap_table_or _ _) as [t| | |]; try discriminate Hr.
    cbn in Hr. destruct (map_outcome (recreatedColumn o t) _); try discriminate Hr. cbn in Hr.
    destruct (map_outcome (recreatedIndex o t) _) as [ixs| | |] eqn:Hi; try discriminate Hr.
    injection Hr as <-. apply elem_of_cons in Ho as [->|Ho]; [done|].
    apply list_elem_of_In, in_concat in Ho as (l & Hl%list_elem_of_In & Ho%list_elem_of_In).
    destruct (map_outcome_elem _ _ _ _ Hi Hl) as (i & _ & Hx). by eapply recreatedIndex_ok.
  - unfold RawSQL_Invert in Hr. case_decide; try discriminate Hr. injection Hr as <-.
    by apply list_elem_of_singleton in Ho as ->.
Qed.
End inverses.

(** ** Copies of a schema *)

Lemma numbered_lookup {A B} (v : A → option B) l n k :
  (list_to_map (omap id (imap (λ i x, t ← v x; Some (Pos.of_succ_nat (n + i), t)) l)) : gmap positive B)
    !! Pos.of_succ_nat k = if decide (k < n) then None else (l !! (k - n)) ≫= v.
Proof.
  revert n. induction l as [|x l IH]; intros n; cbn.
  { rewrite lookup_empty. case_decide; [done|]. by rewrite lookup_nil. }
  assert ((list_to_map (omap id (imap ((λ i x, t ← v x; Some (Pos.of_succ_nat (n + i), t)) ∘ S) l))
    : gmap positive B) !! Pos.of_succ_nat k =
    if decide (k < S n) then None else (l !! (k - S n)) ≫= v) as IH'.
  { rewrite <-IH. f_equal. f_equal. f_equal. apply imap_ext. intros i y _. cbn.
    by replace (n + S i) with (S n + i) by lia. }
  destruct (v x) as [t|] eqn:Hv; cbn.
  - destruct (decide (k = n)) as [->|Hk].
    + rewrite Nat.add_0_r, lookup_insert_eq, decide_False by lia.
      rewrite Nat.sub_diag. cbn. by rewrite Hv.
    + rewrite lookup_insert_ne by lia. rewrite IH'.
      destruct (decide (k < n)); [by rewrite decide_True by lia|].
      rewrite decide_False by lia. by replace (k - n) with (S (k - S n)) by lia.
  - rewrite IH'. destruct (decide (k < n)); [by rewrite decide_True by lia|].
    destruct (decide (k = n)) as [->|].
    + rewrite decide_True by lia. rewrite Nat.sub_diag. cbn. by rewrite Hv.
    + rewrite decide_False by lia. by replace (k - n) with (S (k - S n)) by lia.
Qed.

Lemma copySchema_tables p n l :
  (copySchema p).2.(Schema_Tables) !! n = Some l ↔
  ∃ i l0, map_to_list p.2.(Schema_Tables) !! i = Some (n, l0) ∧ l = Pos.of_succ_nat i.
Proof.
  destruct p as [h s]. cbn. set (entries := map_to_list (Schema_Tables s)).
  assert ((imap (λ i nl, (nl.1, Pos.of_succ_nat i)) entries).*1 = entries.*1) as Hfst.
  { rewrite fmap_imap. generalize 0. induction entries as [|e es IH]; [done|]. cbn.
    intros _. f_equal. apply (IH 0). }
  rewrite <-elem_of_list_to_map by (rewrite Hfst; apply NoDup_fst_map_to_list).
  rewrite list_elem_of_lookup. split.
  - intros (i & Hi). apply list_lookup_imap_Some in Hi as ([n' l0] & Hi & [= -> ->]).
    by exists i, l0.
  - intros (i & l0 & Hi & ->). exists i. apply list_lookup_imap_Some. by exists (n, l0).
Qed.

Lemma copySchema_heap p i :
  (copySchema p).1 !! Pos.of_succ_nat i =
  (map_to_list p.2.(Schema_Tables) !! i) ≫= λ nl, copyTable <$> p.1 !! nl.2.
Proof.
  destruct p as [h s]. cbn. pose proof (numbered_lookup (λ nl : string * loc, copyTable <$> h !! nl.2)
    (map_to_list (Schema_Tables s)) 0 i) as H.
  rewrite decide_False, Nat.sub_0_r in H by lia. rewrite <-H. f_equal. f_equal. f_equal.
  apply imap_ext. intros j x _. cbn. by destruct (h !! x.2).
Qed.

(** What a snapshot records of each table, soft-deleted ones included *)
Definition recorded (p : snapshot) (n : string) : option Table :=
  l ← p.2.(Schema_Tables) !! n; p.1 !! l.

(** Every table name leads to a table. *)
Definition no_dangling (p : snapshot) : Prop :=
  ∀ n l, p.2.(Schema_Tables) !! n = Some l → is_Some (p.1 !! l).

Lemma copySchema_recorded p n : no_dangling p →
  recorded (copySchema p) n = copyTable <$> recorded p n.
Proof.
  intros Hdef. unfold recorded.
  destruct (Schema_Tables p.2 !! n) as [l0|] eqn:Hn; cbn.
  - assert ((n, l0) ∈ map_to_list (Schema_Tables p.2)) as [i Hi]%list_elem_of_lookup
      by (by apply elem_of_map_to_list).
    rewrite (proj2 (copySchema_tables p n (Pos.of_succ_nat i))) by eauto. cbn.
    by rewrite copySchema_heap, Hi.
  - destruct (Schema_Tables (copySchema p).2 !! n) as [l|] eqn:Hc; [|done].
    apply copySchema_tables in Hc as (i & l0 & Hi & _).
    apply list_elem_of_lookup_2, elem_of_map_to_list in Hi. congruence.
Qed.

(** The deep copy of a schema.  Every table the schema shows is shown by
    the copy under the same name with the same contents, soft-deleted tables
    stay hidden, no other table appears, and no two names of the copy share a
    table. *)
Theorem copySchema_spec h s :
  (∀ n l, s.(Schema_Tables) !! n = Some l → is_Some (h !! l)) →
  (∀ n, snap_table (copySchema (h, s)) n = copyTable <$> snap_table (h, s) n) ∧
  wf (copySchema (h, s)).1 (copySchema (h, s)).2.
Proof.
  intros Hdef. pose proof (copySchema_tables (h, s)) as Ht.
  pose proof (copySchema_heap (h, s)) as Hh. cbn [fst snd] in Ht, Hh. split.
  - intros n. unfold snap_table, GetTable. cbn [fst snd].
    destruct (Schema_Tables s !! n) as [l0|] eqn:Hn.
    + assert ((n, l0) ∈ map_to_list (Schema_Tables s)) as [i Hi]%list_elem_of_lookup
        by (by apply elem_of_map_to_list).
      rewrite (proj2 (Ht n (Pos.of_succ_nat i))) by eauto. rewrite Hh, Hi. cbn.
      destruct (Hdef n l0 Hn) as [t Hl]. rewrite Hl. cbn.
      destruct (Table_Deleted t); cbn; [done|]. rewrite Hh, Hi. cbn. by rewrite Hl.
    + destruct (Schema_Tables (copySchema (h, s)).2 !! n) as [l|] eqn:Hc; [|done].
      apply Ht in Hc as (i & l0 & Hi & _).
      assert ((n, l0) ∈ map_to_list (Schema_Tables s)) as Hin
        by (by eapply list_elem_of_lookup_2).
      apply elem_of_map_to_list in Hin. congruence.
  - assert (∀ n, shadow_of (copySchema (h, s)).2 n = []) as Hsh by (intros n; reflexivity).
    split; intros n; rewrite ?Hsh; try done; try (by intros ? ?%elem_of_nil);
      try (by intros ? ? ?%elem_of_nil); try constructor.
    + intros l (i & l0 & Hi & ->)%Ht. rewrite Hh, Hi. cbn.
      assert ((n, l0) ∈ map_to_list (Schema_Tables s)) as Hin
        by (by eapply list_elem_of_lookup_2).
      apply elem_of_map_to_list in Hin. destruct (Hdef n l0 Hin) as [t ->]. by eexists.
    + intros n' l (i & l0 & Hi & ->)%Ht (i' & l0' & Hi' & Heq)%Ht.
      assert (i = i') as -> by lia. congruence.
Qed.

(** ** Replaying a segment *)

(** No operation after raw SQL needs to know the state it ran on. *)
Fixpoint trusted (tainted : bool) (ops : list Operation) : Prop :=
  match ops with
  | [] => True
  | op :: ops =>
      (tainted = true → invertReadsPreState op = false) ∧ trusted (tainted || isRawSQL op) ops
  end.

Lemma trusted_app b ops1 ops2 :
  trusted b (ops1 ++ ops2) ↔ trusted b ops1 ∧ trusted (b || existsb isRawSQL ops1) ops2.
Proof.
  revert b. induction ops1 as [|op ops IH]; intros b; cbn; [rewrite orb_false_r; tauto|].
  rewrite IH, orb_assoc. tauto.
Qed.

Section replay.
Context `{!Pq}.
Implicit Types w : World ().

Definition tainted (by_ : string) : bool := negb (bool_decide (by_ = "")).

Lemma replayOperations_ok name by_ ops w pres by' w' :
  name ≠ "" → replayOperations name by_ ops w = (Ok (pres, by'), w') →
  length pres = length ops ∧ trusted (tainted by_) ops ∧
  tainted by' = tainted by_ || existsb isRawSQL ops.
Proof.
  intros Hname. revert by_ w pres. induction ops as [|op ops IH]; intros by_ w pres; cbn.
  { intros [= <- <- <-]. by rewrite orb_false_r. }
  intros ([] & w1 & [Hf ->]%fail_if_ok & (pre & w2 & Hpre & ([] & w3 & Hs & Hr)%bind_ok)%bind_ok)%bind_ok.
  apply bind_ok in Hr as ([pres' by''] & w4 & Hr & [= <- <- <-]).
  destruct (IH _ _ _ Hr) as (Hl & Ht & Hb). split; [cbn; by rewrite Hl|].
  assert (tainted (if isRawSQL op then name else by_) = tainted by_ || isRawSQL op) as Hn.
  { unfold tainted. destruct (isRawSQL op); [|by rewrite orb_false_r].
    rewrite bool_decide_eq_false_2 by done. by rewrite orb_true_r. }
  rewrite Hn in Ht, Hb. split_and!; [|done|by rewrite Hb, orb_assoc].
  intros Htb. unfold tainted in Htb. rewrite Htb, andb_true_r in Hf.
  destruct op; try done; cbn in Hf; by rewrite Hf.
Qed.

Lemma replaySegment_ok by_ migs w r w' :
  Forall (λ m, Migration_Name m ≠ "") migs → replaySegment by_ migs w = (Ok r, w') →
  trusted (tainted by_) (migs ≫= Migration_Operations) ∧ r.*1 = migs ∧
  Forall (λ p, length p.2 = length (Migration_Operations p.1)) r.
Proof.
  intros Hn. revert by_ w r w'. induction Hn as [|m migs Hm _ IH]; intros by_ w r w'; cbn [replaySegment].
  { by intros [= <- _]. }
  intros ([] & w1 & _ & ([pres by'] & w2 & Hr & (rest & w3 & Hs & [= <- _])%bind_ok)%bind_ok)%bind_ok.
  destruct (replayOperations_ok _ _ _ _ _ _ _ Hm Hr) as (Hl & Ht & Hb).
  destruct (IH _ _ _ _ Hs) as (Ht' & <- & Hall).
  split_and!; [|done|by constructor]. rewrite bind_cons, trusted_app. by rewrite <-Hb.
Qed.

(** *** The states of a replay *)

(** [p] is a copy of the state [w]: the same tables, with the same contents,
    under the same migration scope. *)
Definition shows (p : snapshot) w : Prop :=
  (∀ n, recorded p n = copyTable <$> recorded (w_heap w, w_schema w) n) ∧
  Schema_MigrationScope p.2 = Schema_MigrationScope (w_schema w).

(** The state a migration is replayed on, which has its scope *)
Definition enter (mig : Migration) w : World () :=
  set_w_schema (set_Schema_MigrationScope (MigrationScopeFor (Migration_Name mig)) (w_schema w)) w.

(** [inverted w ops opss w']: starting [ops] one after the other leads from
    [w] to [w'], and each of [opss] is the inverse of an operation against a
    copy of the state it was started on. *)
Inductive inverted : World () → list Operation → list (list Operation) → World () → Prop :=
  | inverted_nil w : inverted w [] [] w
  | inverted_cons w pre op ops r w1 inv opss w' :
      shows pre w → Invert pre op = Some (Ok inv) → Start virtualFuel op w = (Ok r, w1) →
      inverted w1 ops opss w' → inverted w (op :: ops) (inv :: opss) w'.

(** The inverse of each migration of a segment, oldest first *)
Inductive segment_inverted : World () → list Migration → list Migration → World () → Prop :=
  | segment_nil w : segment_inverted w [] [] w
  | segment_cons w mig migs opss w1 invs w' :
      inverted (enter mig w) (Migration_Operations mig) opss w1 →
      segment_inverted w1 migs invs w' →
      segment_inverted w (mig :: migs)
        (mkMigration ("revert_" +:+ Migration_Name mig) "" (concat (reverse opss)) [] []
           false false [] (Migration_Name mig) :: invs) w'.

Lemma takeSnapshot_shows w p w1 : world_wf w → takeSnapshot w = (Ok p, w1) → shows p w ∧ w1 = w.
Proof.
  intros Hw. unfold takeSnapshot, gets. intros Ht.
  pose proof (λ n, copySchema_recorded (w_heap w, w_schema w) n (wf_heap _ _ Hw)) as Hr.
  destruct (copySchema (w_heap w, w_schema w)) as [h s]. injection Ht as <- <-.
  split; [|done]. split; [exact Hr|done].
Qed.

Lemma replayStart_ok op name w w1 : replayStart op name w = (Ok (), w1) →
  ∃ r, Start virtualFuel op w = (Ok r, w1).
Proof.
  unfold replayStart. destruct (Start virtualFuel op w) as [[r|e| |] w2]; intros [=]; subst.
  by exists r.
Qed.

(** What the inner loop records: the operations are started from [w] and each
    snapshot was taken just before its operation *)
Inductive replayed : World () → list Operation → list snapshot → World () → Prop :=
  | replayed_nil w : replayed w [] [] w
  | replayed_cons w pre op ops r w1 pres w' :
      shows pre w → Start virtualFuel op w = (Ok r, w1) → replayed w1 ops pres w' →
      replayed w (op :: ops) (pre :: pres) w'.

Lemma replayOperations_replayed name by_ ops w pres by' w' : world_wf w →
  replayOperations name by_ ops w = (Ok (pres, by'), w') → replayed w ops pres w' ∧ world_wf w'.
Proof.
  revert by_ w pres. induction ops as [|op ops IH]; intros by_ w pres Hw; cbn.
  { intros [= <- _ <-]. split; [constructor|done]. }
  intros ([] & w1 & [_ ->]%fail_if_ok & (pre & w2 & Hpre & ([] & w3 & Hs & Hr)%bind_ok)%bind_ok)%bind_ok.
  apply bind_ok in Hr as ([pres' by''] & w4 & Hr & [= <- <- <-]).
  destruct (takeSnapshot_shows _ _ _ Hw Hpre) as [Hsh ->].
  apply replayStart_ok in Hs as [r Hs].
  assert (world_wf w3) as Hw3.
  { pose proof (pres_Start world_wf world_wf_inv virtualFuel op w Hw) as Hp. by rewrite Hs in Hp. }
  destruct (IH _ _ _ Hw3 Hr) as [Hre Hwf]. split; [by econstructor|done].
Qed.

Lemma replayed_inverted w ops pres opss w' :
  replayed w ops pres w' →
  Forall2 (λ op_pre inv, Invert op_pre.2 op_pre.1 = Some (Ok inv)) (zip ops pres) opss →
  inverted w ops opss w'.
Proof.
  intros Hr. revert opss. induction Hr as [w|w pre op ops r w1 pres w' Hsh Hs _ IH]; intros opss Hi.
  - apply Forall2_nil_inv_l in Hi as ->. constructor.
  - cbn in Hi. apply Forall2_cons_inv_l in Hi as (inv & opss' & Hi & Hrest & ->).
    econstructor; eauto.
Qed.
End replay.

(** ** Segments *)

Section segments.
Context `{!Pq}.

Lemma existsb_IsIsolated ops :
  (∀ op, op ∈ ops → inverse_ok op) → List.find IsIsolated ops = None.
Proof.
  intros Hops. induction ops as [|op ops IH]; [done|]. cbn.
  assert (IsIsolated op = false) as ->.
  { specialize (Hops op ltac:(left)). destruct op; try done. destruct Hops as [Hc _].
    cbn. unfold RawSQL_IsIsolated. by rewrite Hc. }
  apply IH. intros o Ho. apply Hops. by right.
Qed.

Lemma invertMigration_ok mig pres inv :
  invertMigration (mig, pres) = Ok inv →
  ∃ opss, Forall2 (λ op_pre ops, Invert op_pre.2 op_pre.1 = Some (Ok ops))
            (reverse (zip mig.(Migration_Operations) pres)) opss ∧
    inv = mkMigration ("revert_" +:+ mig.(Migration_Name)) "" (concat opss) [] [] false false []
            mig.(Migration_Name).
Proof.
  unfold invertMigration. destruct (map_outcome _ _) as [opss| | |] eqn:Ho; [|done..]. cbn.
  apply map_outcome_ok in Ho. intros Hinv. exists opss.
  assert (Forall2 (λ op_pre ops, Invert op_pre.2 op_pre.1 = Some (Ok ops))
            (reverse (zip mig.(Migration_Operations) pres)) opss) as Hf.
  { eapply Forall2_impl; [exact Ho|]. intros [op pre] ops. cbn. unfold invertOperation.
    destruct (Invert pre op) as [[ops'|e| |]|] eqn:Hi; intros [=]; subst; done. }
  split; [done|]. rewrite existsb_IsIsolated in Hinv.
  - match type of Hinv with context [if ?b then _ else _] => destruct b end;
      by injection Hinv.
  - intros op' Hop%list_elem_of_In%in_concat.
    destruct Hop as (l & Hl%list_elem_of_In & Hop%list_elem_of_In).
    apply list_elem_of_lookup in Hl as [i Hi].
    destruct (Forall2_lookup_r _ _ _ _ _ Hf Hi) as ([op pre] & _ & Hx). by eapply Invert_ok.
Qed.

Lemma InvertSegment_inv migs base invs :
  InvertSegment migs base = Ok invs →
  ∃ r w', replaySegment "" migs (mkWorld (copySchema base).2 (copySchema base).1 () 0) = (Ok r, w')
    ∧ Forall2 (λ mp inv, invertMigration mp = Ok inv) (reverse r) invs.
Proof.
  unfold InvertSegment. destruct (copySchema base) as [h s]. cbn.
  destruct (replaySegment "" migs (mkWorld s h () 0)) as [[r| | |] w']; [|done..].
  cbn. intros Hm%map_outcome_ok. by exists r, w'.
Qed.

Lemma replaySegment_inverted by_ migs w r w' invs : world_wf w →
  replaySegment by_ migs w = (Ok r, w') →
  Forall2 (λ mp inv, invertMigration mp = Ok inv) r invs → segment_inverted w migs invs w'.
Proof.
  revert by_ w r invs. induction migs as [|mig migs IH]; intros by_ w r invs Hw; cbn [replaySegment].
  { intros [= <- <-] ->%Forall2_nil_inv_l. constructor. }
  intros ([] & w1 & Hen & ([pres by'] & w2 & Hr & (rest & w3 & Hs & [= <- <-])%bind_ok)%bind_ok)%bind_ok.
  intros (inv & invs' & Hi & Hinv & ->)%Forall2_cons_inv_l.
  assert (w1 = enter mig w) as -> by (by injection Hen as <-).
  assert (world_wf (enter mig w)) as Hwe by (destruct Hw; by split).
  destruct (replayOperations_replayed _ _ _ _ _ _ _ Hwe Hr) as [Hre Hw2].
  destruct (invertMigration_ok _ _ _ Hi) as (opss & Hf & ->).
  rewrite <-(reverse_involutive opss). econstructor; [|by eapply IH].
  apply (replayed_inverted _ _ pres); [done|]. apply Forall2_reverse in Hf.
  by rewrite reverse_involutive in Hf.
Qed.

Lemma invertMigration_inverse_ok mp inv op : invertMigration mp = Ok inv →
  op ∈ inv.(Migration_Operations) → IsIsolated op = false ∧ inverse_ok op.
Proof.
  destruct mp as [mig pres]. intros (opss & Hf & ->)%invertMigration_ok. cbn. intros Hop.
  assert (inverse_ok op) as Hok.
  { apply list_elem_of_In, in_concat in Hop as (l & Hl'%list_elem_of_In & Hop%list_elem_of_In).
    apply list_elem_of_lookup in Hl' as [i Hi'].
    destruct (Forall2_lookup_r _ _ _ _ _ Hf Hi') as ([o pre] & _ & Hx). by eapply Invert_ok. }
  split; [|done]. destruct op; try done. destruct Hok as [Hc _]. cbn.
  unfold RawSQL_IsIsolated. by rewrite Hc.
Qed.

(** C32. The inverse of a segment.  When [InvertSegment] succeeds, the segment
    was replayed from a state that has exactly the tables of the boundary
    schema, every operation started on what the ones before it left.  There is
    one inverse migration per migration, newest first; each is named after and
    marked as reverting its migration, and consists of the inverses of its
    operations, the last operation's first, each inverse taken against a copy
    of the very state its operation was started on.  Raw SQL in an inverse
    runs at completion, so no inverse operation needs to run alone and the
    "internal" error about isolated operations cannot occur. *)
Theorem InvertSegment_spec migs base invs :
  no_dangling base → InvertSegment migs base = Ok invs →
  ∃ w w', world_wf w ∧
    (∀ n, recorded (w_heap w, w_schema w) n = copyTable <$> recorded base n) ∧
    segment_inverted w migs (reverse invs) w' ∧
    ∀ inv op, inv ∈ invs → op ∈ inv.(Migration_Operations) → IsIsolated op = false ∧ inverse_ok op.
Proof.
  intros Hdef (r & w' & Hr & Hinv)%InvertSegment_inv.
  assert (wf (copySchema base).1 (copySchema base).2) as Hwf
    by (destruct base as [h s]; by apply copySchema_spec).
  exists (mkWorld (copySchema base).2 (copySchema base).1 () 0), w'. split_and!.
  3: { apply (replaySegment_inverted "" migs _ r); [exact Hwf|exact Hr|].
       apply Forall2_reverse in Hinv. by rewrite reverse_involutive in Hinv. }
  - exact Hwf.
  - intros n. change (recorded (copySchema base) n = copyTable <$> recorded base n).
    by apply copySchema_recorded.
  - intros inv op Hi. apply list_elem_of_lookup in Hi as [i Hi].
    destruct (Forall2_lookup_r _ _ _ _ _ Hinv Hi) as (mp & _ & Hmp).
    by eapply invertMigration_inverse_ok.
Qed.

(** C33. Raw SQL taints a replay.  A segment in which an operation whose
    inverse reads the state it ran on comes after raw SQL, in the same
    migration or a later one, is never inverted: the states reconstructed
    after raw SQL may be wrong. *)
Theorem InvertSegment_tainted migs base before raw between op after :
  Forall (λ m, Migration_Name m ≠ "") migs →
  migs ≫= Migration_Operations = before ++ RawSQL_ raw :: between ++ op :: after →
  invertReadsPreState op = true → is_ok (InvertSegment migs base) = false.
Proof.
  intros Hn Hops Hop. destruct (InvertSegment migs base) as [invs| | |] eqn:Hi; [|done..].
  destruct (InvertSegment_inv _ _ _ Hi) as (r & w' & Hr & _).
  destruct (replaySegment_ok _ _ _ _ _ Hn Hr) as (Ht & _). rewrite Hops in Ht.
  apply trusted_app in Ht as [_ [_ Ht]]. apply trusted_app in Ht as [_ [Ht _]].
  rewrite Ht in Hop; [done|]. cbn [isRawSQL]. by rewrite orb_true_r.
Qed.
End segments.

(** ** Inverses restore what was there *)

Lemma map_of_lookup cols f c : c ∈ cols → map_of cols f !! c = Some (f c).
Proof.
  unfold map_of. induction cols as [|d cols IH]; [by intros ?%elem_of_nil|]. cbn.
  destruct (decide (d = c)) as [->|Hne]; [by rewrite lookup_insert_eq|].
  intros [->|Hc]%elem_of_cons; [done|]. rewrite lookup_insert_ne by done. by apply IH.
Qed.

Section roundtrips.
Context `{!Pq}.

(** Dropping a created constraint and inverting the drop creates it
    again.  The inverse of a [create_constraint] of a unique, check or
    foreign-key constraint drops it; on any schema in which the table
    records the constraint with these columns, the inverse of that drop is a
    [create_constraint] of the same name, table, type and columns whose up
    and down expressions are those of the original (the column itself where
    the original had none). *)
Lemma constraint_inverse_roundtrip pre post o t ty check ni refs :
  o.(OpCreateConstraint_Type) ≠ OpCreateConstraintTypePrimaryKey →
  snap_table post o.(OpCreateConstraint_Table) = Some t →
  recoveredConstraint t o.(OpCreateConstraint_Name) =
    Some (ty, check, o.(OpCreateConstraint_Columns), ni, refs) →
  ∃ drop o', Invert pre (CreateConstraint_ o) = Some (Ok [drop]) ∧
    Invert post drop = Some (Ok [CreateConstraint_ o']) ∧
    o'.(OpCreateConstraint_Name) = o.(OpCreateConstraint_Name) ∧
    o'.(OpCreateConstraint_Table) = o.(OpCreateConstraint_Table) ∧
    o'.(OpCreateConstraint_Columns) = o.(OpCreateConstraint_Columns) ∧
    o'.(OpCreateConstraint_Type) = ty ∧ o'.(OpCreateConstraint_Check) = check ∧
    o'.(OpCreateConstraint_References) = refs ∧
    ∀ c, c ∈ o.(OpCreateConstraint_Columns) →
      o'.(OpCreateConstraint_Up) !! c =
        Some (or_identity c (default "" (o.(OpCreateConstraint_Up) !! c))) ∧
      o'.(OpCreateConstraint_Down) !! c =
        Some (or_identity c (default "" (o.(OpCreateConstraint_Down) !! c))).
Proof.
  intros Hty Ht Hrec. cbn [Invert]. unfold CreateConstraint_Invert. rewrite decide_False by done.
  do 2 eexists. split; [reflexivity|]. cbn [Invert].
  unfold DropMultiColumnConstraint_Invert, invertConstraintDrop, snap_table_or. cbn.
  rewrite Ht. cbn. rewrite Hrec. split; [reflexivity|]. cbn.
  split_and!; try done. intros c Hc. rewrite !map_of_lookup by done. done.
Qed.

(** *** Renames *)

Lemma updateColumns_undo from to cols : to ∉ cols →
  updateColumns to from (updateColumns from to cols) = cols.
Proof.
  unfold updateColumns. induction cols as [|c cols IH]; [done|].
  intros [Hne Hn]%not_elem_of_cons. rewrite !fmap_cons, IH by done. f_equal.
  destruct (decide (c = from)) as [->|]; [by rewrite decide_True|].
  by rewrite decide_False.
Qed.

Lemma fmap_undo {A} (m : gmap string A) (f g : A → A) :
  (∀ k x, m !! k = Some x → g (f x) = x) → g <$> (f <$> m) = m.
Proof.
  intros Hgf. apply map_eq. intros k. rewrite !lookup_fmap.
  destruct (m !! k) as [x|] eqn:Hk; [|done]. cbn. by rewrite (Hgf k x Hk).
Qed.

(** [to] is a name the table does not use. *)
Record fresh_column (t : Table) (to : string) : Prop := {
  fresh_columns : t.(Table_Columns) !! to = None;
  fresh_fks : ∀ k fk, t.(Table_ForeignKeys) !! k = Some fk → to ∉ fk.(ForeignKey_Columns);
  fresh_uniques : ∀ k uc, t.(Table_UniqueConstraints) !! k = Some uc →
    to ∉ uc.(UniqueConstraint_Columns);
  fresh_checks : ∀ k cc, t.(Table_CheckConstraints) !! k = Some cc →
    to ∉ cc.(CheckConstraint_Columns);
}.

Lemma mkTable_eq oid nm cm cols cols' ixs pk fks fks' chs chs' ucs ucs' exs del cr :
  cols' = cols → fks' = fks → chs' = chs → ucs' = ucs →
  mkTable oid nm cm cols' ixs pk fks' chs' ucs' exs del cr =
  mkTable oid nm cm cols ixs pk fks chs ucs exs del cr.
Proof. by intros -> -> -> ->. Qed.

Lemma renameColumnIn_eq from to oid nm cm cols ixs pk fks chs ucs exs del cr :
  renameColumnIn from to (mkTable oid nm cm cols ixs pk fks chs ucs exs del cr) =
  mkTable oid nm cm (delete from (<[to := mjoin (cols !! from)]> cols)) ixs pk
    ((λ fk, mkForeignKey fk.(ForeignKey_Name) (updateColumns from to fk.(ForeignKey_Columns))
            fk.(ForeignKey_ReferencedTable) fk.(ForeignKey_ReferencedColumns)
            fk.(ForeignKey_OnDelete) fk.(ForeignKey_OnDeleteSetColumns)
            fk.(ForeignKey_OnUpdate) fk.(ForeignKey_MatchType)) <$> fks)
    ((λ cc, mkCheckConstraint cc.(CheckConstraint_Name)
            (updateColumns from to cc.(CheckConstraint_Columns))
            cc.(CheckConstraint_Definition) cc.(CheckConstraint_NoInherit)) <$> chs)
    ((λ uc, mkUniqueConstraint uc.(UniqueConstraint_Name)
            (updateColumns from to uc.(UniqueConstraint_Columns))) <$> ucs) exs del cr.
Proof. reflexivity. Qed.

Lemma renameColumnIn_undo from to t :
  fresh_column t to → is_Some (t.(Table_Columns) !! from) →
  renameColumnIn to from (renameColumnIn from to t) = t.
Proof.
  intros [Hc Hf Hu Hk] [c Hfrom]. destruct t as [oid nm cm cols ixs pk fks chs ucs exs del cr].
  cbn [Table_Columns Table_ForeignKeys Table_CheckConstraints Table_UniqueConstraints] in *.
  rewrite !renameColumnIn_eq.
  apply mkTable_eq.
  - rewrite Hfrom. cbn [mjoin option_join]. assert (from ≠ to) by congruence.
    rewrite lookup_delete_ne, lookup_insert_eq by done. cbn [mjoin option_join].
    apply map_eq. intros n. destruct (decide (n = to)) as [->|]; [by rewrite lookup_delete_eq|].
    rewrite lookup_delete_ne by done. destruct (decide (n = from)) as [->|].
    + by rewrite lookup_insert_eq.
    + by rewrite lookup_insert_ne, lookup_delete_ne, lookup_insert_ne.
  - apply fmap_undo. intros k [] Hx. cbn. f_equal. by apply updateColumns_undo, (Hf _ _ Hx).
  - apply fmap_undo. intros k [] Hx. cbn. f_equal. by apply updateColumns_undo, (Hk _ _ Hx).
  - apply fmap_undo. intros k [] Hx. cbn. f_equal. by apply updateColumns_undo, (Hu _ _ Hx).
Qed.

Definition is_rename (op : Operation) : bool :=
  match op with RenameColumn_ _ | RenameTable_ _ | RenameConstraint_ _ => true | _ => false end.

(** What the schema must not use for a rename to be undone exactly: a
    column of the new name, even a deleted one, or a constraint on one *)
Definition rename_fresh (w : World ()) (op : Operation) : Prop :=
  match op with
  | RenameColumn_ o => ∀ t, table_of w o.(OpRenameColumn_Table) = Some t →
      fresh_column t o.(OpRenameColumn_To)
  | _ => True
  end.

Lemma RenameColumn_undone o w r w1 :
  rename_fresh w (RenameColumn_ o) → RenameColumn_Start o w = (Ok r, w1) →
  ∃ w2, RenameColumn_Start (mkOpRenameColumn (OpRenameColumn_To o) (OpRenameColumn_Table o)
          (OpRenameColumn_From o)) w1 = (Ok None, w2) ∧
    w_schema w2 = w_schema w ∧ w_heap w2 = w_heap w.
Proof.
  intros Hfresh Hs. unfold RenameColumn_Start in Hs. inv_steps.
  match goal with HU : update_table _ _ _ = (Ok _, _) |- _ =>
    apply (f_equal snd) in HU; cbn [snd update_table modify] in HU; subst end.
  match goal with HT : GetTable _ _ _ = Some ?a, HA : table_at _ ?a ?b, HC : column_at ?b _ ?d |- _ =>
    rename HT into Hl, HA into Ht, HC into Hc; rename a into l, b into t, d into c end.
  cbn in Hfresh. specialize (Hfresh t (table_of_at _ _ _ _ Hl Ht)).
  unfold RenameColumn_Start. cbn.
  set (w1 := set_w_heap _ w). set (t1 := renameColumnIn (OpRenameColumn_From o) (OpRenameColumn_To o) t).
  assert (table_at w1 l t1) as Ht1.
  { unfold table_at, w1. cbn. by rewrite lookup_alter_eq, Ht. }
  assert (column_at t1 (OpRenameColumn_To o) c) as Hc1.
  { destruct Hc as [Hc Hd]. split; [|done]. unfold t1, renameColumnIn. cbn. rewrite Hc.
    assert (OpRenameColumn_From o ≠ OpRenameColumn_To o)
      by (destruct Hfresh as [Hn _ _ _]; congruence).
    by rewrite lookup_delete_ne, lookup_insert_eq. }
  erewrite run_bind; [|apply table_or_ok; split; [|done]].
  2: { apply GetTable_Some in Hl as (Hn & t' & Ht' & Hd). apply GetTable_Some.
       split; [exact Hn|]. exists t1. split; [exact Ht1|].
       unfold table_at in Ht. assert (t' = t) as -> by congruence. exact Hd. }
  erewrite run_bind by (apply column_named_ok; by exists t1).
  eexists. split; [reflexivity|]. split; [done|]. cbn. apply map_eq. intros l'.
  destruct (decide (l' = l)) as [->|Hne].
  - rewrite !lookup_alter_eq. unfold table_at in Ht. rewrite Ht. cbn [fmap option_fmap option_map].
    f_equal. apply renameColumnIn_undo; [done|].
    destruct Hc as [-> _]. by eexists.
  - by rewrite !lookup_alter_ne.
Qed.

(** A rename is undone by its inverse.  The inverse of a rename is one
    rename; inverting that gives the original back; and starting the rename
    and then its inverse leaves the virtual schema as it was: the same
    tables, columns and constraints under the same names, soft-deleted
    tables that the rename shadowed included. *)
Theorem rename_inverse pre pre' op (w w1 : World ()) r :
  world_wf w → is_rename op = true → rename_fresh w op →
  Start virtualFuel op w = (Ok r, w1) →
  ∃ op' w2, Invert pre op = Some (Ok [op']) ∧ Invert pre' op' = Some (Ok [op]) ∧
    Start virtualFuel op' w1 = (Ok None, w2) ∧
    w_heap w2 = w_heap w ∧ schema_equiv (w_schema w2) (w_schema w).
Proof.
  intros Hwf Hop Hfresh Hs. destruct op as [| | | | | | | | | | |o|o|o|]; try done;
    cbn [Start Invert] in *.
  - destruct (RenameColumn_undone o w r w1 Hfresh Hs) as (w2 & Hs2 & Hsch & Hh).
    do 2 eexists. split; [reflexivity|]. split; [by destruct o|]. split; [exact Hs2|].
    by rewrite Hsch.
  - injection Hs as <- <-. do 2 eexists. split; [reflexivity|]. split; [by destruct o|].
    split; [reflexivity|]. done.
  - unfold RenameTable_Start in Hs. apply bind_ok in Hs as ([] & w' & Hs & [= <- ->]).
    unfold s_RenameTable in Hs.
    destruct (RenameTable (w_heap w) (OpRenameTable_From o) (OpRenameTable_To o) (w_schema w))
      as [s'| | |] eqn:Hr; try done. injection Hs as <-.
    destruct (RenameTable_undo _ _ _ _ _ Hwf Hr) as (s'' & Hr'' & Heq).
    exists (RenameTable_ (mkOpRenameTable (OpRenameTable_To o) (OpRenameTable_From o))),
      (set_w_schema s'' (set_w_schema s' w)).
    split; [reflexivity|]. split; [by destruct o|]. split; [|by split].
    cbn [Start]. unfold RenameTable_Start, mbind, prog_bind, s_RenameTable. cbn. by rewrite Hr''.
Qed.
End roundtrips.

(** ** Witnesses *)

Definition sample_snapshot : snapshot := (sample_heap, sample_schema).

Definition sample_segment : list Migration :=
  [mkMigration "02_add" "" [AddColumn_ (mkOpAddColumn
      (mkMigColumn None None None None "age" true false None "int" true) "users" "")]
     [] [] false false [] "";
   mkMigration "03_drop" "" [DropColumn_ (mkOpDropColumn "name" "''" "users");
      RenameTable_ (mkOpRenameTable "users" "people")] [] [] false false [] ""].

Lemma InvertSegment_spec_witness :
  ∃ inv3 inv2 w w', InvertSegment sample_segment sample_snapshot = Ok [inv3; inv2] ∧
    OperationName <$> Migration_Operations inv3 = ["rename_table"; "add_column"] ∧
    recorded (w_heap w, w_schema w) "users" = Some sample_users ∧
    segment_inverted w sample_segment [inv2; inv3] w'.
Proof.
  assert (∃ inv3 inv2, InvertSegment sample_segment sample_snapshot = Ok [inv3; inv2] ∧
    OperationName <$> Migration_Operations inv3 = ["rename_table"; "add_column"])
    as (inv3 & inv2 & Hi & Ho) by (do 2 eexists; split; vm_compute; reflexivity).
  destruct (InvertSegment_spec sample_segment sample_snapshot [inv3; inv2]
    (wf_heap _ _ sample_wf) Hi) as (w & w' & _ & Hr & Hs & _).
  exists inv3, inv2, w, w'. split; [exact Hi|]. split; [exact Ho|]. split; [exact (Hr "users")|].
  exact Hs.
Defined.

Lemma InvertSegment_tainted_witness :
  let raw := mkOpRawSQL "SELECT 2" false "SELECT 1" in
  let drop := DropColumn_ (mkOpDropColumn "name" "''" "users") in
  let migs := [mkMigration "02_sql" "" [RawSQL_ raw] [] [] false false [] "";
               mkMigration "03_drop" "" [drop] [] [] false false [] ""] in
  is_ok (InvertSegment migs sample_snapshot) = false.
Proof.
  intros raw drop migs.
  apply (InvertSegment_tainted migs sample_snapshot [] raw [] drop []);
    [repeat constructor; discriminate|reflexivity|reflexivity].
Defined.

Lemma copySchema_spec_witness :
  snap_table (copySchema sample_snapshot) "users" = Some sample_users ∧
  snap_table (copySchema sample_snapshot) "missing" = None.
Proof.
  destruct (copySchema_spec sample_heap sample_schema (wf_heap _ _ sample_wf)) as [H _].
  split; [exact (H "users")|exact (H "missing")].
Defined.

Definition sample_create_constraint : OpCreateConstraint :=
  mkOpCreateConstraint (Some "name > 0") ["name"] {["name" := "''"]} None "name_check" false None
    "users" OpCreateConstraintTypeCheck {["name" := "upper(name)"]}.

Lemma constraint_inverse_roundtrip_witness :
  ∃ drop o', Invert sample_snapshot (CreateConstraint_ sample_create_constraint) = Some (Ok [drop]) ∧
    Invert sample_snapshot drop = Some (Ok [CreateConstraint_ o']) ∧
    o'.(OpCreateConstraint_Check) = Some "(name > 0)" ∧
    o'.(OpCreateConstraint_Up) !! "name" = Some "upper(name)".
Proof.
  assert (snap_table sample_snapshot "users" = Some sample_users) as Ht by reflexivity.
  destruct (constraint_inverse_roundtrip sample_snapshot sample_snapshot sample_create_constraint
    sample_users OpCreateConstraintTypeCheck (Some "(name > 0)") false None)
    as (drop & o' & H1 & H2 & _ & _ & _ & _ & H3 & _ & H4); [discriminate|exact Ht|reflexivity|].
  exists drop, o'. split; [exact H1|]. split; [exact H2|]. split; [exact H3|].
  destruct (H4 "name") as [Hup _]; [left|]. exact Hup.
Defined.

Lemma rename_inverse_witness :
  let op := RenameColumn_ (mkOpRenameColumn "name" "users" "title") in
  ∃ r w1 w2, Start virtualFuel op sample_world = (Ok r, w1) ∧
    Start virtualFuel (RenameColumn_ (mkOpRenameColumn "title" "users" "name")) w1 = (Ok None, w2) ∧
    w_heap w2 = sample_heap.
Proof.
  intros op.
  assert (∃ r w1, Start virtualFuel op sample_world = (Ok r, w1)) as (r & w1 & Hs)
    by (do 2 eexists; vm_compute; reflexivity).
  assert (rename_fresh sample_world op) as Hf.
  { assert (table_of sample_world "users" = Some sample_users) as Hu by reflexivity.
    intros t Ht. change (table_of sample_world "users" = Some t) in Ht. rewrite Hu in Ht.
    injection Ht as <-. split; [reflexivity| | |]; intros k x Hx Hin; unfold sample_users in Hx;
      cbn [Table_ForeignKeys Table_UniqueConstraints Table_CheckConstraints] in Hx.
    - by rewrite lookup_empty in Hx.
    - apply lookup_singleton_Some in Hx as [_ <-]. by apply list_elem_of_singleton in Hin.
    - apply lookup_singleton_Some in Hx as [_ <-]. by apply list_elem_of_singleton in Hin. }
  destruct (rename_inverse sample_snapshot sample_snapshot op sample_world w1 r sample_wf eq_refl Hf Hs)
    as (op' & w2 & Hi & _ & Hs2 & Hh & _).
  exists r, w1, w2. split; [exact Hs|]. split; [|exact Hh].
  injection Hi as <-. exact Hs2.
Defined.

(** ** Check definitions *)

Lemma trim_right_last a c :
  is_space c = false → trim_right (a +:+ String c "") = a +:+ String c "".
Proof.
  intros Hc. induction a as [|x a IH]; cbn; [by rewrite Hc|].
  rewrite IH. by destruct (a +:+ String c "") eqn:He; [destruct a|].
Qed.

(** The expression of a check constraint is recovered from PostgreSQL's
    definition of it: stripping [CHECK (e)] gives [e] without surrounding
    white space, so [e] itself when there is none. *)
Theorem stripCheckDefinition_spec e :
  stripCheckDefinition ("CHECK (" +:+ e +:+ ")") = TrimSpace e.
Proof.
  unfold stripCheckDefinition.
  assert (TrimSpace ("CHECK (" +:+ e +:+ ")") = "CHECK (" +:+ e +:+ ")") as ->.
  { unfold TrimSpace. change (trim_left ("CHECK (" +:+ e +:+ ")")) with (("CHECK (" +:+ e) +:+ ")").
    by rewrite trim_right_last. }
  change (HasPrefix (ToUpper ("CHECK (" +:+ e +:+ ")")) "CHECK") with true. cbv iota.
  assert (TrimSpace (drop_str 5 ("CHECK (" +:+ e +:+ ")")) = "(" +:+ e +:+ ")") as ->.
  { unfold TrimSpace. change (trim_left (drop_str 5 ("CHECK (" +:+ e +:+ ")")))
      with (("(" +:+ e) +:+ ")"). by rewrite trim_right_last. }
  rewrite HasPrefix_app. change ("(" +:+ e +:+ ")") with (("(" +:+ e) +:+ ")").
  rewrite HasSuffix_app. cbn [andb].
  change (drop_str 1 (("(" +:+ e) +:+ ")")) with (e +:+ ")").
  rewrite !length_app_str. replace (_ - 2) with (String.length e) by (cbn; lia).
  by rewrite take_app_str.
Qed.

(** The definitions pgroll registers itself are bare expressions, and one that
    starts and ends with a parenthesis loses them; so does the definition of a
    constraint that is not validated keep its suffix. *)
Lemma stripCheckDefinition_gaps :
  stripCheckDefinition "(a > 0) OR (b > 0)" = "a > 0) OR (b > 0" ∧
  stripCheckDefinition "CHECK ((a > 0)) NOT VALID" = "((a > 0)) NOT VALID".
Proof. split; reflexivity. Qed.

(** The first gap is reached by a segment that creates such a check and drops
    it again: the inverse creates a constraint with unbalanced parentheses. *)
Lemma inverted_check_unbalanced :
  let create := AlterColumn_ (mkOpAlterColumn
    (Some (mkMigCheckConstraint "(name > 0) OR (name < 9)" "c2" false)) "name" Unspecified
    Unspecified "name" None None "users" None None "name") in
  let drop := DropMultiColumnConstraint_ (mkOpDropMultiColumnConstraint
    (Some {["name" := "name"]}) "c2" "users" None) in
  let seg := [mkMigration "02" "" [create] [] [] false false [] "";
              mkMigration "03" "" [drop] [] [] false false [] ""] in
  match InvertSegment seg sample_snapshot with
  | Ok [inv; _] =>
      match inv.(Migration_Operations) with
      | [CreateConstraint_ o] => o.(OpCreateConstraint_Check)
      | _ => None
      end
  | _ => None
  end = Some "name > 0) OR (name < 9".
Proof. vm_compute. reflexivity. Qed.
