(* ===== verification/LocalSet.v ===== *)
(** * LocalSet: reading a migrations directory

    [CollectFilesFromDir], [MigrationNameFromFile] and [ReadRawMigration]
    ([op_common.go]), the target filter [resolveLocalSet] ([localset.go]),
    the loop of [latestMigrationLocal] ([latest.go]) and [MissingMigrations]
    ([missing.go]).  Opening and decoding a file (JSON and YAML libraries) is
    a parameter: [dir_decode] returns the migration the decoder leaves, its
    name still empty. *)

From S2P Require Import Prelude.
From S2P Require Import GoStd.
From S2P Require Import Types.
From S2P Require Import Migration.

(** [RawMigration]; [Targets] tells an absent field ([None]) from an empty
    one. The operations stay encoded. *)
Record RawMigration := mkRawMigration {
  RawMigration_Name : string;
  RawMigration_VersionSchema : string;
  RawMigration_Operations : string;
  RawMigration_DependsOn : list string;
  RawMigration_Preconditions : list Precondition;
  RawMigration_Irreversible : bool;
  RawMigration_Baseline : bool;
  RawMigration_Targets : option (list string);
  RawMigration_RevertOf : string;
}.

Definition set_RawMigration_Name (n : string) (m : RawMigration) : RawMigration :=
  mkRawMigration n m.(RawMigration_VersionSchema) m.(RawMigration_Operations)
    m.(RawMigration_DependsOn) m.(RawMigration_Preconditions) m.(RawMigration_Irreversible) m.(RawMigration_Baseline)
    m.(RawMigration_Targets) m.(RawMigration_RevertOf).

(** [m.Targets] as a slice *)
Definition targets_of (m : RawMigration) : list string := default [] m.(RawMigration_Targets).

(** A directory: the names of its entries in the order [fs.ReadDir] lists
    them, and the decoded files *)
Class Dir := {
  dir_entries : list string;
  dir_decode : string → outcome error RawMigration;
}.

(** ** File names *)

(** [filepath.Ext] of a name without separators *)
Fixpoint last_dot (s : string) : option string :=
  match s with
  | "" => None
  | String c s' =>
      match last_dot s' with
      | Some e => Some e
      | None => if Ascii.eqb c "."%char then Some s else None
      end
  end.
Definition filepath_Ext (name : string) : string := default "" (last_dot name).

Definition MigrationNameFromFile (filename : string) : string :=
  TrimSuffix filename (filepath_Ext filename).

(** [fs.Glob] for each of the three patterns, then a sort by the whole file
    name *)
Definition CollectFilesFromDir `{!Dir} : list string :=
  slices_Sort ([".json"; ".yml"; ".yaml"] ≫= λ ext,
    filter (λ f, HasSuffix f ext = true) dir_entries).

(** ** Errors *)

Definition ErrTargetRequired : error := Errorf "migration declares no targets" [].
Definition ErrNoMigrationFiles : error := Errorf "no migration files found" [].

Definition TargetRequiredError (file target : string) (declaredEmpty : bool) : error :=
  if declaredEmpty then
    ErrorfW "%w: migration file %q declares an empty `targets` list; omit the field or name at least one target"
      [file] ErrTargetRequired
  else
    ErrorfW "%w: migration file %q must declare `targets` (--target %q is in effect); name the target(s) this migration belongs to, for example `targets: [%s]`. There is no default target"
      [file; target; target] ErrTargetRequired.

(** [errors.Is] along a chain of wrapped errors *)
Fixpoint errors_Is (e target : error) : Prop :=
  e = target ∨
  match e with
  | ErrorfW _ _ e' => errors_Is e' target
  | ColumnReferenceError _ _ e' => errors_Is e' target
  | CheckConstraintError _ _ _ e' => errors_Is e' target
  | JoinError e1 e2 => errors_Is e1 target ∨ errors_Is e2 target
  | _ => False
  end.

#[export] Instance errors_Is_dec e target : Decision (errors_Is e target).
Proof. induction e; cbn; apply _. Defined.

Section LocalSet.
Context `{!Dir}.

Definition ReadRawMigration (filename : string) : outcome error RawMigration :=
  match dir_decode filename with
  | Ok m => Ok (set_RawMigration_Name (MigrationNameFromFile filename) m)
  | Err e => Err e
  | Panic => Panic
  | OutOfFuel => OutOfFuel
  end.

(** [fmt.Errorf(format, file, err)] around [ReadRawMigration] *)
Definition read_raw (format filename : string) : outcome error RawMigration :=
  match ReadRawMigration filename with
  | Err e => Err (ErrorfW format [filename] e)
  | r => r
  end.

(** ** The target filter *)

Record localSet := mkLocalSet {
  All : list RawMigration;
  Selected : list RawMigration;
  Excluded : gset string;
}.

(** The loop over the files: the files read so far and the names the target
    excludes *)
Fixpoint readLocalSet (baselineName target : string) (applied : gset string)
    (files : list string) : outcome error (list RawMigration * gset string) :=
  match files with
  | [] => Ok ([], ∅)
  | file :: files =>
      if String.leb (MigrationNameFromFile file) baselineName then
        readLocalSet baselineName target applied files
      else
        mig ← read_raw "reading migration file %q: %w" file;
        if negb (bool_decide (target = ""))
           && bool_decide (mig.(RawMigration_Name) ∉ applied)
           && bool_decide (targets_of mig = [])
        then Err (TargetRequiredError file target
                    (bool_decide (is_Some mig.(RawMigration_Targets))))
        else
          '(all, excluded) ← readLocalSet baselineName target applied files;
          Ok (mig :: all,
              if SelectedBy (targets_of mig) target then excluded
              else {[ mig.(RawMigration_Name) ]} ∪ excluded)
  end.

Definition resolveLocalSet (baselineName : string) (applied : gset string) (target : string) :
    outcome error localSet :=
  '(all, excluded) ← readLocalSet baselineName target applied CollectFilesFromDir;
  Ok (mkLocalSet all
        (if decide (target = "") then all
         else filter (λ m, RawMigration_Name m ∉ excluded) all) excluded).

(** ** Latest and missing migrations *)

(** The loop of [latestMigrationLocal], newest file first *)
Fixpoint latestIn {A} (parse : string → RawMigration → outcome error A) (target : string)
    (files : list string) : outcome error A :=
  match files with
  | [] => Err ErrNoMigrationFiles
  | file :: files =>
      raw ← read_raw "reading migration file %q: %w" file;
      if negb (bool_decide (target = "")) && bool_decide (targets_of raw = []) then
        Err (TargetRequiredError file target
               (bool_decide (is_Some raw.(RawMigration_Targets))))
      else if SelectedBy (targets_of raw) target then parse file raw
      else latestIn parse target files
  end.

Definition MissingMigrations (history : list RawMigration) :
    outcome error (list RawMigration) :=
  migs ← map_outcome (read_raw "reading migration file %s: %w") CollectFilesFromDir;
  let localMigNames : gset string := list_to_set (RawMigration_Name <$> migs) in
  Ok (filter (λ h, RawMigration_Name h ∉ localMigNames) history).
End LocalSet.
