(* ===== verification/OpsJson.v ===== *)
(** * OpsJson: operations as JSON

    [Operations.UnmarshalJSON], [Operations.MarshalJSON] and
    [ParseMigration] ([op_common.go]), and the local half of [latest.go].
    [encoding/json] is a class: what the package decodes from a text and
    encodes into one. *)

From stdpp Require Import gmap strings pretty.
From S2P Require Import Prelude.
From S2P Require Import GoStd.
From S2P Require Import Types.
From S2P Require Import Operations.
From S2P Require Import Migration.
From S2P Require Import LocalSet.

(** [json_syntax]: the syntax error of a text; [json_objects]: a text as
    [[]map[string]json.RawMessage], [None] when it is of another type;
    [json_decode op body]: the strict decoding of [body] into the operation
    [op] points to; [json_encode]: an operation's own text, without the newline
    [Encode] writes after it. *)
Class OperationJson := {
  json_syntax : string → option error;
  json_objects : string → option (list (gmap string string));
  json_decode : Operation → string → outcome error Operation;
  json_encode : Operation → outcome error string;
}.

(** The quotation mark *)
Definition quote : Ascii.ascii := Ascii.ascii_of_nat 34.

Definition newline : string := String (Ascii.ascii_of_nat 10) "".

Section OpsJson.
Context `{!OperationJson}.

Definition unmarshalOperation (i : nat) (opObj : gmap string string) : outcome error Operation :=
  match map_to_list opObj with
  | [(opName, logBody)] =>
      item ← OperationFromName opName;
      match json_decode item logBody with
      | Err e => Err (ErrorfW "decode migration [%v]: %w" [opName] e)
      | o => o
      end
  | keys => Err (Errorf "multiple keys in operation object at index %d: %v"
                   [pretty i; Join keys.*1 ", "])
  end.

Fixpoint unmarshalOperations (i : nat) (tmp : list (gmap string string)) :
    outcome error (list Operation) :=
  match tmp with
  | [] => Ok []
  | opObj :: tmp =>
      op ← unmarshalOperation i opObj;
      ops ← unmarshalOperations (S i) tmp;
      Ok (op :: ops)
  end.

(** A text that is not an array of objects leaves the slice nil, without an
    error. *)
Definition Operations_UnmarshalJSON (data : string) : outcome error (list Operation) :=
  match json_objects data with
  | None => Ok []
  | Some tmp => unmarshalOperations 0 tmp
  end.

Definition ParseMigration (raw : RawMigration) : outcome error Migration :=
  let parsing := ErrorfW "parsing operations: %w" [] in
  match json_syntax raw.(RawMigration_Operations) with
  | Some e => Err (parsing e)
  | None =>
      match Operations_UnmarshalJSON raw.(RawMigration_Operations) with
      | Err e => Err (parsing e)
      | o =>
          ops ← o;
          Ok (mkMigration raw.(RawMigration_Name) raw.(RawMigration_VersionSchema) ops
                raw.(RawMigration_DependsOn) raw.(RawMigration_Preconditions)
                raw.(RawMigration_Irreversible) raw.(RawMigration_Baseline) (targets_of raw)
                raw.(RawMigration_RevertOf))
      end
  end.

(** ** The latest migration of a directory *)

Definition parse_local (file : string) (raw : RawMigration) : outcome error Migration :=
  match ParseMigration raw with
  | Err e => Err (ErrorfW "reading migration file %q: %w" [file] e)
  | o => o
  end.
Definition latestMigrationLocal `{!Dir} (target : string) : outcome error Migration :=
  latestIn parse_local target (reverse CollectFilesFromDir).

Definition getting_latest {A} (o : outcome error A) : outcome error A :=
  match o with Err e => Err (ErrorfW "getting latest local migration: %w" [] e) | o => o end.
Definition LatestVersionLocal `{!Dir} (target : string) : outcome error string :=
  migration ← getting_latest (latestMigrationLocal target); Ok (VersionSchemaName migration).
Definition LatestMigrationNameLocal `{!Dir} (target : string) : outcome error string :=
  migration ← getting_latest (latestMigrationLocal target); Ok migration.(Migration_Name).

(** ** Encoding *)

Definition jsonKey (name : string) : string := String quote (name +:+ String quote "").

Definition marshalOperation (i : nat) (op : Operation) : outcome error string :=
  match json_encode op with
  | Err e => Err (ErrorfW "unable to encode op [%v]: %w" [pretty i] e)
  | o => body ← o; Ok ("{" +:+ jsonKey (OperationName op) +:+ ":" +:+ body +:+ newline +:+ "}")
  end.

(** The objects with a comma before each but the first *)
Fixpoint marshalOperations (i : nat) (ops : list Operation) : outcome error string :=
  match ops with
  | [] => Ok ""
  | op :: ops =>
      obj ← marshalOperation i op;
      rest ← marshalOperations (S i) ops;
      Ok ((if decide (i = 0) then "" else ",") +:+ obj +:+ rest)
  end.

Definition Operations_MarshalJSON (ops : list Operation) : outcome error string :=
  match ops with
  | [] => Ok "[]"
  | _ => objs ← marshalOperations 0 ops; Ok ("[" +:+ objs +:+ "]")
  end.
End OpsJson.

Section facts.
Context `{!OperationJson}.
Implicit Types (raw : RawMigration) (mig : Migration) (op item : Operation).

(** [opObj] is read as [op]. *)
Definition reads_as (opObj : gmap string string) op : Prop :=
  ∃ name body item, opObj = {[name := body]} ∧ OperationFromName name = Ok item ∧
    json_decode item body = Ok op.

Lemma map_to_list_one (obj : gmap string string) k v : map_to_list obj = [(k, v)] ↔ obj = {[k := v]}.
Proof.
  split; [|intros ->; apply map_to_list_singleton]. intros Hkv. apply map_to_list_inj.
  by rewrite Hkv, map_to_list_singleton.
Qed.

Lemma unmarshalOperation_ok i obj op : unmarshalOperation i obj = Ok op ↔ reads_as obj op.
Proof.
  unfold unmarshalOperation, reads_as. destruct (map_to_list obj) as [|[k v] [|kv l]] eqn:Hl.
  - split; [done|]. intros (n & b & item & -> & _). by rewrite map_to_list_singleton in Hl.
  - apply map_to_list_one in Hl as ->. destruct (OperationFromName k) as [item|e| |] eqn:Hk; cbn; split;
      try done; try (intros (n & b & it & Heq & Hn & _); apply map_singleton_inj in Heq as [-> ->]; congruence).
    + intros Hv. exists k, v, item. split_and!; [done..|]. by destruct (json_decode item v).
    + intros (n & b & it & Heq & Hn & Hd). apply map_singleton_inj in Heq as [-> ->].
      rewrite Hk in Hn. injection Hn as ->. by rewrite Hd.
  - split; [done|]. intros (n & b & item & -> & _). by rewrite map_to_list_singleton in Hl.
Qed.

Lemma unmarshalOperations_ok objs : ∀ i ops,
  unmarshalOperations i objs = Ok ops ↔ Forall2 reads_as objs ops.
Proof.
  induction objs as [|obj objs IH]; intros i ops; cbn [unmarshalOperations].
  - split; [by intros [= <-]|]. by intros ->%Forall2_nil_inv_l.
  - split.
    + intros (op & Hop & (rest & Hr & [= <-])%outcome_bind_ok)%outcome_bind_ok.
      apply unmarshalOperation_ok in Hop. constructor; [done|]. by apply (IH (S i)).
    + intros (op & rest & Hop & Hr & ->)%Forall2_cons_inv_l.
      apply (unmarshalOperation_ok i) in Hop. rewrite Hop. cbn.
      apply (IH (S i)) in Hr. by rewrite Hr.
Qed.

(** The migration of a file: the fields are those of the file, and the
    operations those its objects decode to. *)
Lemma ParseMigration_ok raw mig :
  ParseMigration raw = Ok mig ↔
  json_syntax raw.(RawMigration_Operations) = None ∧
  match json_objects raw.(RawMigration_Operations) with
  | None => mig.(Migration_Operations) = []
  | Some objs => Forall2 reads_as objs mig.(Migration_Operations)
  end ∧
  mig = mkMigration raw.(RawMigration_Name) raw.(RawMigration_VersionSchema)
          mig.(Migration_Operations) raw.(RawMigration_DependsOn) raw.(RawMigration_Preconditions)
          raw.(RawMigration_Irreversible) raw.(RawMigration_Baseline) (targets_of raw)
          raw.(RawMigration_RevertOf).
Proof.
  unfold ParseMigration, Operations_UnmarshalJSON.
  destruct (json_syntax _) as [e|]; [by split; [|intros [? _]]|].
  destruct (json_objects _) as [objs|].
  - destruct (unmarshalOperations 0 objs) as [ops|e| |] eqn:Ho; cbn; split; try done;
      try (intros (_ & Hf%(unmarshalOperations_ok objs 0) & _); congruence).
    + intros [= <-]. cbn. split_and!; [done| |done]. by apply (unmarshalOperations_ok objs 0).
    + intros (_ & Hf%(unmarshalOperations_ok objs 0) & ->). cbn in *. rewrite Ho in Hf. by injection Hf as ->.
  - cbn. split; [by intros [= <-]|]. intros (_ & Hn & ->). cbn in Hn. by rewrite Hn.
Qed.
Lemma ParseMigration_name raw mig :
  ParseMigration raw = Ok mig → mig.(Migration_Name) = raw.(RawMigration_Name).
Proof. by intros (_ & _ & ->)%ParseMigration_ok. Qed.

(** An encoded list of operations of another type than an array of objects
    is no error: the migration has no operations. *)
Lemma operations_of_another_type raw :
  json_syntax raw.(RawMigration_Operations) = None →
  json_objects raw.(RawMigration_Operations) = None →
  ∃ mig, ParseMigration raw = Ok mig ∧ mig.(Migration_Operations) = [].
Proof. intros Hs Ho. unfold ParseMigration, Operations_UnmarshalJSON. rewrite Hs, Ho. by eexists. Qed.

(** ** Encoding *)

(** The text of an array of objects of one key each, a newline after each
    value *)
Definition object_text (kv : string * string) : string :=
  "{" +:+ jsonKey kv.1 +:+ ":" +:+ kv.2 +:+ newline +:+ "}".
Definition array_text (kvs : list (string * string)) : string :=
  "[" +:+ Join (object_text <$> kvs) "," +:+ "]".

Definition encodes op (kv : string * string) : Prop :=
  kv.1 = OperationName op ∧ json_encode op = Ok kv.2.

Lemma Join_commas o os : Join (o :: os) "," = o +:+ foldr (λ o acc, "," +:+ o +:+ acc) "" os.
Proof. revert o. induction os as [|o' os IH]; intros o; cbn; [by rewrite app_nil_r_str|]. by rewrite <-IH. Qed.

Lemma marshalOperations_ok ops : ∀ i text,
  marshalOperations i ops = Ok text →
  ∃ kvs, Forall2 encodes ops kvs ∧
    text = match object_text <$> kvs with
           | [] => ""
           | o :: os => (if decide (i = 0) then "" else ",") +:+ Join (o :: os) ","
           end.
Proof.
  induction ops as [|op ops IH]; intros i text; cbn [marshalOperations].
  { intros [= <-]. by exists []. }
  intros (obj & Hobj & (rest & Hr & [= <-])%outcome_bind_ok)%outcome_bind_ok.
  apply IH in Hr as (kvs & Hk & ->). unfold marshalOperation in Hobj.
  destruct (json_encode op) as [body|e| |] eqn:He; try done. injection Hobj as <-.
  exists ((OperationName op, body) :: kvs). split; [by constructor|].
  rewrite fmap_cons, Join_commas. destruct (object_text <$> kvs) as [|o os]; [done|].
  by rewrite Join_commas.
Qed.

(** What the library's decoder returns for the operation it encoded *)
Definition decodes op : Prop :=
  ∀ body item, json_encode op = Ok body → OperationFromName (OperationName op) = Ok item →
    json_decode item body = Ok op.

Lemma operations_read ops kvs :
  Forall decodes ops → Forall2 encodes ops kvs →
  Forall2 reads_as ((λ kv, {[kv.1 := kv.2]}) <$> kvs) ops.
Proof.
  intros Hd. induction 1 as [|op [n body] ops kvs [Hn He] _ IH]; [constructor|]. cbn in Hn, He. subst n.
  apply Forall_cons in Hd as [Hop Hd]. constructor; [|by apply IH].
  assert (∃ item, OperationFromName (OperationName op) = Ok item) as [item Hi] by (destruct op; by eexists).
  exists (OperationName op), body, item. split_and!; [done..|]. by apply Hop.
Qed.

(** The library reads the text of such an array back: it is valid, and the raw
    value of each key is what was encoded, without the white space around it. *)
Definition reads_back ops : Prop :=
  ∀ kvs, Forall2 encodes ops kvs →
    json_syntax (array_text kvs) = None ∧
    json_objects (array_text kvs) = Some ((λ kv, {[kv.1 := kv.2]}) <$> kvs).

End facts.

(** ** A migration of two operations

    A small library whose values are objects of strings without a closing
    brace; white space between the tokens is skipped. *)

(** The text before the first [c] and the text after it *)
Fixpoint upto (c : Ascii.ascii) (s : string) : string * string :=
  match s with
  | "" => ("", "")
  | String d s => if Ascii.eqb c d then ("", s) else let '(a, b) := upto c s in (String d a, b)
  end.

Definition skip (c : Ascii.ascii) (s : string) : option string :=
  match trim_left s with
  | String d s => if Ascii.eqb c d then Some s else None
  | "" => None
  end.

Definition scan_object (s : string) : option ((string * string) * string) :=
  s ← skip "{"%char s; s ← skip quote s;
  let '(k, s) := upto quote s in
  s ← skip ":"%char s;
  let '(v, s) := upto "}"%char (trim_left s) in
  s ← skip "}"%char s; Some ((k, v +:+ "}"), s).

Fixpoint scan_objects (fuel : nat) (s : string) : option (list (string * string)) :=
  match fuel with
  | 0 => None
  | S fuel =>
      '(obj, s) ← scan_object s;
      match skip ","%char s with
      | Some s => objs ← scan_objects fuel s; Some (obj :: objs)
      | None => s ← skip "]"%char s; if decide (s = "") then Some [obj] else None
      end
  end.

Definition scan_array (text : string) : option (list (string * string)) :=
  s ← skip "["%char text; scan_objects (String.length s) s.

Definition sample_encode (op : Operation) : string :=
  match op with
  | RenameTable_ o => "{" +:+ jsonKey "from" +:+ ":" +:+ jsonKey o.(OpRenameTable_From) +:+ "," +:+
                      jsonKey "to" +:+ ":" +:+ jsonKey o.(OpRenameTable_To) +:+ "}"
  | DropTable_ o => "{" +:+ jsonKey "name" +:+ ":" +:+ jsonKey o.(OpDropTable_Name) +:+ "}"
  | _ => "{}"
  end.

Definition two_operations : list Operation :=
  [RenameTable_ (mkOpRenameTable "users" "people"); DropTable_ (mkOpDropTable "old")].
Definition one_keys (kvs : list (string * string)) : list (gmap string string) :=
  (λ kv, {[kv.1 := kv.2]}) <$> kvs.
#[local] Instance two_operations_json : OperationJson := {|
  json_syntax _ := None;
  json_objects text := one_keys <$> scan_array text;
  json_decode _ body :=
    default (Err (Errorf "unexpected end of JSON input" []))
      (Ok <$> List.find (λ op, String.eqb (sample_encode op) body) two_operations);
  json_encode op := Ok (sample_encode op);
|}.

Lemma two_operations_reads_back : reads_back two_operations.
Proof.
  intros kvs Hk. apply Forall2_cons_inv_l in Hk as ([k1 v1] & kvs1 & [Hk1 Hv1] & Hk & ->).
  apply Forall2_cons_inv_l in Hk as ([k2 v2] & kvs2 & [Hk2 Hv2] & Hk & ->).
  apply Forall2_nil_inv_l in Hk as ->. cbn in Hk1, Hk2. subst k1 k2.
  injection Hv1 as <-. injection Hv2 as <-. split; [reflexivity|].
  match goal with |- json_objects (array_text ?kvs) = _ =>
    assert (scan_array (array_text kvs) = Some kvs) as Hs by (vm_compute; reflexivity) end.
  cbn [json_objects two_operations_json]. by rewrite Hs.
Qed.

