(* ===== verification/Deps.v ===== *)
(** * Deps: dependency checks and the order of application

    [validateDependencies] and [TopoSortMigrations] ([depends.go]) and
    [ResolveMigrations] ([unapplied.go]).  The scan for the best candidate
    ranges over a Go map; the positions it compares are pairwise different,
    so its result does not depend on the order. *)

From S2P Require Import Prelude.
From S2P Require Import GoStd.
From S2P Require Import Types.
From S2P Require Import Migration.
From S2P Require Import LocalSet.

Definition ErrMismatchedMigration : error :=
  Errorf "remote migration does not match local migration" [].
Definition ErrDependencyNotApplied : error := Errorf "migration dependency not satisfied" [].
Definition ErrDependencyCycle : error := Errorf "dependency cycle detected" [].

(** [validateDependencies], [history] being the names of the history rows *)
Definition validateDependencies (history : list string) (name : string)
    (dependsOn : list string) (satisfied : gset string) : outcome error () :=
  if decide (dependsOn = []) then Ok ()
  else
    let applied : gset string := list_to_set history in
    let missing := filter (λ dep, dep ∉ applied ∧ dep ∉ satisfied) dependsOn in
    if decide (missing = []) then Ok ()
    else Err (ErrorfW "%w: migration %q depends on unapplied migrations: %v" (name :: missing)
                ErrDependencyNotApplied).

(** ** The sort *)

Definition names (migs : list RawMigration) : list string := RawMigration_Name <$> migs.

(** [migByName] and [posByName]: the last migration of a name wins *)
Definition index_by_name {A} (f : nat → RawMigration → A) (migs : list RawMigration) :
    gmap string A :=
  foldl (λ m kv, <[kv.1 := kv.2]> m) ∅
    (imap (λ i mig, (mig.(RawMigration_Name), f i mig)) migs).

(** The two maps the second loop fills: in-degrees and dependents *)
Definition degrees : Type := gmap string Z * gmap string (list string).

Definition addDependency (migByName : gmap string RawMigration) (applied excluded : gset string)
    (m : RawMigration) (d : degrees) (dep : string) : outcome error degrees :=
  let '(inDegree, dependents) := d in
  let name := m.(RawMigration_Name) in
  if decide (is_Some (migByName !! dep)) then
    Ok (<[name := (default 0 (inDegree !! name) + 1)%Z]> inDegree,
        <[dep := default [] (dependents !! dep) ++ [name]]> dependents)
  else if decide (dep ∈ applied) then Ok d
  else if decide (dep ∈ excluded) then Ok d
  else Err (ErrorfW "%w: migration %q depends on unknown migration %q" [name; dep]
              ErrMismatchedMigration).

Fixpoint foldl_outcome {E A B} (f : A → B → outcome E A) (a : A) (l : list B) : outcome E A :=
  match l with
  | [] => Ok a
  | x :: l => a ← f a x; foldl_outcome f a l
  end.

Definition buildDegrees (migByName : gmap string RawMigration) (applied excluded : gset string)
    (migs : list RawMigration) : outcome error degrees :=
  foldl_outcome (λ d m, foldl_outcome (addDependency migByName applied excluded m) d
                          m.(RawMigration_DependsOn))
    (list_to_map ((λ m, (RawMigration_Name m, 0%Z)) <$> migs), ∅) migs.

(** The scan of the in-degree map: [("", len)] when no migration is ready *)
Definition bestCandidate (posByName : gmap string nat) (n : nat) (inDegree : gmap string Z) :
    string * nat :=
  foldl (λ best nd,
           if decide (nd.2 = 0%Z) then
             let pos := default 0 (posByName !! nd.1) in
             if decide (pos < best.2) then (nd.1, pos) else best
           else best) ("", n) (map_to_list inDegree).

Definition decrement (inDegree : gmap string Z) (dependent : string) : gmap string Z :=
  match inDegree !! dependent with
  | Some deg => <[dependent := (deg - 1)%Z]> inDegree
  | None => inDegree
  end.

(** [k] is the number of results still to come. *)
Fixpoint kahn (migByName : gmap string RawMigration) (posByName : gmap string nat) (n : nat)
    (dependents : gmap string (list string)) (k : nat) (inDegree : gmap string Z) :
    outcome error (list RawMigration) :=
  match k with
  | 0 => Ok []
  | S k =>
      let '(bestName, _) := bestCandidate posByName n inDegree in
      if decide (bestName = "") then
        Err (ErrorfW "%w: migrations involved: [%s]"
               (fst <$> filter (λ nd, (0 < nd.2)%Z) (map_to_list inDegree)) ErrDependencyCycle)
      else
        let inDegree := foldl decrement (delete bestName inDegree)
                          (default [] (dependents !! bestName)) in
        rest ← kahn migByName posByName n dependents k inDegree;
        match migByName !! bestName with
        | Some m => Ok (m :: rest)
        | None => Panic
        end
  end.

Definition hasDeps (migs : list RawMigration) : bool :=
  existsb (λ m, negb (bool_decide (m.(RawMigration_DependsOn) = []))) migs.

Definition TopoSortMigrations (migs : list RawMigration) (applied excluded : gset string) :
    outcome error (list RawMigration) :=
  if negb (hasDeps migs) then Ok migs
  else
    let migByName := index_by_name (λ _ m, m) migs in
    let posByName := index_by_name (λ i _, i) migs in
    '(inDegree, dependents) ← buildDegrees migByName applied excluded migs;
    kahn migByName posByName (length migs) dependents (length migs) inDegree.

(** ** Resolution *)

Section Resolve.
Context `{!Dir}.

Record Resolution := mkResolution {
  Resolution_Apply : list RawMigration;
  Resolution_Excluded : gset string;
  Resolution_All : list RawMigration;
}.

(** [ResolveMigrations], given the names of the history rows and of the
    latest baseline, if any *)
Definition ResolveMigrations (history : list string) (baseline : option string)
    (target : string) : outcome error Resolution :=
  let applied : gset string := list_to_set history in
  local ← resolveLocalSet (default "" baseline) applied target;
  let localNames : gset string := list_to_set (names local.(All)) in
  match head (filter (λ name, name ∉ localNames) (elements applied)) with
  | Some name =>
      Err (ErrorfW "%w: migration %q exists in schema history but not in local migration files"
             [name] ErrMismatchedMigration)
  | None =>
      let unapplied := filter (λ m, RawMigration_Name m ∉ applied) local.(Selected) in
      sorted ← TopoSortMigrations unapplied applied local.(Excluded);
      Ok (mkResolution sorted local.(Excluded) local.(All))
  end.

Definition UnappliedMigrations (history : list string) (baseline : option string)
    (target : string) : outcome error (list RawMigration) :=
  res ← ResolveMigrations history baseline target;
  Ok res.(Resolution_Apply).
End Resolve.
