(* ===== verification/DepsFacts.v ===== *)
(** * DepsFacts: what [TopoSortMigrations] and [ResolveMigrations] guarantee

    Kahn's algorithm with its counters is refined to a direct greedy
    definition, from which order, permutation and completeness follow. *)

From S2P Require Import Prelude.
From S2P Require Import GoStd.
From S2P Require Import Types.
From S2P Require Import Migration.
From S2P Require Import LocalSet.
From S2P Require Import Deps.

(** ** The greedy specification *)

(** No dependency of [m] is still to be applied. *)
Definition ready (remaining : list string) (m : RawMigration) : Prop :=
  Forall (λ d, d ∉ remaining) m.(RawMigration_DependsOn).
#[export] Instance ready_dec remaining m : Decision (ready remaining m).
Proof. unfold ready. apply _. Defined.

(** Repeatedly the first ready migration in directory order; [None] when none
    is ready *)
Fixpoint greedy (k : nat) (remaining : list RawMigration) : option (list RawMigration) :=
  match k with
  | 0 => Some []
  | S k =>
      im ← list_find (ready (names remaining)) remaining;
      rest ← greedy k (delete im.1 remaining);
      Some (im.2 :: rest)
  end.

(** [l] respects the dependencies among its own migrations: every dependency
    comes before its dependent. *)
Definition ordered (l : list RawMigration) : Prop :=
  ∀ i m d, l !! i = Some m → d ∈ m.(RawMigration_DependsOn) → d ∈ names l →
    d ∈ names (take i l).

(** ** Occurrences *)

Definition occ (x : string) (l : list string) : nat := length (filter (λ y, y = x) l).

(** In-degree of [m] with the names [ns] still to be applied *)
Definition indeg (ns : list string) (m : RawMigration) : nat :=
  length (filter (λ d, d ∈ ns) m.(RawMigration_DependsOn)).

Lemma occ_cons x y l : occ x (y :: l) = (if decide (y = x) then 1 else 0) + occ x l.
Proof. unfold occ. rewrite filter_cons. by case_decide. Qed.

Lemma occ_app x l k : occ x (l ++ k) = occ x l + occ x k.
Proof. unfold occ. by rewrite filter_app, length_app. Qed.

Lemma occ_replicate x y n : occ x (replicate n y) = if decide (y = x) then n else 0.
Proof.
  induction n as [|n IH]; [by case_decide|]. rewrite replicate_S, occ_cons, IH. by case_decide.
Qed.

Lemma occ_0 x l : x ∉ l → occ x l = 0.
Proof.
  unfold occ. intros Hx. rewrite (proj2 (filter_nil_iff _ _)); [done|].
  intros y Hy ->. done.
Qed.

Lemma indeg_ready ns m : indeg ns m = 0 ↔ ready ns m.
Proof.
  unfold indeg, ready. rewrite length_zero_iff_nil, filter_nil_iff, Forall_forall.
  naive_solver.
Qed.

Lemma indeg_without ns b m :
  indeg (filter (λ n, n ≠ b) ns) m
  = indeg ns m - (if decide (b ∈ ns) then occ b m.(RawMigration_DependsOn) else 0).
Proof.
  unfold indeg, occ. set (l := RawMigration_DependsOn m). clearbody l.
  assert (length (filter (λ d, d ∈ ns) l)
          = length (filter (λ d, d ∈ filter (λ n, n ≠ b) ns) l)
            + if decide (b ∈ ns) then length (filter (λ y, y = b) l) else 0) as ->.
  { assert (∀ y, y ∈ filter (λ n, n ≠ b) ns ↔ y ≠ b ∧ y ∈ ns) as Hf
      by (intros y; rewrite list_elem_of_filter; done).
    induction l as [|y l IH]; [by case_decide|].
    rewrite !filter_cons. specialize (Hf y).
    destruct (decide (y ∈ ns)), (decide (y = b)), (decide (b ∈ ns)),
      (decide (y ∈ filter (λ n, n ≠ b) ns)); subst; rewrite ?length_cons; try lia;
      exfalso; naive_solver. }
  case_decide; lia.
Qed.

(** ** The counters *)

Lemma foldl_outcome_cons {E A B} (f : A → B → outcome E A) a a' x l :
  f a x = Ok a' → foldl_outcome f a (x :: l) = foldl_outcome f a' l.
Proof. intros Hf. cbn. by rewrite Hf. Qed.

Section counters.
Context (migs : list RawMigration) (applied excluded : gset string).
Let ns := names migs.

Definition known (d : string) : Prop := d ∈ ns ∨ d ∈ applied ∨ d ∈ excluded.

Lemma addDependencies_spec (migByName : gmap string RawMigration) m l I D :
  (∀ d, is_Some (migByName !! d) ↔ d ∈ ns) →
  is_Some (I !! m.(RawMigration_Name)) → Forall known l →
  ∃ I' D',
    foldl_outcome (addDependency migByName applied excluded m) (I, D) l = Ok (I', D') ∧
    (∀ n, I' !! n =
       if decide (n = m.(RawMigration_Name))
       then (λ z, (z + Z.of_nat (length (filter (λ d, d ∈ ns) l)))%Z) <$> I !! n
       else I !! n) ∧
    (∀ d, default [] (D' !! d) = default [] (D !! d) ++
       if decide (d ∈ ns) then replicate (occ d l) m.(RawMigration_Name) else []).
Proof.
  intros Hby. revert I D. induction l as [|x l IH]; intros I D HI Hk.
  - exists I, D. split_and!; [done| |].
    + intros n. case_decide; [|done]. destruct (I !! n); cbn; f_equal. lia.
    + intros d. case_decide; by rewrite app_nil_r.
  - inversion_clear Hk as [|? ? Hx Hl].
    destruct (decide (x ∈ ns)) as [Hin|Hin].
    + erewrite foldl_outcome_cons by
        (unfold addDependency; rewrite decide_True by (by apply Hby); reflexivity).
      edestruct (IH (<[RawMigration_Name m := (default 0 (I !! RawMigration_Name m) + 1)%Z]> I)
        (<[x:=default [] (D !! x) ++ [RawMigration_Name m]]> D)) as (I' & D' & -> & HI' & HD');
        [rewrite lookup_insert; by case_decide|done|].
      exists I', D'. split_and!; [done| |].
      * intros n. rewrite HI'. case_decide as Hn; [subst n|].
        -- destruct HI as [z Hz]. rewrite Hz, lookup_insert_eq.
           rewrite filter_cons_True by done. cbn. f_equal. lia.
        -- by rewrite lookup_insert_ne.
      * intros d. rewrite HD', occ_cons. destruct (decide (x = d)) as [->|Hne].
        -- rewrite lookup_insert_eq, !decide_True by done. cbn. by rewrite <-app_assoc.
        -- rewrite lookup_insert_ne by done. done.
    + rewrite (foldl_outcome_cons (addDependency migByName applied excluded m) (I, D) (I, D)).
      2:{ unfold addDependency. rewrite decide_False by (by rewrite Hby).
          destruct Hx as [?|[?|?]]; [done| |]; repeat case_decide; done. }
      destruct (IH I D HI Hl) as (I' & D' & -> & HI' & HD').
      exists I', D'. rewrite filter_cons_False by done. split_and!; [done|done|].
      intros d. rewrite HD', occ_cons.
      destruct (decide (x = d)), (decide (d ∈ ns)); subst; done.
Qed.

Lemma buildDegrees_spec (migByName : gmap string RawMigration) l I D :
  (∀ d, is_Some (migByName !! d) ↔ d ∈ ns) →
  NoDup (names l) → (∀ m, m ∈ l → is_Some (I !! m.(RawMigration_Name))) →
  (∀ m d, m ∈ l → d ∈ m.(RawMigration_DependsOn) → known d) →
  ∃ I' D',
    foldl_outcome (λ d m, foldl_outcome (addDependency migByName applied excluded m) d
                            m.(RawMigration_DependsOn)) (I, D) l = Ok (I', D') ∧
    (∀ m, m ∈ l → I' !! m.(RawMigration_Name)
      = (λ z, (z + Z.of_nat (indeg ns m))%Z) <$> I !! m.(RawMigration_Name)) ∧
    (∀ n, n ∉ names l → I' !! n = I !! n) ∧
    (∀ d, d ∈ ns → default [] (D' !! d) = default [] (D !! d) ++
       (l ≫= λ m, replicate (occ d m.(RawMigration_DependsOn)) m.(RawMigration_Name))).
Proof.
  intros Hby. revert I D. induction l as [|m l IH]; intros I D Hnd HI Hk.
  - exists I, D. split_and!; [done|by intros ? ?%elem_of_nil|done|].
    intros d _. cbn. by rewrite app_nil_r.
  - apply NoDup_cons in Hnd as [Hm Hnd].
    destruct (addDependencies_spec migByName m m.(RawMigration_DependsOn) I D Hby)
      as (I1 & D1 & H1 & HI1 & HD1); [apply HI; left| |].
    { apply Forall_forall. intros d Hd. apply (Hk m); [left|done]. }
    erewrite (foldl_outcome_cons _ (I, D) (I1, D1) m l); [|exact H1].
    destruct (IH I1 D1) as (I' & D' & H' & Hin & Hout & HD'); [done| | |].
    { intros m' Hm'. rewrite HI1. assert (is_Some (I !! RawMigration_Name m')) as [z ->].
      { apply HI. by right. } case_decide; cbn; by eexists. }
    { intros m' d Hm' Hd. apply (Hk m'); [by right|done]. }
    exists I', D'. split_and!; [done| | |].
    + intros m' [->|Hm']%elem_of_cons.
      * rewrite Hout by done. rewrite HI1, decide_True by done. done.
      * rewrite Hin, HI1 by done. rewrite decide_False; [done|].
        intros Heq. apply Hm. rewrite <-Heq. by apply list_elem_of_fmap_2.
    + intros n Hn. apply not_elem_of_cons in Hn as [Hn1 Hn2].
      rewrite Hout, HI1 by done. by rewrite decide_False.
    + intros d Hd. rewrite HD', HD1 by done. rewrite decide_True by done. by rewrite <-app_assoc.
Qed.
End counters.

Lemma best_foldl (pos : string → nat) (L : list (string * Z)) (b0 : string * nat) :
  let b := foldl (λ best nd,
             if decide (nd.2 = 0%Z) then
               if decide (pos nd.1 < best.2) then (nd.1, pos nd.1) else best
             else best) b0 L in
  (b = b0 ∨ ∃ nd, nd ∈ L ∧ nd.2 = 0%Z ∧ b = (nd.1, pos nd.1)) ∧
  b.2 ≤ b0.2 ∧ ∀ nd, nd ∈ L → nd.2 = 0%Z → b.2 ≤ pos nd.1.
Proof.
  revert b0. induction L as [|x L IH]; intros b0; cbn.
  - split_and!; [by left|done|by intros ? ?%elem_of_nil].
  - match goal with |- context [foldl _ ?b L] => set (b1 := b) end.
    destruct (IH b1) as (Hb & Hle & Hmin).
    assert (b1.2 ≤ b0.2 ∧ (x.2 = 0%Z → b1.2 ≤ pos x.1)
            ∧ (b1 = b0 ∨ x.2 = 0%Z ∧ b1 = (x.1, pos x.1))) as (H1 & H2 & H3).
    { subst b1. repeat case_decide; cbn; split_and!; try lia; auto. }
    split_and!.
    + destruct Hb as [Hb|(nd & ? & ? & ?)]; [|right; exists nd; set_solver].
      destruct H3 as [H3|[H0 H3]]; [left; congruence|right].
      exists x. split_and!; [left|done|congruence].
    + lia.
    + intros nd [->|Hnd]%elem_of_cons Hz; [|by apply Hmin]. specialize (H2 Hz). lia.
Qed.

Lemma bestCandidate_spec (posByName : gmap string nat) n (I : gmap string Z) :
  let pos x := default 0 (posByName !! x) in
  let b := bestCandidate posByName n I in
  (b = ("", n) ∨ ∃ x, I !! x = Some 0%Z ∧ b = (x, pos x)) ∧
  ∀ x, I !! x = Some 0%Z → b.2 ≤ pos x.
Proof.
  intros pos b. destruct (best_foldl pos (map_to_list I) ("", n)) as (Hb & _ & Hmin).
  split.
  - destruct Hb as [Hb|([x z] & Hx & Hz & Hb)]; [by left|right]. cbn in *. subst z.
    exists x. split; [by apply elem_of_map_to_list|done].
  - intros x Hx. apply (Hmin (x, 0%Z)); [by apply elem_of_map_to_list|done].
Qed.

Lemma foldl_decrement I L n :
  foldl decrement I L !! n = (λ z, (z - Z.of_nat (occ n L))%Z) <$> I !! n.
Proof.
  revert I. induction L as [|x L IH]; intros I.
  - cbn. destruct (I !! n); cbn; f_equal. lia.
  - cbn [foldl]. rewrite IH, occ_cons. unfold decrement.
    destruct (I !! x) as [z|] eqn:Hx.
    + destruct (decide (x = n)) as [->|Hne].
      * rewrite lookup_insert_eq, Hx. cbn. f_equal. lia.
      * by rewrite lookup_insert_ne.
    + destruct (decide (x = n)) as [->|Hne]; [by rewrite Hx|done].
Qed.

Lemma foldl_insert_lookup {A} (l : list (string * A)) (m : gmap string A) k v :
  NoDup l.*1 → (k, v) ∈ l → foldl (λ m kv, <[kv.1 := kv.2]> m) m l !! k = Some v.
Proof.
  revert m. induction l as [|[k' v'] l IH]; intros m Hnd; [by intros ?%elem_of_nil|].
  apply NoDup_cons in Hnd as [Hk Hnd]. intros [[= -> ->]|Hin]%elem_of_cons; cbn; [|by apply IH].
  clear IH. assert (∀ m : gmap string A, m !! k' = Some v' →
    foldl (λ m kv, <[kv.1:=kv.2]> m) m l !! k' = Some v') as Hkeep.
  { clear Hnd m. induction l as [|[k2 v2] l IH]; intros m Hm; [done|]. cbn.
    apply not_elem_of_cons in Hk as [Hk1 Hk2]. apply IH; [done|]. by rewrite lookup_insert_ne. }
  apply Hkeep. by rewrite lookup_insert_eq.
Qed.

Lemma foldl_insert_None {A} (l : list (string * A)) (m : gmap string A) k :
  k ∉ l.*1 → foldl (λ m kv, <[kv.1 := kv.2]> m) m l !! k = m !! k.
Proof.
  revert m. induction l as [|[k' v'] l IH]; intros m Hk; [done|]. cbn.
  apply not_elem_of_cons in Hk as [Hk1 Hk2]. rewrite IH by done. by rewrite lookup_insert_ne.
Qed.

Section index.
Context {A} (f : nat → RawMigration → A) (migs : list RawMigration).

Lemma index_keys (g : nat → RawMigration → A) :
  (imap (λ i m, (m.(RawMigration_Name), g i m)) migs).*1 = names migs.
Proof.
  unfold names. revert g. induction migs as [|m l IH]; intros g; [done|]. cbn. f_equal.
  apply (IH (λ i, g (S i))).
Qed.

Lemma index_by_name_Some i m :
  NoDup (names migs) → migs !! i = Some m →
  index_by_name f migs !! m.(RawMigration_Name) = Some (f i m).
Proof.
  intros Hnd Hi. unfold index_by_name. apply foldl_insert_lookup; [by rewrite index_keys|].
  apply list_elem_of_lookup_2 with i. rewrite list_lookup_imap, Hi. done.
Qed.

Lemma index_by_name_is_Some n :
  NoDup (names migs) → is_Some (index_by_name f migs !! n) ↔ n ∈ names migs.
Proof.
  intros Hnd. split.
  - intros [x Hx]. destruct (decide (n ∈ names migs)) as [|Hn]; [done|].
    unfold index_by_name in Hx. rewrite foldl_insert_None in Hx; [done|by rewrite index_keys].
  - intros (m & -> & [i Hi]%list_elem_of_lookup)%list_elem_of_fmap.
    rewrite (index_by_name_Some i m) by done. by eexists.
Qed.
End index.

(** ** Kahn's loop against the greedy definition *)

Lemma delete_filter_NoDup (l : list string) i x :
  NoDup l → l !! i = Some x → delete i l = filter (λ n, n ≠ x) l.
Proof.
  revert i. induction l as [|y l IH]; intros i Hnd Hi; [done|].
  apply NoDup_cons in Hnd as [Hy Hnd]. destruct i as [|i]; cbn in Hi.
  - simplify_eq. rewrite filter_cons_False by naive_solver. cbn.
    rewrite filter_all; [done|]. intros z Hz ->. done.
  - rewrite filter_cons_True; [cbn; f_equal; by apply IH|].
    intros ->. apply Hy. by apply list_elem_of_lookup_2 in Hi.
Qed.

Lemma names_delete i rem m :
  NoDup (names rem) → rem !! i = Some m →
  names (delete i rem) = filter (λ n, n ≠ m.(RawMigration_Name)) (names rem).
Proof.
  intros Hnd Hi. unfold names. rewrite list_fmap_delete.
  apply delete_filter_NoDup; [done|]. by rewrite list_lookup_fmap, Hi.
Qed.

Lemma names_inj l m m' :
  NoDup (names l) → m ∈ l → m' ∈ l →
  m.(RawMigration_Name) = m'.(RawMigration_Name) → m = m'.
Proof.
  intros Hnd [i Hi]%list_elem_of_lookup [j Hj]%list_elem_of_lookup Heq.
  assert (i = j) as ->; [|congruence].
  apply (NoDup_lookup (names l) i j m.(RawMigration_Name)); [done| |];
    unfold names; rewrite list_lookup_fmap; [by rewrite Hi|rewrite Hj; cbn; by f_equal].
Qed.

Lemma occ_dependents migs b m :
  NoDup (names migs) → m ∈ migs →
  occ m.(RawMigration_Name)
    (migs ≫= λ m, replicate (occ b m.(RawMigration_DependsOn)) m.(RawMigration_Name))
  = occ b m.(RawMigration_DependsOn).
Proof.
  induction migs as [|x l IH]; intros Hnd Hm; [by apply elem_of_nil in Hm|].
  pose proof Hnd as [Hx Hnd']%NoDup_cons.
  rewrite bind_cons, occ_app, occ_replicate. apply elem_of_cons in Hm as [->|Hm].
  - rewrite decide_True by done. rewrite (occ_0 _ (l ≫= _)); [lia|].
    intros (y & Hy & Hyl)%list_elem_of_bind. apply elem_of_replicate in Hy as [Hy _].
    apply Hx. rewrite Hy. by apply list_elem_of_fmap_2.
  - rewrite decide_False, IH by done || (intros Heq; apply Hx; rewrite Heq;
      by apply list_elem_of_fmap_2). done.
Qed.

Section refinement.
Context (migs : list RawMigration).
Context (Hnd : NoDup (names migs)) (Hne : "" ∉ names migs).
Let byName := index_by_name (λ _ m, m) migs.
Let posByName := index_by_name (λ i _, i) migs.
Let pos (n : string) : nat := default 0 (posByName !! n).

(** What the loop keeps of the migrations still to be sorted *)
Record loop_inv (rem : list RawMigration) (I : gmap string Z) : Prop := {
  inv_sub : rem ⊆ migs;
  inv_pos : ∀ i j a b, rem !! i = Some a → rem !! j = Some b → i < j →
              pos a.(RawMigration_Name) < pos b.(RawMigration_Name);
  inv_in : ∀ m, m ∈ rem →
             I !! m.(RawMigration_Name) = Some (Z.of_nat (indeg (names rem) m));
  inv_out : ∀ n, n ∉ names rem → I !! n = None;
  inv_nodup : NoDup (names rem);
}.

Lemma pos_lookup i m : migs !! i = Some m → pos m.(RawMigration_Name) = i.
Proof. intros Hi. unfold pos, posByName. by rewrite (index_by_name_Some _ _ i m). Qed.

Lemma bestCandidate_ready rem I i m :
  loop_inv rem I → list_find (ready (names rem)) rem = Some (i, m) →
  (bestCandidate posByName (length migs) I).1 = m.(RawMigration_Name).
Proof.
  intros [Hsub Hpos Hin Hout Hndr] (Hi & Hr & Hfirst)%list_find_Some.
  destruct (bestCandidate_spec posByName (length migs) I) as (Hb & Hmin).
  set (b := bestCandidate posByName (length migs) I) in *.
  assert (m ∈ rem) as Hm by by eapply list_elem_of_lookup_2.
  assert (b.2 ≤ pos m.(RawMigration_Name)) as Hle.
  { apply Hmin. rewrite Hin by done. apply indeg_ready in Hr. by rewrite Hr. }
  destruct Hb as [Hb|(n & Hnd' & Hb)].
  - exfalso. apply Hsub, list_elem_of_lookup in Hm as [k Hk].
    rewrite (pos_lookup k m Hk) in Hle. apply lookup_lt_Some in Hk. rewrite Hb in Hle.
    cbn in Hle. lia.
  - rewrite Hb in Hle |- *. cbn in *. fold (pos n) in Hle.
    destruct (decide (n ∈ names rem)) as [Hn|Hn]; [|by rewrite Hout in Hnd'].
    apply list_elem_of_fmap in Hn as (m' & -> & Hm'). rewrite Hin in Hnd' by done.
    pose proof Hm' as [j Hj]%list_elem_of_lookup.
    destruct (decide (i = j)) as [->|Hij]; [congruence|].
    destruct (decide (j < i)) as [Hlt|Hge].
    + exfalso. apply (Hfirst j m' Hj Hlt). apply indeg_ready. simplify_eq. lia.
    + pose proof (Hpos i j m m' Hi Hj ltac:(lia)). lia.
Qed.

Lemma bestCandidate_none rem I :
  loop_inv rem I → list_find (ready (names rem)) rem = None →
  (bestCandidate posByName (length migs) I).1 = "".
Proof.
  intros [Hsub Hpos Hin Hout Hndr] Hf%list_find_None.
  destruct (bestCandidate_spec posByName (length migs) I) as (Hb & _).
  destruct Hb as [->|(n & Hnd' & Hb)]; [done|exfalso].
  destruct (decide (n ∈ names rem)) as [Hn|Hn]; [|by rewrite Hout in Hnd'].
  apply list_elem_of_fmap in Hn as (m & -> & Hm). rewrite Hin in Hnd' by done.
  rewrite Forall_forall in Hf. apply (Hf m Hm), indeg_ready. simplify_eq. lia.
Qed.

Lemma loop_inv_step rem I i m L :
  loop_inv rem I → list_find (ready (names rem)) rem = Some (i, m) →
  L = (migs ≫= λ m', replicate (occ m.(RawMigration_Name) m'.(RawMigration_DependsOn))
                       m'.(RawMigration_Name)) →
  loop_inv (delete i rem) (foldl decrement (delete m.(RawMigration_Name) I) L).
Proof.
  intros [Hsub Hpos Hin Hout Hndr] (Hi & Hr & _)%list_find_Some ->.
  pose proof (names_delete i rem m Hndr Hi) as Hdel.
  assert (m ∈ rem) as Hm by by eapply list_elem_of_lookup_2.
  split.
  - intros x Hx. apply Hsub. by eapply list_elem_of_delete_inv.
  - intros j k a b Hj Hk Hlt. rewrite list_lookup_delete in Hj, Hk.
    eapply Hpos; [done|done|]. repeat case_decide; lia.
  - intros m' Hm'. rewrite foldl_decrement.
    assert (m' ∈ rem) as Hm'r by (by eapply list_elem_of_delete_inv).
    assert (m'.(RawMigration_Name) ≠ m.(RawMigration_Name)) as Hneq.
    { assert (m'.(RawMigration_Name) ∈ names (delete i rem)) as Hn by by apply list_elem_of_fmap_2.
      rewrite Hdel in Hn. by apply list_elem_of_filter in Hn as [? _]. }
    rewrite lookup_delete_ne by done. rewrite Hin by done.
    rewrite occ_dependents by auto. rewrite Hdel, indeg_without.
    rewrite decide_True by (by apply list_elem_of_fmap_2). cbn. f_equal.
    enough (occ (RawMigration_Name m) (RawMigration_DependsOn m') ≤ indeg (names rem) m')
      by lia.
    unfold occ, indeg. assert (m.(RawMigration_Name) ∈ names rem) as Hmn
      by by apply list_elem_of_fmap_2.
    revert Hmn. generalize (names rem) as ns, (RawMigration_Name m) as b. clear.
    intros ns b Hb. induction (RawMigration_DependsOn m') as [|d l IH]; [done|].
    rewrite !filter_cons. repeat case_decide; subst; cbn; try done; lia.
  - intros n Hn. rewrite foldl_decrement, Hdel in *.
    destruct (decide (n = m.(RawMigration_Name))) as [->|Hneq]; [by rewrite lookup_delete_eq|].
    rewrite lookup_delete_ne, Hout; [done| |done]. intros Hin'. apply Hn.
    by apply list_elem_of_filter.
  - rewrite Hdel. by apply NoDup_filter.
Qed.

Lemma kahn_greedy D k rem I :
  (∀ d, d ∈ names migs → default [] (D !! d) =
     (migs ≫= λ m, replicate (occ d m.(RawMigration_DependsOn)) m.(RawMigration_Name))) →
  loop_inv rem I →
  (∃ l, greedy k rem = Some l ∧ kahn byName posByName (length migs) D k I = Ok l) ∨
  (greedy k rem = None ∧ ∃ ns, kahn byName posByName (length migs) D k I =
     Err (ErrorfW "%w: migrations involved: [%s]" ns ErrDependencyCycle)).
Proof.
  intros HD. revert rem I. induction k as [|k IH]; intros rem I Hinv; cbn [kahn greedy].
  { left. by eexists. }
  destruct (list_find (ready (names rem)) rem) as [[i m]|] eqn:Hf; cbn.
  - pose proof (bestCandidate_ready _ _ _ _ Hinv Hf) as Hb.
    destruct (bestCandidate posByName (length migs) I) as [b p]. cbn in Hb. subst b.
    pose proof Hf as (Hi & _ & _)%list_find_Some.
    assert (m ∈ migs) as [j Hj]%list_elem_of_lookup.
    { apply (inv_sub _ _ Hinv). by eapply list_elem_of_lookup_2. }
    assert (m.(RawMigration_Name) ∈ names migs) as Hmn
      by (apply list_elem_of_fmap_2; by eapply list_elem_of_lookup_2).
    rewrite decide_False by (intros Heq; by rewrite Heq in Hmn).
    destruct (IH (delete i rem) (foldl decrement (delete m.(RawMigration_Name) I)
      (default [] (D !! m.(RawMigration_Name))))) as [(l & Hg & Hk)|(Hg & ns & Hk)].
    { by apply loop_inv_step; [| |apply HD]. }
    + left. exists (m :: l). rewrite Hg, Hk. cbn. split; [done|].
      unfold byName. by rewrite (index_by_name_Some _ _ j m).
    + right. rewrite Hg, Hk. cbn. split; [done|by exists ns].
  - right. split; [done|]. pose proof (bestCandidate_none _ _ Hinv Hf) as Hb.
    destruct (bestCandidate posByName (length migs) I) as [b p]. cbn in Hb. subst b.
    rewrite decide_True by done. by eexists.
Qed.
End refinement.

(** ** The greedy order *)

Lemma greedy_perm k rem l : k = length rem → greedy k rem = Some l → l ≡ₚ rem.
Proof.
  revert rem l. induction k as [|k IH]; intros rem l Hk Hg; cbn in Hg.
  { simplify_eq. by destruct rem. }
  apply bind_Some in Hg as ([i m] & (Hi & _ & _)%list_find_Some & Hg).
  apply bind_Some in Hg as (l' & Hg & [= <-]). cbn in *.
  rewrite (IH (delete i rem) l'); [|rewrite length_delete by (by eexists); lia|done].
  symmetry. by apply delete_Permutation.
Qed.

Lemma names_perm l k : l ≡ₚ k → names l ≡ₚ names k.
Proof. intros H. unfold names. by rewrite H. Qed.

Lemma greedy_ordered k rem l :
  NoDup (names rem) → k = length rem → greedy k rem = Some l → ordered l.
Proof.
  revert rem l. induction k as [|k IH]; intros rem l Hnd Hk Hg; cbn in Hg.
  { simplify_eq. intros i m d Hi. by rewrite lookup_nil in Hi. }
  apply bind_Some in Hg as ([i m] & (Hi & Hr & _)%list_find_Some & Hg).
  apply bind_Some in Hg as (l' & Hg & [= <-]). cbn in *.
  assert (k = length (delete i rem)) as Hk' by (rewrite length_delete by (by eexists); lia).
  pose proof (names_perm _ _ (greedy_perm _ _ _ Hk' Hg)) as Hp.
  assert (NoDup (names (delete i rem))) as Hnd'.
  { rewrite (names_delete _ _ _ Hnd Hi). by apply NoDup_filter. }
  specialize (IH _ _ Hnd' Hk' Hg). unfold ready in Hr. rewrite Forall_forall in Hr.
  assert (∀ d, d ∈ names (m :: l') → d ∈ names rem) as Hsub.
  { intros d [->|Hd]%elem_of_cons.
    - apply list_elem_of_fmap_2. by eapply list_elem_of_lookup_2.
    - rewrite Hp, (names_delete _ _ _ Hnd Hi) in Hd. by apply list_elem_of_filter in Hd as [_ ?]. }
  intros [|j] x d Hx Hd Hdl; cbn in Hx.
  - simplify_eq. by destruct (Hr d Hd (Hsub d Hdl)).
  - apply elem_of_cons in Hdl as [->|Hdl]; [left|right]. by eapply IH.
Qed.

Lemma greedy_Some k rem (rank : string → nat) :
  NoDup (names rem) → k = length rem →
  (∀ m d, m ∈ rem → d ∈ m.(RawMigration_DependsOn) → d ∈ names rem →
     rank d < rank m.(RawMigration_Name)) →
  is_Some (greedy k rem).
Proof.
  revert rem. induction k as [|k IH]; intros rem Hnd Hk Hrank; cbn; [by eexists|].
  destruct (list_find (ready (names rem)) rem) as [[i m]|] eqn:Hf; cbn.
  - apply list_find_Some in Hf as (Hi & _ & _).
    destruct (IH (delete i rem)) as [l ->]; [| | |by eexists].
    + rewrite (names_delete _ _ _ Hnd Hi). by apply NoDup_filter.
    + rewrite length_delete by (by eexists). lia.
    + intros x d Hx%list_elem_of_delete_inv Hd Hdn. apply Hrank; [done..|].
      rewrite (names_delete _ _ _ Hnd Hi) in Hdn. by apply list_elem_of_filter in Hdn as [_ ?].
  - exfalso. apply list_find_None in Hf. rewrite Forall_forall in Hf.
    assert (∀ n m, m ∈ rem → rank m.(RawMigration_Name) < n → False) as Hno.
    { induction n as [|n IHn]; intros m Hm Hn; [lia|].
      apply (Hf m Hm). apply Forall_forall. intros d Hd Hdn.
      pose proof (Hrank m d Hm Hd Hdn) as Hlt.
      apply list_elem_of_fmap in Hdn as (m' & -> & Hm'). apply (IHn m' Hm'). lia. }
    destruct rem as [|m rem]; [done|]. apply (Hno (S (rank m.(RawMigration_Name))) m); [left|lia].
Qed.

(** An ordered permutation gives every name a rank. *)
Lemma ordered_rank p :
  NoDup (names p) → ordered p →
  ∃ rank : string → nat, ∀ m d, m ∈ p → d ∈ m.(RawMigration_DependsOn) → d ∈ names p →
    rank d < rank m.(RawMigration_Name).
Proof.
  intros Hnd Ho.
  exists (λ n, default 0 (fst <$> list_find (λ x, x = n) (names p))).
  assert (∀ i n, names p !! i = Some n →
            default 0 (fst <$> list_find (λ x, x = n) (names p)) = i) as Hpos.
  { intros i n Hi. destruct (list_find_elem_of (λ x, x = n) (names p) n) as [[j x] Hj];
      [by eapply list_elem_of_lookup_2|done|].
    rewrite Hj. cbn. apply list_find_Some in Hj as (Hj & -> & _).
    by eapply NoDup_lookup. }
  intros m d [i Hi]%list_elem_of_lookup Hd Hdp.
  pose proof (Ho i m d Hi Hd Hdp) as [j Hj]%list_elem_of_lookup.
  unfold names in Hj. rewrite fmap_take, lookup_take_Some in Hj. destruct Hj as [Hj Hlt].
  rewrite (Hpos j d Hj), (Hpos i); [done|]. unfold names. by rewrite list_lookup_fmap, Hi.
Qed.

Lemma greedy_first k rem l i m m' :
  NoDup (names rem) → k = length rem → greedy k rem = Some l →
  l !! i = Some m → m' ∈ drop i l → ready (names (drop i l)) m' →
  ∃ a b, rem !! a = Some m ∧ rem !! b = Some m' ∧ a ≤ b.
Proof.
  revert rem l i. induction k as [|k IH]; intros rem l i Hnd Hk Hg Hi Hm' Hr; cbn in Hg.
  { simplify_eq. }
  apply bind_Some in Hg as ([j x] & (Hj & Hrx & Hfirst)%list_find_Some & Hg).
  apply bind_Some in Hg as (l' & Hg & [= <-]). cbn in *.
  assert (k = length (delete j rem)) as Hk' by (rewrite length_delete by (by eexists); lia).
  destruct i as [|i]; cbn in *.
  - injection Hi as ->. assert (m :: l' ≡ₚ rem) as Hp.
    { rewrite (greedy_perm _ _ _ Hk' Hg). symmetry. by apply delete_Permutation. }
    assert (ready (names rem) m') as Hr'.
    { unfold ready in *. rewrite Forall_forall in *. intros d Hd Hdr. apply (Hr d Hd).
      by rewrite (names_perm _ _ Hp). }
    rewrite Hp in Hm'. apply list_elem_of_lookup in Hm' as [b Hb].
    exists j, b. split_and!; [done|done|]. destruct (decide (b < j)) as [Hlt|]; [|lia].
    by destruct (Hfirst b m' Hb Hlt).
  - assert (NoDup (names (delete j rem))) as Hnd'.
    { rewrite (names_delete _ _ _ Hnd Hj). by apply NoDup_filter. }
    destruct (IH _ _ i Hnd' Hk' Hg Hi Hm' Hr) as (a & b & Ha & Hb & Hab).
    rewrite list_lookup_delete in Ha, Hb. do 2 eexists. split_and!; [exact Ha|exact Hb|].
    repeat case_decide; lia.
Qed.

(** ** What a successful or failed sort says about the input *)

Lemma addDependency_Ok migByName applied excluded m d dep d' :
  is_Some (d.1 !! m.(RawMigration_Name)) →
  addDependency migByName applied excluded m d dep = Ok d' →
  dom d'.1 = dom d.1 ∧ (is_Some (migByName !! dep) ∨ dep ∈ applied ∨ dep ∈ excluded).
Proof.
  destruct d as [I D]. unfold addDependency. cbn. intros Hm.
  repeat case_decide; intros [= <-]; cbn; (split; [|by auto]); [|done..].
  rewrite dom_insert_L. apply elem_of_dom in Hm. set_solver.
Qed.

Lemma addDependencies_Ok migByName applied excluded m l d d' :
  is_Some (d.1 !! m.(RawMigration_Name)) →
  foldl_outcome (addDependency migByName applied excluded m) d l = Ok d' →
  dom d'.1 = dom d.1 ∧
  ∀ x, x ∈ l → is_Some (migByName !! x) ∨ x ∈ applied ∨ x ∈ excluded.
Proof.
  revert d. induction l as [|x l IH]; intros d Hm Hf; cbn in Hf.
  { simplify_eq. split; [done|]. by intros ? ?%elem_of_nil. }
  destruct (addDependency migByName applied excluded m d x) as [d1| | |] eqn:H1; try done.
  destruct (addDependency_Ok _ _ _ _ _ _ _ Hm H1) as [Hdom Hx].
  destruct (IH d1) as [Hdom' Hl]; [|done|].
  { apply elem_of_dom. rewrite Hdom. by apply elem_of_dom. }
  split; [congruence|]. intros y [->|Hy]%elem_of_cons; auto.
Qed.

Lemma buildDegrees_Ok migByName applied excluded l d d' :
  (∀ m, m ∈ l → is_Some (d.1 !! m.(RawMigration_Name))) →
  foldl_outcome (λ d m, foldl_outcome (addDependency migByName applied excluded m) d
                          m.(RawMigration_DependsOn)) d l = Ok d' →
  dom d'.1 = dom d.1 ∧
  ∀ m x, m ∈ l → x ∈ m.(RawMigration_DependsOn) →
    is_Some (migByName !! x) ∨ x ∈ applied ∨ x ∈ excluded.
Proof.
  revert d. induction l as [|m l IH]; intros d Hm Hf; cbn in Hf.
  { simplify_eq. split; [done|]. by intros ? ? ?%elem_of_nil. }
  destruct (foldl_outcome (addDependency migByName applied excluded m) d
              (RawMigration_DependsOn m)) as [d1| | |] eqn:H1; try done.
  destruct (addDependencies_Ok _ _ _ _ _ _ _ (Hm m ltac:(left)) H1) as [Hdom Hx].
  destruct (IH d1) as [Hdom' Hl]; [|done|].
  { intros m' Hm'. apply elem_of_dom. rewrite Hdom. apply elem_of_dom, Hm. by right. }
  split; [congruence|]. intros m' x [->|Hm']%elem_of_cons Hxm; [by apply Hx|by eapply Hl].
Qed.

Lemma dom_foldl_decrement I L : dom (foldl decrement I L) = dom I.
Proof.
  apply set_eq. intros n. rewrite !elem_of_dom, foldl_decrement.
  by rewrite fmap_is_Some.
Qed.

Lemma kahn_Ok_size byName pos n D k I l :
  kahn byName pos n D k I = Ok l → k ≤ size (dom I ∖ {[""]}).
Proof.
  revert I l. induction k as [|k IH]; intros I l Hk; [lia|]. cbn [kahn] in Hk.
  destruct (bestCandidate_spec pos n I) as (Hb & _).
  destruct (bestCandidate pos n I) as [b p]. cbn in Hb. case_decide as Hne; [done|].
  destruct Hb as [[= -> _]|(x & Hx & [= -> _])]; [done|].
  match type of Hk with (kahn ?a ?b ?c ?d k ?I' ≫= _) = _ =>
    destruct (kahn a b c d k I') as [rest| | |] eqn:Hr; try done end.
  apply IH in Hr. rewrite dom_foldl_decrement, dom_delete_L in Hr.
  assert (x ∈ dom I ∖ {[""]}) as Hxd.
  { apply elem_of_difference. split; [by apply elem_of_dom_2 in Hx|set_solver]. }
  rewrite (union_difference_singleton_L _ _ Hxd), size_union, size_singleton by set_solver.
  replace (dom I ∖ {[""]} ∖ {[x]}) with (dom I ∖ {[x]} ∖ {[""]}) by set_solver. lia.
Qed.

Lemma size_list_to_set_le (l : list string) : size (list_to_set l : gset string) ≤ length l.
Proof.
  induction l as [|x l IH]; cbn; [by rewrite size_empty|].
  rewrite size_union_alt, size_singleton.
  assert (size (list_to_set l ∖ {[x]} : gset string) ≤ size (list_to_set l : gset string))
    by (apply subseteq_size; set_solver). lia.
Qed.

Lemma size_list_to_set_NoDup (l : list string) :
  length l ≤ size (list_to_set l : gset string) → NoDup l.
Proof.
  induction l as [|x l IH]; intros Hs; [constructor|]. cbn in Hs.
  destruct (decide (x ∈ l)) as [Hx|Hx].
  - exfalso. assert ({[x]} ∪ list_to_set l =@{gset string} list_to_set l) as Heq by set_solver.
    rewrite Heq in Hs. pose proof (size_list_to_set_le l) as Hle. lia.
  - constructor; [done|]. apply IH. rewrite size_union, size_singleton in Hs by set_solver. lia.
Qed.

Lemma hasDeps_false migs m : hasDeps migs = false → m ∈ migs → m.(RawMigration_DependsOn) = [].
Proof.
  unfold hasDeps. intros Hd Hm. destruct (decide (m.(RawMigration_DependsOn) = [])) as [|Hne]; [done|].
  enough (existsb (λ m, negb (bool_decide (RawMigration_DependsOn m = []))) migs = true) by congruence.
  apply existsb_exists. exists m. split; [by apply list_elem_of_In|].
  by rewrite bool_decide_eq_false_2.
Qed.

Lemma dom_zeros migs :
  dom (list_to_map ((λ m, (RawMigration_Name m, 0%Z)) <$> migs) : gmap string Z)
  = list_to_set (names migs).
Proof. rewrite dom_list_to_map_L. f_equal. unfold names. by rewrite <-list_fmap_compose. Qed.

(** A sort with dependencies succeeds only on distinct, non-empty names and
    known dependencies. *)
Lemma TopoSort_Ok_input migs applied excluded l :
  hasDeps migs = true → TopoSortMigrations migs applied excluded = Ok l →
  NoDup (names migs) ∧ "" ∉ names migs ∧
  ∀ m d, m ∈ migs → d ∈ m.(RawMigration_DependsOn) → known migs applied excluded d.
Proof.
  intros Hd. unfold TopoSortMigrations. rewrite Hd. cbn [negb].
  destruct (buildDegrees _ _ _ _) as [[I D]| | |] eqn:Hb; cbn; try done. intros Hk.
  apply kahn_Ok_size in Hk. unfold buildDegrees in Hb.
  apply buildDegrees_Ok in Hb as [Hdom Hkn].
  2:{ intros m Hm. cbn. apply elem_of_dom. rewrite dom_zeros. apply elem_of_list_to_set.
      by apply list_elem_of_fmap_2. }
  cbn in Hdom. rewrite Hdom, dom_zeros in Hk.
  assert (length (names migs) = length migs) as Hlen by apply length_fmap.
  assert (NoDup (names migs)) as Hnd.
  { apply size_list_to_set_NoDup. rewrite Hlen. etrans; [exact Hk|].
    apply subseteq_size. set_solver. }
  split_and!; [done| |].
  - intros He. assert (size (list_to_set (names migs) ∖ {[""]} : gset string)
      < size (list_to_set (names migs) : gset string)) as Hlt
      by (apply subset_size; set_solver).
    rewrite (size_list_to_set (C := gset string)) in Hlt by done. lia.
  - intros m d Hm Hdm. destruct (Hkn m d Hm Hdm) as [Hi|[?|?]]; [left|by right; left..|by right; right].
    by apply index_by_name_is_Some in Hi.
Qed.

Lemma TopoSort_greedy migs applied excluded :
  NoDup (names migs) → "" ∉ names migs →
  (∀ m d, m ∈ migs → d ∈ m.(RawMigration_DependsOn) → known migs applied excluded d) →
  (∃ l, greedy (length migs) migs = Some l ∧ TopoSortMigrations migs applied excluded = Ok l) ∨
  (greedy (length migs) migs = None ∧ ∃ ns, TopoSortMigrations migs applied excluded =
     Err (ErrorfW "%w: migrations involved: [%s]" ns ErrDependencyCycle)).
Proof.
  intros Hnd Hne Hkn. unfold TopoSortMigrations. destruct (hasDeps migs) eqn:Hd; cbn [negb].
  - unfold buildDegrees.
    destruct (buildDegrees_spec migs applied excluded (index_by_name (λ _ m, m) migs) migs
      (list_to_map ((λ m, (RawMigration_Name m, 0%Z)) <$> migs)) ∅)
      as (I & D & -> & Hin & Hout & HD); [| |intros m Hm|done|].
    + intros d. by apply index_by_name_is_Some.
    + done.
    + apply elem_of_dom. rewrite dom_zeros. apply elem_of_list_to_set. by apply list_elem_of_fmap_2.
    + cbn. apply kahn_greedy; [done|done|done|]. split; [done| | | |done].
      * intros i j a b Ha Hb Hij. by rewrite (pos_lookup _ Hnd i a), (pos_lookup _ Hnd j b).
      * intros m Hm. rewrite Hin by done.
        rewrite (elem_of_list_to_map_1 _ _ 0%Z); [done| |].
        -- rewrite <-list_fmap_compose. exact Hnd.
        -- by apply (list_elem_of_fmap_2 (λ m, (RawMigration_Name m, 0%Z))).
      * intros n Hn. rewrite Hout by done. apply not_elem_of_list_to_map_1.
        rewrite <-list_fmap_compose. exact Hn.
  - left. exists migs. split; [|done]. clear Hkn Hne.
    assert (∀ m, m ∈ migs → m.(RawMigration_DependsOn) = []) as Hno
      by (intros m; by apply hasDeps_false).
    clear Hnd Hd. induction migs as [|m l IH]; [done|]. cbn [length greedy].
    assert (list_find (ready (names (m :: l))) (m :: l) = Some (0, m)) as ->.
    { apply list_find_Some. split_and!; [done| |intros; lia]. unfold ready.
      rewrite (Hno m) by left. constructor. }
    cbn. rewrite IH; [done|]. intros x Hx. apply Hno. by right.
Qed.

Lemma addDependency_outcome migByName applied excluded m d dep :
  (∃ d', addDependency migByName applied excluded m d dep = Ok d') ∨
  (∃ e, addDependency migByName applied excluded m d dep = Err e ∧
        errors_Is e ErrMismatchedMigration).
Proof.
  destruct d as [I D]. unfold addDependency. repeat case_decide; [left; by eexists..|].
  right. eexists. split; [done|]. cbn. by right; left.
Qed.

Lemma foldl_outcome_outcome {E A B} (f : A → B → outcome E A) (P : E → Prop) a l :
  (∀ a x, (∃ a', f a x = Ok a') ∨ ∃ e, f a x = Err e ∧ P e) →
  (∃ a', foldl_outcome f a l = Ok a') ∨ ∃ e, foldl_outcome f a l = Err e ∧ P e.
Proof.
  intros Hf. revert a. induction l as [|x l IH]; intros a; [left; by eexists|]. cbn.
  destruct (Hf a x) as [[a' ->]|(e & -> & He)]; cbn; [apply IH|right; by eexists].
Qed.

Lemma TopoSort_sound migs applied excluded l :
  TopoSortMigrations migs applied excluded = Ok l → l ≡ₚ migs ∧ ordered l.
Proof.
  intros Hs. destruct (hasDeps migs) eqn:Hd.
  - destruct (TopoSort_Ok_input _ _ _ _ Hd Hs) as (Hnd & Hne & Hkn).
    destruct (TopoSort_greedy _ _ _ Hnd Hne Hkn) as [(l' & Hg & Hs')|(_ & ns & Hs')];
      rewrite Hs in Hs'; simplify_eq.
    split; [by eapply greedy_perm|by eapply greedy_ordered].
  - unfold TopoSortMigrations in Hs. rewrite Hd in Hs. injection Hs as <-. split; [done|].
    intros i m d Hi Hdm. rewrite (hasDeps_false _ m Hd) in Hdm by (by eapply list_elem_of_lookup_2).
    by apply elem_of_nil in Hdm.
Qed.

(** A sort that is possible succeeds. *)
Lemma TopoSort_total migs applied excluded p :
  NoDup (names migs) → "" ∉ names migs →
  (∀ m d, m ∈ migs → d ∈ m.(RawMigration_DependsOn) → known migs applied excluded d) →
  p ≡ₚ migs → ordered p → ∃ l, TopoSortMigrations migs applied excluded = Ok l.
Proof.
  intros Hnd Hne Hkn Hp Ho.
  destruct (TopoSort_greedy migs applied excluded Hnd Hne Hkn)
    as [(l & _ & Hs)|(Hg & _)]; [by exists l|].
  destruct (ordered_rank p) as [rank Hrank]; [by rewrite (names_perm _ _ Hp)|done|].
  destruct (greedy_Some (length migs) migs rank) as [l Hl]; [done|done| |congruence].
  intros m d Hm Hd Hdn. apply Hrank; [by rewrite Hp|done|by rewrite (names_perm _ _ Hp)].
Qed.

(** A filter that does not tell migrations of one name apart keeps the order. *)
Lemma ordered_filter (P : RawMigration → Prop) `{!∀ m, Decision (P m)} l :
  (∀ m m', m ∈ l → m' ∈ l → m.(RawMigration_Name) = m'.(RawMigration_Name) → P m → P m') →
  ordered l → ordered (filter P l).
Proof.
  intros HP Ho i m d Hi Hd Hdn. apply filter_lookup in Hi as (j & Hj & -> & _).
  apply list_elem_of_fmap in Hdn as (m' & -> & [Ha Hin]%list_elem_of_filter).
  pose proof (Ho j m _ Hj Hd (list_elem_of_fmap_2 RawMigration_Name _ _ Hin)) as Hb.
  apply list_elem_of_fmap in Hb as (m2 & Hn & Hb). rewrite Hn. apply list_elem_of_fmap_2.
  apply list_elem_of_filter. split; [|done]. apply (HP m' m2); try done.
  rewrite <-(take_drop j l). apply elem_of_app. by left.
Qed.

(** A valid order of application: every migration finds its dependencies
    applied, by history, by an earlier migration, or by exclusion. *)
Definition startable (history : list string) (excluded : gset string) (l : list RawMigration) :
    Prop :=
  ∀ i m, l !! i = Some m →
    validateDependencies (history ++ names (take i l)) m.(RawMigration_Name)
      m.(RawMigration_DependsOn) excluded = Ok ().

(** ** Theorems *)

(** C1. Whatever the input, a successful [TopoSortMigrations] returns exactly
    the given migrations, each after every dependency of its own that is
    among them, and in the one order the tie-break prescribes: at every point
    the migration applied next is, in directory order, the first of those left
    whose dependencies are all applied. *)
Theorem TopoSort_spec migs applied excluded l :
  TopoSortMigrations migs applied excluded = Ok l →
  l ≡ₚ migs ∧ ordered l ∧
  ∀ i m m', l !! i = Some m → m' ∈ drop i l → ready (names (drop i l)) m' →
    ∃ a b, migs !! a = Some m ∧ migs !! b = Some m' ∧ a ≤ b.
Proof.
  intros Hs. destruct (TopoSort_sound _ _ _ _ Hs) as [Hp Ho]. split_and!; [done..|].
  intros i m m' Hi Hm' Hr. destruct (hasDeps migs) eqn:Hd.
  - destruct (TopoSort_Ok_input _ _ _ _ Hd Hs) as (Hnd & Hne & Hkn).
    destruct (TopoSort_greedy _ _ _ Hnd Hne Hkn) as [(l' & Hg & Hs')|(_ & ns & Hs')];
      rewrite Hs in Hs'; simplify_eq. by eapply greedy_first.
  - unfold TopoSortMigrations in Hs. rewrite Hd in Hs. injection Hs as <-.
    apply list_elem_of_lookup in Hm' as [j Hj]. rewrite lookup_drop in Hj.
    exists i, (i + j). split_and!; [done|done|lia].
Qed.

(** C2. With distinct non-empty names and known dependencies, the sort
    succeeds exactly when the dependencies can be ordered at all, and
    otherwise reports a dependency cycle. *)
Theorem TopoSort_complete migs applied excluded :
  NoDup (names migs) → "" ∉ names migs →
  (∀ m d, m ∈ migs → d ∈ m.(RawMigration_DependsOn) →
     d ∈ names migs ∨ d ∈ applied ∨ d ∈ excluded) →
  ((∃ l, TopoSortMigrations migs applied excluded = Ok l) ↔ ∃ p, p ≡ₚ migs ∧ ordered p) ∧
  ((∃ l, TopoSortMigrations migs applied excluded = Ok l) ∨
   ∃ e, TopoSortMigrations migs applied excluded = Err e ∧ errors_Is e ErrDependencyCycle).
Proof.
  intros Hnd Hne Hkn.
  destruct (TopoSort_greedy migs applied excluded Hnd Hne Hkn)
    as [(l & Hg & Hs)|(Hg & ns & Hs)].
  - split; [|left; by eexists]. split; [intros _|intros _; by eexists].
    exists l. split; [by eapply greedy_perm|by eapply greedy_ordered].
  - split.
    + split; [intros [l Hl]; congruence|]. intros (p & Hp & Ho). by eapply TopoSort_total.
    + right. eexists. split; [done|]. cbn. by right; left.
Qed.

(** A dependency that is neither in the directory's unapplied set, nor
    applied, nor excluded by the target is an [ErrMismatchedMigration]. *)
Theorem TopoSort_unknown migs applied excluded m d :
  m ∈ migs → d ∈ m.(RawMigration_DependsOn) →
  d ∉ names migs → d ∉ applied → d ∉ excluded →
  ∃ e, TopoSortMigrations migs applied excluded = Err e ∧ errors_Is e ErrMismatchedMigration.
Proof.
  intros Hm Hd Hdn Hda Hde. unfold TopoSortMigrations. destruct (hasDeps migs) eqn:Hh; cbn [negb].
  2:{ rewrite (hasDeps_false _ m Hh Hm) in Hd. by apply elem_of_nil in Hd. }
  destruct (foldl_outcome_outcome (λ d m, foldl_outcome
      (addDependency (index_by_name (λ _ m, m) migs) applied excluded m) d
      m.(RawMigration_DependsOn)) (λ e, errors_Is e ErrMismatchedMigration)
    (list_to_map ((λ m, (RawMigration_Name m, 0%Z)) <$> migs), ∅) migs)
    as [[d' Hb]|(e & He & His)].
  - intros a x. apply foldl_outcome_outcome. intros. apply addDependency_outcome.
  - exfalso. apply buildDegrees_Ok in Hb as [_ Hkn].
    + destruct (Hkn m d Hm Hd) as [Hi|[?|?]]; [|done|done]. apply Hdn.
      destruct (decide (d ∈ names migs)) as [|Hn]; [done|].
      destruct Hi as [x Hx]. unfold index_by_name in Hx.
      rewrite foldl_insert_None in Hx; [done|by rewrite index_keys].
    + intros x Hx. cbn. apply elem_of_dom. rewrite dom_zeros. apply elem_of_list_to_set.
      by apply list_elem_of_fmap_2.
  - exists e. unfold buildDegrees. by rewrite He.
Qed.

(** *** Witnesses *)

Definition mig (name : string) (deps : list string) : RawMigration :=
  mkRawMigration name "" "[]" deps [] false false None "".
Definition chain := [mig "01" ["03"]; mig "02" []; mig "03" ["base"]].

Lemma TopoSort_spec_witness :
  TopoSortMigrations chain {["base"]} ∅ = Ok [mig "02" []; mig "03" ["base"]; mig "01" ["03"]] ∧
  ordered [mig "02" []; mig "03" ["base"]; mig "01" ["03"]].
Proof.
  assert (TopoSortMigrations chain {["base"]} ∅
    = Ok [mig "02" []; mig "03" ["base"]; mig "01" ["03"]]) as H by (vm_compute; reflexivity).
  split; [exact H|]. exact (proj1 (proj2 (TopoSort_spec chain {["base"]} ∅ _ H))).
Defined.

Lemma TopoSort_complete_witness :
  (∃ l, TopoSortMigrations chain {["base"]} ∅ = Ok l) ↔ ∃ p, p ≡ₚ chain ∧ ordered p.
Proof.
  refine (proj1 (TopoSort_complete chain {["base"]} ∅ _ _ _)).
  - decide_goal.
  - decide_goal.
  - intros m d Hm Hd.
    repeat (apply elem_of_cons in Hm as [->|Hm];
      [cbn in Hd; repeat (apply elem_of_cons in Hd as [->|Hd]; [set_solver|]);
       by apply elem_of_nil in Hd|]).
    by apply elem_of_nil in Hm.
Defined.

Lemma TopoSort_unknown_witness :
  ∃ e, TopoSortMigrations chain ∅ ∅ = Err e ∧ errors_Is e ErrMismatchedMigration.
Proof.
  apply (TopoSort_unknown chain ∅ ∅ (mig "03" ["base"]) "base").
  - by right; right; left.
  - by left.
  - decide_goal.
  - apply not_elem_of_empty.
  - apply not_elem_of_empty.
Defined.
