(* ===== verification/ResolveFacts.v ===== *)
(** * ResolveFacts: what a resolved directory guarantees

    The target filter, and the end-to-end statement that the migrations
    [ResolveMigrations] returns can be started one after the other. *)

From S2P Require Import Prelude.
From S2P Require Import GoStd.
From S2P Require Import Types.
From S2P Require Import Migration.
From S2P Require Import LocalSet.
From S2P Require Import OpsJson.
From S2P Require Import Deps.
From S2P Require Import DepsFacts.

(** The files a run considers: those after the baseline, by name *)
Definition postBaseline (baselineName : string) (files : list string) : list string :=
  filter (λ f, String.leb (MigrationNameFromFile f) baselineName = false) files.

Section facts.
Context `{!Dir}.

Lemma ReadRawMigration_name f m :
  ReadRawMigration f = Ok m → m.(RawMigration_Name) = MigrationNameFromFile f.
Proof. unfold ReadRawMigration. destruct (dir_decode f); [intros [= <-]; done|done..]. Qed.

Lemma read_raw_ok fmt f m : read_raw fmt f = Ok m ↔ ReadRawMigration f = Ok m.
Proof. unfold read_raw. destruct (ReadRawMigration f); naive_solver. Qed.

Lemma readLocalSet_spec baselineName target applied files all excluded :
  readLocalSet baselineName target applied files = Ok (all, excluded) →
  Forall2 (λ f m, ReadRawMigration f = Ok m) (postBaseline baselineName files) all ∧
  (∀ n, n ∈ excluded ↔ ∃ m, m ∈ all ∧ m.(RawMigration_Name) = n ∧
                           SelectedBy (targets_of m) target = false) ∧
  (∀ m, m ∈ all → target ≠ "" → m.(RawMigration_Name) ∉ applied → targets_of m ≠ []).
Proof.
  revert all excluded. unfold postBaseline.
  induction files as [|f files IH]; intros all excluded; cbn [readLocalSet].
  { intros [= <- <-]. split_and!; [constructor| |by intros ? ?%elem_of_nil].
    intros n. split; [by intros ?%elem_of_empty|by intros (? & ?%elem_of_nil & _)]. }
  destruct (String.leb (MigrationNameFromFile f) baselineName) eqn:Hb.
  { rewrite filter_cons_False by congruence. apply IH. }
  rewrite filter_cons_True by done.
  intros (mig & Hmig%read_raw_ok & Hr)%outcome_bind_ok.
  destruct (_ && _) eqn:Hc in Hr; [done|].
  apply outcome_bind_ok in Hr as ([all' exc'] & Hrec & [= <- <-]).
  destruct (IH _ _ Hrec) as (Hall & Hexc & Htag). split_and!.
  - by constructor.
  - intros n. destruct (SelectedBy (targets_of mig) target) eqn:Hs.
    + rewrite Hexc. split; [intros (m & ? & ? & ?); exists m; set_solver|].
      intros (m & [->|Hm]%elem_of_cons & Hn & Hns); [congruence|by exists m].
    + rewrite elem_of_union, elem_of_singleton, Hexc. split.
      * intros [->|(m & ? & ? & ?)]; [exists mig; set_solver|exists m; set_solver].
      * intros (m & [->|Hm]%elem_of_cons & Hn & Hns); [by left|right; by exists m].
  - intros m [->|Hm]%elem_of_cons Ht Ha; [|by apply Htag]. intros Hnil.
    rewrite (bool_decide_eq_false_2 (target = "")), (bool_decide_eq_true_2 (_ ∉ applied)),
      (bool_decide_eq_true_2 (targets_of mig = [])) in Hc by done. done.
Qed.

Lemma readLocalSet_names baselineName target applied files all excluded :
  readLocalSet baselineName target applied files = Ok (all, excluded) →
  names all = MigrationNameFromFile <$> postBaseline baselineName files.
Proof.
  intros (Hall & _ & _)%readLocalSet_spec. unfold names.
  induction Hall as [|f m fs ms Hf _ IH]; [done|]. rewrite !fmap_cons, IH.
  by rewrite (ReadRawMigration_name f m Hf).
Qed.

Lemma SelectedBy_no_target ts : SelectedBy ts "" = true.
Proof. done. Qed.

Lemma validateDependencies_ok history name deps satisfied :
  validateDependencies history name deps satisfied = Ok () ↔
  ∀ d, d ∈ deps → d ∈ history ∨ d ∈ satisfied.
Proof.
  unfold validateDependencies. destruct (decide (deps = [])) as [->|_].
  { split; [by intros _ d ?%elem_of_nil|done]. }
  case_decide as Hm; split; try done.
  - intros _ d Hd. destruct (decide (d ∈ history)) as [|Hno]; [by left|].
    destruct (decide (d ∈ satisfied)) as [|Hno']; [by right|]. exfalso.
    apply (proj1 (filter_nil_iff _ _) Hm d Hd). by rewrite elem_of_list_to_set.
  - intros Hall. destruct Hm. apply filter_nil_iff. intros d Hd. rewrite elem_of_list_to_set.
    intros [Hh Hs]. destruct (Hall d Hd); done.
Qed.

Lemma TopoSort_startable migs history applied excluded l :
  applied = list_to_set history →
  TopoSortMigrations migs applied excluded = Ok l → startable history excluded l.
Proof.
  intros -> Hs i m Hi. destruct (TopoSort_sound _ _ _ _ Hs) as [Hp Ho].
  apply validateDependencies_ok. intros d Hd.
  assert (m ∈ migs) as Hm by (rewrite <-Hp; by eapply list_elem_of_lookup_2).
  destruct (hasDeps migs) eqn:Hh.
  - destruct (TopoSort_Ok_input _ _ _ _ Hh Hs) as (_ & _ & Hkn).
    destruct (Hkn m d Hm Hd) as [Hdn|[Hda|Hde]].
    + left. apply elem_of_app. right. eapply Ho; [done|done|]. by rewrite (names_perm _ _ Hp).
    + left. apply elem_of_app. left. by apply elem_of_list_to_set in Hda.
    + by right.
  - rewrite (hasDeps_false _ _ Hh Hm) in Hd. by apply elem_of_nil in Hd.
Qed.

(** ** Theorems *)

(** C3. The target filter: [All] is every post-baseline file in filename
    order; with distinct names [Selected] is the part the target selects;
    and when a target is in effect no unapplied migration without targets is
    let through, selected or not. *)
Theorem resolveLocalSet_spec baselineName applied target set :
  resolveLocalSet baselineName applied target = Ok set →
  Forall2 (λ f m, ReadRawMigration f = Ok m)
    (postBaseline baselineName CollectFilesFromDir) set.(All) ∧
  (∀ m, m ∈ set.(Selected) ↔ m ∈ set.(All) ∧ m.(RawMigration_Name) ∉ set.(Excluded)) ∧
  (NoDup (names set.(All)) →
     set.(Selected) = filter (λ m, SelectedBy (targets_of m) target = true) set.(All)) ∧
  (∀ m, m ∈ set.(All) → target ≠ "" → m.(RawMigration_Name) ∉ applied → targets_of m ≠ []).
Proof.
  unfold resolveLocalSet. intros ([all exc] & Hr & [= <-])%outcome_bind_ok. cbn.
  destruct (readLocalSet_spec _ _ _ _ _ _ Hr) as (Hall & Hexc & Htag).
  assert (target = "" → ∀ n, n ∉ exc) as Hnone.
  { intros -> n (m & _ & _ & Hs)%Hexc. done. }
  split_and!; [done| | |done].
  - intros m. case_decide as Ht.
    + split; [|by intros [? _]]. intros Hm. split; [done|by apply Hnone].
    + rewrite list_elem_of_filter. tauto.
  - intros Hnd. case_decide as Ht; subst.
    + rewrite filter_all; [done|]. by intros.
    + apply filter_ext_in. intros m Hm. rewrite Hexc.
      destruct (SelectedBy (targets_of m) target) eqn:Hs.
      * split; [done|]. intros _ (m' & Hm' & Hn & Hs').
        rewrite (names_inj all m' m) in Hs' by done. congruence.
      * split; [|done]. intros Hno. destruct Hno. by exists m.
Qed.

(** C4. End to end: the migrations [ResolveMigrations] returns are the
    unapplied ones the target selects, in an order in which every one of
    them passes [validateDependencies] when it is started, with the history
    grown by those before it; and every applied migration still has its
    local file, selected or not. *)
Theorem ResolveMigrations_startable history baseline target res :
  ResolveMigrations history baseline target = Ok res →
  (∀ n, n ∈ history → n ∈ names res.(Resolution_All)) ∧
  (∀ m, m ∈ res.(Resolution_Apply) ↔ m ∈ res.(Resolution_All) ∧
     m.(RawMigration_Name) ∉ history ∧ m.(RawMigration_Name) ∉ res.(Resolution_Excluded)) ∧
  (∀ m, m ∈ res.(Resolution_Apply) → SelectedBy (targets_of m) target = true) ∧
  startable history res.(Resolution_Excluded) res.(Resolution_Apply).
Proof.
  unfold ResolveMigrations.
  intros (local & Hl & Hr)%outcome_bind_ok.
  destruct (head _) eqn:Hh in Hr; [done|].
  apply outcome_bind_ok in Hr as (sorted & Hs & [= <-]). cbn.
  unfold resolveLocalSet in Hl. apply outcome_bind_ok in Hl as ([all exc] & Hrd & [= <-]).
  destruct (readLocalSet_spec _ _ _ _ _ _ Hrd) as (_ & Hexc & _). cbn in *.
  assert (∀ m, m ∈ sorted ↔ m ∈ all ∧ m.(RawMigration_Name) ∉ history
                            ∧ m.(RawMigration_Name) ∉ exc) as Hin.
  { intros m. destruct (TopoSort_sound _ _ _ _ Hs) as [Hp _].
    rewrite (elem_of_Permutation_proper m _ _ Hp).
    rewrite list_elem_of_filter, elem_of_list_to_set. case_decide as Ht.
    - subst. split; [|tauto]. intros [Hn Hm]. split_and!; [done..|].
      by intros (? & _ & _ & ?)%Hexc.
    - rewrite list_elem_of_filter. tauto. }
  split_and!; [|done| |by eapply TopoSort_startable].
  - intros n Hn. apply head_None in Hh.
    destruct (decide (n ∈ names all)) as [|Hno]; [done|].
    exfalso. apply (proj1 (filter_nil_iff _ _) Hh n).
    + apply elem_of_elements. by apply elem_of_list_to_set.
    + by rewrite elem_of_list_to_set.
  - intros m (Hm & _ & Hx)%Hin. destruct (SelectedBy (targets_of m) target) eqn:Hsel; [done|].
    destruct Hx. apply Hexc. by exists m.
Qed.
End facts.

(** ** A concrete directory *)

Definition raw (deps : list string) (targets : option (list string)) : RawMigration :=
  mkRawMigration "" "" "[]" deps [] false false targets "".

(** A baseline, two migrations the target "app" selects, one it does not and
    one without targets that has been applied *)
Definition sample_dir : Dir := {|
  dir_entries := ["00_base.json"; "01_a.yaml"; "02_b.json"; "03_c.json"; "04_d.yml"; "notes.txt"];
  dir_decode f :=
    if decide (f = "01_a.yaml") then Ok (raw ["02_b"; "03_c"] (Some ["app"]))
    else if decide (f = "02_b.json") then Ok (raw ["04_d"] (Some ["app"; "etl"]))
    else if decide (f = "03_c.json") then Ok (raw [] (Some ["etl"]))
    else if decide (f = "04_d.yml") then Ok (raw [] None)
    else Err (Errorf "unreadable" []);
|}.

Lemma resolveLocalSet_spec_witness :
  ∃ set, @resolveLocalSet sample_dir "00_base" {["04_d"]} "app" = Ok set ∧
    names set.(Selected) = ["01_a"; "02_b"] ∧
    set.(Selected) = filter (λ m, SelectedBy (targets_of m) "app" = true) set.(All).
Proof.
  eexists. split; [vm_compute; reflexivity|]. split; [vm_compute; reflexivity|].
  refine (proj1 (proj2 (proj2 (@resolveLocalSet_spec sample_dir "00_base" {["04_d"]} "app" _ _))) _).
  - vm_compute. reflexivity.
  - decide_goal.
Defined.

Lemma ResolveMigrations_startable_witness :
  ∃ res, @ResolveMigrations sample_dir ["04_d"] (Some "00_base") "app" = Ok res ∧
    names res.(Resolution_Apply) = ["02_b"; "01_a"] ∧
    startable ["04_d"] res.(Resolution_Excluded) res.(Resolution_Apply).
Proof.
  eexists. split; [vm_compute; reflexivity|]. split; [vm_compute; reflexivity|].
  refine (proj2 (proj2 (proj2
    (@ResolveMigrations_startable sample_dir ["04_d"] (Some "00_base") "app" _ _)))).
  vm_compute. reflexivity.
Defined.

(** [latestMigrationLocal] says it applies the same rule as
    [resolveLocalSet]; on this directory the one refuses what the other
    accepts, because an applied migration needs no targets there. *)
Lemma latest_stricter_than_resolve :
  is_ok (@resolveLocalSet sample_dir "00_base" {["04_d"]} "app") = true ∧
  ∀ json : OperationJson,
    @latestMigrationLocal json sample_dir "app" = Err (TargetRequiredError "04_d.yml" "app" false).
Proof. split; [|intros json]; vm_compute; reflexivity. Qed.

(** The order of the files is not the order of the migration names. *)
Lemma collect_order_differs :
  let d : Dir := {| dir_entries := ["a.json"; "a-b.json"]; dir_decode _ := Ok (raw [] None) |} in
  MigrationNameFromFile <$> @CollectFilesFromDir d = ["a-b"; "a"] ∧
  slices_Sort (MigrationNameFromFile <$> @CollectFilesFromDir d) = ["a"; "a-b"].
Proof. vm_compute. split; reflexivity. Qed.
