(* ===== verification/History.v ===== *)
(** * History: the migrations table and the statements of [pkg/state]

    The rows of the table [migrations] of one schema, with the constraints of
    [init.sql], and every Go method of [pkg/state] that reads or writes them:
    each SQL statement of a method is its effect on the rows.  The functions
    [latest_migration], [previous_migration], [is_active_migration_period] and
    [find_version_schema] are those of [init.sql].  Encoding migrations as
    JSON ([Json]) and reading the catalog ([Catalogue]) are parameters. *)

From S2P Require Import Prelude.
From S2P Require Import GoStd.
From S2P Require Import Names.
From S2P Require Import Schema.
From S2P Require Import Types.
From S2P Require Import Db.
From S2P Require Import Operations.
From S2P Require Import Migration.
From S2P Require Import Invert.
From S2P Require Import LocalSet.

(** [encoding/json] on migrations, [J] being [jsonb] *)
Class Json (J : Type) := {
  json_Marshal : Migration → outcome error J;
  json_MarshalRaw : RawMigration → outcome error J;
  json_Unmarshal : J → outcome error Migration;
  json_UnmarshalRaw : J → outcome error RawMigration;
  json_version_schema : J → option string;
  json_operation_count : J → nat;
}.

(** The catalog as [read_schema] and [information_schema.schemata] show it,
    and the order of names in the database's collation *)
Class Catalogue (C : Type) := {
  catalogue_name_le : string → string → bool;
  catalogue_read_schema : string → C → outcome error snapshot;
  catalogue_schemata : C → list string;
}.

Definition MigrationTypePgroll : string := "pgroll".
Definition MigrationTypeBaseline : string := "baseline".
Definition MigrationTypeInferred : string := "inferred".

(** A row; [None] as the resulting schema is the default ['{}']. *)
Record MigrationRow (J : Type) := mkMigrationRow {
  row_name : string;
  row_migration : J;
  row_created_at : Z;
  row_parent : option string;
  row_done : bool;
  row_resulting_schema : option snapshot;
  row_type : string;
  row_deferred : bool;
  row_sealed : bool;
}.
Arguments mkMigrationRow {J} _ _ _ _ _ _ _ _ _.
Arguments row_name {J} _.
Arguments row_migration {J} _.
Arguments row_created_at {J} _.
Arguments row_parent {J} _.
Arguments row_done {J} _.
Arguments row_resulting_schema {J} _.
Arguments row_type {J} _.
Arguments row_deferred {J} _.
Arguments row_sealed {J} _.

Definition ErrNoActiveMigration : error := Errorf "no active migration" [].
Definition ErrNoRows : error := Errorf "sql: no rows in result set" [].
Definition ErrRebaselineRefused : error := Errorf "refusing to convert migration to baseline" [].

Section rows.
Context {J : Type}.
Implicit Types (r : MigrationRow J) (rows : list (MigrationRow J)).

Definition set_row_parent (p : option string) r : MigrationRow J :=
  mkMigrationRow (row_name r) (row_migration r) (row_created_at r) p (row_done r)
    (row_resulting_schema r) (row_type r) (row_deferred r) (row_sealed r).
Definition set_row_flags (done deferred sealed : bool) r : MigrationRow J :=
  mkMigrationRow (row_name r) (row_migration r) (row_created_at r) (row_parent r) done
    (row_resulting_schema r) (row_type r) deferred sealed.
Definition set_row_resulting_schema (s : snapshot) r : MigrationRow J :=
  mkMigrationRow (row_name r) (row_migration r) (row_created_at r) (row_parent r) (row_done r)
    (Some s) (row_type r) (row_deferred r) (row_sealed r).
Definition set_row_type (ty : string) r : MigrationRow J :=
  mkMigrationRow (row_name r) (row_migration r) (row_created_at r) (row_parent r) (row_done r)
    (row_resulting_schema r) ty (row_deferred r) (row_sealed r).

(** ** The constraints of the table *)

Definition row_names rows : list string := row_name <$> rows.
Definition unique_violation (name : string) : error := pqError "23505" name.
Definition foreign_key_violation (name : string) : error := pqError "23503" name.
Definition check_violation (name : string) : error := pqError "23514" name.

(** Checked at the end of every statement that writes *)
Definition constraint_violation rows : option error :=
  if decide (¬ NoDup (row_names rows)) then Some (unique_violation "migrations_pkey")
  else if decide (1 < length (filter (λ r, row_done r = false) rows))
  then Some (unique_violation "only_one_active")
  else if decide (1 < length (filter (λ r, row_parent r = None) rows))
  then Some (unique_violation "only_first_migration_without_parent")
  else if decide (¬ NoDup (omap row_parent rows)) then Some (unique_violation "history_is_linear")
  else if decide (¬ omap row_parent rows ⊆ row_names rows)
  then Some (foreign_key_violation "migrations_schema_parent_fkey")
  else if decide (¬ Forall (λ r, row_type r ∈ [MigrationTypePgroll; MigrationTypeInferred;
                                              MigrationTypeBaseline]) rows)
  then Some (check_violation "migration_type_check")
  else None.

(** ** Queries *)

Definition not_newer r1 r2 : Prop := (row_created_at r1 ≤ row_created_at r2)%Z.
#[export] Instance not_newer_dec : RelDecision not_newer.
Proof. intros r1 r2. unfold not_newer. apply _. Defined.
Definition by_created_at rows : list (MigrationRow J) := merge_sort not_newer rows.
Definition by_created_at_desc rows : list (MigrationRow J) := merge_sort (flip not_newer) rows.
Definition find_row (name : string) rows : option (MigrationRow J) :=
  head (filter (λ r, row_name r = name) rows).

Definition is_active_migration_period rows : bool :=
  bool_decide (filter (λ r, row_done r = false) rows ≠ []).
(** A scalar SQL function takes the first row of its query. *)
Definition latest_migration rows : option string :=
  row_name <$> head (filter (λ p, Forall (λ c, row_parent c ≠ Some (row_name p)) rows) rows).
Definition previous_migration rows : option string :=
  name ← latest_migration rows; r ← find_row name rows; row_parent r.
(** The newest baseline's [created_at] *)
Definition baseline_created_at rows : option Z :=
  foldr (λ r acc, Some (match acc with
                        | Some t => Z.max (row_created_at r) t
                        | None => row_created_at r
                        end)) None
    (filter (λ r, row_type r = MigrationTypeBaseline) rows).
(** [created_at > COALESCE(max, '-infinity')] *)
Definition after_baseline rows r : Prop :=
  match baseline_created_at rows with
  | Some t => (t < row_created_at r)%Z
  | None => True
  end.
#[export] Instance after_baseline_dec rows r : Decision (after_baseline rows r).
Proof. unfold after_baseline. destruct (baseline_created_at rows); apply _. Defined.

(** [find_version_schema]: the ancestors of the leaf, nearest first; [fuel] is
    the number of rows, and the parents are a chain *)
Fixpoint ancestors (fuel : nat) (name : string) rows : list (MigrationRow J) :=
  match fuel with
  | 0 => []
  | S fuel =>
      match find_row name rows with
      | None => []
      | Some r => r :: match row_parent r with Some p => ancestors fuel p rows | None => [] end
      end
  end.
End rows.

(** ** The store *)

(** The database of the state connection: the catalog, the tables
    [migrations] and [reverted_migrations] by schema, and the readings of the
    clock with the number of those made.  [ReadSchema] reads [st_db]. *)
Record Store (J C : Type) := mkStore {
  st_db : C;
  st_migrations : gmap string (list (MigrationRow J));
  st_reverted : gmap string (gmap string string);
  st_clock : nat → Z;
  st_ticks : nat;
}.
Arguments mkStore {J C} _ _ _ _ _.
Arguments st_db {J C} _.
Arguments st_migrations {J C} _.
Arguments st_reverted {J C} _.
Arguments st_clock {J C} _.
Arguments st_ticks {J C} _.

(** [HistoryEntry] is its [Migration] here, [created_at] being read by no
    caller. *)
Record MigrationRecord := mkMigrationRecord {
  rec_Name : string;
  rec_Migration : Migration;
  rec_Done : bool;
  rec_CompleteDeferred : bool;
  rec_MigrationType : string;
  rec_Parent : option string;
}.

(** [roll.PruneTarget], without the time *)
Record PruneTarget := mkPruneTarget {
  PruneTarget_Name : string;
  PruneTarget_Done : bool;
  PruneTarget_MigrationType : string;
  PruneTarget_VersionSchema : string;
  PruneTarget_OperationCount : nat;
}.

Record Tombstone := mkTombstone { Tombstone_Name : string; Tombstone_ContentHash : string }.

Record ConvertToBaselineResult := mkConvertToBaselineResult {
  AlreadyBaseline : bool;
  EmptyResultingSchema : bool;
}.

Definition set_Migration_Name (n : string) (m : Migration) : Migration :=
  mkMigration n m.(Migration_VersionSchema) m.(Migration_Operations) m.(Migration_DependsOn)
    m.(Migration_Preconditions) m.(Migration_Irreversible) m.(Migration_Baseline)
    m.(Migration_Targets) m.(Migration_RevertOf).

(** [ORDER BY name] in the order [le] *)
Definition le_true (le : string → string → bool) (n1 n2 : string) : Prop := le n1 n2 = true.
#[export] Instance le_true_dec le : RelDecision (le_true le).
Proof. intros n1 n2. unfold le_true. apply _. Defined.
Definition sort_names (le : string → string → bool) (names : list string) : list string :=
  merge_sort (le_true le) names.

(** A refusal of [ConvertMigrationToBaseline]; [collectNames] and the refusal
    when it finds any *)
Definition refuse (args : list string) (format : string) : error :=
  ErrorfW format args ErrRebaselineRefused.
Definition refuse_names {W} (names : list string) (format : string) : prog W error () :=
  fail_if (negb (bool_decide (names = []))) (refuse (take 5 names) format).

Section State.
Context {J C : Type} `{!Json J} `{!Catalogue C}.
Abbreviation S := (prog (Store J C) error).

Definition table (schema : string) (st : Store J C) : list (MigrationRow J) :=
  default [] (st_migrations st !! schema).
Definition set_table (schema : string) (rows : list (MigrationRow J)) (st : Store J C) :
    Store J C :=
  mkStore (st_db st) (<[schema := rows]> (st_migrations st)) (st_reverted st) (st_clock st)
    (st_ticks st).
Definition read_rows (schema : string) : S (list (MigrationRow J)) := gets (table schema).

(** [CURRENT_TIMESTAMP] of a new statement *)
Definition current_timestamp : S Z := λ st,
  (Ok (st_clock st (st_ticks st)),
   mkStore (st_db st) (st_migrations st) (st_reverted st) (st_clock st) (Nat.succ (st_ticks st))).

(** A statement that writes: the rows change unless a constraint is violated. *)
Definition write_rows (schema : string) (rows : list (MigrationRow J)) : S () := λ st,
  match constraint_violation rows with
  | Some e => (Err e, st)
  | None => (Ok (), set_table schema rows st)
  end.

(** [UPDATE ... WHERE] and the number of rows affected *)
Definition update_rows (schema : string) (P : MigrationRow J → Prop) `{!∀ r, Decision (P r)}
    (f : MigrationRow J → MigrationRow J) : S nat :=
  rows ← read_rows schema;
  write_rows schema ((λ r, if decide (P r) then f r else r) <$> rows) ;;
  mret (length (filter P rows)).
Definition delete_rows (schema : string) (P : MigrationRow J → Prop) `{!∀ r, Decision (P r)} :
    S nat :=
  rows ← read_rows schema;
  write_rows schema (filter (λ r, ¬ P r) rows) ;;
  mret (length (filter P rows)).
Definition insert_row (schema : string) (r : MigrationRow J) : S () :=
  rows ← read_rows schema; write_rows schema (rows ++ [r]).

Definition no_migration_found (name : string) : error :=
  Errorf "no migration found with name %s" [name].

(** ** [state.go] *)

Definition State_ReadSchema (schemaName : string) : S snapshot := λ st,
  (catalogue_read_schema schemaName (st_db st), st).

(** The store exists, so [IsInitialized] holds. *)
Definition State_HasExistingSchemaWithoutHistory (schemaName : string) : S bool :=
  rows ← read_rows schemaName;
  if decide (filter (λ r, row_type r ≠ MigrationTypeInferred) rows ≠ []) then mret false
  else
    sc ← wrap_err (ErrorfW "failed to read schema: %w" []) (State_ReadSchema schemaName);
    mret (bool_decide (Schema_Tables sc.2 ≠ ∅)).

Definition State_IsActiveMigrationPeriod (schema : string) : S bool :=
  rows ← read_rows schema; mret (is_active_migration_period rows).

(** A stored migration under the name of its row *)
Definition unmarshal_row (wrap : error → error) (r : MigrationRow J) : outcome error Migration :=
  match json_Unmarshal (row_migration r) with
  | Err e => Err (wrap e)
  | o => set_Migration_Name (row_name r) <$> o
  end.

Definition State_GetActiveMigration (schema : string) : S Migration :=
  rows ← read_rows schema;
  match head (filter (λ r, row_done r = false) rows) with
  | None => fail ErrNoActiveMigration
  | Some r => lift (unmarshal_row (ErrorfW "unable to unmarshal migration: %w" []) r)
  end.

Definition State_Start (migration : Migration) (schemaname : string) : S () :=
  raw ← wrap_err (ErrorfW "unable to marshal migration: %w" []) (lift (json_Marshal migration));
  now ← current_timestamp;
  rows ← read_rows schemaname;
  insert_row schemaname
    (mkMigrationRow migration.(Migration_Name) raw now (latest_migration rows) false None
       MigrationTypePgroll false false).

(** An update of the rows of one migration that has to affect some row; the
    resulting schema is read again where [snap] says so. *)
Definition update_one (schema : string) (P : MigrationRow J → Prop) `{!∀ r, Decision (P r)}
    (f : snapshot → MigrationRow J → MigrationRow J) (e : error) : S () :=
  rows ← read_rows schema;
  if decide (filter P rows = []) then fail e
  else sc ← State_ReadSchema schema; update_rows schema P (f sc) ;; mret ().

Definition State_Complete (name schema : string) : S () :=
  update_one schema (λ r, row_name r = name ∧ row_done r = false)
    (λ sc r, set_row_resulting_schema sc
               (set_row_flags true (row_deferred r) (row_sealed r) r))
    (no_migration_found name).

Definition State_MarkCompleteDeferred (name schema : string) : S () :=
  update_one schema (λ r, row_name r = name ∧ row_done r = false)
    (λ sc r, set_row_resulting_schema sc (set_row_flags true true (row_sealed r) r))
    (Errorf "no active migration found with name %s" [name]).

Definition State_DeferredCompletes (schema : string) : S (list Migration) :=
  rows ← read_rows schema;
  lift (map_outcome
          (λ r, unmarshal_row (ErrorfW "unable to unmarshal deferred migration %q: %w" [row_name r]) r)
          (by_created_at (filter (λ r, row_deferred r = true) rows))).

Definition State_HasSealedDeferred (schema : string) : S bool :=
  rows ← read_rows schema;
  mret (bool_decide (filter (λ r, row_deferred r = true ∧ row_sealed r = true) rows ≠ [])).

Definition State_ClearCompleteDeferred (name schema : string) : S () :=
  update_rows schema (λ r, row_name r = name)
    (λ r, set_row_flags (row_done r) false (row_sealed r) r) ;; mret ().

Definition State_GetMigration (name schema : string) : S Migration :=
  rows ← read_rows schema;
  match find_row name rows with
  | None => fail (Errorf "migration %q not found in history" [name])
  | Some r => lift (unmarshal_row (ErrorfW "unable to unmarshal migration %q: %w" [name]) r)
  end.

Definition State_RefreshResultingSchema (name schema : string) : S () :=
  update_one schema (λ r, row_name r = name) set_row_resulting_schema (no_migration_found name).

(** The JSON object ['{}'] decodes to a schema without tables. *)
Definition State_SchemaAfterMigration (version schemaName : string) : S snapshot :=
  rows ← read_rows schemaName;
  match find_row version rows with
  | None => fail ErrNoRows
  | Some r => mret (default (∅, New) (row_resulting_schema r))
  end.

Definition State_Rollback (name schema : string) : S () :=
  n ← delete_rows schema (λ r, row_name r = name ∧ row_done r = false);
  fail_if (Nat.eqb n 0) (no_migration_found name).

(** ** [state.go], baselines and stamps *)

Definition State_CreateBaseline (baselineVersion schemaName : string) : S () :=
  active ← wrap_err (ErrorfW "failed to check for active migrations: %w" [])
             (State_IsActiveMigrationPeriod schemaName);
  fail_if active (Errorf "cannot create baseline while a migration is in progress" []) ;;
  sc ← wrap_err (ErrorfW "failed to read schema: %w" []) (State_ReadSchema schemaName);
  raw ← wrap_err (ErrorfW "unable to marshal migration: %w" [])
          (lift (json_Marshal (mkMigration baselineVersion "" [] [] [] false false [] "")));
  now ← current_timestamp;
  rows ← read_rows schemaName;
  wrap_err (ErrorfW "failed to insert baseline migration: %w" [])
    (insert_row schemaName
       (mkMigrationRow baselineVersion raw now (latest_migration rows) true (Some sc)
          MigrationTypeBaseline false true)).

Definition State_MigrationExists (name schemaName : string) : S bool :=
  rows ← read_rows schemaName; mret (bool_decide (name ∈ row_names rows)).

(** An empty type is the column's default. *)
Definition State_Stamp (name : string) (migration : J) (resultingSchema : option snapshot)
    (parent : option string) (migrationType schemaName : string) : S () :=
  now ← current_timestamp;
  rows ← read_rows schemaName;
  wrap_err (ErrorfW "failed to stamp migration %q: %w" [name])
    (insert_row schemaName
       (mkMigrationRow name migration now
          (match parent with Some p => Some p | None => latest_migration rows end) true
          resultingSchema
          (if decide (migrationType = "") then MigrationTypePgroll else migrationType)
          false true)).

(** ** [history.go] *)

Definition schemaHistory (excludeInferred : bool) (schema : string) : S (list RawMigration) :=
  rows ← read_rows schema;
  lift (map_outcome
          (λ r, set_RawMigration_Name (row_name r) <$> json_UnmarshalRaw (row_migration r))
          (by_created_at
             (filter (λ r, (excludeInferred = true → row_type r ≠ MigrationTypeInferred) ∧
                           after_baseline rows r) rows))).
Definition State_SchemaHistory : string → S (list RawMigration) := schemaHistory true.
Definition State_SchemaHistoryWithInferred : string → S (list RawMigration) := schemaHistory false.

(** [BaselineMigration]: its name and its snapshot *)
Definition State_LatestBaseline (schemaName : string) : S (option (string * snapshot)) :=
  rows ← read_rows schemaName;
  mret ((λ r, (row_name r, default (∅, New) (row_resulting_schema r))) <$>
        head (by_created_at_desc (filter (λ r, row_type r = MigrationTypeBaseline) rows))).

(** ** [latest.go] *)

Definition State_LatestMigration (schema : string) : S (option string) :=
  rows ← read_rows schema; mret (latest_migration rows).
Definition State_PreviousMigration (schema : string) : S (option string) :=
  rows ← read_rows schema; mret (previous_migration rows).

(** [find_version_schema]: [COALESCE(migration ->> 'version_schema', name)] of
    the [depth]-th ancestor whose schema exists *)
Definition row_version_schema (r : MigrationRow J) : string :=
  default (row_name r) (json_version_schema (row_migration r)).
Definition find_version_schema (schema : string) (depth : nat) : S (option string) := λ st,
  let rows := table schema st in
  (Ok (leaf ← latest_migration rows;
       filter (λ v, schema +:+ "_" +:+ v ∈ catalogue_schemata (st_db st))
         (row_version_schema <$> ancestors (length rows) leaf rows) !! depth), st).
Definition State_LatestVersion (schema : string) : S (option string) :=
  find_version_schema schema 0.
Definition State_PreviousVersion (schema : string) : S (option string) :=
  find_version_schema schema 1.

(** ** [revert.go] *)

Definition State_UnsealedMigrations (schema : string) : S (list MigrationRecord) :=
  rows ← read_rows schema;
  lift (map_outcome
          (λ r, mig ← unmarshal_row (ErrorfW "unable to unmarshal migration %q: %w" [row_name r]) r;
                Ok (mkMigrationRecord (row_name r) mig (row_done r) (row_deferred r) (row_type r)
                      (row_parent r)))
          (by_created_at_desc (filter (λ r, row_sealed r = false) rows))).

Definition State_MarkSealed (schema : string) : S Z :=
  n ← wrap_err (ErrorfW "unable to mark migrations sealed: %w" [])
        (update_rows schema (λ r, row_sealed r = false ∧ row_done r = true)
           (λ r, set_row_flags (row_done r) (row_deferred r) true r));
  mret (Z.of_nat n).

Definition State_DeleteMigration (name schema : string) : S () :=
  n ← delete_rows schema (λ r, row_name r = name);
  fail_if (Nat.eqb n 0) (no_migration_found name).

(** ** [prune.go] *)

(** [LAG(name) OVER (ORDER BY created_at)] as the parent of each row *)
Fixpoint rewire (parent : option string) (rows : list (MigrationRow J)) : list (MigrationRow J) :=
  match rows with
  | [] => []
  | r :: rows => set_row_parent parent r :: rewire (Some (row_name r)) rows
  end.

(** The query of [roll.PruneTargets], on the state's connection *)
Definition State_PruneRows (names : list string) (schema : string) : S (list PruneTarget) :=
  rows ← read_rows schema;
  mret ((λ r, mkPruneTarget (row_name r) (row_done r) (row_type r) (row_version_schema r)
                (json_operation_count (row_migration r))) <$>
        by_created_at (filter (λ r, row_name r ∈ names) rows)).

(** The rows of the temporary table replace the schema's, in one transaction. *)
Definition State_Prune (names : list string) (schemaName : string) : S () :=
  if decide (names = []) then mret ()
  else
    rows ← read_rows schemaName;
    let found := length (filter (λ r, row_name r ∈ names) rows) in
    fail_if (negb (Nat.eqb found (length names)))
      (Errorf "prune: %d of %d migrations not found in schema history for %q" [schemaName]) ;;
    wrap_err (ErrorfW "prune: reinserting keeper rows: %w" [])
      (write_rows schemaName
         (rewire None (by_created_at (filter (λ r, row_name r ∉ names) rows)))).

(** ** [rebaseline.go] *)

Definition name_le (n1 n2 : string) : bool := catalogue_name_le (C := C) n1 n2.
Definition by_name (rows : list (MigrationRow J)) : list string :=
  sort_names name_le (row_name <$> rows).

Definition State_ConvertMigrationToBaseline (name : string) (dryRun : bool) (schemaName : string) :
    S ConvertToBaselineResult :=
  rows ← read_rows schemaName;
  match find_row name rows with
  | None => fail (refuse [name; schemaName] "%w: migration %q has no row in the history of schema %q")
  | Some a =>
      let empty := bool_decide (row_resulting_schema a = None) in
      if decide (row_type a = MigrationTypeBaseline) then mret (mkConvertToBaselineResult true empty)
      else
        let below r := (row_created_at r ≤ row_created_at a)%Z in
        fail_if (bool_decide (row_type a = MigrationTypeInferred))
          (refuse [name] "%w: migration %q is an inferred row (out-of-band DDL); it has no migration file and cannot anchor a baseline") ;;
        fail_if (negb (row_done a) || negb (row_sealed a) || row_deferred a)
          (refuse [name] "%w: migration %q is not fully applied and contracted (done=%t sealed=%t complete_deferred=%t); complete the deployment first") ;;
        fail_if (is_active_migration_period rows)
          (refuse [schemaName] "%w: a migration is in progress on schema %q; complete it or run `pgroll rollback` first") ;;
        refuse_names
          (row_name <$> by_created_at (filter (λ r, row_name r ≠ name ∧
             (row_sealed r = false ∨ row_deferred r = true) ∧ below r) rows))
          "%w: migration(s) at or below the anchor are unsealed or awaiting a deferred complete: %s; contract them (`pgroll complete`) before rebaselining" ;;
        refuse_names
          (row_name <$> by_created_at (filter (λ r, row_type r = MigrationTypeBaseline ∧
             (row_created_at a ≤ row_created_at r)%Z) rows))
          "%w: baseline migration(s) exist at or after the anchor's created_at: %s; the anchor would never be selected as the latest baseline" ;;
        refuse_names
          (by_name (filter (λ r, row_name r ≠ name ∧ row_type r ≠ MigrationTypeInferred ∧ below r ∧
             name_le (row_name r) name = false) rows))
          "%w: migration(s) applied at or before the anchor sort after its name: %s; the baseline would hide them from history while their files remain candidates, so `pgroll migrate` would re-apply them" ;;
        refuse_names
          (by_name (filter (λ r, row_name r ≠ name ∧ row_type r ≠ MigrationTypeInferred ∧ ¬ below r ∧
             name_le (row_name r) name = true) rows))
          "%w: migration(s) applied after the anchor sort at or before its name: %s; they would stay in visible history while their files sort below the baseline, so `pgroll migrate` would fail on files missing from disk" ;;
        if (dryRun : bool) then mret (mkConvertToBaselineResult false empty)
        else
          update_rows schemaName (λ r, row_name r = name) (set_row_type MigrationTypeBaseline) ;;
          mret (mkConvertToBaselineResult false empty)
  end.

(** ** [tombstones.go] *)

Definition tombstones_of (schema : string) (st : Store J C) : gmap string string :=
  default ∅ (st_reverted st !! schema).
Definition set_tombstones (schema : string) (f : gmap string string → gmap string string) : S () :=
  modify (λ st, mkStore (st_db st) (st_migrations st)
                  (<[schema := f (tombstones_of schema st)]> (st_reverted st))
                  (st_clock st) (st_ticks st)).

Definition State_RecordRevertedMigrations (tombstones : list Tombstone) (schema : string) : S () :=
  for_each (λ t, set_tombstones schema <[t.(Tombstone_Name) := t.(Tombstone_ContentHash)]>)
    tombstones.
Definition State_RevertedMigrations (schema : string) : S (gmap string string) :=
  gets (tombstones_of schema).
Definition State_ClearRevertedMigrations (names : list string) (schema : string) : S () :=
  if decide (names = []) then mret ()
  else set_tombstones schema (λ m, foldr delete m names).
End State.
