(* ===== verification/HistorySpec.v ===== *)
(** * HistorySpec: the migration history as a stack of entries

    What [pkg/state] promises the rest of the program, without rows, parents,
    flags and timestamps: a schema's history is a list of entries, oldest
    first, each with a status; a migration is started on top, the active one
    is always on top, and only the top can be taken off.  [run_spec] is the
    meaning of each method that works on this list, [run] the method itself;
    [method_spec] and [perform] are the same for the whole state store, with
    the tombstones of reverted migrations beside the list. *)

From S2P Require Import Prelude.
From S2P Require Import GoStd.
From S2P Require Import Names.
From S2P Require Import Schema.
From S2P Require Import Types.
From S2P Require Import Db.
From S2P Require Import Operations.
From S2P Require Import Migration.
From S2P Require Import Invert.
From S2P Require Import LocalSet.
From S2P Require Import History.

(** [Deferred]: done, its completion queued; [Sealing]: queued and past the
    point of no return *)
Inductive status := Active | Deferred | Applied | Sealing | Sealed.

#[export] Instance status_eq_dec : EqDecision status.
Proof. solve_decision. Defined.

Definition is_done (s : status) : bool := match s with Active => false | _ => true end.
Definition is_deferred (s : status) : bool :=
  match s with Deferred | Sealing => true | _ => false end.
Definition is_sealed (s : status) : bool := match s with Sealing | Sealed => true | _ => false end.

Definition seal (s : status) : status :=
  match s with Deferred => Sealing | Applied => Sealed | s => s end.
Definition clear_deferred (s : status) : status :=
  match s with Deferred => Applied | Sealing => Sealed | s => s end.

Record entry (J : Type) := mkEntry {
  e_name : string;
  e_body : J;
  e_time : Z;
  e_schema : option snapshot;
  e_type : string;
  e_status : status;
}.
Arguments mkEntry {J} _ _ _ _ _ _.
Arguments e_name {J} _.
Arguments e_body {J} _.
Arguments e_time {J} _.
Arguments e_schema {J} _.
Arguments e_type {J} _.
Arguments e_status {J} _.

Section entries.
Context {J : Type}.
Implicit Types (e : entry J) (es : list (entry J)).

Definition set_e_status (s : status) e : entry J :=
  mkEntry (e_name e) (e_body e) (e_time e) (e_schema e) (e_type e) s.
Definition set_e_schema (s : snapshot) e : entry J :=
  mkEntry (e_name e) (e_body e) (e_time e) (Some s) (e_type e) (e_status e).
Definition set_e_type (ty : string) e : entry J :=
  mkEntry (e_name e) (e_body e) (e_time e) (e_schema e) ty (e_status e).

Definition e_names es : list string := e_name <$> es.
Definition top es : option string := e_name <$> last es.
Definition active es : bool := bool_decide (filter (λ e, e_status e = Active) es ≠ []).
Definition find_entry (name : string) es : option (entry J) :=
  head (filter (λ e, e_name e = name) es).
Definition change (P : entry J → Prop) `{!∀ e, Decision (P e)} (f : entry J → entry J) es :
    list (entry J) := (λ e, if decide (P e) then f e else e) <$> es.

(** The entries above the newest baseline *)
Definition since_baseline es : list (entry J) :=
  foldl (λ acc e, if decide (e_type e = MigrationTypeBaseline) then [] else acc ++ [e]) [] es.

(** Each entry with the name of the one below it *)
Fixpoint with_parents (parent : option string) es : list (option string * entry J) :=
  match es with
  | [] => []
  | e :: es => (parent, e) :: with_parents (Some (e_name e)) es
  end.

(** ** The rows of a history *)

Definition row_of (pe : option string * entry J) : MigrationRow J :=
  let e := pe.2 in
  mkMigrationRow (e_name e) (e_body e) (e_time e) pe.1 (is_done (e_status e)) (e_schema e)
    (e_type e) (is_deferred (e_status e)) (is_sealed (e_status e)).
Definition rows_of es : list (MigrationRow J) := row_of <$> with_parents None es.

Record history_wf (clock : nat → Z) (ticks : nat) es : Prop := {
  wf_names : NoDup (e_names es);
  wf_times : StronglySorted Z.lt (e_time <$> es);
  wf_clock e t : e ∈ es → ticks ≤ t → (e_time e < clock t)%Z;
  wf_active pre e post : es = pre ++ e :: post → e_status e = Active → post = [];
  wf_types e : e ∈ es →
    e_type e ∈ [MigrationTypePgroll; MigrationTypeInferred; MigrationTypeBaseline];
  wf_baselines e : e ∈ es → e_type e = MigrationTypeBaseline → is_sealed (e_status e) = true;
}.
End entries.

(** The table of [schema] holds the history [es]. *)
Definition represents {J C} (schema : string) (st : Store J C) (es : list (entry J)) : Prop :=
  table schema st = rows_of es ∧ history_wf (st_clock st) (st_ticks st) es.

(** ** The calls *)

Inductive call (J : Type) : Type → Type :=
  | CIsActive : call J bool
  | CGetActive : call J Migration
  | CStart (mig : Migration) : call J ()
  | CComplete (name : string) : call J ()
  | CMarkCompleteDeferred (name : string) : call J ()
  | CDeferredCompletes : call J (list Migration)
  | CHasSealedDeferred : call J bool
  | CClearCompleteDeferred (name : string) : call J ()
  | CGetMigration (name : string) : call J Migration
  | CRefreshResultingSchema (name : string) : call J ()
  | CSchemaAfterMigration (name : string) : call J snapshot
  | CRollback (name : string) : call J ()
  | CCreateBaseline (name : string) : call J ()
  | CMigrationExists (name : string) : call J bool
  | CStamp (name : string) (body : J) (s : option snapshot) (parent : option string) (ty : string) :
      call J ()
  | CSchemaHistory (excludeInferred : bool) : call J (list RawMigration)
  | CLatestBaseline : call J (option (string * snapshot))
  | CLatestMigration : call J (option string)
  | CPreviousMigration : call J (option string)
  | CUnsealed : call J (list MigrationRecord)
  | CMarkSealed : call J Z
  | CDeleteMigration (name : string) : call J ()
  | CPrune (names : list string) : call J ()
  | CConvert (name : string) (dryRun : bool) : call J ConvertToBaselineResult.
Arguments CIsActive {J}.
Arguments CGetActive {J}.
Arguments CStart {J} mig.
Arguments CComplete {J} name.
Arguments CMarkCompleteDeferred {J} name.
Arguments CDeferredCompletes {J}.
Arguments CHasSealedDeferred {J}.
Arguments CClearCompleteDeferred {J} name.
Arguments CGetMigration {J} name.
Arguments CRefreshResultingSchema {J} name.
Arguments CSchemaAfterMigration {J} name.
Arguments CRollback {J} name.
Arguments CCreateBaseline {J} name.
Arguments CMigrationExists {J} name.
Arguments CStamp {J} name body s parent ty.
Arguments CSchemaHistory {J} excludeInferred.
Arguments CLatestBaseline {J}.
Arguments CLatestMigration {J}.
Arguments CPreviousMigration {J}.
Arguments CUnsealed {J}.
Arguments CMarkSealed {J}.
Arguments CDeleteMigration {J} name.
Arguments CPrune {J} names.
Arguments CConvert {J} name dryRun.

(** The methods *)
Definition run {J C A} `{!Json J} `{!Catalogue C} (schema : string) (c : call J A) :
    prog (Store J C) error A :=
  match c with
  | CIsActive => State_IsActiveMigrationPeriod schema
  | CGetActive => State_GetActiveMigration schema
  | CStart mig => State_Start mig schema
  | CComplete name => State_Complete name schema
  | CMarkCompleteDeferred name => State_MarkCompleteDeferred name schema
  | CDeferredCompletes => State_DeferredCompletes schema
  | CHasSealedDeferred => State_HasSealedDeferred schema
  | CClearCompleteDeferred name => State_ClearCompleteDeferred name schema
  | CGetMigration name => State_GetMigration name schema
  | CRefreshResultingSchema name => State_RefreshResultingSchema name schema
  | CSchemaAfterMigration name => State_SchemaAfterMigration name schema
  | CRollback name => State_Rollback name schema
  | CCreateBaseline name => State_CreateBaseline name schema
  | CMigrationExists name => State_MigrationExists name schema
  | CStamp name body s parent ty => State_Stamp name body s parent ty schema
  | CSchemaHistory ex => schemaHistory ex schema
  | CLatestBaseline => State_LatestBaseline schema
  | CLatestMigration => State_LatestMigration schema
  | CPreviousMigration => State_PreviousMigration schema
  | CUnsealed => State_UnsealedMigrations schema
  | CMarkSealed => State_MarkSealed schema
  | CDeleteMigration name => State_DeleteMigration name schema
  | CPrune names => State_Prune names schema
  | CConvert name dry => State_ConvertMigrationToBaseline name dry schema
  end.

(** ** Their meaning *)

Section spec.
Context {J : Type} `{!Json J}.
Implicit Types (e : entry J) (es : list (entry J)).
Abbreviation H := (prog (list (entry J)) error).

Definition push e : H () := λ es,
  if decide (e_name e ∈ e_names es) then (Err (unique_violation "migrations_pkey"), es)
  else if decide (e_status e = Active ∧ active es = true)
  then (Err (unique_violation "only_one_active"), es)
  else if decide (e_type e ∉ [MigrationTypePgroll; MigrationTypeInferred; MigrationTypeBaseline])
  then (Err (check_violation "migration_type_check"), es)
  else (Ok (), es ++ [e]).

(** Takes the top off if it is [name]; a lower entry has a child. *)
Definition pop (name : string) : H () := λ es,
  if decide (top es = Some name) then (Ok (), take (length es - 1) es)
  else if decide (name ∈ e_names es)
  then (Err (foreign_key_violation "migrations_schema_parent_fkey"), es)
  else (Err (no_migration_found name), es).

Definition decode (wrap : error → error) e : outcome error Migration :=
  match json_Unmarshal (e_body e) with
  | Err err => Err (wrap err)
  | o => set_Migration_Name (e_name e) <$> o
  end.

(** An entry chosen by [P] changes with the schema read from the catalog. *)
Definition change_one (rs : outcome error snapshot) (P : entry J → Prop) `{!∀ e, Decision (P e)}
    (f : snapshot → entry J → entry J) (err : error) : H () := λ es,
  if decide (filter P es = []) then (Err err, es)
  else match rs with
       | Ok sc => (Ok (), change P (f sc) es)
       | Err e => (Err e, es)
       | Panic => (Panic, es)
       | OutOfFuel => (OutOfFuel, es)
       end.

Definition is_active_entry (name : string) e : Prop := e_name e = name ∧ e_status e = Active.
#[export] Instance is_active_entry_dec name e : Decision (is_active_entry name e).
Proof. unfold is_active_entry. apply _. Defined.

Definition not_excluded (excludeInferred : bool) e : Prop :=
  excludeInferred = true → e_type e ≠ MigrationTypeInferred.
#[export] Instance not_excluded_dec ex e : Decision (not_excluded ex e).
Proof. unfold not_excluded. apply _. Defined.

Definition to_record (pe : option string * entry J) : outcome error MigrationRecord :=
  let e := pe.2 in
  mig ← decode (ErrorfW "unable to unmarshal migration %q: %w" [e_name e]) e;
  Ok (mkMigrationRecord (e_name e) mig (is_done (e_status e)) (is_deferred (e_status e))
        (e_type e) pe.1).

(** The audits of a conversion, by position: [pre] lies below the anchor,
    [post] above it; [le] is the order of names. *)
Definition audit (le : string → string → bool) (pre : list (entry J)) (a : entry J)
    (post : list (entry J)) (schema : string) : H () :=
  let name := e_name a in
  fail_if (bool_decide (e_type a = MigrationTypeInferred))
    (refuse [name] "%w: migration %q is an inferred row (out-of-band DDL); it has no migration file and cannot anchor a baseline") ;;
  fail_if (negb (bool_decide (e_status a = Sealed)))
    (refuse [name] "%w: migration %q is not fully applied and contracted (done=%t sealed=%t complete_deferred=%t); complete the deployment first") ;;
  fail_if (active (pre ++ post))
    (refuse [schema] "%w: a migration is in progress on schema %q; complete it or run `pgroll rollback` first") ;;
  refuse_names (e_names (filter (λ e, e_status e ≠ Sealed) pre))
    "%w: migration(s) at or below the anchor are unsealed or awaiting a deferred complete: %s; contract them (`pgroll complete`) before rebaselining" ;;
  refuse_names (e_names (filter (λ e, e_type e = MigrationTypeBaseline) post))
    "%w: baseline migration(s) exist at or after the anchor's created_at: %s; the anchor would never be selected as the latest baseline" ;;
  refuse_names (sort_names le
      (e_names (filter (λ e, e_type e ≠ MigrationTypeInferred ∧
                                         le (e_name e) name = false) pre)))
    "%w: migration(s) applied at or before the anchor sort after its name: %s; the baseline would hide them from history while their files remain candidates, so `pgroll migrate` would re-apply them" ;;
  refuse_names (sort_names le
      (e_names (filter (λ e, e_type e ≠ MigrationTypeInferred ∧
                                         le (e_name e) name = true) post)))
    "%w: migration(s) applied after the anchor sort at or before its name: %s; they would stay in visible history while their files sort below the baseline, so `pgroll migrate` would fail on files missing from disk".

Definition convert (le : string → string → bool) (name : string) (dryRun : bool)
    (schema : string) : H ConvertToBaselineResult :=
  es ← get;
  match list_find (λ e, e_name e = name) es with
  | None => fail (refuse [name; schema] "%w: migration %q has no row in the history of schema %q")
  | Some (i, a) =>
      let empty := bool_decide (e_schema a = None) in
      if decide (e_type a = MigrationTypeBaseline) then mret (mkConvertToBaselineResult true empty)
      else
        audit le (take i es) a (drop (S i) es) schema ;;
        (if (dryRun : bool) then mret ()
         else modify (change (λ e, e_name e = name) (set_e_type MigrationTypeBaseline))) ;;
        mret (mkConvertToBaselineResult false empty)
  end.

(** [rs] is what reading the catalog gives, [now] the time of an insertion. *)
Definition run_spec {A} (le : string → string → bool) (rs : outcome error snapshot) (now : Z)
    (schema : string) (c : call J A) : H A :=
  match c with
  | CIsActive => gets active
  | CGetActive =>
      es ← get;
      match last es with
      | Some e =>
          if decide (e_status e = Active)
          then lift (decode (ErrorfW "unable to unmarshal migration: %w" []) e)
          else fail ErrNoActiveMigration
      | None => fail ErrNoActiveMigration
      end
  | CStart mig =>
      body ← wrap_err (ErrorfW "unable to marshal migration: %w" []) (lift (json_Marshal mig));
      push (mkEntry mig.(Migration_Name) body now None MigrationTypePgroll Active)
  | CComplete name =>
      change_one rs (is_active_entry name) (λ sc e, set_e_schema sc (set_e_status Applied e))
        (no_migration_found name)
  | CMarkCompleteDeferred name =>
      change_one rs (is_active_entry name) (λ sc e, set_e_schema sc (set_e_status Deferred e))
        (Errorf "no active migration found with name %s" [name])
  | CDeferredCompletes =>
      es ← get;
      lift (map_outcome
              (λ e, decode (ErrorfW "unable to unmarshal deferred migration %q: %w" [e_name e]) e)
              (filter (λ e, is_deferred (e_status e) = true) es))
  | CHasSealedDeferred => gets (λ es, bool_decide (filter (λ e, e_status e = Sealing) es ≠ []))
  | CClearCompleteDeferred name =>
      modify (change (λ e, e_name e = name) (λ e, set_e_status (clear_deferred (e_status e)) e))
  | CGetMigration name =>
      es ← get;
      match find_entry name es with
      | None => fail (Errorf "migration %q not found in history" [name])
      | Some e => lift (decode (ErrorfW "unable to unmarshal migration %q: %w" [name]) e)
      end
  | CRefreshResultingSchema name =>
      change_one rs (λ e, e_name e = name) set_e_schema (no_migration_found name)
  | CSchemaAfterMigration name =>
      es ← get;
      match find_entry name es with
      | None => fail ErrNoRows
      | Some e => mret (default (∅, New) (e_schema e))
      end
  | CRollback name =>
      es ← get;
      if decide (filter (is_active_entry name) es = []) then fail (no_migration_found name)
      else pop name
  | CCreateBaseline name =>
      a ← gets active;
      fail_if a (Errorf "cannot create baseline while a migration is in progress" []) ;;
      sc ← wrap_err (ErrorfW "failed to read schema: %w" []) (lift rs);
      body ← wrap_err (ErrorfW "unable to marshal migration: %w" [])
               (lift (json_Marshal (mkMigration name "" [] [] [] false false [] "")));
      wrap_err (ErrorfW "failed to insert baseline migration: %w" [])
        (push (mkEntry name body now (Some sc) MigrationTypeBaseline Sealed))
  | CMigrationExists name => gets (λ es, bool_decide (name ∈ e_names es))
  | CStamp name body s _ ty =>
      wrap_err (ErrorfW "failed to stamp migration %q: %w" [name])
        (push (mkEntry name body now s (if decide (ty = "") then MigrationTypePgroll else ty) Sealed))
  | CSchemaHistory ex =>
      es ← get;
      lift (map_outcome (λ e, set_RawMigration_Name (e_name e) <$> json_UnmarshalRaw (e_body e))
              (filter (not_excluded ex) (since_baseline es)))
  | CLatestBaseline =>
      gets (λ es, (λ e, (e_name e, default (∅, New) (e_schema e))) <$>
                    last (filter (λ e, e_type e = MigrationTypeBaseline) es))
  | CLatestMigration => gets top
  | CPreviousMigration => gets (λ es, pe ← last (with_parents None es); pe.1)
  | CUnsealed =>
      es ← get;
      lift (map_outcome to_record
              (reverse (filter (λ pe, is_sealed (e_status pe.2) = false) (with_parents None es))))
  | CMarkSealed =>
      es ← get;
      modify (fmap (λ e, set_e_status (seal (e_status e)) e)) ;;
      mret (Z.of_nat (length (filter (λ e, e_status e = Applied ∨ e_status e = Deferred) es)))
  | CDeleteMigration name => pop name
  | CPrune ns =>
      es ← get;
      if decide (ns = []) then mret ()
      else
        fail_if (negb (Nat.eqb (length (filter (λ e, e_name e ∈ ns) es)) (length ns)))
          (Errorf "prune: %d of %d migrations not found in schema history for %q" [schema]) ;;
        modify (filter (λ e, e_name e ∉ ns))
  | CConvert name dry => convert le name dry schema
  end.

(** What [Stamp]'s caller ensures: nothing is active, and an explicit parent
    is the top. *)
Definition call_ok {A} (c : call J A) es : Prop :=
  match c with
  | CStamp _ _ _ parent _ => active es = false ∧ (parent = None ∨ parent = top es)
  | _ => True
  end.
End spec.

(** ** The whole state store

    [call] holds the methods that read or write the entries alone.  [method]
    is every method of [StateStore]: the abstract state is the history of the
    schema with its tombstones, and [view] is what a method sees beside it. *)

Inductive method (J : Type) : Type → Type :=
  | MHistory {A} (c : call J A) : method J A
  | MHasExistingSchemaWithoutHistory : method J bool
  | MReadSchema : method J snapshot
  | MLatestVersion : method J (option string)
  | MPreviousVersion : method J (option string)
  | MPruneRows (names : list string) : method J (list PruneTarget)
  | MStamp (mig : RawMigration) (s : option snapshot) (parent : option string) (ty : string) :
      method J ()
  | MRecordReverted (tombstones : list Tombstone) : method J ()
  | MReverted : method J (gmap string string)
  | MClearReverted (names : list string) : method J ().
Arguments MHistory {J A} c.
Arguments MHasExistingSchemaWithoutHistory {J}.
Arguments MReadSchema {J}.
Arguments MLatestVersion {J}.
Arguments MPreviousVersion {J}.
Arguments MPruneRows {J} names.
Arguments MStamp {J} mig s parent ty.
Arguments MRecordReverted {J} tombstones.
Arguments MReverted {J}.
Arguments MClearReverted {J} names.

(** The methods themselves *)
Definition perform {J C A} `{!Json J} `{!Catalogue C} (schema : string) (c : method J A) :
    prog (Store J C) error A :=
  match c with
  | MHistory c => run schema c
  | MHasExistingSchemaWithoutHistory => State_HasExistingSchemaWithoutHistory schema
  | MReadSchema => State_ReadSchema schema
  | MLatestVersion => State_LatestVersion schema
  | MPreviousVersion => State_PreviousVersion schema
  | MPruneRows names => State_PruneRows names schema
  | MStamp mig s parent ty =>
      body ← lift (json_MarshalRaw mig);
      State_Stamp mig.(RawMigration_Name) body s parent ty schema
  | MRecordReverted ts => State_RecordRevertedMigrations ts schema
  | MReverted => State_RevertedMigrations schema
  | MClearReverted names => State_ClearRevertedMigrations names schema
  end.

Record view := mkView {
  view_le : string → string → bool;
  view_schema : outcome error snapshot;
  view_schemata : list string;
  view_now : Z;
}.

Section methods.
Context {J : Type} `{!Json J}.
Implicit Types (e : entry J) (es : list (entry J)).
Abbreviation A := (prog (list (entry J) * gmap string string) error).

(** A program on the history alone *)
Definition on_history {X} (p : prog (list (entry J)) error X) : A X := λ a,
  let '(o, es) := p a.1 in (o, (es, a.2)).

(** The versions of the history, newest first *)
Definition entry_version e : string := default (e_name e) (json_version_schema (e_body e)).
Definition versions (v : view) (schema : string) es : list string :=
  filter (λ n, schema +:+ "_" +:+ n ∈ view_schemata v) (entry_version <$> reverse es).

Definition prune_target e : PruneTarget :=
  mkPruneTarget (e_name e) (is_done (e_status e)) (e_type e) (entry_version e)
    (json_operation_count (e_body e)).

Definition method_spec {X} (v : view) (schema : string) (c : method J X) : A X :=
  match c with
  | MHistory c => on_history (run_spec (view_le v) (view_schema v) (view_now v) schema c)
  | MHasExistingSchemaWithoutHistory =>
      a ← get;
      if decide (Forall (λ e, e_type e = MigrationTypeInferred) a.1) then
        sc ← wrap_err (ErrorfW "failed to read schema: %w" []) (lift (view_schema v));
        mret (bool_decide (Schema_Tables sc.2 ≠ ∅))
      else mret false
  | MReadSchema => lift (view_schema v)
  | MLatestVersion => gets (λ a, head (versions v schema a.1))
  | MPreviousVersion => gets (λ a, versions v schema a.1 !! 1)
  | MPruneRows names => gets (λ a, prune_target <$> filter (λ e, e_name e ∈ names) a.1)
  | MStamp mig s parent ty =>
      body ← lift (json_MarshalRaw mig);
      on_history (run_spec (view_le v) (view_schema v) (view_now v) schema
                    (CStamp mig.(RawMigration_Name) body s parent ty))
  | MRecordReverted ts =>
      modify (λ a, (a.1, list_to_map (reverse ((λ t, (Tombstone_Name t, Tombstone_ContentHash t)) <$> ts))
                           ∪ a.2))
  | MReverted => gets snd
  | MClearReverted names => modify (λ a, (a.1, filter (λ kv, kv.1 ∉ names) a.2))
  end.

Definition method_ok {X} (c : method J X) es : Prop :=
  match c with
  | MHistory c => call_ok c es
  | MStamp _ _ parent _ => active es = false ∧ (parent = None ∨ parent = top es)
  | _ => True
  end.
End methods.

(** The state of [schema] in the store *)
Definition holds {J C} (schema : string) (st : Store J C)
    (a : list (entry J) * gmap string string) : Prop :=
  represents schema st a.1 ∧ tombstones_of schema st = a.2.

Definition view_of {J C} `{!Catalogue C} (schema : string) (st : Store J C) : view :=
  mkView (catalogue_name_le (C := C)) (catalogue_read_schema schema (st_db st))
    (catalogue_schemata (st_db st)) (st_clock st (st_ticks st)).
