(* ===== verification/HistoryFacts.v ===== *)
(** * HistoryFacts: the rows of a history

    The rows of a well-formed history satisfy the constraints; statements on
    them are changes of the history, and queries read it. *)

From S2P Require Import Prelude.
From S2P Require Import GoStd.
From S2P Require Import Names.
From S2P Require Import Schema.
From S2P Require Import Types.
From S2P Require Import Db.
From S2P Require Import Operations.
From S2P Require Import Migration.
From S2P Require Import Invert.
From S2P Require Import LocalSet.
From S2P Require Import History.
From S2P Require Import HistorySpec.

Section rows.
Context {J : Type}.
Implicit Types (e : entry J) (es : list (entry J)) (p : option string).

(** ** Rows of a history *)

Lemma with_parents_snd p es : (with_parents p es).*2 = es.
Proof. revert p. induction es as [|e es IH]; intros p; cbn; [done|]. by rewrite IH. Qed.
Lemma with_parents_app p es1 es2 :
  with_parents p (es1 ++ es2) =
    with_parents p es1 ++ with_parents (match last es1 with Some e => Some (e_name e) | None => p end) es2.
Proof.
  revert p. induction es1 as [|e es1 IH]; intros p; [done|]. cbn [with_parents app].
  rewrite IH, last_cons. by destruct (last es1).
Qed.
Lemma with_parents_length p es : length (with_parents p es) = length es.
Proof. by rewrite <-(length_fmap snd), with_parents_snd. Qed.

Lemma rows_of_snoc es e : rows_of (es ++ [e]) = rows_of es ++ [row_of (top es, e)].
Proof. unfold rows_of, top. rewrite with_parents_app, fmap_app. by destruct (last es). Qed.

Lemma row_names_of es : row_names (rows_of es) = e_names es.
Proof.
  unfold row_names, rows_of, e_names. rewrite <-list_fmap_compose.
  rewrite <-(with_parents_snd None es) at 2. by rewrite <-list_fmap_compose.
Qed.

Lemma parents_of_from p es :
  omap row_parent (row_of <$> with_parents p es) =
    match p, es with Some n, _ :: _ => [n] | _, _ => [] end ++ e_names (take (length es - 1) es).
Proof.
  revert p. induction es as [|e es IH]; intros p; [by destruct p|].
  cbn [with_parents fmap list_fmap omap list_omap]. rewrite IH. cbn.
  rewrite Nat.sub_0_r. destruct es as [|e' es]; [by destruct p|].
  cbn. rewrite Nat.sub_0_r. by destruct p.
Qed.
Lemma parents_of es : omap row_parent (rows_of es) = e_names (take (length es - 1) es).
Proof. unfold rows_of. by rewrite parents_of_from. Qed.
Lemma parents_of_snoc es e : omap row_parent (rows_of (es ++ [e])) = e_names es.
Proof.
  rewrite parents_of, length_app. cbn. rewrite Nat.add_sub.
  by rewrite take_app_le, firstn_all by done.
Qed.

Lemma roots_of_from p es :
  filter (λ r, row_parent r = None) (row_of <$> with_parents p es) =
    match p, es with None, e :: _ => [row_of (None, e)] | _, _ => [] end.
Proof.
  revert p. induction es as [|e es IH]; intros p; [by destruct p|].
  cbn [with_parents fmap list_fmap]. rewrite filter_cons, IH. by destruct p, es.
Qed.

(** A row test that does not look at the parent *)
Lemma filter_rows (P : MigrationRow J → Prop) `{!∀ r, Decision (P r)}
    (Q : entry J → Prop) `{!∀ e, Decision (Q e)} (pes : list (option string * entry J)) :
  (∀ pe, P (row_of pe) ↔ Q pe.2) →
  filter P (row_of <$> pes) = row_of <$> filter (λ pe, Q pe.2) pes.
Proof.
  intros HPQ. induction pes as [|pe pes IH]; [done|].
  cbn [fmap list_fmap]. rewrite !filter_cons.
  destruct (decide (P (row_of pe))), (decide (Q pe.2)); cbn [fmap list_fmap];
    rewrite ?IH; naive_solver.
Qed.
Lemma filter_rows_sub (P : MigrationRow J → Prop) `{!∀ r, Decision (P r)} es :
  filter P (rows_of es) = row_of <$> filter (λ pe, P (row_of pe)) (with_parents None es).
Proof.
  unfold rows_of. induction (with_parents None es) as [|pe pes IH]; [done|].
  cbn [fmap list_fmap]. rewrite !filter_cons, IH. by destruct (decide (P (row_of pe))).
Qed.
Lemma filter_snd (Q : entry J → Prop) `{!∀ e, Decision (Q e)} (pes : list (option string * entry J)) :
  (filter (λ pe, Q pe.2) pes).*2 = filter Q pes.*2.
Proof.
  induction pes as [|pe pes IH]; [done|].
  cbn [fmap list_fmap]. rewrite !filter_cons.
  destruct (decide (Q pe.2)); cbn [fmap list_fmap]; by rewrite IH.
Qed.
Lemma filter_rows_of (P : MigrationRow J → Prop) `{!∀ r, Decision (P r)}
    (Q : entry J → Prop) `{!∀ e, Decision (Q e)} es :
  (∀ pe, P (row_of pe) ↔ Q pe.2) →
  ∃ pes, filter P (rows_of es) = row_of <$> pes ∧ pes.*2 = filter Q es.
Proof.
  intros HPQ. exists (filter (λ pe, Q pe.2) (with_parents None es)).
  by rewrite filter_snd, with_parents_snd, <-(filter_rows P Q).
Qed.

(** ** Order *)

Definition in_order (rows : list (MigrationRow J)) : Prop :=
  StronglySorted (λ r1 r2, (row_created_at r1 < row_created_at r2)%Z) rows.

#[local] Instance not_newer_trans : Transitive (@not_newer J).
Proof. intros r1 r2 r3. unfold not_newer. lia. Qed.
#[local] Instance not_newer_total : Total (@not_newer J).
Proof. intros r1 r2. unfold not_newer. lia. Qed.
#[local] Instance flip_trans : Transitive (flip (@not_newer J)).
Proof. intros r1 r2 r3. unfold flip, not_newer. lia. Qed.
#[local] Instance flip_total : Total (flip (@not_newer J)).
Proof. intros r1 r2. unfold flip, not_newer. lia. Qed.

Lemma in_order_unique rows r1 r2 :
  in_order rows → r1 ∈ rows → r2 ∈ rows → row_created_at r1 = row_created_at r2 → r1 = r2.
Proof.
  induction 1 as [|r rows Hs IH Hr]; [by intros ?%elem_of_nil|]. rewrite Forall_forall in Hr.
  intros [->|H1]%elem_of_cons [->|H2]%elem_of_cons Heq; try done; [apply Hr in H2|apply Hr in H1|]; auto; lia.
Qed.
Lemma by_created_at_in_order rows : in_order rows → by_created_at rows = rows.
Proof.
  intros Ho. symmetry. apply (StronglySorted_unique_strong not_newer).
  - intros r1 r2 H1 H2 H12 H21. unfold by_created_at in H2. rewrite merge_sort_Permutation in H2.
    eapply in_order_unique; eauto. unfold not_newer in *. lia.
  - eapply sorted_weaken; [|exact Ho]. unfold not_newer. intros; lia.
  - apply StronglySorted_merge_sort; apply _.
  - symmetry. apply merge_sort_Permutation.
Qed.
Lemma by_created_at_desc_in_order rows :
  in_order rows → by_created_at_desc rows = reverse rows.
Proof.
  intros Ho. symmetry. apply (StronglySorted_unique_strong (flip not_newer)).
  - intros r1 r2 H1 H2 H12 H21. unfold by_created_at_desc in H2.
    rewrite merge_sort_Permutation in H2. rewrite elem_of_reverse in H1.
    eapply in_order_unique; eauto. unfold flip, not_newer in *. lia.
  - eapply sorted_weaken; [|apply sorted_reverse, Ho]. unfold flip, not_newer. intros; lia.
  - apply StronglySorted_merge_sort; apply _.
  - rewrite reverse_Permutation. symmetry. apply merge_sort_Permutation.
Qed.
End rows.

(** ** What well-formedness gives *)

Section wf.
Context {J : Type}.
Implicit Types (e : entry J) (es : list (entry J)).

Lemma rows_of_in_order es : StronglySorted Z.lt (e_time <$> es) → in_order (rows_of es).
Proof.
  unfold in_order, rows_of. generalize (@None string).
  induction es as [|e es IH]; intros p Hs; cbn; [constructor|].
  apply StronglySorted_cons in Hs as [He Hs]. constructor; [by apply IH|].
  apply Forall_forall. intros r (pe & -> & Hpe)%list_elem_of_fmap. cbn.
  rewrite Forall_forall in He. apply He. rewrite <-(with_parents_snd (Some (e_name e)) es).
  by do 2 apply list_elem_of_fmap_2.
Qed.
Lemma in_order_sub (P : MigrationRow J → Prop) `{!∀ r, Decision (P r)} rows :
  in_order rows → in_order (filter P rows).
Proof. apply sorted_filter. Qed.

Section history.
Context (clock : nat → Z) (ticks : nat) (es : list (entry J)) (Hwf : history_wf clock ticks es).

Lemma active_on_top :
  filter (λ e, e_status e = Active) es =
    match last es with Some e => if decide (e_status e = Active) then [e] else [] | None => [] end.
Proof.
  destruct es as [|x es' _] using rev_ind; [done|]. rewrite last_snoc, filter_app.
  replace (filter _ es') with (@nil (entry J)).
  { rewrite filter_cons. by destruct (decide (e_status x = Active)). }
  symmetry. apply filter_nil_iff. intros e (pre & post & ->)%list_elem_of_split Ha.
  assert (post ++ [x] = []) as Hp; [|by destruct post].
  apply (wf_active _ _ _ Hwf pre e); [|done]. by rewrite <-app_assoc.
Qed.
Lemma active_top : active es = true ↔ ∃ e, last es = Some e ∧ e_status e = Active.
Proof.
  unfold active. rewrite active_on_top, bool_decide_eq_true.
  destruct (last es) as [e|]; [destruct (decide _)|]; naive_solver.
Qed.

Lemma rows_active :
  filter (λ r, row_done r = false) (rows_of es) = [] ∧ active es = false ∨
  ∃ e p, last es = Some e ∧ e_status e = Active ∧ active es = true ∧
    filter (λ r, row_done r = false) (rows_of es) = [row_of (p, e)].
Proof.
  destruct (filter_rows_of (λ r, row_done r = false) (λ e, e_status e = Active) es)
    as (pes & Hr & Hp). { intros [p e]. cbn. by destruct (e_status e). }
  rewrite active_on_top in Hp. rewrite Hr. unfold active. rewrite active_on_top.
  destruct (last es) as [e|]; [destruct (decide (e_status e = Active))|].
  - right. destruct pes as [|[p e'] [|]]; try discriminate. injection Hp as ->. eauto 10.
  - left. by destruct pes.
  - left. by destruct pes.
Qed.
Lemma rows_is_active : is_active_migration_period (rows_of es) = active es.
Proof.
  unfold is_active_migration_period. destruct rows_active as [[-> ->]|(e & p & _ & _ & -> & ->)]; done.
Qed.

Lemma top_not_parent : NoDup (e_names es) →
  filter (λ p, Forall (λ c, row_parent c ≠ Some (row_name p)) (rows_of es)) (rows_of es) =
    match last (with_parents None es) with Some pe => [row_of pe] | None => [] end.
Proof.
  intros Hnd. destruct es as [|x es' _] using rev_ind; [done|].
  rewrite with_parents_app, last_app. cbn [with_parents last].
  assert (∀ p : MigrationRow J, Forall (λ c, row_parent c ≠ Some (row_name p)) (rows_of (es' ++ [x])) ↔
    row_name p ∉ e_names es') as Heq.
  { intros p. rewrite <-(parents_of_snoc es' x), list_elem_of_omap, Forall_forall. naive_solver. }
  unfold e_names in Hnd. rewrite fmap_app in Hnd. apply NoDup_app in Hnd as (_ & Hnd & _).
  rewrite (filter_ext_in _ (λ p, row_name p ∉ e_names es')) by auto.
  rewrite rows_of_snoc at 1. rewrite filter_app, filter_cons. cbn [row_of row_name fst snd].
  rewrite decide_True by (intros Hx; apply (Hnd _ Hx); by left).
  replace (filter _ (rows_of es')) with (@nil (MigrationRow J)).
  { done. }
  symmetry. apply filter_nil_iff. intros r Hr Hn. apply Hn. rewrite <-row_names_of.
  by apply list_elem_of_fmap_2.
Qed.
Lemma latest_of : latest_migration (rows_of es) = top es.
Proof.
  unfold latest_migration, top. rewrite top_not_parent by apply Hwf.
  rewrite <-(with_parents_snd None es) at 2. rewrite fmap_last.
  by destruct (last (with_parents None es)).
Qed.
End history.
End wf.

(** ** Constraints *)

Section constraints.
Context {J : Type}.
Implicit Types (e : entry J) (es : list (entry J)).

Abbreviation valid_type e := (e_type e ∈ [MigrationTypePgroll; MigrationTypeInferred; MigrationTypeBaseline]).

Lemma violation_of es :
  constraint_violation (rows_of es) =
    if decide (¬ NoDup (e_names es)) then Some (unique_violation "migrations_pkey")
    else if decide (1 < length (filter (λ e, e_status e = Active) es))
    then Some (unique_violation "only_one_active")
    else if decide (¬ Forall (λ e, valid_type e) es) then Some (check_violation "migration_type_check")
    else None.
Proof.
  unfold constraint_violation. rewrite row_names_of.
  destruct (decide (¬ NoDup (e_names es))) as [|Hnd]; [done|]. apply dec_stable in Hnd.
  destruct (filter_rows_of (λ r, row_done r = false) (λ e, e_status e = Active) es)
    as (pes & -> & Hp). { intros [p e]. cbn. by destruct (e_status e). }
  rewrite length_fmap, <-(length_fmap snd pes), Hp.
  destruct (decide (1 < length _)); [done|].
  rewrite decide_False.
  2:{ unfold rows_of. rewrite (roots_of_from None es). destruct es; cbn; lia. }
  rewrite parents_of, (decide_False (P := ¬ NoDup _)).
  2:{ intros Hn. apply Hn. unfold e_names. rewrite fmap_take. eapply sublist_NoDup; [done|apply sublist_take]. }
  rewrite (decide_False (P := ¬ (_ ⊆ _))).
  2:{ intros Hn. apply Hn. unfold e_names. rewrite fmap_take. apply subseteq_take. }
  assert (Forall (λ r, row_type r ∈ [MigrationTypePgroll; MigrationTypeInferred;
    MigrationTypeBaseline]) (rows_of es) ↔ Forall (λ e, valid_type e) es) as Heq.
  { rewrite <-(with_parents_snd None es) at 2. unfold rows_of. by rewrite !Forall_fmap. }
  destruct (decide (¬ Forall _ _)) as [Hn|Hn]; [rewrite decide_True|rewrite decide_False]; tauto.
Qed.

Lemma violation_wf clock ticks es :
  history_wf clock ticks es → constraint_violation (rows_of es) = None.
Proof.
  intros Hwf. rewrite violation_of.
  rewrite decide_False by (intros Hn; apply Hn, Hwf).
  rewrite (active_on_top clock ticks) by done.
  rewrite decide_False by (destruct (last es); [destruct (decide _)|]; cbn; lia).
  rewrite decide_False; [done|]. intros Hn. apply Hn, Forall_forall, Hwf.
Qed.

Lemma violation_none (rows : list (MigrationRow J)) :
  constraint_violation rows = None →
  NoDup (row_names rows) ∧ length (filter (λ r, row_done r = false) rows) ≤ 1 ∧
  length (filter (λ r, row_parent r = None) rows) ≤ 1 ∧ NoDup (omap row_parent rows).
Proof.
  unfold constraint_violation. repeat (destruct (decide _) as [|?]; [done|]).
  intros _. split_and!; try lia; by apply dec_stable.
Qed.
End constraints.

(** ** Well-formedness of the new history *)

Section preserve.
Context {J : Type} (clock : nat → Z).
Implicit Types (e : entry J) (es : list (entry J)) (t : nat).

Lemma wf_later t t' es : t ≤ t' → history_wf clock t es → history_wf clock t' es.
Proof. intros Ht [Hn Hs Hc Ha Hy Hb]. split; try done. intros e t2 He Ht2. apply Hc; [done|lia]. Qed.

Lemma e_names_change P `{!∀ e, Decision (P e)} f es :
  (∀ e, e_name (f e) = e_name e) → e_names (change P f es) = e_names es.
Proof.
  intros Hf. unfold e_names, change. rewrite <-list_fmap_compose.
  apply list_fmap_ext. intros _ e _. cbn. by destruct (decide (P e)).
Qed.
Lemma e_times_change P `{!∀ e, Decision (P e)} f es :
  (∀ e, e_time (f e) = e_time e) → e_time <$> change P f es = e_time <$> es.
Proof.
  intros Hf. unfold change. rewrite <-list_fmap_compose.
  apply list_fmap_ext. intros _ e _. cbn. by destruct (decide (P e)).
Qed.

(** A change that starts no migration *)
Lemma wf_change P `{!∀ e, Decision (P e)} f t es :
  (∀ e, e_name (f e) = e_name e) → (∀ e, e_time (f e) = e_time e) →
  (∀ e, e_type (f e) = e_type e ∨ e_type (f e) = MigrationTypeBaseline) →
  (∀ e, e_status (f e) = Active → e_status e = Active) →
  (∀ e, e ∈ es → P e → (e_type e = MigrationTypeBaseline → is_sealed (e_status e) = true) →
     e_type (f e) = MigrationTypeBaseline → is_sealed (e_status (f e)) = true) →
  history_wf clock t es → history_wf clock t (change P f es).
Proof.
  intros Hn Ht Hy Hs Hb [Wn Wt Wc Wa Wy Wb].
  assert (∀ e, e ∈ change P f es → ∃ e0, e0 ∈ es ∧ (e = e0 ∨ P e0 ∧ e = f e0)) as Hin.
  { intros e (e0 & -> & H0)%list_elem_of_fmap. exists e0. by destruct (decide (P e0)); auto. }
  split.
  - by rewrite e_names_change.
  - by rewrite e_times_change.
  - intros e t' (e0 & H0 & [->|[_ ->]])%Hin Ht'; [by apply Wc|]. rewrite Ht. by apply Wc.
  - intros pre e post Heq Ha. unfold change in Heq.
    apply fmap_app_inv in Heq as (pre0 & rest & -> & Heq & ->).
    destruct rest as [|e0 post0]; [done|]. injection Heq as -> ->.
    rewrite (Wa pre0 e0 post0); [done..|]. destruct (decide (P e0)); auto.
  - intros e (e0 & H0 & [->|[_ ->]])%Hin; [by apply Wy|].
    destruct (Hy e0) as [->| ->]; [by apply Wy|]. right. right. left.
  - intros e (e0 & H0 & [->|[Hp ->]])%Hin; [by apply Wb|]. apply Hb; [done|done|by apply Wb].
Qed.

Lemma wf_sub t es es' : es' `sublist_of` es → history_wf clock t es → history_wf clock t es'.
Proof.
  intros Hsub [Wn Wt Wc Wa Wy Wb]. pose proof (sublist_subseteq _ _ Hsub) as Hin. split.
  - eapply sublist_NoDup; [exact Wn|]. by apply fmap_sublist.
  - apply (fmap_sublist e_time) in Hsub. clear -Wt Hsub.
    revert Hsub. generalize (e_time <$> es'). clear es'. generalize (e_time <$> es), Wt.
    intros l Hl l' Hsub. induction Hsub as [|x l1 l2 Hsub IH|x l1 l2 Hsub IH]; [constructor|..].
    + apply StronglySorted_cons in Hl as [Hx Hl]. constructor; [by apply IH|].
      apply Forall_forall. intros y Hy. eapply Forall_forall; [exact Hx|].
      by eapply sublist_subseteq.
    + apply IH. by apply StronglySorted_cons in Hl as [_ ?].
  - intros e t' He. apply Wc. by apply Hin.
  - intros pre e post -> Ha.
    apply sublist_app_l in Hsub as (pre' & rest & -> & _ & Hrest).
    apply sublist_cons_l in Hrest as (x & y & -> & Hy).
    rewrite (Wa (pre' ++ x) e y) in Hy; [by apply sublist_nil_r in Hy|by rewrite <-app_assoc|done].
  - intros e He. apply Wy. by apply Hin.
  - intros e He. apply Wb. by apply Hin.
Qed.

Context (Hclock : ∀ i j : nat, i < j → (clock i < clock j)%Z).

Lemma wf_push t e es :
  history_wf clock t es → e_name e ∉ e_names es → active es = false → e_time e = clock t →
  e_type e ∈ [MigrationTypePgroll; MigrationTypeInferred; MigrationTypeBaseline] →
  (e_type e = MigrationTypeBaseline → is_sealed (e_status e) = true) →
  history_wf clock (S t) (es ++ [e]).
Proof.
  intros Hwf Hn Ha Ht Hy Hb. pose proof Hwf as [Wn Wt Wc Wa Wy Wb]. split.
  - unfold e_names in *. rewrite fmap_app. apply NoDup_app. split_and!; [done| |apply NoDup_singleton].
    intros x Hx ->%list_elem_of_singleton. done.
  - rewrite fmap_app. apply StronglySorted_app. split_and!; [|done|by repeat constructor].
    intros x y (e0 & -> & H0)%list_elem_of_fmap ->%list_elem_of_singleton. rewrite Ht. by apply Wc.
  - intros e0 t' [H0| ->%list_elem_of_singleton]%elem_of_app Ht'; [apply Wc; [done|lia]|].
    rewrite Ht. by apply Hclock.
  - intros pre e0 post Heq H0. destruct post as [|z post _] using rev_ind; [done|].
    rewrite app_comm_cons, app_assoc in Heq. apply app_inj_tail in Heq as [-> _].
    unfold active in Ha. apply bool_decide_eq_false, dec_stable in Ha.
    destruct (proj1 (filter_nil_iff _ _) Ha e0); [|done]. apply elem_of_app. right. left.
  - intros e0 [H0| ->%list_elem_of_singleton]%elem_of_app; auto.
  - intros e0 [H0| ->%list_elem_of_singleton]%elem_of_app; auto.
Qed.
End preserve.

(** ** Simulation of one call *)

Section simulation.
Context {J C : Type} `{!Json J} `{!Catalogue C} (schema : string).
Implicit Types (st : Store J C) (e : entry J) (es : list (entry J)).

(** The same outcome, the new table represents the new history, and nothing
    else changes but the number of readings of the clock *)
Definition simulates {A} st (x : outcome error A * Store J C)
    (y : outcome error A * list (entry J)) : Prop :=
  x.1 = y.1 ∧ represents schema x.2 y.2 ∧
  st_db x.2 = st_db st ∧ st_clock x.2 = st_clock st ∧ st_reverted x.2 = st_reverted st ∧
  (st_ticks st ≤ st_ticks x.2)%nat ∧
  ∀ s, s ≠ schema → table s x.2 = table s st.

Context (st : Store J C) (es : list (entry J)).
Context (Hclock : ∀ i j : nat, i < j → (st_clock st i < st_clock st j)%Z).
Context (Hrep : represents schema st es).

Lemma table_of : table schema st = rows_of es.
Proof. apply Hrep. Qed.
Lemma wf_of : history_wf (st_clock st) (st_ticks st) es.
Proof. apply Hrep. Qed.

Lemma sim_read {A} (o : outcome error A) : simulates st (o, st) (o, es).
Proof. by split_and!. Qed.

(** A write that succeeds *)
Lemma sim_write es' :
  history_wf (st_clock st) (st_ticks st) es' →
  simulates st (write_rows schema (rows_of es') st) (Ok (), es').
Proof.
  intros Hwf. unfold write_rows. rewrite (violation_wf _ _ _ Hwf). split_and!; try done.
  - split; [|done]. unfold table, set_table. cbn. by rewrite lookup_insert_eq.
  - intros s Hs. unfold table, set_table. cbn. by rewrite lookup_insert_ne.
Qed.

(** An update of chosen rows is the change of their entries. *)
Lemma rows_change (P : MigrationRow J → Prop) `{!∀ r, Decision (P r)} (Q : entry J → Prop)
    `{!∀ e, Decision (Q e)} f g :
  (∀ pe, P (row_of pe) ↔ Q pe.2) → (∀ p e, Q e → f (row_of (p, e)) = row_of (p, g e)) →
  (∀ e, e_name (g e) = e_name e) →
  (λ r, if decide (P r) then f r else r) <$> rows_of es = rows_of (change Q g es).
Proof.
  intros HPQ Hfg Hn. unfold rows_of. generalize (@None string). clear Hrep.
  induction es as [|e es' IH]; intros p; [done|]. cbn. rewrite IH.
  pose proof (HPQ (p, e)) as He. cbn in He.
  destruct (decide (Q e)); [rewrite decide_True by tauto|rewrite decide_False by tauto]; [|done].
  by rewrite Hfg, Hn by tauto.
Qed.

Lemma sim_update {A} (P : MigrationRow J → Prop) `{!∀ r, Decision (P r)} (Q : entry J → Prop)
    `{!∀ e, Decision (Q e)} f g (k : nat → A) :
  (∀ pe, P (row_of pe) ↔ Q pe.2) → (∀ p e, Q e → f (row_of (p, e)) = row_of (p, g e)) →
  (∀ e, e_name (g e) = e_name e) → (∀ e, e_time (g e) = e_time e) →
  (∀ e, e_type (g e) = e_type e ∨ e_type (g e) = MigrationTypeBaseline) →
  (∀ e, e_status (g e) = Active → e_status e = Active) →
  (∀ e, e ∈ es → Q e → (e_type e = MigrationTypeBaseline → is_sealed (e_status e) = true) →
     e_type (g e) = MigrationTypeBaseline → is_sealed (e_status (g e)) = true) →
  simulates st ((n ← update_rows schema P f; mret (k n)) st)
    (Ok (k (length (filter Q es))), change Q g es).
Proof.
  intros HPQ Hfg Hn Ht Hy Hs Hb. unfold update_rows, read_rows, gets, mbind, prog_bind.
  rewrite table_of, (rows_change P Q f g) by done.
  destruct (sim_write (change Q g es)) as (H1 & H2).
  { apply wf_change; try done. apply wf_of. }
  destruct (write_rows _ _ st) as [r st'] eqn:Hw. cbn in H1. subst r. cbn [fst snd] in *.
  destruct (filter_rows_of P Q es HPQ) as (pes & -> & Hp).
  by rewrite length_fmap, <-(length_fmap snd pes), Hp.
Qed.

Lemma filter_rows_nil (P : MigrationRow J → Prop) `{!∀ r, Decision (P r)} (Q : entry J → Prop)
    `{!∀ e, Decision (Q e)} :
  (∀ pe, P (row_of pe) ↔ Q pe.2) → filter P (rows_of es) = [] ↔ filter Q es = [].
Proof.
  intros HPQ. destruct (filter_rows_of P Q es HPQ) as (pes & -> & Hp). rewrite <-Hp. by destruct pes.
Qed.

Lemma sim_change_one (P : MigrationRow J → Prop) `{!∀ r, Decision (P r)} (Q : entry J → Prop)
    `{!∀ e, Decision (Q e)} f g err :
  (∀ pe, P (row_of pe) ↔ Q pe.2) → (∀ sc p e, Q e → f sc (row_of (p, e)) = row_of (p, g sc e)) →
  (∀ sc e, e_name (g sc e) = e_name e) → (∀ sc e, e_time (g sc e) = e_time e) →
  (∀ sc e, e_type (g sc e) = e_type e ∨ e_type (g sc e) = MigrationTypeBaseline) →
  (∀ sc e, e_status (g sc e) = Active → e_status e = Active) →
  (∀ sc e, Q e → (e_type e = MigrationTypeBaseline → is_sealed (e_status e) = true) →
     e_type (g sc e) = MigrationTypeBaseline → is_sealed (e_status (g sc e)) = true) →
  simulates st (update_one schema P f err st)
    (change_one (catalogue_read_schema schema (st_db st)) Q g err es).
Proof.
  intros HPQ Hfg Hn Ht Hy Hs Hb. unfold update_one, change_one, read_rows, gets, mbind, prog_bind.
  rewrite table_of. destruct (decide (filter Q es = [])) as [Hq|Hq].
  { rewrite decide_True by (by apply (filter_rows_nil P Q)). apply sim_read. }
  rewrite decide_False by (by rewrite (filter_rows_nil P Q)).
  unfold State_ReadSchema. destruct (catalogue_read_schema schema (st_db st)) as [sc|e| |];
    [|apply sim_read..].
  exact (sim_update P Q (f sc) (g sc) (λ _, ()) HPQ (Hfg sc) (Hn sc) (Ht sc) (Hy sc) (Hs sc)
    (λ e _, Hb sc e)).
Qed.

(** Inserting a row *)
Definition tick : Store J C :=
  mkStore (st_db st) (st_migrations st) (st_reverted st) (st_clock st) (Nat.succ (st_ticks st)).

Lemma violation_push e :
  (e_status e ≠ Active → active es = false) →
  constraint_violation (rows_of (es ++ [e])) =
    match (push e es).1 with Err err => Some err | _ => None end.
Proof.
  intros Ha. pose proof wf_of as Hwf. rewrite violation_of. unfold push.
  destruct (decide (e_name e ∈ e_names es)) as [Hn|Hn].
  { rewrite decide_True; [done|]. unfold e_names. rewrite fmap_app. intros Hnd.
    apply NoDup_app in Hnd as (_ & Hnd & _). apply (Hnd _ Hn). by left. }
  rewrite decide_False.
  2:{ intros Hnd. apply Hnd. unfold e_names. rewrite fmap_app. apply NoDup_app.
      split_and!; [apply Hwf| |apply NoDup_singleton]. intros x Hx ->%list_elem_of_singleton. done. }
  rewrite filter_app, filter_cons, filter_nil, length_app.
  assert (length (filter (λ e, e_status e = Active) es) = if active es then 1 else 0) as ->.
  { unfold active. rewrite (active_on_top _ _ _ Hwf). destruct (last es); [|done].
    by destruct (decide _). }
  destruct (decide (e_status e = Active ∧ active es = true)) as [[Hs ->]|Hna].
  { rewrite decide_True; [done|]. rewrite decide_True by done. cbn. lia. }
  rewrite decide_False.
  2:{ destruct (decide (e_status e = Active)), (active es); cbn; try lia; naive_solver. }
  assert (Forall (λ e, e_type e ∈ [MigrationTypePgroll; MigrationTypeInferred; MigrationTypeBaseline])
    (es ++ [e]) ↔ e_type e ∈ [MigrationTypePgroll; MigrationTypeInferred; MigrationTypeBaseline]) as Hy.
  { rewrite Forall_app, Forall_singleton. split; [tauto|]. split; [|done].
    apply Forall_forall, Hwf. }
  destruct (decide (e_type e ∉ _)); [rewrite decide_True by tauto|rewrite decide_False by tauto]; done.
Qed.

Lemma sim_push e :
  (e_status e ≠ Active → active es = false) → e_time e = st_clock st (st_ticks st) →
  (e_type e = MigrationTypeBaseline → is_sealed (e_status e) = true) →
  simulates st (insert_row schema (row_of (top es, e)) tick) (push e es).
Proof.
  intros Ha Ht Hb. unfold insert_row, read_rows, gets, mbind, prog_bind.
  replace (table schema tick) with (rows_of es) by (symmetry; apply table_of).
  rewrite <-rows_of_snoc. unfold write_rows. rewrite violation_push by done.
  assert (represents schema tick es) as Hrep'.
  { split; [apply table_of|]. apply (wf_later _ (st_ticks st)); [apply Nat.le_succ_diag_r|apply wf_of]. }
  unfold push. destruct (decide (e_name e ∈ e_names es)) as [|Hn]; [split_and!; try done; apply Nat.le_succ_diag_r|].
  destruct (decide _) as [|Hna]; [split_and!; try done; apply Nat.le_succ_diag_r|].
  destruct (decide (e_type e ∉ _)) as [|Hy%dec_stable]; [split_and!; try done; apply Nat.le_succ_diag_r|].
  unfold tick. cbn. split_and!; try done; [|apply Nat.le_succ_diag_r|].
  - split; [unfold table, set_table; cbn; by rewrite lookup_insert_eq|].
    apply wf_push; [done|apply wf_of|done| |done|done|done].
    destruct (decide (e_status e = Active)); [|by apply Ha].
    destruct (active es) eqn:Hact; [|done]. naive_solver.
  - intros s Hs. unfold table, set_table. cbn. by rewrite lookup_insert_ne.
Qed.

(** Deleting rows: nothing, the top, or a row with a child *)
Lemma sim_delete_none (P : MigrationRow J → Prop) `{!∀ r, Decision (P r)} (Q : entry J → Prop)
    `{!∀ e, Decision (Q e)} err :
  (∀ pe, P (row_of pe) ↔ Q pe.2) → filter Q es = [] →
  simulates st ((n ← delete_rows schema P; fail_if (Nat.eqb n 0) err) st) (Err err, es).
Proof.
  intros HPQ Hq. apply (filter_rows_nil P Q HPQ) in Hq.
  unfold delete_rows, read_rows, gets, mbind, prog_bind. rewrite table_of, Hq.
  rewrite (filter_all (λ r, ¬ P r)).
  2:{ intros r Hr HP. by eapply filter_nil_iff in Hq. }
  destruct (sim_write es wf_of) as (H1 & H2).
  destruct (write_rows _ _ st) as [r st'] eqn:Hw. cbn in H1. by subst r.
Qed.
Lemma sim_delete_top (P : MigrationRow J → Prop) `{!∀ r, Decision (P r)} (Q : entry J → Prop)
    `{!∀ e, Decision (Q e)} pre x err :
  (∀ pe, P (row_of pe) ↔ Q pe.2) → es = pre ++ [x] → Q x → (∀ e, e ∈ pre → ¬ Q e) →
  simulates st ((n ← delete_rows schema P; fail_if (Nat.eqb n 0) err) st) (Ok (), pre).
Proof.
  intros HPQ Hes Hx Hpre.
  unfold delete_rows, read_rows, gets, mbind, prog_bind. rewrite table_of.
  assert (∀ r, r ∈ rows_of pre → ¬ P r) as Hp.
  { intros r (pe & -> & Hpe)%list_elem_of_fmap HP%HPQ. apply (Hpre pe.2); [|done].
    rewrite <-(with_parents_snd None pre). by apply list_elem_of_fmap_2. }
  assert (P (row_of (top pre, x))) as HPx by (by apply HPQ).
  rewrite Hes, rows_of_snoc, !filter_app, !filter_cons.
  rewrite (decide_False (P := ¬ P _)) by tauto. rewrite (decide_True (P := P _)) by done.
  rewrite (filter_all (λ r, ¬ P r)) by done.
  rewrite (proj2 (filter_nil_iff P (rows_of pre))) by done.
  cbn [app]. rewrite app_nil_r.
  destruct (sim_write pre) as (H1 & H2).
  { eapply wf_sub; [|apply wf_of]. rewrite Hes. by apply sublist_inserts_r. }
  destruct (write_rows _ _ st) as [r st'] eqn:Hw. cbn in H1. by subst r.
Qed.

Lemma violation_child name :
  top es ≠ Some name → name ∈ e_names es →
  constraint_violation (filter (λ r, ¬ row_name r = name) (rows_of es)) =
    Some (foreign_key_violation "migrations_schema_parent_fkey").
Proof.
  intros Htop Hn. pose proof wf_of as Hwf.
  destruct (violation_none _ (violation_wf _ _ _ Hwf)) as (H1 & H2 & H3 & H4).
  set (rows := filter (λ r, ¬ row_name r = name) (rows_of es)).
  assert (rows `sublist_of` rows_of es) as Hsub by apply sublist_filter.
  unfold constraint_violation.
  rewrite decide_False.
  2:{ intros Hx. apply Hx. eapply sublist_NoDup; [exact H1|]. by apply fmap_sublist. }
  rewrite decide_False.
  2:{ intros Hx. pose proof (length_filter_sublist (λ r, row_done r = false) _ _ Hsub). lia. }
  rewrite decide_False.
  2:{ intros Hx. pose proof (length_filter_sublist (λ r, row_parent r = None) _ _ Hsub). lia. }
  rewrite decide_False.
  2:{ intros Hx. apply Hx. eapply sublist_NoDup; [exact H4|]. by apply omap_sublist. }
  rewrite decide_True; [done|]. intros Hx.
  rewrite row_names_of in H1.
  apply list_elem_of_fmap in Hn as (x & -> & (pre & post & Hes)%list_elem_of_split).
  destruct post as [|y post]; [by rewrite Hes in Htop; unfold top in Htop; rewrite last_snoc in Htop|].
  assert (e_name x ∈ row_names rows) as (r & Heq & Hr)%list_elem_of_fmap.
  { apply Hx. apply list_elem_of_omap. exists (row_of (Some (e_name x), y)). split; [|done].
    apply list_elem_of_filter. split.
    - cbn. intros Heq. rewrite Hes in H1. unfold e_names in H1. rewrite fmap_app in H1.
      apply NoDup_app in H1 as (_ & _ & H1). apply NoDup_cons in H1 as [H1 _]. apply H1.
      rewrite <-Heq. by left.
    - rewrite Hes. unfold rows_of. rewrite with_parents_app, fmap_app. apply elem_of_app.
      right. right. left. }
  by apply list_elem_of_filter in Hr as [Hr _].
Qed.

(** [DELETE ... WHERE name = ...] *)
Lemma sim_delete_name name :
  simulates st ((n ← delete_rows schema (λ r, row_name r = name);
                 fail_if (Nat.eqb n 0) (no_migration_found name)) st) (pop name es).
Proof.
  pose proof wf_of as Hwf. unfold pop.
  destruct (decide (top es = Some name)) as [Ht|Ht].
  - pose proof Ht as (x & (pre & Hes)%last_Some & Hx)%fmap_Some.
    assert (take (length es - 1) es = pre) as ->.
    { by rewrite Hes, length_app, Nat.add_sub, take_app_length. }
    apply (sim_delete_top _ (λ e, e_name e = name) pre x); try done.
    intros e He <-. pose proof (wf_names _ _ _ Hwf) as Hnd. unfold e_names in Hnd.
    rewrite Hes, fmap_app in Hnd. apply NoDup_app in Hnd as (_ & Hnd & _).
    apply (Hnd (e_name e)); [by apply list_elem_of_fmap_2|]. rewrite Hx. by left.
  - destruct (decide (name ∈ e_names es)) as [Hn|Hn].
    + unfold delete_rows, read_rows, gets, mbind, prog_bind, write_rows. rewrite table_of.
      rewrite violation_child by done. apply sim_read.
    + apply (sim_delete_none _ (λ e, e_name e = name)); [done|].
      apply filter_nil_iff. intros e He <-. apply Hn. by apply list_elem_of_fmap_2.
Qed.
End simulation.

(** ** Queries *)

Section queries.
Context {J : Type}.
Implicit Types (e : entry J) (es : list (entry J)).

Lemma head_fmap {A B} (f : A → B) (l : list A) : head (f <$> l) = f <$> head l.
Proof. by destruct l. Qed.
Lemma map_outcome_fmap {A B X} (f : B → outcome error X) (g : A → B) l :
  map_outcome f (g <$> l) = map_outcome (f ∘ g) l.
Proof. induction l as [|a l IH]; cbn; [done|]. by rewrite IH. Qed.
Lemma map_outcome_ext {A X} (f g : A → outcome error X) l :
  (∀ a, f a = g a) → map_outcome f l = map_outcome g l.
Proof. intros Hfg. induction l as [|a l IH]; cbn; [done|]. by rewrite IH, Hfg. Qed.

(** A function of the rows that does not look at the parent *)
Lemma map_rows {X} (f : MigrationRow J → outcome error X) g (pes : list (option string * entry J)) :
  (∀ pe, f (row_of pe) = g pe.2) → map_outcome f (row_of <$> pes) = map_outcome g pes.*2.
Proof. intros Hfg. rewrite !map_outcome_fmap. by apply map_outcome_ext. Qed.

Lemma find_row_of name es :
  ∃ po, find_row name (rows_of es) = row_of <$> po ∧ find_entry name es = snd <$> po.
Proof.
  destruct (filter_rows_of (λ r, row_name r = name) (λ e, e_name e = name) es) as (pes & Hr & Hp);
    [done|].
  exists (head pes). unfold find_row, find_entry. by rewrite Hr, <-Hp, !head_fmap.
Qed.

Lemma sorted_query (P : MigrationRow J → Prop) `{!∀ r, Decision (P r)} (Q : entry J → Prop)
    `{!∀ e, Decision (Q e)} es :
  StronglySorted Z.lt (e_time <$> es) → (∀ pe, P (row_of pe) ↔ Q pe.2) →
  by_created_at (filter P (rows_of es)) =
    row_of <$> filter (λ pe, Q pe.2) (with_parents None es) ∧
  by_created_at_desc (filter P (rows_of es)) =
    row_of <$> reverse (filter (λ pe, Q pe.2) (with_parents None es)).
Proof.
  intros Hs HPQ. pose proof (in_order_sub P _ (rows_of_in_order _ Hs)) as Ho.
  rewrite by_created_at_in_order, by_created_at_desc_in_order by done.
  unfold rows_of. by rewrite (filter_rows P Q), fmap_reverse.
Qed.

(** The rows above the newest baseline *)
Lemma since_baseline_snoc es e :
  since_baseline (es ++ [e]) =
    if decide (e_type e = MigrationTypeBaseline) then [] else since_baseline es ++ [e].
Proof. unfold since_baseline. by rewrite foldl_app. Qed.

Lemma since_baseline_suffix es : ∃ pre, es = pre ++ since_baseline es.
Proof.
  induction es as [|e es IH] using rev_ind; [by exists []|]. rewrite since_baseline_snoc.
  destruct (decide _); [exists (es ++ [e]); by rewrite app_nil_r|].
  destruct IH as [pre IH]. exists pre. by rewrite app_assoc, <-IH.
Qed.

Lemma baseline_time_of es t :
  baseline_created_at (rows_of es) = Some t → ∃ e, e ∈ es ∧ e_time e = t.
Proof.
  intros Ht. assert (∃ r, r ∈ rows_of es ∧ row_created_at r = t) as (r & Hr & <-).
  { unfold baseline_created_at in Ht.
    assert (∀ r, r ∈ filter (λ r, row_type r = MigrationTypeBaseline) (rows_of es) → r ∈ rows_of es)
      as Hin by (by intros r [_ ?]%list_elem_of_filter).
    revert t Ht Hin. induction (filter _ _) as [|r l IH]; cbn; [done|]. intros t [= <-] Hin.
    destruct (foldr _ None l) as [t'|]; [|exists r; split; [apply Hin; left|done]].
    destruct (Z.max_spec (row_created_at r) t') as [[_ ->]|[_ ->]];
      [|exists r; split; [apply Hin; left|done]].
    apply IH; [done|]. intros; apply Hin; by right. }
  apply list_elem_of_fmap in Hr as (pe & -> & Hpe). exists pe.2. split; [|done].
  rewrite <-(with_parents_snd None es). by apply list_elem_of_fmap_2.
Qed.
Lemma baseline_time_snoc es e :
  (∀ e', e' ∈ es → (e_time e' < e_time e)%Z) →
  baseline_created_at (rows_of (es ++ [e])) =
    if decide (e_type e = MigrationTypeBaseline) then Some (e_time e)
    else baseline_created_at (rows_of es).
Proof.
  intros Ht. unfold baseline_created_at. rewrite rows_of_snoc, filter_app, filter_cons, filter_nil.
  destruct (decide (e_type e = MigrationTypeBaseline)) as [Hb|Hb]; cbn [row_of row_type fst snd].
  - rewrite decide_True by done. rewrite foldr_app. cbn.
    assert (∀ r, r ∈ filter (λ r, row_type r = MigrationTypeBaseline) (rows_of es) →
      (row_created_at r < e_time e)%Z) as Hr.
    { intros r [_ (pe & -> & Hpe)%list_elem_of_fmap]%list_elem_of_filter. cbn. apply Ht.
      rewrite <-(with_parents_snd None es). by apply list_elem_of_fmap_2. }
    induction (filter _ _) as [|r l IH]; [done|]. cbn. rewrite IH by (intros; apply Hr; by right).
    f_equal. pose proof (Hr r ltac:(left)). lia.
  - rewrite decide_False by done. by rewrite app_nil_r.
Qed.

Lemma baseline_splits es :
  StronglySorted Z.lt (e_time <$> es) →
  ∃ pre, es = pre ++ since_baseline es ∧
    (∀ e, e ∈ pre → ∃ t, baseline_created_at (rows_of es) = Some t ∧ (e_time e ≤ t)%Z) ∧
    (∀ e t, e ∈ since_baseline es → baseline_created_at (rows_of es) = Some t → (t < e_time e)%Z).
Proof.
  induction es as [|e es IH] using rev_ind; intros Hs.
  { exists []. split_and!; [done|by intros ? ?%elem_of_nil|by intros ? ? ?%elem_of_nil]. }
  rewrite fmap_app in Hs. apply StronglySorted_app in Hs as (Hlt & Hs & _).
  assert (∀ e', e' ∈ es → (e_time e' < e_time e)%Z) as Ht.
  { intros e' He'. apply Hlt; [by apply list_elem_of_fmap_2|by left]. }
  destruct (IH Hs) as (pre & Hpre & Hb & Ha).
  rewrite (baseline_time_snoc es e Ht), since_baseline_snoc.
  destruct (decide (e_type e = MigrationTypeBaseline)).
  - exists (es ++ [e]). rewrite app_nil_r. split_and!; [done| |by intros ? ? ?%elem_of_nil].
    intros e' [He'| ->%list_elem_of_singleton]%elem_of_app; eexists; split; try done.
    specialize (Ht _ He'). lia.
  - exists pre. rewrite app_assoc, <-Hpre. split_and!; [done|done|].
    intros e' t [He'| ->%list_elem_of_singleton]%elem_of_app Hbt; [by apply Ha|].
    apply baseline_time_of in Hbt as (e0 & He0 & <-). by apply Ht.
Qed.

Lemma after_baseline_of es (Q : entry J → Prop) `{!∀ e, Decision (Q e)} :
  StronglySorted Z.lt (e_time <$> es) →
  (filter (λ pe, Q pe.2 ∧ after_baseline (rows_of es) (row_of pe)) (with_parents None es)).*2 =
    filter Q (since_baseline es).
Proof.
  intros Hs. destruct (baseline_splits es Hs) as (pre & Hes & Hb & Ha).
  assert (∀ p l, (∀ e, e ∈ l → e ∈ pre) →
    filter (λ pe, Q pe.2 ∧ after_baseline (rows_of es) (row_of pe)) (with_parents p l) = []) as H1.
  { intros p l Hl. apply filter_nil_iff. intros [p' e] Hpe [_ Haf].
    assert (e ∈ l) as He.
    { rewrite <-(with_parents_snd p l). by apply (list_elem_of_fmap_2 snd _ (p', e)). }
    destruct (Hb e (Hl e He)) as (t & Ht & Hle). unfold after_baseline in Haf. rewrite Ht in Haf.
    cbn in Haf. lia. }
  assert (∀ p l, (∀ e, e ∈ l → e ∈ since_baseline es) →
    (filter (λ pe, Q pe.2 ∧ after_baseline (rows_of es) (row_of pe)) (with_parents p l)).*2 =
      filter Q l) as H2.
  { intros p l Hl. rewrite <-(with_parents_snd p l) at 2. rewrite <-filter_snd. f_equal.
    apply filter_ext_in. intros [p' e] Hpe. cbn.
    assert (e ∈ l) as He.
    { rewrite <-(with_parents_snd p l). by apply (list_elem_of_fmap_2 snd _ (p', e)). }
    unfold after_baseline. destruct (baseline_created_at (rows_of es)) as [t|] eqn:Ht; [|tauto].
    specialize (Ha e t (Hl e He) eq_refl). cbn. tauto. }
  rewrite (f_equal (with_parents None) Hes), with_parents_app, filter_app, H1 by done.
  rewrite app_nil_l. by apply H2.
Qed.

Lemma history_query (P : MigrationRow J → Prop) `{!∀ r, Decision (P r)} (Q : entry J → Prop)
    `{!∀ e, Decision (Q e)} es :
  StronglySorted Z.lt (e_time <$> es) →
  (∀ pe, P (row_of pe) ↔ Q pe.2 ∧ after_baseline (rows_of es) (row_of pe)) →
  ∃ pes, by_created_at (filter P (rows_of es)) = row_of <$> pes ∧
    pes.*2 = filter Q (since_baseline es).
Proof.
  intros Hs HPQ. rewrite by_created_at_in_order by (by apply in_order_sub, rows_of_in_order).
  rewrite filter_rows_sub.
  exists (filter (λ pe, P (row_of pe)) (with_parents None es)). split; [done|].
  rewrite <-(after_baseline_of es Q) by done. f_equal. apply filter_ext_in. intros pe _. apply HPQ.
Qed.

(** Pruning *)
Lemma rewire_rows p (pes : list (option string * entry J)) :
  rewire p (row_of <$> pes) = row_of <$> with_parents p pes.*2.
Proof. revert p. induction pes as [|pe pes IH]; intros p; cbn; [done|]. by rewrite IH. Qed.

Lemma names_query (P : MigrationRow J → Prop) `{!∀ r, Decision (P r)} (Q : entry J → Prop)
    `{!∀ e, Decision (Q e)} es :
  (∀ pe, P (row_of pe) ↔ Q pe.2) → row_name <$> filter P (rows_of es) = e_names (filter Q es).
Proof.
  intros HPQ. destruct (filter_rows_of P Q es HPQ) as (pes & -> & <-).
  unfold e_names. by rewrite <-!list_fmap_compose.
Qed.
Lemma sorted_names_query (P : MigrationRow J → Prop) `{!∀ r, Decision (P r)} (Q : entry J → Prop)
    `{!∀ e, Decision (Q e)} es :
  StronglySorted Z.lt (e_time <$> es) → (∀ pe, P (row_of pe) ↔ Q pe.2) →
  row_name <$> by_created_at (filter P (rows_of es)) = e_names (filter Q es).
Proof.
  intros Hs HPQ. rewrite by_created_at_in_order by (by apply in_order_sub, rows_of_in_order).
  by apply names_query.
Qed.

Lemma head_filter_find {A} (P : A → Prop) `{!∀ x, Decision (P x)} (l : list A) :
  head (filter P l) = snd <$> list_find P l.
Proof.
  induction l as [|x l IH]; [done|]. rewrite filter_cons. cbn.
  destruct (decide (P x)); [done|]. rewrite IH. by destruct (list_find P l) as [[]|].
Qed.

Lemma names_inj_entry es x e :
  NoDup (e_names es) → x ∈ es → e ∈ es → e_name x = e_name e → x = e.
Proof.
  intros Hn (i & Hi)%list_elem_of_lookup (j & Hj)%list_elem_of_lookup Heq.
  assert (i = j) as ->.
  { eapply NoDup_lookup; [exact Hn| |]; unfold e_names; rewrite list_lookup_fmap, ?Hi, ?Hj; [done|].
    cbn. by rewrite Heq. }
  congruence.
Qed.

(** The position of an entry splits the others by time and by name. *)
Lemma position es i a :
  StronglySorted Z.lt (e_time <$> es) → NoDup (e_names es) → es !! i = Some a →
  es = take i es ++ a :: drop (S i) es ∧
  (∀ e, e ∈ take i es → (e_time e < e_time a)%Z ∧ e_name e ≠ e_name a) ∧
  (∀ e, e ∈ drop (S i) es → (e_time a < e_time e)%Z ∧ e_name e ≠ e_name a).
Proof.
  intros Hs Hn Hi. pose proof (take_drop_middle _ _ _ Hi) as Hes.
  rewrite <-Hes in Hs, Hn. unfold e_names in Hn. rewrite fmap_app in Hs. rewrite fmap_app in Hn.
  cbn in Hs, Hn.
  apply StronglySorted_app in Hs as (Hlt & _ & Hs). apply StronglySorted_cons in Hs as [Hgt _].
  apply NoDup_app in Hn as (_ & Hn1 & Hn2). apply NoDup_cons in Hn2 as [Hn2 _].
  split_and!; [done|..].
  - intros e He. split; [apply Hlt; [by apply list_elem_of_fmap_2|left]|].
    intros Heq. apply (Hn1 (e_name e)); [by apply list_elem_of_fmap_2|]. rewrite Heq. left.
  - intros e He. split.
    + rewrite Forall_forall in Hgt. apply Hgt. by apply list_elem_of_fmap_2.
    + intros Heq. apply Hn2. rewrite <-Heq. by apply list_elem_of_fmap_2.
Qed.

Lemma filter_left (Q Q' : entry J → Prop) `{!∀ e, Decision (Q e)} `{!∀ e, Decision (Q' e)} pre a post :
  (∀ e, e ∈ pre → Q e ↔ Q' e) → ¬ Q a → (∀ e, e ∈ post → ¬ Q e) →
  filter Q (pre ++ a :: post) = filter Q' pre.
Proof.
  intros Hpre Ha Hpost. rewrite filter_app, filter_cons, decide_False by done.
  rewrite (proj2 (filter_nil_iff Q post)) by done. rewrite app_nil_r. by apply filter_ext_in.
Qed.
Lemma filter_right (Q Q' : entry J → Prop) `{!∀ e, Decision (Q e)} `{!∀ e, Decision (Q' e)} pre a post :
  (∀ e, e ∈ pre → ¬ Q e) → ¬ Q a → (∀ e, e ∈ post → Q e ↔ Q' e) →
  filter Q (pre ++ a :: post) = filter Q' post.
Proof.
  intros Hpre Ha Hpost. rewrite filter_app, filter_cons, decide_False by done.
  rewrite (proj2 (filter_nil_iff Q pre)) by done. by apply filter_ext_in.
Qed.
End queries.
