(* ===== verification/HistoryRefine.v ===== *)
(** * HistoryRefine: the migrations table implements the history

    [State_refines_spec]: on a store that holds a history and its tombstones,
    every method returns what its meaning on them returns and leaves a store
    that holds the new ones. *)

From S2P Require Import Prelude.
From S2P Require Import GoStd.
From S2P Require Import Names.
From S2P Require Import Schema.
From S2P Require Import Types.
From S2P Require Import Db.
From S2P Require Import Operations.
From S2P Require Import Migration.
From S2P Require Import Invert.
From S2P Require Import LocalSet.
From S2P Require Import History.
From S2P Require Import HistorySpec.
From S2P Require Import HistoryFacts.

(** ** The refinement *)

Section refinement.
Context {J C : Type} `{!Json J} `{!Catalogue C} (schema : string).
Context (st : Store J C) (es : list (entry J)).
Context (Hclock : ∀ i j : nat, i < j → (st_clock st i < st_clock st j)%Z).
Context (Hrep : represents schema st es).

Let le : string → string → bool := catalogue_name_le (C := C).
Let rs : outcome error snapshot := catalogue_read_schema schema (st_db st).
Let now : Z := st_clock st (st_ticks st).
Abbreviation goal c :=
  (simulates schema st (run schema c st) (run_spec le rs now schema c es)).

Ltac start :=
  cbn [run run_spec];
  unfold State_IsActiveMigrationPeriod, State_MigrationExists, State_LatestMigration,
    State_PreviousMigration, State_LatestBaseline, State_HasSealedDeferred,
    State_DeferredCompletes, State_GetActiveMigration, State_GetMigration,
    State_SchemaAfterMigration, State_UnsealedMigrations, schemaHistory;
  unfold read_rows, gets, get, mbind, prog_bind, mret, prog_ret;
  rewrite (table_of _ _ _ Hrep).
Ltac read := start; match goal with
  | |- simulates _ _ (?x, _) (?y, _) => replace x with y; [by apply sim_read|] end.

(** The rows' decoding becomes the entries'. *)
Ltac decoded :=
  match goal with |- simulates _ _ (map_outcome ?f _, _) (map_outcome ?g _, _) =>
    rewrite (map_rows f g) by done end.

Lemma sim_is_active : goal CIsActive.
Proof. read. f_equal. symmetry. eapply rows_is_active, wf_of, Hrep. Qed.
Lemma sim_exists name : goal (CMigrationExists name).
Proof. read. by rewrite row_names_of. Qed.
Lemma sim_latest : goal CLatestMigration.
Proof. read. f_equal. symmetry. eapply latest_of, wf_of, Hrep. Qed.
Lemma sim_latest_baseline : goal CLatestBaseline.
Proof.
  read. pose proof (wf_of _ _ _ Hrep) as Hwf.
  destruct (sorted_query (λ r, row_type r = MigrationTypeBaseline)
    (λ e, e_type e = MigrationTypeBaseline) es (wf_times _ _ _ Hwf)) as [_ ->]; [done|].
  rewrite fmap_reverse, head_reverse, <-(with_parents_snd None es) at 1.
  rewrite <-filter_snd, !fmap_last. by destruct (last _).
Qed.
Lemma sim_previous : goal CPreviousMigration.
Proof.
  read. pose proof (wf_of _ _ _ Hrep) as Hwf. unfold previous_migration.
  rewrite (latest_of _ _ _ Hwf). f_equal.
  destruct (last es) as [x|] eqn:Hl; [|by apply last_None in Hl as ->].
  unfold top. rewrite Hl. apply last_Some in Hl as [pre ->].
  rewrite with_parents_app, last_app. cbn -[find_row].
  unfold find_row. rewrite rows_of_snoc, filter_app, filter_cons.
  rewrite (proj2 (filter_nil_iff _ (rows_of pre))).
  { cbn. by rewrite decide_True. }
  intros r Hr Heq. pose proof (wf_names _ _ _ Hwf) as Hn. unfold e_names in Hn.
  rewrite fmap_app in Hn. apply NoDup_app in Hn as (_ & Hn & _). apply (Hn (row_name r)).
  - change (row_name r ∈ e_names pre). rewrite <-row_names_of. by apply list_elem_of_fmap_2.
  - rewrite Heq. by left.
Qed.
Lemma sim_has_sealed : goal CHasSealedDeferred.
Proof.
  read. f_equal. apply bool_decide_ext.
  rewrite (filter_rows_nil es _ (λ e, e_status e = Sealing)); [done|].
  intros [p e]. cbn. destruct (e_status e); naive_solver.
Qed.
Lemma sim_deferred : goal CDeferredCompletes.
Proof.
  start. unfold lift.
  destruct (filter_rows_of (λ r, row_deferred r = true) (λ e, is_deferred (e_status e) = true) es)
    as (pes & Hr & Hp); [done|].
  rewrite by_created_at_in_order by (apply in_order_sub, rows_of_in_order, Hrep).
  rewrite Hr. decoded. rewrite Hp. by apply sim_read.
Qed.
Lemma sim_history ex : goal (CSchemaHistory ex).
Proof.
  start. unfold lift.
  destruct (history_query (λ r, (ex = true → row_type r ≠ MigrationTypeInferred) ∧
    after_baseline (rows_of es) r) (not_excluded ex) es) as (pes & -> & Hp); [apply Hrep|done|].
  decoded. rewrite Hp. by apply sim_read.
Qed.
Lemma sim_get_active : goal CGetActive.
Proof.
  start. pose proof (wf_of _ _ _ Hrep) as Hwf.
  destruct (rows_active _ _ _ Hwf) as [[-> Ha]|(e & p & -> & He & _ & ->)].
  - cbn. destruct (last es) as [e|] eqn:Hl; [|by apply sim_read]. rewrite decide_False; [by apply sim_read|].
    intros He. assert (active es = true); [|congruence]. apply (active_top _ _ _ Hwf). eauto.
  - cbn. rewrite decide_True by done. by apply sim_read.
Qed.
Lemma sim_get name : goal (CGetMigration name).
Proof.
  start. destruct (find_row_of name es) as ([pe|] & -> & ->); by apply sim_read.
Qed.
Lemma sim_after name : goal (CSchemaAfterMigration name).
Proof.
  start. destruct (find_row_of name es) as ([pe|] & -> & ->); by apply sim_read.
Qed.
Lemma sim_unsealed : goal CUnsealed.
Proof.
  start. unfold lift.
  destruct (sorted_query (λ r, row_sealed r = false) (λ e, is_sealed (e_status e) = false) es)
    as [_ ->]; [apply Hrep|done|].
  rewrite map_outcome_fmap, (map_outcome_ext _ to_record); [by apply sim_read|done].
Qed.

(** Writes *)

Lemma sim_wrap_bind {A B} f (m : prog (Store J C) error A) (k : A → B) st1 v es' :
  simulates schema st ((n ← m; mret (k n)) st1) (Ok v, es') →
  simulates schema st ((n ← wrap_err f m; mret (k n)) st1) (Ok v, es').
Proof.
  unfold wrap_err, mbind, prog_bind. destruct (m st1) as [[] ?]; try done. by intros [? _].
Qed.
Lemma sim_wrap {A} f (m : prog (Store J C) error A) (m' : prog (list (entry J)) error A) st1 :
  simulates schema st (m st1) (m' es) →
  simulates schema st (wrap_err f m st1) (wrap_err f m' es).
Proof.
  unfold wrap_err. destruct (m st1) as [o ?], (m' es) as [o' ?]. intros [Heq Hs].
  cbn in Heq. subst o'. by destruct o.
Qed.

Lemma is_active_row name (pe : option string * entry J) :
  row_name (row_of pe) = name ∧ row_done (row_of pe) = false ↔ is_active_entry name pe.2.
Proof. destruct pe as [p e]. cbn. unfold is_active_entry. destruct (e_status e); naive_solver. Qed.
Lemma sim_wrap_ok {A} (m' : prog (list (entry J)) error A) f (m : prog (Store J C) error A) st1 a es' :
  m' es = (Ok a, es') → simulates schema st (m st1) (Ok a, es') →
  simulates schema st (wrap_err f m st1) (m' es).
Proof.
  intros -> Hs. unfold wrap_err. destruct (m st1) as [o ?], Hs as [Heq Hs]. cbn in Heq. by subst o.
Qed.

Lemma sim_complete name : goal (CComplete name).
Proof.
  apply (sim_change_one schema st es Hrep _ (is_active_entry name)); auto; try done.
  - apply is_active_row.
  - by intros sc p e [_ Ha]; destruct e; cbn in *; subst.
  - intros sc e [_ Ha] Hb Hy. specialize (Hb Hy). by rewrite Ha in Hb.
Qed.
Lemma sim_mark_deferred name : goal (CMarkCompleteDeferred name).
Proof.
  apply (sim_change_one schema st es Hrep _ (is_active_entry name)); auto; try done.
  - apply is_active_row.
  - by intros sc p e [_ Ha]; destruct e; cbn in *; subst.
  - intros sc e [_ Ha] Hb Hy. specialize (Hb Hy). by rewrite Ha in Hb.
Qed.
Lemma sim_refresh name : goal (CRefreshResultingSchema name).
Proof. by apply (sim_change_one schema st es Hrep _ (λ e, e_name e = name)); auto. Qed.
Lemma sim_clear name : goal (CClearCompleteDeferred name).
Proof.
  refine (sim_update schema st es Hrep (λ r, row_name r = name) (λ e, e_name e = name)
    (λ r, set_row_flags (row_done r) false (row_sealed r) r)
    (λ e, set_e_status (clear_deferred (e_status e)) e) (λ _, ()) _ _ _ _ _ _ _); try done.
  - intros p e _. by destruct e as [?????[]].
  - by left.
  - by intros [?????[]].
  - intros [?????[]] _ _ Hb Hy; by specialize (Hb Hy).
Qed.
Lemma sim_seal : goal CMarkSealed.
Proof.
  assert (simulates schema st (run schema CMarkSealed st)
    (Ok (Z.of_nat (length (filter (λ e, e_status e = Applied ∨ e_status e = Deferred) es))),
     change (λ e, e_status e = Applied ∨ e_status e = Deferred)
       (λ e, set_e_status (seal (e_status e)) e) es)) as Hs.
  { apply sim_wrap_bind. refine (sim_update schema st es Hrep
      (λ r, row_sealed r = false ∧ row_done r = true) (λ e, e_status e = Applied ∨ e_status e = Deferred)
      (λ r, set_row_flags (row_done r) (row_deferred r) true r)
      (λ e, set_e_status (seal (e_status e)) e) Z.of_nat _ _ _ _ _ _ _); try done.
    - intros [p e]. cbn. destruct (e_status e); intuition (congruence || discriminate).
    - intros p [?????[]] [|]; done.
    - by left.
    - by intros [?????[]].
    - intros [?????[]] _ _ Hb Hy; by specialize (Hb Hy). }
  cbn [run_spec]. unfold mbind, prog_bind, get, modify.
  replace (_ <$> es) with (change (λ e, e_status e = Applied ∨ e_status e = Deferred)
    (λ e, set_e_status (seal (e_status e)) e) es); [done|].
  apply list_fmap_ext. intros _ [n b t sc ty s] _. destruct (decide _) as [|Hs']; [done|].
  destruct s; try done; destruct Hs'; cbn; auto.
Qed.
Lemma sim_rollback name : goal (CRollback name).
Proof.
  cbn [run run_spec]. unfold mbind, prog_bind, get.
  pose proof (is_active_row name) as HPQ.
  destruct (decide (filter (is_active_entry name) es = [])) as [Hn|Hn].
  { by apply (sim_delete_none schema st es Hrep _ (is_active_entry name)). }
  pose proof (wf_of _ _ _ Hrep) as Hwf.
  destruct (filter (is_active_entry name) es) as [|x l] eqn:Hx; [done|].
  assert (x ∈ filter (is_active_entry name) es) as [[Hxn Hxa] Hxe]%list_elem_of_filter
    by (rewrite Hx; left).
  apply list_elem_of_split in Hxe as (pre & post & Hes).
  rewrite (wf_active _ _ _ Hwf pre x post Hes Hxa) in Hes.
  assert (∀ e, e ∈ pre → e_name e ≠ name) as Hpre.
  { intros e He Heq. pose proof (wf_names _ _ _ Hwf) as Hnd. unfold e_names in Hnd.
    rewrite Hes, fmap_app in Hnd. apply NoDup_app in Hnd as (_ & Hnd & _).
    apply (Hnd (e_name e)); [by apply list_elem_of_fmap_2|]. rewrite Heq, <-Hxn. by left. }
  unfold pop. rewrite decide_True by (unfold top; rewrite Hes, last_snoc; cbn; by rewrite Hxn).
  replace (take (length es - 1) es) with pre
    by (by rewrite Hes, length_app, Nat.add_sub, take_app_length).
  apply (sim_delete_top schema st es Hrep _ (is_active_entry name) pre x); [done..|].
  intros e He [Heq _]. by apply (Hpre e).
Qed.
Lemma sim_delete name : goal (CDeleteMigration name).
Proof. apply sim_delete_name, Hrep. Qed.

(** Insertions, at the time of the clock *)

Lemma at_now {A} (k : Z → list (MigrationRow J) → prog (Store J C) error A) :
  (t ← current_timestamp; rows ← read_rows schema; k t rows) st = k now (rows_of es) (tick st).
Proof.
  unfold read_rows, gets, mbind, prog_bind. cbn.
  by replace (table schema _) with (rows_of es) by (symmetry; apply (table_of _ _ _ Hrep)).
Qed.
Lemma latest_now : latest_migration (rows_of es) = top es.
Proof. apply (latest_of _ _ _ (wf_of _ _ _ Hrep)). Qed.

(** A step that neither writes nor differs *)
Lemma wrap_lift {W A} f (o : outcome error A) (w : W) :
  wrap_err f (lift o) w = (match o with Err e => Err (f e) | o => o end, w).
Proof. by destruct o. Qed.
Lemma sim_bind {A B} (m : prog (Store J C) error A) (m' : prog (list (entry J)) error A)
    (k : A → prog (Store J C) error B) (k' : A → prog (list (entry J)) error B) o :
  m st = (o, st) → m' es = (o, es) →
  (∀ a, o = Ok a → simulates schema st (k a st) (k' a es)) →
  simulates schema st ((m ≫= k) st) ((m' ≫= k') es).
Proof.
  intros Hm Hm' Hk. unfold mbind, prog_bind. rewrite Hm, Hm'.
  destruct o; [by apply Hk|by apply sim_read..].
Qed.

Lemma sim_start mig : goal (CStart mig).
Proof.
  eapply sim_bind; [by apply wrap_lift..|]. intros body _. rewrite at_now, latest_now.
  exact (sim_push schema st es Hclock Hrep
    (mkEntry mig.(Migration_Name) body now None MigrationTypePgroll Active)
    ltac:(done) eq_refl ltac:(done)).
Qed.
Lemma sim_stamp name body s parent ty :
  active es = false → parent = None ∨ parent = top es → goal (CStamp name body s parent ty).
Proof.
  intros Ha Hp. cbn [run run_spec]. unfold State_Stamp. rewrite at_now, latest_now.
  apply sim_wrap.
  replace (match parent with Some p => Some p | None => top es end) with (top es)
    by (destruct Hp as [-> | ->]; by destruct (top es)).
  exact (sim_push schema st es Hclock Hrep
    (mkEntry name body now s (if decide (ty = "") then MigrationTypePgroll else ty) Sealed)
    (λ _, Ha) eq_refl (λ _, eq_refl)).
Qed.
Lemma sim_create_baseline name : goal (CCreateBaseline name).
Proof.
  eapply (sim_bind _ (gets active) _ _ (Ok (active es))).
  { unfold wrap_err, State_IsActiveMigrationPeriod, read_rows, gets, mbind, prog_bind.
    by rewrite (table_of _ _ _ Hrep), (rows_is_active _ _ _ (wf_of _ _ _ Hrep)). }
  { done. }
  intros a Ha. destruct a; [by apply sim_read|]. injection Ha as Ha.
  eapply (sim_bind (mret ()) (mret ())); [done..|]. intros _ _.
  eapply sim_bind; [by apply wrap_lift..|]. intros sc _.
  eapply sim_bind; [by apply wrap_lift..|]. intros body _.
  rewrite at_now, latest_now. apply sim_wrap.
  exact (sim_push schema st es Hclock Hrep
    (mkEntry name body now (Some sc) MigrationTypeBaseline Sealed) (λ _, Ha) eq_refl (λ _, eq_refl)).
Qed.
Lemma sim_prune ns : goal (CPrune ns).
Proof.
  cbn [run run_spec]. unfold State_Prune. pose proof (wf_of _ _ _ Hrep) as Hwf.
  unfold get, read_rows, gets, mbind, prog_bind.
  destruct (decide (ns = [])); [by apply sim_read|]. rewrite (table_of _ _ _ Hrep).
  destruct (filter_rows_of (λ r, row_name r ∈ ns) (λ e, e_name e ∈ ns) es) as (pes & Hr & Hn); [done|].
  rewrite Hr, length_fmap, <-(length_fmap snd pes), Hn.
  unfold fail_if. destruct (negb _); [by apply sim_read|].
  destruct (filter_rows_of (λ r, row_name r ∉ ns) (λ e, e_name e ∉ ns) es) as (pes' & Hr' & Hn'); [done|].
  rewrite by_created_at_in_order by (apply in_order_sub, rows_of_in_order, Hwf).
  rewrite Hr', rewire_rows, Hn'. unfold mret, prog_ret.
  eapply (sim_wrap_ok (modify (filter (λ e, e_name e ∉ ns)))); [done|].
  apply sim_write. eapply wf_sub; [apply sublist_filter|done].
Qed.

(** Audits: the names a query collects are those on one side of the anchor. *)
Lemma sim_refuse {A} (ns ns' : list string) format (k : prog (Store J C) error A) (k' : prog _ error A) :
  ns = ns' → simulates schema st (k st) (k' es) →
  simulates schema st ((refuse_names ns format;; k) st) ((refuse_names ns' format;; k') es).
Proof.
  intros <- Hk. unfold refuse_names, fail_if. destruct (negb _); [by apply sim_read|exact Hk].
Qed.
Lemma sim_fail_if {A} (b b' : bool) e (k : prog (Store J C) error A) (k' : prog _ error A) :
  b = b' → (b = false → simulates schema st (k st) (k' es)) →
  simulates schema st ((fail_if b e;; k) st) ((fail_if b' e;; k') es).
Proof. intros <- Hk. destruct b; [by apply sim_read|by apply Hk]. Qed.

Lemma read_bind {A} (k : list (MigrationRow J) → prog (Store J C) error A) :
  (rows ← read_rows schema; k rows) st = k (rows_of es) st.
Proof. unfold read_rows, gets, mbind, prog_bind. by rewrite (table_of _ _ _ Hrep). Qed.
Lemma get_bind {W A} (k : W → prog W error A) (w : W) : (x ← get; k x) w = k w w.
Proof. done. Qed.

Lemma find_position name :
  match list_find (λ e, e_name e = name) es with
  | Some (i, a) => ∃ p, find_row name (rows_of es) = Some (row_of (p, a)) ∧
      es !! i = Some a ∧ e_name a = name
  | None => find_row name (rows_of es) = None
  end.
Proof.
  destruct (find_row_of name es) as (po & -> & Hpo). unfold find_entry in Hpo.
  destruct (list_find (λ e, e_name e = name) es) as [[i a]|] eqn:Hf.
  - pose proof (head_filter_find (λ e, e_name e = name) es) as Hh. rewrite Hf in Hh.
    apply list_find_Some in Hf as (Hi & Ha & _). rewrite Hpo in Hh.
    destruct po as [[p x]|]; [|done]. injection Hh as ->. by exists p.
  - pose proof (head_filter_find (λ e, e_name e = name) es) as Hh. rewrite Hf, Hpo in Hh.
    by destruct po.
Qed.

Section convert.
Context (i : nat) (a : entry J) (Hi : es !! i = Some a).
Let pre := take i es.
Let post := drop (S i) es.

Lemma names_below (P : MigrationRow J → Prop) `{!∀ r, Decision (P r)} (Q : entry J → Prop)
    `{!∀ e, Decision (Q e)} :
  (∀ pe, P (row_of pe) ↔ Q pe.2 ∧ e_name pe.2 ≠ e_name a ∧ (e_time pe.2 ≤ e_time a)%Z) →
  row_name <$> by_created_at (filter P (rows_of es)) = e_names (filter Q pre) ∧
  row_name <$> filter P (rows_of es) = e_names (filter Q pre).
Proof.
  intros HPQ. pose proof (wf_of _ _ _ Hrep) as Hwf.
  destruct (position es i a) as (Hes & Hpre & Hpost); [apply Hwf..|done|].
  set (R e := Q e ∧ e_name e ≠ e_name a ∧ (e_time e ≤ e_time a)%Z).
  assert (∀ e, Decision (R e)) as HR by (intros e; unfold R; apply _).
  rewrite (sorted_names_query P R es (wf_times _ _ _ Hwf) HPQ), (names_query P R es HPQ).
  replace (filter R es) with (filter Q pre); [done|].
  rewrite Hes. symmetry. apply filter_left; [|by intros (_ & Hne & _)|].
  - intros e He. destruct (Hpre e He). split; [by intros [? _]|]. intros HQ. split_and!; [done|done|lia].
  - intros e He (_ & _ & Ht). destruct (Hpost e He). lia.
Qed.
Lemma names_above (P : MigrationRow J → Prop) `{!∀ r, Decision (P r)} (R Q : entry J → Prop)
    `{!∀ e, Decision (R e)} `{!∀ e, Decision (Q e)} :
  (∀ pe, P (row_of pe) ↔ R pe.2) → ¬ R a → (∀ e, R e → (e_time a ≤ e_time e)%Z) →
  (∀ e, (e_time a < e_time e)%Z → e_name e ≠ e_name a → R e ↔ Q e) →
  row_name <$> by_created_at (filter P (rows_of es)) = e_names (filter Q post) ∧
  row_name <$> filter P (rows_of es) = e_names (filter Q post).
Proof.
  intros HPQ Ha Ht HRQ. pose proof (wf_of _ _ _ Hrep) as Hwf.
  destruct (position es i a) as (Hes & Hpre & Hpost); [apply Hwf..|done|].
  rewrite (sorted_names_query P R es (wf_times _ _ _ Hwf) HPQ), (names_query P R es HPQ).
  replace (filter R es) with (filter Q post); [done|].
  rewrite Hes. symmetry. apply filter_right; [|done|].
  - intros e He Hr%Ht. destruct (Hpre e He). lia.
  - intros e He. destruct (Hpost e He). by apply HRQ.
Qed.
End convert.

Lemma sim_convert name dry : goal (CConvert name dry).
Proof.
  cbn [run run_spec]. unfold State_ConvertMigrationToBaseline, convert.
  rewrite read_bind, get_bind. pose proof (find_position name) as Hf.
  destruct (list_find (λ e, e_name e = name) es) as [[i a]|]; [|rewrite Hf; by apply sim_read].
  destruct Hf as (p & -> & Hi & <-). cbn [row_of row_type row_resulting_schema fst snd].
  destruct (decide (e_type a = MigrationTypeBaseline)) as [|Hnb]; [by apply sim_read|].
  unfold audit. rewrite !bind_assoc.
  apply sim_fail_if; [done|intros Hinf]. rewrite bind_assoc.
  apply sim_fail_if.
  { cbn. rewrite bool_decide_decide. by destruct a as [?????[]]. }
  intros Hst. rewrite bind_assoc.
  apply sim_fail_if; [|intros Hact]; [|rewrite bind_assoc; apply sim_refuse; [|rewrite bind_assoc;
    apply sim_refuse; [|rewrite bind_assoc; apply sim_refuse; [|apply sim_refuse]]]].
  - rewrite (rows_is_active _ _ _ (wf_of _ _ _ Hrep)).
    apply bool_decide_ext. rewrite <-(take_drop_middle _ _ _ Hi) at 1.
    rewrite !filter_app, filter_cons, decide_False; [done|].
    intros Ha. cbn in Hst. by rewrite Ha in Hst.
  - apply (names_below i a Hi). intros [q e]. cbn. destruct (e_status e); intuition (congruence || discriminate).
  - refine (proj1 (names_above i a Hi _ (λ e, e_type e = MigrationTypeBaseline ∧
      (e_time a ≤ e_time e)%Z) _ _ _ _ _)).
    + done.
    + by intros [? _].
    + by intros e [_ ?].
    + intros e Ht _. split; [by intros [? _]|]. intros ?. split; [done|lia].
  - unfold by_name. f_equal. apply (names_below i a Hi). intros [q e]. cbn. tauto.
  - unfold by_name. f_equal. refine (proj2 (names_above i a Hi _ (λ e, e_name e ≠ e_name a ∧
      e_type e ≠ MigrationTypeInferred ∧ ¬ (e_time e ≤ e_time a)%Z ∧
      name_le (C := C) (e_name e) (e_name a) = true) _ _ _ _ _)).
    + done.
    + by intros [? _].
    + intros e (_ & _ & ? & _). lia.
    + intros e Ht Hn. split; [intuition|]. intros [? ?]. split_and!; try done. lia.
  - destruct dry; [by apply sim_read|].
    refine (sim_update schema st es Hrep (λ r, row_name r = e_name a) (λ e, e_name e = e_name a)
      (set_row_type MigrationTypeBaseline) (set_e_type MigrationTypeBaseline)
      (λ _, mkConvertToBaselineResult false (bool_decide (e_schema a = None))) _ _ _ _ _ _ _); try done.
    + by right.
    + intros e He Hn _ _. cbn.
      rewrite (names_inj_entry es e a (wf_names _ _ _ (wf_of _ _ _ Hrep))
        He (list_elem_of_lookup_2 _ _ _ Hi) Hn). by destruct a as [?????[]].
Qed.
End refinement.

Section refines.
Context {J C : Type} `{!Json J} `{!Catalogue C} (schema : string).
Implicit Types (st : Store J C) (es : list (entry J)).

Definition increasing (clock : nat → Z) : Prop := ∀ i j : nat, i < j → (clock i < clock j)%Z.

Lemma run_refines {A} (c : call J A) st es :
  increasing (st_clock st) → represents schema st es → call_ok c es →
  simulates schema st (run schema c st)
    (run_spec (catalogue_name_le (C := C)) (catalogue_read_schema schema (st_db st))
       (st_clock st (st_ticks st)) schema c es).
Proof.
  intros Hc Hr. destruct c; intros Hok;
    eauto using sim_is_active, sim_get_active, sim_start, sim_complete, sim_mark_deferred,
      sim_deferred, sim_has_sealed, sim_clear, sim_get, sim_refresh, sim_after, sim_rollback,
      sim_create_baseline, sim_exists, sim_history, sim_latest_baseline, sim_latest, sim_previous,
      sim_unsealed, sim_seal, sim_delete, sim_prune, sim_convert.
  destruct Hok. by apply sim_stamp.
Qed.

(** ** The calls that read the catalog, and the tombstones *)

Implicit Types (a : list (entry J) * gmap string string).

(** [method_spec] gives the outcome, the new state is held, and nothing else
    changes but the number of readings of the clock. *)
Definition implements {A} st (x : outcome error A * Store J C)
    (y : outcome error A * (list (entry J) * gmap string string)) : Prop :=
  x.1 = y.1 ∧ holds schema x.2 y.2 ∧ st_db x.2 = st_db st ∧ st_clock x.2 = st_clock st ∧
  ∀ s, s ≠ schema → table s x.2 = table s st ∧ tombstones_of s x.2 = tombstones_of s st.

Lemma implements_read {A} st a (o : outcome error A) :
  holds schema st a → implements st (o, st) (o, a).
Proof. intros Ha. unfold implements. by split_and!. Qed.

Lemma implements_history {A} (c : call J A) st a :
  increasing (st_clock st) → holds schema st a → call_ok c a.1 →
  implements st (run schema c st)
    (on_history (run_spec (catalogue_name_le (C := C)) (catalogue_read_schema schema (st_db st))
       (st_clock st (st_ticks st)) schema c) a).
Proof.
  intros Hc [Hr Ht] Hok. pose proof (run_refines c st a.1 Hc Hr Hok) as Hs.
  unfold on_history. destruct (run schema c st) as [o st'], (run_spec _ _ _ _ c a.1) as [o' es'].
  destruct Hs as (Ho & Hr' & Hd & Hk & Hv & _ & Hf). unfold implements. cbn in *.
  split_and!; try done; [split; [done|]; cbn; rewrite <-Ht; unfold tombstones_of; by rewrite Hv|].
  intros s Hs. split; [by apply Hf|]. unfold tombstones_of. by rewrite Hv.
Qed.

(** The ancestors of the newest row are the history, newest first. *)
Lemma ancestors_rows (fuel : nat) es1 es2 e p :
  NoDup (e_names (es1 ++ e :: es2)) → length es1 < fuel →
  p = top es1 →
  ancestors fuel (e_name e) (rows_of (es1 ++ e :: es2)) =
    row_of (p, e) :: reverse (rows_of es1).
Proof.
  revert es1 es2 e p. induction fuel as [|fuel IH]; intros es1 es2 e p Hn Hf ->; [lia|]. cbn [ancestors].
  assert (find_row (e_name e) (rows_of (es1 ++ e :: es2)) = Some (row_of (top es1, e))) as ->.
  { unfold e_names in Hn. rewrite fmap_app in Hn. apply NoDup_app in Hn as (_ & Hn & _).
    unfold find_row, rows_of. rewrite with_parents_app, fmap_app, filter_app.
    rewrite (proj2 (filter_nil_iff _ (row_of <$> with_parents None es1))).
    { cbn. rewrite decide_True by done. unfold top. by destruct (last es1). }
    intros r Hr Heq. apply (Hn (row_name r)); [|rewrite Heq; by left].
    change (row_name r ∈ e_names es1). rewrite <-row_names_of. by apply list_elem_of_fmap_2. }
  f_equal. cbn [row_of row_parent fst]. destruct es1 as [|x es1 _] using rev_ind; [done|].
  unfold top. rewrite last_snoc. cbn [fmap option_fmap option_map].
  rewrite <-app_assoc. cbn [app]. rewrite rows_of_snoc, reverse_app. cbn [reverse].
  rewrite length_app in Hf. cbn in Hf. rewrite (IH es1 (e :: es2) x (top es1)); [done| |lia|done].
  by rewrite <-app_assoc in Hn.
Qed.

Lemma find_version_schema_spec st es (depth : nat) :
  represents schema st es →
  find_version_schema schema depth st =
    (Ok (versions (view_of schema st) schema es !! depth), st).
Proof.
  intros [Ht Hwf]. unfold find_version_schema. rewrite Ht, (latest_of _ _ _ Hwf). f_equal. f_equal.
  unfold top, versions. destruct es as [|e es _] using rev_ind; [done|].
  rewrite last_snoc. cbn [fmap option_fmap option_map mbind option_bind].
  rewrite (ancestors_rows _ es [] e (top es) (wf_names _ _ _ Hwf)); [|unfold rows_of;
    rewrite length_fmap, with_parents_length, length_app; cbn; lia|done].
  rewrite reverse_app. cbn [reverse app fmap list_fmap].
  f_equal. f_equal. change (reverse [e] ++ reverse es) with (e :: reverse es).
  rewrite fmap_cons. f_equal. rewrite !fmap_reverse. f_equal. unfold rows_of.
  rewrite <-(with_parents_snd None es) at 2.
  rewrite <-!list_fmap_compose. by apply list_fmap_ext.
Qed.

Lemma existing_spec st a :
  holds schema st a →
  State_HasExistingSchemaWithoutHistory schema st =
    ((method_spec (view_of schema st) schema MHasExistingSchemaWithoutHistory a).1, st).
Proof.
  intros [[Ht Hwf] _]. unfold State_HasExistingSchemaWithoutHistory, read_rows, gets.
  cbn [method_spec]. unfold mbind at 1, prog_bind at 1. rewrite Ht, get_bind.
  destruct (filter_rows_of (λ r, row_type r ≠ MigrationTypeInferred)
    (λ e, e_type e ≠ MigrationTypeInferred) a.1) as (pes & -> & Hp); [done|].
  destruct (decide (Forall _ a.1)) as [Hf|Hf].
  - rewrite decide_False.
    2:{ intros Hn. apply Hn. assert (filter (λ e, e_type e ≠ MigrationTypeInferred) a.1 = []) as He.
        { apply filter_nil_iff. rewrite Forall_forall in Hf. auto. }
        rewrite He in Hp. by destruct pes. }
    unfold wrap_err, State_ReadSchema, lift, mbind, prog_bind. cbn.
    by destruct (catalogue_read_schema schema (st_db st)).
  - rewrite decide_True; [done|]. intros Hn. apply Hf, Forall_forall. intros e He.
    apply dec_stable. intros Hi. destruct pes; [|done].
    by eapply (proj1 (filter_nil_iff _ _) (eq_sym Hp)).
Qed.

Lemma prune_rows_spec st es ns :
  represents schema st es →
  State_PruneRows ns schema st = (Ok (prune_target <$> filter (λ e, e_name e ∈ ns) es), st).
Proof.
  intros [Ht Hwf]. unfold State_PruneRows, read_rows, gets, mbind, prog_bind. rewrite Ht.
  destruct (sorted_query (λ r, row_name r ∈ ns) (λ e, e_name e ∈ ns) es (wf_times _ _ _ Hwf))
    as [-> _]; [done|].
  unfold mret, prog_ret. f_equal. f_equal.
  rewrite <-(with_parents_snd None es) at 2. rewrite <-filter_snd, <-!list_fmap_compose.
  by apply list_fmap_ext.
Qed.

Lemma holds_tombstones f st a :
  holds schema st a →
  implements st (set_tombstones schema f st) (Ok (), (a.1, f a.2)).
Proof.
  intros [Hr Ht]. unfold implements. split_and!; try done.
  - split; [done|]. unfold tombstones_of at 1. cbn. rewrite lookup_insert_eq. by rewrite <-Ht.
  - intros s Hs. split; [done|]. unfold tombstones_of at 1. cbn. by rewrite lookup_insert_ne.
Qed.

Lemma record_spec ts st a :
  holds schema st a →
  implements st (State_RecordRevertedMigrations ts schema st)
    (Ok (), (a.1, list_to_map (reverse ((λ t, (Tombstone_Name t, Tombstone_ContentHash t)) <$> ts))
                    ∪ a.2)).
Proof.
  unfold State_RecordRevertedMigrations. revert st a. induction ts as [|t ts IH]; intros st a Ha.
  { replace (list_to_map _ ∪ a.2) with a.2 by (symmetry; apply map_empty_union).
    destruct a. by apply implements_read. }
  pose proof (holds_tombstones <[Tombstone_Name t := Tombstone_ContentHash t]> st a Ha) as Hs.
  cbn [for_each]. unfold mbind, prog_bind.
  destruct (set_tombstones _ _ st) as [o st'] eqn:Hst. destruct Hs as (Ho & Hh & Hd & Hk & Hf).
  cbn [fst snd] in *. subst o. specialize (IH st' _ Hh). cbn [fst snd] in IH.
  cbn [fmap list_fmap]. rewrite reverse_cons, list_to_map_app, <-(assoc_L (∪)). cbn [list_to_map foldr].
  rewrite insert_empty, <-insert_union_singleton_l.
  destruct IH as (Ho' & Hh' & Hd' & Hk' & Hf'). unfold implements. split_and!; try done.
  - by rewrite Hd'.
  - by rewrite Hk'.
  - intros s Hs. destruct (Hf s Hs), (Hf' s Hs). split; congruence.
Qed.

Lemma clear_filter ns (T : gmap string string) : foldr delete T ns = filter (λ kv, kv.1 ∉ ns) T.
Proof.
  apply map_eq. intros k. destruct (decide (k ∈ ns)) as [Hk|Hk].
  - rewrite lookup_foldr_delete by done. symmetry.
    apply map_lookup_filter_None. right. intros v _ Hn. by apply Hn.
  - rewrite lookup_foldr_delete_not_elem_of by done. destruct (T !! k) as [v|] eqn:Ht; symmetry.
    + by apply map_lookup_filter_Some_2.
    + apply map_lookup_filter_None. by left.
Qed.

(** C10. The state store refines its specification.  The abstract state of a
    schema is its history, a list of entries, and its tombstones; [method] has
    every method of the state store.  On a store that holds such a state, with
    a clock that advances between readings, each method returns exactly what
    its meaning on the abstract state returns, errors included, leaves a store
    that holds the new state, and touches neither the catalog nor the clock
    nor the rows and tombstones of another schema.  Of [Stamp] alone this
    supposes what its caller checks: that no migration is active, and that a
    parent it names is the newest migration. *)
Theorem State_refines_spec {A} (c : method J A) st a :
  increasing (st_clock st) → holds schema st a → method_ok c a.1 →
  let '(o, st') := perform schema c st in
  let '(o', a') := method_spec (view_of schema st) schema c a in
  o = o' ∧ holds schema st' a' ∧ st_db st' = st_db st ∧ st_clock st' = st_clock st ∧
  ∀ s, s ≠ schema → table s st' = table s st ∧ tombstones_of s st' = tombstones_of s st.
Proof.
  intros Hc Ha Hok.
  enough (implements st (perform schema c st) (method_spec (view_of schema st) schema c a)) as Hi.
  { by destruct (perform schema c st), (method_spec _ schema c a). }
  destruct c; cbn [perform].
  - by apply implements_history.
  - rewrite (existing_spec st a Ha).
    replace (method_spec _ _ _ a) with
      ((method_spec (view_of schema st) schema MHasExistingSchemaWithoutHistory a).1, a);
      [by apply implements_read|].
    cbn [method_spec]. rewrite get_bind. destruct (decide _); [|done].
    unfold wrap_err, lift, mbind, prog_bind. by destruct (view_schema _).
  - by apply implements_read.
  - unfold State_LatestVersion. rewrite (find_version_schema_spec _ a.1) by apply Ha.
    rewrite <-head_lookup. by apply implements_read.
  - unfold State_PreviousVersion. rewrite (find_version_schema_spec _ a.1) by apply Ha.
    by apply implements_read.
  - rewrite (prune_rows_spec _ a.1) by apply Ha. by apply implements_read.
  - cbn [method_spec]. unfold lift, mbind, prog_bind.
    destruct (json_MarshalRaw mig) as [body|e| |]; [|by apply implements_read..].
    by apply (implements_history (CStamp _ body s parent ty)).
  - by apply record_spec.
  - cbn [method_spec]. unfold State_RevertedMigrations, gets. rewrite (proj2 Ha).
    by apply implements_read.
  - unfold State_ClearRevertedMigrations. destruct (decide (names = [])) as [->|].
    + cbn [method_spec]. unfold modify. rewrite <-clear_filter. destruct a. by apply implements_read.
    + cbn [method_spec]. unfold modify. rewrite <-clear_filter. by apply holds_tombstones.
Qed.
End refines.

(** ** A concrete history *)

Definition sample_encoded := (Migration + RawMigration)%type.
#[export] Instance sample_json : Json sample_encoded := {|
  json_Marshal m := Ok (inl m);
  json_MarshalRaw m := Ok (inr m);
  json_Unmarshal j :=
    match j with
    | inl m => Ok m
    | inr m => Ok (mkMigration (RawMigration_Name m) (RawMigration_VersionSchema m) []
                     (RawMigration_DependsOn m) (RawMigration_Preconditions m)
                     (RawMigration_Irreversible m) (RawMigration_Baseline m) (targets_of m)
                     (RawMigration_RevertOf m))
    end;
  json_UnmarshalRaw j :=
    match j with
    | inl m => Ok (mkRawMigration (Migration_Name m) (Migration_VersionSchema m) "[]"
                     (Migration_DependsOn m) (Migration_Preconditions m) (Migration_Irreversible m)
                     (Migration_Baseline m) None (Migration_RevertOf m))
    | inr m => Ok m
    end;
  json_version_schema _ := None;
  json_operation_count _ := 0;
|}.

(** The schemata of the database, tables aside *)
#[export] Instance sample_catalogue : Catalogue (list string) := {|
  catalogue_name_le := String.leb;
  catalogue_read_schema _ _ := Ok (∅, New);
  catalogue_schemata l := l;
|}.

Definition sample_raw (name : string) (deps : list string) : RawMigration :=
  mkRawMigration name "" "[]" deps [] false false None "".
Definition sample_entry (name : string) (t : Z) (s : status) : entry sample_encoded :=
  mkEntry name (inr (sample_raw name [])) t None MigrationTypePgroll s.

(** Two sealed migrations, one with its completion queued, one active *)
Definition sample_history : list (entry sample_encoded) :=
  [sample_entry "01" 0 Sealed; sample_entry "02" 1 Sealed; sample_entry "03" 2 Deferred;
   sample_entry "04" 3 Active].
Definition store_of (es : list (entry sample_encoded)) : Store sample_encoded (list string) :=
  mkStore ["public"] {["public" := rows_of es]} ∅ Z.of_nat (length es).

Lemma sample_clock : increasing Z.of_nat.
Proof. intros i j Hij. lia. Qed.
Lemma store_of_represents es :
  history_wf Z.of_nat (length es) es → represents "public" (store_of es) es.
Proof. by split. Qed.
Lemma sample_history_wf : history_wf Z.of_nat 4 sample_history.
Proof.
  split.
  - decide_goal.
  - repeat constructor.
  - intros e t He Ht. repeat (apply elem_of_cons in He as [->|He]; [cbn; lia|]). by apply elem_of_nil in He.
  - intros pre e post Heq Ha.
    unfold sample_history in Heq.
    by destruct pre as [|? [|? [|? [|? [|? pre]]]]]; simplify_eq/=.
  - intros e He. repeat (apply elem_of_cons in He as [->|He]; [left|]). by apply elem_of_nil in He.
  - intros e He. by repeat (apply elem_of_cons in He as [->|He]; [done|]); apply elem_of_nil in He.
Qed.

Lemma State_refines_spec_witness :
  let st := store_of sample_history in
  let st' := (perform "public" (MRecordReverted [mkTombstone "05" "hash"]) st).2 in
  (perform "public" (MHistory CMarkSealed) st').1 = Ok 1%Z ∧
  holds "public" st' (sample_history, {["05" := "hash"]}) ∧
  holds "public" (perform "public" (MHistory CMarkSealed) st').2
    ([sample_entry "01" 0 Sealed; sample_entry "02" 1 Sealed; sample_entry "03" 2 Sealing;
      sample_entry "04" 3 Active], {["05" := "hash"]}).
Proof.
  intros st st'. split; [reflexivity|].
  assert (holds "public" st (sample_history, ∅)) as H0.
  { split; [apply store_of_represents, sample_history_wf|reflexivity]. }
  pose proof (State_refines_spec "public" (MRecordReverted [mkTombstone "05" "hash"])
    st (sample_history, ∅) sample_clock H0 I) as (_ & H1 & _).
  assert (holds "public" st' (sample_history, {["05" := "hash"]})) as H2 by exact H1.
  split; [exact H2|].
  exact (proj1 (proj2 (State_refines_spec "public" (MHistory CMarkSealed) st' _ sample_clock H2 I))).
Defined.
