(* ===== verification/HistoryProps.v ===== *)
(** * HistoryProps: what holds of the migrations table

    The invariant of every table the program can reach, and the changes a row
    can go through. *)

From S2P Require Import Prelude.
From S2P Require Import GoStd.
From S2P Require Import Names.
From S2P Require Import Schema.
From S2P Require Import Types.
From S2P Require Import Db.
From S2P Require Import Operations.
From S2P Require Import Migration.
From S2P Require Import Invert.
From S2P Require Import LocalSet.
From S2P Require Import History.
From S2P Require Import HistorySpec.
From S2P Require Import HistoryFacts.
From S2P Require Import HistoryRefine.

(** ** The invariant *)

Section invariant.
Context {J C : Type} `{!Json J} `{!Catalogue C}.
Implicit Types (st : Store J C) (es : list (entry J)) (rows : list (MigrationRow J)).

(** What [Roll.Stamp], the only caller of [Stamp], checks first *)
Definition stamp_ok {A} (schema : string) (c : call J A) st : Prop :=
  match c with
  | CStamp _ _ _ parent _ =>
      let rows := table schema st in
      is_active_migration_period rows = false ∧ (parent = None ∨ parent = latest_migration rows)
  | _ => True
  end.

(** The stores reached from an empty one by the methods, on any schemas, with
    changes of the database and of the tombstones in between *)
Inductive reaches : Store J C → Prop :=
  | reaches_init db reverted clock :
      increasing clock → reaches (mkStore db ∅ reverted clock 0)
  | reaches_call {A} schema (c : call J A) st :
      reaches st → stamp_ok schema c st → reaches (run schema c st).2
  | reaches_env db reverted st :
      reaches st → reaches (mkStore db (st_migrations st) reverted (st_clock st) (st_ticks st)).

Record table_ok rows : Prop := {
  ok_names : NoDup (row_names rows);
  ok_times : in_order rows;
  ok_chain i r : rows !! i = Some r →
    row_parent r = match i with 0 => None | S j => row_name <$> rows !! j end;
  ok_active i r : rows !! i = Some r → row_done r = false → S i = length rows;
  ok_baselines r : r ∈ rows → row_type r = MigrationTypeBaseline → row_sealed r = true;
  ok_flags r : r ∈ rows → row_done r = false → row_deferred r = false ∧ row_sealed r = false;
}.

Lemma rows_of_lookup es i :
  rows_of es !! i = (λ e, row_of (match i with 0 => None | S j => e_name <$> es !! j end, e)) <$> es !! i.
Proof.
  unfold rows_of. rewrite list_lookup_fmap.
  enough (∀ p, with_parents p es !! i =
    (λ e, (match i with 0 => p | S j => e_name <$> es !! j end, e)) <$> es !! i) as ->
    by (by destruct (es !! i)).
  revert i. induction es as [|e es IH]; intros i p; [done|].
  destruct i as [|i]; [done|]. cbn. rewrite IH. by destruct i.
Qed.

Lemma rows_of_ok clock ticks es : history_wf clock ticks es → table_ok (rows_of es).
Proof.
  intros Hwf. split.
  - rewrite row_names_of. apply Hwf.
  - apply rows_of_in_order, Hwf.
  - intros i r. rewrite rows_of_lookup. intros (e & He & ->)%fmap_Some. cbn.
    destruct i as [|j]; [done|]. rewrite rows_of_lookup.
    by destruct (es !! j).
  - intros i r. rewrite rows_of_lookup. intros (e & He & ->)%fmap_Some. cbn. intros Ha.
    pose proof (take_drop_middle _ _ _ He) as Hes. symmetry in Hes.
    apply (wf_active _ _ _ Hwf) in Hes; [|by destruct (e_status e)].
    apply lookup_lt_Some in He. unfold rows_of. rewrite length_fmap, with_parents_length.
    apply (f_equal length) in Hes. rewrite length_drop in Hes. cbn in Hes. lia.
  - intros r (pe & -> & Hpe)%list_elem_of_fmap Hb. apply (wf_baselines _ _ _ Hwf); [|done].
    rewrite <-(with_parents_snd None es). by apply list_elem_of_fmap_2.
  - intros r (pe & -> & _)%list_elem_of_fmap. cbn. by destruct (e_status pe.2).
Qed.

Lemma stamp_call_ok {A} schema (c : call J A) (st : Store J C) es :
  represents schema st es → stamp_ok schema c st → call_ok c es.
Proof.
  intros [Ht Hwf]. destruct c; try done. cbn. rewrite Ht.
  by rewrite (rows_is_active _ _ _ Hwf), (latest_of _ _ _ Hwf).
Qed.

Lemma represents_env schema (db : C) reverted (st : Store J C) es :
  represents schema st es →
  represents schema (mkStore db (st_migrations st) reverted (st_clock st) (st_ticks st)) es.
Proof. done. Qed.

Lemma reaches_represents st :
  reaches st → increasing (st_clock st) ∧ ∀ schema, ∃ es : list (entry J), represents schema st es.
Proof.
  induction 1 as [db reverted clock Hc|A schema c st Hr [Hc IH] Hok|db reverted st Hr [Hc IH]].
  - split; [done|]. intros schema. exists []. split; [done|].
    split; [constructor|constructor|by intros ? ? ?%elem_of_nil|by intros []|by intros ? ?%elem_of_nil|by intros ? ?%elem_of_nil].
  - destruct (IH schema) as [es Hes].
    destruct (run_refines schema c st es Hc Hes (stamp_call_ok _ _ _ _ Hes Hok))
      as (_ & Hrep & _ & Hck & _ & Ht & Hother).
    split; [by rewrite Hck|]. intros s. destruct (decide (s = schema)) as [->|Hs]; [by eexists|].
    destruct (IH s) as [es' [Htab Hwf]]. exists es'. split; [by rewrite Hother|].
    rewrite Hck. by eapply wf_later.
  - split; [done|]. intros s. destruct (IH s) as [es ?]. exists es. by apply represents_env.
Qed.

(** C11. In every store the program reaches, the rows of every schema are a
    linear history: names are distinct, the times of creation increase, each
    row's parent is the row before it, only the last row can be active, an
    active row is neither awaiting its completion nor sealed, and a baseline is
    sealed. *)
Theorem migrations_table_invariant st schema : reaches st → table_ok (table schema st).
Proof.
  intros [_ Hr]%reaches_represents. destruct (Hr schema) as (es & -> & Hwf).
  by eapply rows_of_ok.
Qed.
End invariant.

(** ** The changes of a row *)

Section transitions.
Context {J C : Type} `{!Json J} `{!Catalogue C}.
Implicit Types (e : entry J) (es : list (entry J)) (r : MigrationRow J).

Definition row_status r : status :=
  if row_done r then
    if row_deferred r then if row_sealed r then Sealing else Deferred
    else if row_sealed r then Sealed else Applied
  else Active.

Lemma row_status_of (pe : option string * entry J) : row_status (row_of pe) = e_status pe.2.
Proof. unfold row_status. cbn. by destruct (e_status pe.2). Qed.
Lemma row_of_entry e es : e ∈ es → ∃ p, row_of (p, e) ∈ rows_of es.
Proof.
  intros He. rewrite <-(with_parents_snd None es) in He.
  apply list_elem_of_fmap in He as ([p x] & -> & Hx). exists p. by apply list_elem_of_fmap_2.
Qed.
(** The moves a call makes on the status of [name] *)
Definition moves {A} (c : call J A) (name : string) (s s' : status) : Prop :=
  match c with
  | CComplete n => n = name ∧ s = Active ∧ s' = Applied
  | CMarkCompleteDeferred n => n = name ∧ s = Active ∧ s' = Deferred
  | CClearCompleteDeferred n => n = name ∧ s' = clear_deferred s
  | CMarkSealed => s' = seal s
  | _ => False
  end.
(** The calls that make the row of [name] a baseline *)
Definition rebaselines {A} (c : call J A) (name : string) : Prop :=
  match c with CConvert n false => n = name | _ => False end.
(** The calls that remove the row of [name], [latest] being the newest *)
Definition removes {A} (c : call J A) (latest : option string) (name : string) (s : status) : Prop :=
  match c with
  | CRollback n => n = name ∧ s = Active
  | CDeleteMigration n => n = name ∧ latest = Some name
  | CPrune ns => name ∈ ns
  | _ => False
  end.

(** What becomes of an entry *)
Definition continues {A} (c : call J A) (latest : option string) e es' : Prop :=
  (∃ e', e' ∈ es' ∧ e_name e' = e_name e ∧ e_body e' = e_body e ∧ e_time e' = e_time e ∧
     (e_status e' = e_status e ∨ moves c (e_name e) (e_status e) (e_status e')) ∧
     (e_type e' = e_type e ∨ rebaselines c (e_name e) ∧ e_type e' = MigrationTypeBaseline)) ∨
  removes c latest (e_name e) (e_status e).

Lemma continues_same {A} (c : call J A) latest e es' : e ∈ es' → continues c latest e es'.
Proof. intros He. left. exists e. auto 10. Qed.
Lemma continues_change {A} (c : call J A) latest P `{!∀ e, Decision (P e)} f e es :
  e ∈ es → e_name (f e) = e_name e → e_body (f e) = e_body e → e_time (f e) = e_time e →
  (P e → e_status (f e) = e_status e ∨ moves c (e_name e) (e_status e) (e_status (f e))) →
  (P e → e_type (f e) = e_type e ∨ rebaselines c (e_name e) ∧ e_type (f e) = MigrationTypeBaseline) →
  continues c latest e (change P f es).
Proof.
  intros He Hn Hb Ht Hs Hy. left. exists (if decide (P e) then f e else e).
  split; [apply list_elem_of_fmap; by exists e|].
  destruct (decide (P e)); auto 10.
Qed.
Lemma continues_push {A} (c : call J A) latest e es x : e ∈ es → continues c latest e (push x es).2.
Proof.
  intros He. apply continues_same. unfold push. repeat (destruct (decide _); [done|]).
  apply elem_of_app. by left.
Qed.
Lemma pop_keeps name e es :
  e ∈ es → NoDup (e_names es) → e ∈ (pop name es).2 ∨ name = e_name e ∧ top es = Some name.
Proof.
  intros He Hn. unfold pop. destruct (decide (top es = Some name)) as [Ht|];
    [|destruct (decide _); by left]. cbn.
  pose proof Ht as (x & (pre & Hes)%last_Some & Hx)%fmap_Some. rewrite Hes in He.
  apply elem_of_app in He as [He| ->%list_elem_of_singleton]; [left|by right].
  by rewrite Hes, length_app, Nat.add_sub, take_app_length.
Qed.

Lemma wrap_err_snd {W A} f (m : prog W error A) w : (wrap_err f m w).2 = (m w).2.
Proof. unfold wrap_err. by destruct (m w) as [[]?]. Qed.
Lemma bind_quiet {W A B} (m : prog W error A) (k : A → prog W error B) w (P : W → Prop) :
  (m w).2 = w → P w → (∀ a, P (k a w).2) → P ((m ≫= k) w).2.
Proof. unfold mbind, prog_bind. destruct (m w) as [[] w']; cbn; by intros ->. Qed.

Lemma change_one_continues {A} (c : call J A) latest rs P `{!∀ e, Decision (P e)} f err e es :
  e ∈ es → (∀ sc, continues c latest e (change P (f sc) es)) →
  continues c latest e (change_one rs P f err es).2.
Proof.
  intros He Hc. unfold change_one. destruct (decide _); [by apply continues_same|].
  destruct rs; [apply Hc|by apply continues_same..].
Qed.

Lemma audit_quiet le pre a post schema es : (audit le pre a post schema es).2 = es.
Proof.
  unfold audit, refuse_names, fail_if.
  repeat (apply (bind_quiet _ _ es (λ w, w = es)); [by destruct (negb _) || by destruct (bool_decide _) || by destruct (active _)|done|intros _]).
  by destruct (negb _).
Qed.

Lemma convert_continues le name dry schema latest e es :
  e ∈ es → continues (CConvert name dry) latest e (convert le name dry schema es).2.
Proof.
  intros He. unfold convert. rewrite get_bind.
  destruct (list_find _ es) as [[i a]|]; [|by apply continues_same].
  destruct (decide _); [by apply continues_same|].
  apply bind_quiet; [apply audit_quiet|by apply continues_same|]. intros _.
  destruct dry; [by apply continues_same|].
  apply continues_change; auto. intros <-. right. by split.
Qed.

Lemma run_spec_continues {A} (c : call J A) le rs now schema clock ticks e es :
  history_wf clock ticks es → e ∈ es →
  continues c (top es) e (run_spec le rs now schema c es).2.
Proof.
  intros Hwf He. pose proof (continues_same c (top es) e es He) as Hsame.
  destruct c; cbn [run_spec]; try exact Hsame.
  - rewrite get_bind. destruct (last es); [destruct (decide _)|]; exact Hsame.
  - apply bind_quiet; [by rewrite wrap_err_snd|done|]. intros body. by apply continues_push.
  - apply change_one_continues; [done|]. intros sc. apply continues_change; auto.
    intros [? ?]. by right.
  - apply change_one_continues; [done|]. intros sc. apply continues_change; auto.
    intros [? ?]. by right.
  - apply continues_change; auto. intros <-. right. by split.
  - rewrite get_bind. destruct (find_entry _ _); exact Hsame.
  - apply change_one_continues; [done|]. intros sc. apply continues_change; auto.
  - rewrite get_bind. destruct (find_entry _ _); exact Hsame.
  - rewrite get_bind. destruct (decide _) as [|Hn]; [exact Hsame|].
    destruct (pop_keeps name e es He (wf_names _ _ _ Hwf)) as [Hp|[-> Ht]];
      [by apply continues_same|].
    right. split; [done|].
    destruct (filter (is_active_entry (e_name e)) es) as [|x l] eqn:Hx; [done|].
    assert (x ∈ filter (is_active_entry (e_name e)) es) as [[Hxn Hxa] Hxe]%list_elem_of_filter
      by (rewrite Hx; left).
    by rewrite <-(names_inj_entry es x e (wf_names _ _ _ Hwf) Hxe He Hxn).
  - apply bind_quiet; [done|done|]. intros a.
    apply bind_quiet; [by destruct a|done|]. intros _.
    apply bind_quiet; [by rewrite wrap_err_snd|done|]. intros sc.
    apply bind_quiet; [by rewrite wrap_err_snd|done|]. intros body.
    rewrite wrap_err_snd. by apply continues_push.
  - rewrite wrap_err_snd. by apply continues_push.
  - left. exists (set_e_status (seal (e_status e)) e). split_and!; auto.
    + apply list_elem_of_fmap. by exists e.
    + by right.
  - destruct (pop_keeps name e es He (wf_names _ _ _ Hwf)) as [Hp|[-> Ht]];
      [by apply continues_same|]. by right.
  - rewrite get_bind. destruct (decide _); [exact Hsame|].
    unfold fail_if. destruct (negb _); [exact Hsame|].
    destruct (decide (e_name e ∈ names)) as [|Hn]; [by right|].
    apply continues_same. by apply list_elem_of_filter.
  - by apply convert_continues.
Qed.

(** C12. The life of a migration: whatever a method does, each row keeps its
    name, its body and its time of creation, and its status either stays or
    makes the move of the method — complete, defer, clear, seal; only a
    conversion changes its type; and a row disappears only by the rollback of
    the active migration, by the deletion of the newest one, or by pruning it
    by name. *)
Theorem row_transitions {A} (c : call J A) schema (st : Store J C) r :
  reaches st → stamp_ok schema c st → r ∈ table schema st →
  (∃ r', r' ∈ table schema (run schema c st).2 ∧ row_name r' = row_name r ∧
     row_migration r' = row_migration r ∧ row_created_at r' = row_created_at r ∧
     (row_status r' = row_status r ∨ moves c (row_name r) (row_status r) (row_status r')) ∧
     (row_type r' = row_type r ∨ rebaselines c (row_name r) ∧ row_type r' = MigrationTypeBaseline)) ∨
  removes c (latest_migration (table schema st)) (row_name r) (row_status r).
Proof.
  intros [Hc Hr]%reaches_represents Hok Hin. destruct (Hr schema) as [es Hes].
  pose proof (run_refines schema c st es Hc Hes (stamp_call_ok _ _ _ _ Hes Hok))
    as (_ & [Htab _] & _).
  pose proof Hes as [Htable Hwf]. rewrite Htable in Hin |- *. rewrite Htab.
  rewrite (latest_of _ _ _ Hwf).
  apply list_elem_of_fmap in Hin as (pe & -> & Hpe).
  rewrite row_status_of. cbn [row_of row_name row_migration row_created_at row_type].
  assert (pe.2 ∈ es) as He.
  { rewrite <-(with_parents_snd None es). by apply list_elem_of_fmap_2. }
  destruct (run_spec_continues c (catalogue_name_le (C := C))
    (catalogue_read_schema schema (st_db st)) (st_clock st (st_ticks st)) schema _ _ _ _ Hwf He)
    as [(e' & He' & Hn & Hb & Ht & Hs & Hy)|Hrem]; [left|by right].
  destruct (row_of_entry _ _ He') as (p' & Hp').
  exists (row_of (p', e')). rewrite row_status_of. by split_and!.
Qed.
End transitions.

(** ** A concrete run: a migration started and completed, another started *)

Definition sample_migration (name : string) : Migration :=
  mkMigration name "" [] [] [] false false [] "".
Definition empty_store : Store sample_encoded (list string) := mkStore ["public"] ∅ ∅ Z.of_nat 0.
Definition reached_store : Store sample_encoded (list string) :=
  (run "public" (CStart (sample_migration "02"))
     (run "public" (CComplete "01")
        (run "public" (CStart (sample_migration "01")) empty_store).2).2).2.

Lemma reached : reaches reached_store.
Proof. do 3 apply reaches_call, I; apply reaches_init, sample_clock. Qed.

Lemma migrations_table_invariant_witness :
  row_names (table "public" reached_store) = ["01"; "02"] ∧ table_ok (table "public" reached_store).
Proof. split; [reflexivity|]. exact (migrations_table_invariant reached_store "public" reached). Defined.

Lemma row_transitions_witness :
  let c := CMarkCompleteDeferred "02" in
  let st' := (run "public" c reached_store).2 in
  row_status <$> table "public" reached_store = [Applied; Active] ∧
  row_status <$> table "public" st' = [Applied; Deferred] ∧
  ∀ r, r ∈ table "public" reached_store →
    (∃ r', r' ∈ table "public" st' ∧ row_name r' = row_name r ∧
       row_migration r' = row_migration r ∧ row_created_at r' = row_created_at r ∧
       (row_status r' = row_status r ∨ moves c (row_name r) (row_status r) (row_status r')) ∧
       (row_type r' = row_type r ∨ rebaselines c (row_name r) ∧ row_type r' = MigrationTypeBaseline)) ∨
    removes c (latest_migration (table "public" reached_store)) (row_name r) (row_status r).
Proof.
  split; [reflexivity|]. split; [reflexivity|]. intros r Hr.
  exact (row_transitions (CMarkCompleteDeferred "02") "public" reached_store r reached I Hr).
Defined.
