(* ===== verification/State.v ===== *)
(** * State: the store of migrations as an interface

    [pkg/state] keeps the history in PostgreSQL, through the SQL functions of
    [init.sql]; [StateStore] is that interface over the same database as
    [DB], one method per Go method that [pkg/roll] calls.  The second section
    makes the store of [History.v] an instance; what a client relies on is
    stated where it is used. *)

From S2P Require Import Prelude.
From S2P Require Import GoStd.
From S2P Require Import Names.
From S2P Require Import Schema.
From S2P Require Import Types.
From S2P Require Import Db.
From S2P Require Import Actions.
From S2P Require Import Backfill.
From S2P Require Import OpsBase.
From S2P Require Import Operations.
From S2P Require Import Migration.
From S2P Require Import Invert.
From S2P Require Import LocalSet.
From S2P Require Import History.

(** A call of the state store, the schema's name first *)
Abbreviation state_call D A := (string → D → outcome error A * D).

Class StateStore (D : Type) := {
  state_HasExistingSchemaWithoutHistory : state_call D bool;
  state_IsActiveMigrationPeriod : state_call D bool;
  state_Start : Migration → state_call D ();
  state_GetActiveMigration : state_call D Migration;
  state_PreviousMigration : state_call D (option string);
  state_LatestMigration : state_call D (option string);
  state_GetMigration : string → state_call D Migration;
  state_ReadSchema : state_call D snapshot;
  state_SchemaAfterMigration : string → state_call D snapshot;
  state_DeferredCompletes : state_call D (list Migration);
  state_HasSealedDeferred : state_call D bool;
  state_MarkCompleteDeferred : string → state_call D ();
  state_ClearCompleteDeferred : string → state_call D ();
  state_MarkSealed : state_call D Z;
  state_RefreshResultingSchema : string → state_call D ();
  state_Complete : string → state_call D ();
  state_Rollback : string → state_call D ();
  state_SchemaHistory : state_call D (list RawMigration);
  state_SchemaHistoryWithInferred : state_call D (list RawMigration);
  state_CreateBaseline : string → state_call D ();
  state_LatestBaseline : state_call D (option (string * snapshot));
  state_LatestVersion : state_call D (option string);
  state_PreviousVersion : state_call D (option string);
  state_MigrationExists : string → state_call D bool;
  state_UnsealedMigrations : state_call D (list MigrationRecord);
  state_DeleteMigration : string → state_call D ();
  state_PruneRows : list string → state_call D (list PruneTarget);
  state_Prune : list string → state_call D ();
  (** The body of the row is the encoding of the migration. *)
  state_Stamp : RawMigration → option snapshot → option string → string → state_call D ();
  state_ConvertMigrationToBaseline : string → bool → state_call D ConvertToBaselineResult;
  state_RecordRevertedMigrations : list Tombstone → state_call D ();
  state_RevertedMigrations : state_call D (gmap string string);
  state_ClearRevertedMigrations : list string → state_call D ();
}.

Section State.
Context {D : Type}.

(** The call as a program over the store *)
Definition on_state {A} (f : D → outcome error A * D) : M D A := λ w,
  let '(r, d) := f (w_db w) in (r, set_w_db d w).

(** [s] becomes the schema at hand.  The schemas the lifecycle reads one
    after the other share no table, and an earlier one is not used again. *)
Definition use_schema (p : snapshot) : M D () :=
  modify (λ w, set_w_heap p.1 (set_w_schema p.2 w)).

(** A program against [db.FakeDB] with the schema at hand *)
Definition virtually {A} (m : M () A) : M D A := λ w,
  let '(r, w') := m (mkWorld (w_schema w) (w_heap w) () (w_uuid w)) in
  (r, mkWorld (w_schema w') (w_heap w') (w_db w) (w_uuid w')).
End State.

Section instances.
Context {J C : Type} `{!Json J} `{!Catalogue C} `{!DB C}.

Definition set_st_db (db : C) (st : Store J C) : Store J C :=
  mkStore db (st_migrations st) (st_reverted st) (st_clock st) (st_ticks st).

(** A call on the connection *)
Definition on_db {A} (f : C → outcome error A * C) (st : Store J C) : outcome error A * Store J C :=
  let '(r, db) := f (st_db st) in (r, set_st_db db st).

#[export] Instance store_DB : DB (Store J C) := {|
  ExecContext sql := on_db (ExecContext sql);
  QueryContext sql args := on_db (QueryContext sql args);
  WithRetryableTransaction sqls := on_db (WithRetryableTransaction sqls);
  is_fake := is_fake;
  RetryBudget st := RetryBudget (st_db st);
  expired st := let '(b, db) := expired (st_db st) in (b, set_st_db db st);
|}.

#[export] Instance store_State : StateStore (Store J C) := {|
  state_HasExistingSchemaWithoutHistory := State_HasExistingSchemaWithoutHistory;
  state_IsActiveMigrationPeriod := State_IsActiveMigrationPeriod;
  state_Start := State_Start;
  state_GetActiveMigration := State_GetActiveMigration;
  state_PreviousMigration := State_PreviousMigration;
  state_LatestMigration := State_LatestMigration;
  state_GetMigration := State_GetMigration;
  state_ReadSchema := State_ReadSchema;
  state_SchemaAfterMigration := State_SchemaAfterMigration;
  state_DeferredCompletes := State_DeferredCompletes;
  state_HasSealedDeferred := State_HasSealedDeferred;
  state_MarkCompleteDeferred := State_MarkCompleteDeferred;
  state_ClearCompleteDeferred := State_ClearCompleteDeferred;
  state_MarkSealed := State_MarkSealed;
  state_RefreshResultingSchema := State_RefreshResultingSchema;
  state_Complete := State_Complete;
  state_Rollback := State_Rollback;
  state_SchemaHistory := State_SchemaHistory;
  state_SchemaHistoryWithInferred := State_SchemaHistoryWithInferred;
  state_CreateBaseline := State_CreateBaseline;
  state_LatestBaseline := State_LatestBaseline;
  state_LatestVersion := State_LatestVersion;
  state_PreviousVersion := State_PreviousVersion;
  state_MigrationExists := State_MigrationExists;
  state_UnsealedMigrations := State_UnsealedMigrations;
  state_DeleteMigration := State_DeleteMigration;
  state_PruneRows := State_PruneRows;
  state_Prune := State_Prune;
  state_Stamp mig sc parent ty schema :=
    body ← lift (json_MarshalRaw mig);
    State_Stamp mig.(RawMigration_Name) body sc parent ty schema;
  state_ConvertMigrationToBaseline := State_ConvertMigrationToBaseline;
  state_RecordRevertedMigrations := State_RecordRevertedMigrations;
  state_RevertedMigrations := State_RevertedMigrations;
  state_ClearRevertedMigrations := State_ClearRevertedMigrations;
|}.
End instances.
