(* ===== verification/Lifecycle.v ===== *)
(** * Lifecycle: starting, completing and rolling back a migration

    [execute.go] and [contract.go] over the interfaces [DB] and
    [StateStore].  A context is never cancelled here, so [rollbackContext]
    returns its argument; log calls are left out; where the code ranges over a
    map, the model ranges in key order.  The two calls that install the
    backfill triggers and run the batches of one table are parameters. *)

From S2P Require Import Prelude.
From S2P Require Import GoStd.
From S2P Require Import Names.
From S2P Require Import Schema.
From S2P Require Import Types.
From S2P Require Import Db.
From S2P Require Import SqlWriter.
From S2P Require Import Actions.
From S2P Require Import Duplicate.
From S2P Require Import Coordinator.
From S2P Require Import Backfill.
From S2P Require Import OpsBase.
From S2P Require Import Operations.
From S2P Require Import Preconditions.
From S2P Require Import Migration.
From S2P Require Import Invert.
From S2P Require Import LocalSet.
From S2P Require Import Deps.
From S2P Require Import State.

(** The fields of [Roll] the lifecycle reads, a hook being [None] when nil *)
Record Roll (D : Type) := mkRoll {
  Roll_schema : string;
  Roll_disableVersionSchemas : bool;
  Roll_target : string;
  Roll_skipValidation : bool;
  Roll_requireReversible : bool;
  Roll_pgVersion : Z;
  BeforeStartDDL : option (M D ());
  AfterStartDDL : option (M D ());
  BeforeCompleteDDL : option (M D ());
  AfterCompleteDDL : option (M D ());
}.
Arguments Roll_schema {D} _.
Arguments Roll_disableVersionSchemas {D} _.
Arguments Roll_target {D} _.
Arguments Roll_skipValidation {D} _.
Arguments Roll_requireReversible {D} _.
Arguments Roll_pgVersion {D} _.
Arguments BeforeStartDDL {D} _.
Arguments AfterStartDDL {D} _.
Arguments BeforeCompleteDDL {D} _.
Arguments AfterCompleteDDL {D} _.

Definition PGVersion15 : Z := 15.

Definition ErrExistingSchemaWithoutHistory : error :=
  Errorf "schema has existing tables but no migration history - baseline required" [].
Definition ErrWrongTarget : error := Errorf "migration is not routed to this target" [].

(** [startOptions] and [completeOptions] *)
Record startOptions := mkStartOptions {
  so_skipVersionSchema : bool;
  so_satisfiedDependencies : gset string;
}.
Record completeOptions := mkCompleteOptions {
  co_skipSchemaDrop : bool;
  co_deferComplete : bool;
}.

(** [isLockNotAvailable]: [errors.As] finds a [pq.Error] along the chain *)
Fixpoint isLockNotAvailable (e : error) : bool :=
  match e with
  | pqError code _ => String.eqb code "55P03"
  | ErrorfW _ _ e | ColumnReferenceError _ _ e | CheckConstraintError _ _ _ e =>
      isLockNotAvailable e
  | JoinError e1 e2 => isLockNotAvailable e1 || isLockNotAvailable e2
  | _ => false
  end.

Definition validateVersionSchemaName (schema versionName : string) : option error :=
  let computed := VersionedSchemaName schema versionName in
  if (MaxIdentifierLength <? String.length computed)%nat
  then Some (VersionSchemaNameTooLongError schema versionName computed MaxIdentifierLength)
  else None.

(** The table read under the physical key [k], if migration [dm] soft-deleted
    it: its name before that *)
Definition softDeletedName (dmScope : string) (t : Table) : option string :=
  if HasPrefix t.(Table_Name) "_pgroll_del_" then
    let rest := TrimPrefix t.(Table_Name) "_pgroll_del_" in
    if HasSuffix rest ("_" +:+ dmScope) then Some (TrimSuffix rest ("_" +:+ dmScope)) else None
  else None.

(** One deferred migration's soft-deleted tables under their names again *)
Definition unfoldSoftDeleted (dm : Migration) (h : heap) (s : Schema) : Schema :=
  foldl (λ s kl,
    match h !! kl.2 with
    | Some t =>
        match softDeletedName (MigrationScopeFor dm.(Migration_Name)) t with
        | Some orig =>
            match s.(Schema_Tables) !! orig with
            | Some _ => s
            | None =>
                set_Schema_Tables (delete kl.1 (<[orig := kl.2]> s.(Schema_Tables))) s
            end
        | None => s
        end
    | None => s
    end) s (map_to_list s.(Schema_Tables)).

Section Lifecycle.
Context `{!Pq} {D : Type} `{!DB D} `{!StateStore D}.
Context (m : Roll D).

Definition from_state {A} (f : state_call D A) : M D A := on_state (f (Roll_schema m)).

Definition run_hook (h : option (M D ())) (wrap : error → error) : M D () :=
  match h with Some f => wrap_err wrap f | None => mret () end.

(** ** Reading the schema *)

(** The schema at hand is the one the Go function returns. *)
Definition readSchemaWithDeferredExcluding (excludeMigration : string) : M D () :=
  p ← from_state state_ReadSchema;
  deferred ← wrap_err (ErrorfW "unable to query deferred completes: %w" [])
               (from_state state_DeferredCompletes);
  let deferred :=
    if decide (excludeMigration = "") then deferred
    else filter (λ dm, dm.(Migration_Name) ≠ excludeMigration) deferred in
  use_schema p ;;
  if decide (deferred = []) then mret ()
  else
    on_schema (λ s, foldl (λ s dm, unfoldSoftDeleted dm p.1 s) s deferred) ;;
    for_each (λ dm : Migration,
      on_schema (set_Schema_MigrationScope (MigrationScopeFor dm.(Migration_Name))) ;;
      wrap_err (ErrorfW "unable to apply deferred virtual schema for %q: %w" [dm.(Migration_Name)])
        (virtually (UpdateVirtualSchema dm))) deferred ;;
    on_schema (set_Schema_MigrationScope "") ;;
    modify (λ w, set_w_heap (ClearCreatedInMigration (w_schema w) (w_heap w)) w).

Definition readSchemaWithDeferred : M D () := readSchemaWithDeferredExcluding "".

(** ** Validation *)

Definition Roll_Validate (migration : Migration) : M D () :=
  let invalid := ErrorfW "migration '%s' is invalid: %w" [migration.(Migration_Name)] in
  if Roll_skipValidation m then mret ()
  else
    (if Roll_requireReversible m then
       match ValidateReversibility migration with
       | Some e => fail (invalid e) | None => mret () end
     else mret ()) ;;
    readSchemaWithDeferred ;;
    on_schema (set_Schema_MigrationScope (MigrationScopeFor migration.(Migration_Name))) ;;
    wrap_err invalid (Migration_Validate migration) ;;
    wrap_err invalid
      (ValidateDBPreconditions migration.(Migration_Preconditions) (Roll_schema m)) ;;
    match validateVersionSchemaName (Roll_schema m) (VersionSchemaName migration) with
    | Some e => fail e | None => mret () end.

(** ** Version schemas and their views *)

Definition dropSchemaSQL (name : string) : string :=
  "DROP SCHEMA IF EXISTS " +:+ QuoteIdentifier name +:+ " CASCADE".

(** The columns a view shows, with their names in the view *)
Definition viewColumns (t : Table) : list (string * option Column) :=
  filter (λ kc, match kc.2 with
                | Some c => negb c.(Column_Deleted) && negb (HasPrefix kc.1 "_pgroll_")
                | None => true
                end = true) (map_to_list t.(Table_Columns)).

(** The statements of [ensureView]; a nil column is a nil dereference. *)
Definition viewSQL (version name : string) (t : Table) : outcome error (list string) :=
  cols ← map_outcome (λ kc : string * option Column,
           match kc.2 with Some c => Ok (kc.1, c) | None => Panic end) (viewColumns t);
  let schemaName := VersionedSchemaName (Roll_schema m) version in
  let view := QuoteIdentifier schemaName +:+ "." +:+ QuoteIdentifier name in
  let withOptions :=
    if (PGVersion15 <=? Roll_pgVersion m)%Z then "WITH (security_invoker = true)" else "" in
  Ok (["DROP VIEW IF EXISTS " +:+ view;
       "CREATE VIEW " +:+ view +:+ " " +:+ withOptions +:+ " AS SELECT " +:+
         Join ((λ kc : string * Column,
                 QuoteIdentifier kc.2.(Column_Name) +:+ " AS " +:+ QuoteIdentifier kc.1) <$> cols)
           "," +:+
         " FROM " +:+ QuoteIdentifier t.(Table_Name)] ++
      omap (λ kc : string * Column,
        match kc.2.(Column_Default) with
        | Some v => Some ("ALTER VIEW " +:+ view +:+ " ALTER " +:+ QuoteIdentifier kc.1 +:+
                          " SET DEFAULT " +:+ v)
        | None => None
        end) cols).

Definition ensureView (version name : string) (l : loc) : M D () :=
  t ← load l; sqls ← lift (viewSQL version name t); transaction sqls.

Definition ensureViews (mig : Migration) : M D () :=
  match validateVersionSchemaName (Roll_schema m) (VersionSchemaName mig) with
  | Some e => fail e
  | None =>
      exec ("CREATE SCHEMA IF NOT EXISTS " +:+
            QuoteIdentifier (VersionedSchemaName (Roll_schema m) (VersionSchemaName mig))) ;;
      tables ← gets (λ w, map_to_list (Schema_Tables (w_schema w)));
      for_each (λ nl : string * loc,
        t ← load nl.2;
        if t.(Table_Deleted) || HasPrefix t.(Table_Name) "_pgroll_del_" then mret ()
        else wrap_err (ErrorfW "unable to create view: %w" [])
               (ensureView (VersionSchemaName mig) nl.1 nl.2)) tables
  end.

Definition dropVersionSchema (mig : Migration) : M D () :=
  exec (dropSchemaSQL (VersionedSchemaName (Roll_schema m) (VersionSchemaName mig))).

(** The rows of a query that returns one name per row; nil rows are closed,
    which panics. *)
Definition queryNames (sql : string) (args : list string) (qerr serr rerr : error → error) :
    M D (list string) :=
  rows ← wrap_err qerr (query sql args);
  match rows with
  | None => panic
  | Some rows =>
      names ← map_each (λ row : list sqlval,
        match row with
        | VString s :: _ => mret s
        | _ => fail (serr scan_error)
        end) rows.(Rows_data);
      match rows.(Rows_err) with Some e => fail (rerr e) | None => mret names end
  end.

Definition versionSchemaNames : M D (list string) :=
  queryNames "SELECT schema_name FROM information_schema.schemata WHERE schema_name LIKE $1 ORDER BY schema_name"
    [Roll_schema m +:+ "_" +:+ "%"]
    (ErrorfW "unable to list version schemas: %w" [])
    (ErrorfW "unable to scan schema name: %w" [])
    (ErrorfW "error iterating version schemas: %w" []).

Definition ExistingVersionSchemas : M D (list string) := versionSchemaNames.

(** The diagnostic list of lock holders in the message is left out. *)
Definition DropVersionSchemasExcept (keep : list string) : M D () :=
  names ← versionSchemaNames;
  let keepSet := VersionedSchemaName (Roll_schema m) <$> keep in
  for_each (λ s,
    wrap_err (λ e,
        if isLockNotAvailable e then
          ErrorfW "unable to drop version schema %q (apps still reading it must move off it first); blocked by:%s: %w"
            [s] e
        else ErrorfW "unable to drop version schema %q: %w" [s] e)
      (exec (dropSchemaSQL s))) (filter (λ s, s ∉ keepSet) names).

(** ** Rolling back *)

Definition applyDeferredRenames (exclude : string) : M D () :=
  deferred ← wrap_err (ErrorfW "unable to query deferred completes: %w" [])
               (from_state state_DeferredCompletes);
  for_each (λ dm : Migration,
    if decide (dm.(Migration_Name) = exclude) then mret ()
    else
      on_schema (set_Schema_MigrationScope (MigrationScopeFor dm.(Migration_Name))) ;;
      for_each (λ op,
        match op with
        | RenameTable_ _ | RenameColumn_ _ =>
            wrap_err (ErrorfW "unable to replay deferred rename from %q: %w"
                        [dm.(Migration_Name)]) (virtually (Start virtualFuel op)) ;; mret ()
        | _ => mret ()
        end) dm.(Migration_Operations)) deferred ;;
  on_schema (set_Schema_MigrationScope "").

Definition rollbackOperations (fuel : nat) (mig : Migration) : M D () :=
  for_each (λ op,
    actions ← wrap_err (ErrorfW "unable to collect actions for rollback operation: %w" [])
                (Rollback op);
    wrap_err (ErrorfW "unable to execute rollback operation: %w" []) (coordinate fuel actions))
    (reverse mig.(Migration_Operations)).

Definition rollbackExpandPhase (fuel : nat) (mig : Migration) (parent : option string) : M D () :=
  dropVersionSchema mig ;;
  match parent with
  | None => use_schema (∅, New)
  | Some p =>
      s ← wrap_err (ErrorfW "unable to read schema: %w" [])
            (from_state (state_SchemaAfterMigration p));
      use_schema s
  end ;;
  applyDeferredRenames mig.(Migration_Name) ;;
  on_schema (set_Schema_MigrationScope (MigrationScopeFor mig.(Migration_Name))) ;;
  wrap_err (ErrorfW "unable to replay changes to in-memory schema: %w" [])
    (virtually (UpdateVirtualSchema mig)) ;;
  rollbackOperations fuel mig.

Definition Roll_Rollback (fuel : nat) : M D () :=
  mig ← wrap_err (ErrorfW "unable to get active migration: %w" [])
          (from_state state_GetActiveMigration);
  previous ← wrap_err (ErrorfW "unable to get name of previous version: %w" [])
               (from_state state_PreviousMigration);
  rollbackExpandPhase fuel mig previous ;;
  wrap_err (ErrorfW "unable to rollback migration: %w" [])
    (from_state (state_Rollback mig.(Migration_Name))).

(** [defer hook(m)]: the hook's error is dropped *)
Definition deferred_hook (h : option (M D ())) : M D () :=
  match h with Some f => try f ;; mret () | None => mret () end.

(** ** Completing *)

(** The actions of all operations' [Complete], then one coordinator *)
Definition completeOperations (fuel : nat) (mig : Migration)
    (collect execute : error → error) : M D () :=
  actions ← map_each (λ op, wrap_err collect (Complete op)) mig.(Migration_Operations);
  wrap_err execute (coordinate fuel (concat actions)).

Definition applyDeferredComplete (fuel : nat) (dm : Migration) : M D () :=
  let name := dm.(Migration_Name) in
  p ← wrap_err (ErrorfW "unable to read schema for deferred complete %q: %w" [name])
        (from_state state_ReadSchema);
  use_schema p ;;
  on_schema (set_Schema_MigrationScope (MigrationScopeFor name)) ;;
  completeOperations fuel dm
    (ErrorfW "unable to collect actions for deferred complete %q: %w" [name])
    (ErrorfW "unable to execute deferred complete %q: %w" [name]).

Definition clearCompleteDeferred (dm : Migration) : M D () :=
  wrap_err (ErrorfW "unable to clear complete_deferred for %q: %w" [dm.(Migration_Name)])
    (from_state (state_ClearCompleteDeferred dm.(Migration_Name))).

Definition drainDeferredMigration (fuel : nat) (dm : Migration) : M D () :=
  applyDeferredComplete fuel dm ;; clearCompleteDeferred dm.

(** The drain inside [Complete], from the seal on *)
Definition drainSealed (fuel : nat) (mig : Migration) (queued : list Migration)
    (needsLiveDrop : bool) : M D bool :=
  (if needsLiveDrop && negb (Roll_disableVersionSchemas m) then
     wrap_err (ErrorfW "unable to drop active version schema before drain: %w" [])
       (dropVersionSchema mig)
   else mret ()) ;;
  for_each (drainDeferredMigration fuel) queued ;;
  mret needsLiveDrop.

(** Whether the live schema has to be dropped *)
Definition drainQueue (fuel : nat) (mig : Migration) : M D bool :=
  queued ← wrap_err (ErrorfW "unable to query deferred completes: %w" [])
             (from_state state_DeferredCompletes);
  if decide (queued = []) then mret (CompleteRequiresLiveSchemaDrop mig)
  else
    let needsLiveDrop :=
      CompleteRequiresLiveSchemaDrop mig || existsb CompleteRequiresLiveSchemaDrop queued in
    from_state state_MarkSealed ;; drainSealed fuel mig queued needsLiveDrop.

Definition completeDDL (fuel : nat) (mig : Migration) (o : completeOptions)
    (needsLiveDrop : bool) : M D () :=
  completeOperations fuel mig
    (ErrorfW "unable to collect actions for complete operation: %w" [])
    (ErrorfW "unable to execute complete operation: %w" []) ;;
  (if negb o.(co_skipSchemaDrop) && negb (Roll_disableVersionSchemas m)
      && (needsLiveDrop || existsb RequiresSchemaRefresh mig.(Migration_Operations)) then
     p ← wrap_err (ErrorfW "unable to read schema: %w" []) (from_state state_ReadSchema);
     use_schema p ;; ensureViews mig
   else mret ()) ;;
  wrap_err (ErrorfW "unable to complete migration: %w" [])
    (from_state (state_Complete mig.(Migration_Name))) ;;
  (if negb o.(co_skipSchemaDrop) then from_state state_MarkSealed ;; mret () else mret ()).

(** The active migration's own completion, after the drain *)
Definition completeActive (fuel : nat) (mig : Migration) (o : completeOptions)
    (needsLiveDrop : bool) : M D () :=
  wrap_err (ErrorfW "unable to read schema: %w" []) readSchemaWithDeferred ;;
  on_schema (set_Schema_MigrationScope (MigrationScopeFor mig.(Migration_Name))) ;;
  run_hook (BeforeCompleteDDL m) (ErrorfW "failed to execute BeforeCompleteDDL hook: %w" []) ;;
  with_defer (completeDDL fuel mig o needsLiveDrop) (deferred_hook (AfterCompleteDDL m)).

Definition Roll_Complete (fuel : nat) (o : completeOptions) : M D () :=
  mig ← wrap_err (ErrorfW "unable to get active migration: %w" [])
          (from_state state_GetActiveMigration);
  if o.(co_deferComplete) then
    wrap_err (ErrorfW "unable to mark migration as complete-deferred: %w" [])
      (from_state (state_MarkCompleteDeferred mig.(Migration_Name)))
  else
    (if negb o.(co_skipSchemaDrop) && negb (Roll_disableVersionSchemas m) then
       wrap_err (ErrorfW "unable to drop old version schemas: %w" [])
         (DropVersionSchemasExcept [VersionSchemaName mig])
     else mret ()) ;;
    needsLiveDrop ←
      (if negb o.(co_skipSchemaDrop) then drainQueue fuel mig
       else mret (CompleteRequiresLiveSchemaDrop mig));
    completeActive fuel mig o needsLiveDrop.

(** ** Contraction *)

Definition latestMigration : M D (option string) :=
  wrap_err (ErrorfW "unable to determine latest migration: %w" [])
    (from_state state_LatestMigration).
Definition loadLatest (name : string) : M D Migration :=
  wrap_err (ErrorfW "unable to load latest migration: %w" [])
    (from_state (state_GetMigration name)).

Definition hasVersionSchema (live : Migration) : M D bool :=
  existing ← ExistingVersionSchemas;
  mret (slices_Contains existing
          (VersionedSchemaName (Roll_schema m) (VersionSchemaName live))).

Definition dropOldVersionSchemas (live : Migration) : M D () :=
  wrap_err (ErrorfW "unable to drop old version schemas: %w" [])
    (DropVersionSchemasExcept [VersionSchemaName live]).

(** The branch of an empty queue: seal, and drop the schemas that inline
    completions left unless the last migration has none *)
Definition dropStaleSchemas : M D () :=
  if Roll_disableVersionSchemas m then mret ()
  else
    latest ← latestMigration;
    match latest with
    | None => mret ()
    | Some name =>
        live ← loadLatest name;
        exists_ ← hasVersionSchema live;
        if (exists_ : bool) then dropOldVersionSchemas live else mret ()
    end.

Definition closeWindow : M D (Z * Z) :=
  stamped ← from_state state_MarkSealed; dropStaleSchemas ;; mret (0%Z, stamped).

(** Refuses a queue that may belong to an unfinished batch *)
Definition checkContraction (force : bool) (live : Migration) (queued : list Migration) :
    M D () :=
  resuming ← from_state state_HasSealedDeferred;
  if resuming || force then mret ()
  else if Roll_disableVersionSchemas m then
    fail (Errorf "cannot contract: %d deferred completion(s) are queued with nothing active and version schemas disabled, so pgroll cannot confirm the batch finished. If a `pgroll migrate` was interrupted, resume it by re-running `pgroll migrate`. If this window was opened by a bounded revert or carried over from an older lifecycle, the queue is safe to drain: re-run with --force"
            [])
  else
    exists_ ← hasVersionSchema live;
    fail_if (negb exists_)
      (Errorf "cannot contract: the latest migration %q has no version schema, so the deferred queue belongs to an unfinished `pgroll migrate` batch; resume it by re-running `pgroll migrate`, or abort it with `pgroll revert`"
         [live.(Migration_Name)]).

(** After the seal; [queued] is not empty: [init] and its [last_] entry *)
Definition contractSealed (fuel : nat) (live : Migration) (init : list Migration)
    (last_ : Migration) : M D (Z * Z) :=
  let queued := init ++ [last_] in
  let needsLiveDrop := existsb CompleteRequiresLiveSchemaDrop queued in
  let versionSchema := VersionedSchemaName (Roll_schema m) (VersionSchemaName live) in
  (if Roll_disableVersionSchemas m then mret ()
   else
     dropOldVersionSchemas live ;;
     if needsLiveDrop then
       wrap_err (λ e,
           if isLockNotAvailable e then
             ErrorfW "unable to drop live version schema %q before contraction (apps still reading it must move off it first); blocked by:%s: %w"
               [versionSchema] e
           else ErrorfW "unable to drop live version schema before drain: %w" [] e)
         (exec (dropSchemaSQL versionSchema))
     else mret ()) ;;
  for_each (drainDeferredMigration fuel) init ;;
  applyDeferredComplete fuel last_ ;;
  wrap_err (ErrorfW "unable to refresh boundary snapshot for %q: %w" [live.(Migration_Name)])
    (from_state (state_RefreshResultingSchema live.(Migration_Name))) ;;
  (if negb (Roll_disableVersionSchemas m) && needsLiveDrop then
     p ← wrap_err (ErrorfW "unable to read schema after drain: %w" [])
           (from_state state_ReadSchema);
     use_schema p ;;
     wrap_err (ErrorfW "unable to recreate live version schema: %w" []) (ensureViews live)
   else mret ()) ;;
  clearCompleteDeferred last_ ;;
  stamped ← from_state state_MarkSealed;
  mret (Z.of_nat (length queued), stamped).

Definition contract (fuel : nat) (live : Migration) (init : list Migration) (last_ : Migration) :
    M D (Z * Z) :=
  from_state state_MarkSealed ;; contractSealed fuel live init last_.

Definition FinishContraction (fuel : nat) (force : bool) : M D (Z * Z) :=
  queued ← wrap_err (ErrorfW "unable to query deferred completes: %w" [])
             (from_state state_DeferredCompletes);
  match last queued with
  | None => closeWindow
  | Some last_ =>
      latest ← latestMigration;
      match latest with
      | None => fail (Errorf "deferred completes are queued but migration history is empty" [])
      | Some name =>
          live ← loadLatest name;
          checkContraction force live queued ;;
          contract fuel live (take (length queued - 1) queued) last_
      end
  end.

(** [HasPendingBackfill] *)
Definition queryBool (sql : string) (args : list string) : M D bool :=
  rows ← query sql args;
  match rows with
  | None => panic
  | Some rows => lift (ScanFirstValue_bool rows false)
  end.

Fixpoint anyPending (markerCol : string) (tables : list string) : M D bool :=
  match tables with
  | [] => mret false
  | t :: tables =>
      pending ← wrap_err (ErrorfW "checking pending backfill on %q: %w" [t])
        (queryBool ("SELECT EXISTS(SELECT 1 FROM " +:+ QuoteIdentifier (Roll_schema m) +:+ "." +:+
           QuoteIdentifier t +:+ " WHERE " +:+ QuoteIdentifier markerCol +:+ " IS TRUE)") []);
      if (pending : bool) then mret true else anyPending markerCol tables
  end.

Definition HasPendingBackfill (migrationName : string) : M D bool :=
  let markerCol := NeedsBackfillColumnName (MigrationScopeFor migrationName) in
  tables ← queryNames "SELECT table_name FROM information_schema.columns
		 WHERE table_schema = $1 AND column_name = $2" [Roll_schema m; markerCol]
    (ErrorfW "listing tables with backfill marker %q: %w" [markerCol])
    (ErrorfW "scanning marker table name: %w" [])
    (ErrorfW "iterating marker tables: %w" []);
  anyPending markerCol tables.

(** ** Starting *)

(** What follows a failure that is rolled back: [ok] when the rollback
    succeeds, [ko] of its error otherwise *)
Definition after_rollback {A} (fuel : nat) (ok : error) (ko : error → error) : M D A :=
  r ← try (Roll_Rollback fuel);
  match r with inl _ => fail ok | inr e => fail (ko e) end.

(** One iteration of the loop over the operations *)
Definition startOperation (fuel : nat) (mig : Migration) (job : Job) (op : Operation) :
    M D Job :=
  startOp ← wrap_err (ErrorfW "unable to collect actions for start %q migration: %w"
                        [mig.(Migration_Name)]) (Start fuel op);
  match startOp with
  | None => mret job
  | Some startOp =>
      r ← try (coordinate fuel startOp.(StartResult_Actions));
      match r with
      | inr e =>
          after_rollback fuel
            (ErrorfW "failed to start %q migration, changes rolled back: %w"
               [mig.(Migration_Name)] e)
            (λ e', JoinError
               (ErrorfW "unable to execute start operation of %q: %w" [mig.(Migration_Name)] e)
               (ErrorfW "unable to roll back failed operation: %w" [] e'))
      | inl _ =>
          (if RequiresSchemaRefresh op && IsIsolated op then
             wrap_err (ErrorfW "unable to refresh schema: %w" []) readSchemaWithDeferred
           else mret ()) ;;
          match startOp.(StartResult_BackfillTask) with
          | Some t => AddTask job t
          | None => mret job
          end
      end
  end.

Fixpoint startOperations (fuel : nat) (mig : Migration) (job : Job) (ops : list Operation) :
    M D Job :=
  match ops with
  | [] => mret job
  | op :: ops => job ← startOperation fuel mig job op; startOperations fuel mig job ops
  end.

Definition startDDLOperations (fuel : nat) (mig : Migration) (o : startOptions) : M D Job :=
  active ← from_state state_IsActiveMigrationPeriod;
  fail_if active (Errorf "a migration for schema %q is already in progress" [Roll_schema m]) ;;
  wrap_err (ErrorfW "unable to start migration: %w" []) (from_state (state_Start mig)) ;;
  run_hook (BeforeStartDDL m) (ErrorfW "failed to execute BeforeStartDDL hook: %w" []) ;;
  with_defer
    (wrap_err (ErrorfW "unable to read schema: %w" []) readSchemaWithDeferred ;;
     let scope := MigrationScopeFor mig.(Migration_Name) in
     on_schema (set_Schema_MigrationScope scope) ;;
     job ← startOperations fuel mig
             (NewJob (Roll_schema m)
                (VersionedSchemaName (Roll_schema m) (VersionSchemaName mig)) scope)
             mig.(Migration_Operations);
     (if negb o.(so_skipVersionSchema) && negb (Roll_disableVersionSchemas m)
      then ensureViews mig else mret ()) ;;
     mret job)
    (deferred_hook (AfterStartDDL m)).

(** The two methods of [Backfill] the lifecycle calls *)
Context (CreateTriggers : Job → M D ()) (Backfill_Start : string → loc → M D ()).

(** The error of [CreateTriggers] is dropped. *)
Definition performBackfills (fuel : nat) (job : Job) : M D () :=
  try (CreateTriggers job) ;;
  for_each (λ l,
    t ← load l;
    r ← try (Backfill_Start job.(Job_migrationScope) l);
    match r with
    | inl _ => mret ()
    | inr e =>
        let e := ErrorfW "unable to backfill table %q: %w" [t.(Table_Name)] e in
        after_rollback fuel e (λ e', JoinError e e')
    end) job.(Job_Tables).

(** [Roll.validateDependencies] *)
Definition Roll_validateDependencies (mig : Migration) (satisfied : gset string) : M D () :=
  if decide (mig.(Migration_DependsOn) = []) then mret ()
  else
    history ← wrap_err (ErrorfW "reading schema history for dependency check: %w" [])
                (from_state state_SchemaHistory);
    lift (validateDependencies (names history) mig.(Migration_Name) mig.(Migration_DependsOn) satisfied).

Definition checkTarget (mig : Migration) : option error :=
  let target := Roll_target m in
  if decide (target = "") then None
  else if decide (mig.(Migration_Targets) = []) then
    Some (ErrorfW "%w: migration %q must declare `targets` (--target %q is in effect)"
            [mig.(Migration_Name); target] ErrTargetRequired)
  else if slices_Contains mig.(Migration_Targets) target then None
  else
    Some (ErrorfW "%w: migration %q declares targets %v, which do not include %q"
            (mig.(Migration_Name) :: mig.(Migration_Targets) ++ [target]) ErrWrongTarget).

Definition Roll_Start (fuel : nat) (mig : Migration) (o : startOptions) : M D () :=
  match checkTarget mig with Some e => fail e | None => mret () end ;;
  existing ← wrap_err (ErrorfW "failed to check for existing schema: %w" [])
               (from_state state_HasExistingSchemaWithoutHistory);
  fail_if existing ErrExistingSchemaWithoutHistory ;;
  Roll_Validate mig ;;
  Roll_validateDependencies mig o.(so_satisfiedDependencies) ;;
  job ← startDDLOperations fuel mig o;
  performBackfills fuel job.
End Lifecycle.
