(* ===== verification/Retry.v ===== *)
(** * Retry: the connection that waits out lock timeouts

    [RDB] of [pkg/db/db.go]: every call is retried on SQLSTATE 55P03 with a
    growing, jittered sleep until a wall-clock budget is spent.  The [sql.DB]
    it wraps, the clock and the back-off library are parameters ([SqlDB]).
    [index_progress.go]: the samples of a running index build that are
    reported; the monitor's answers and the clock readings are its input.
    Memory that a transaction's function changes is not rolled back with it:
    [SqlDB_prod] runs the same code on a database next to such memory. *)

From S2P Require Import Prelude.
From S2P Require Import GoStd.
From S2P Require Import Types.
From S2P Require Import Db.
From S2P Require Import History.
From S2P Require Import State.
From S2P Require Import Lifecycle.

(** [sql.DB] with the session's transaction; [now] the clock in milliseconds;
    [wait d] the [select] between the context and [time.After(d)], with the
    context's error when that comes first; [Duration n] the [n]-th duration of
    a new [backoff.Backoff].  [tx_QueryRow] is [QueryRowContext] with its
    [Scan] into strings, without a row the error [sql.ErrNoRows];
    [tx_ExecAffected] is [Exec] with [RowsAffected], [None] when that fails. *)
Class SqlDB (D : Type) := {
  sql_Exec : string → D → outcome error () * D;
  sql_Query : string → list string → D → outcome error (option Rows) * D;
  sql_Begin : D → outcome error () * D;
  tx_Exec : string → D → outcome error () * D;
  tx_QueryRow : string → D → outcome error (list string) * D;
  tx_ExecAffected : string → D → outcome error (option Z) * D;
  tx_Commit : D → outcome error () * D;
  tx_Rollback : D → outcome error () * D;
  now : D → Z;
  wait : Z → D → option error * D;
  Duration : nat → D → Z * D;
  sql_expired : D → bool * D;
}.

Definition on_fst {D B R} (f : D → R * D) : D * B → R * (D * B) := λ '(d, b),
  let '(r, d) := f d in (r, (d, b)).

#[export] Instance SqlDB_prod {D B} `{!SqlDB D} : SqlDB (D * B) := {|
  sql_Exec q := on_fst (sql_Exec q);
  sql_Query q args := on_fst (sql_Query q args);
  sql_Begin := on_fst sql_Begin;
  tx_Exec q := on_fst (tx_Exec q);
  tx_QueryRow q := on_fst (tx_QueryRow q);
  tx_ExecAffected q := on_fst (tx_ExecAffected q);
  tx_Commit := on_fst tx_Commit;
  tx_Rollback := on_fst tx_Rollback;
  now w := now w.1;
  wait n := on_fst (wait n);
  Duration n := on_fst (Duration n);
  sql_expired := on_fst sql_expired;
|}.

(** The fields the retries read; zero for the default budget *)
Record RDB := mkRDB { LockRetryTimeout : Z }.

Definition retryBudget (r : RDB) : Z :=
  if decide (LockRetryTimeout r = 0%Z) then DefaultLockRetryTimeout else LockRetryTimeout r.
Definition RDB_RetryBudget (r : RDB) : Z := retryBudget r.

Section Retry.
Context {D : Type} `{!SqlDB D}.
Abbreviation S := (prog D error).

Definition sleepCtx (d : Z) : S () := λ db,
  if (d <=? 0)%Z then (Ok (), db)
  else match wait d db with (None, db) => (Ok (), db) | (Some e, db) => (Err e, db) end.

Definition next_duration (n : nat) : S Z := λ db, let '(d, db) := Duration n db in (Ok d, db).

(** The loop.  [once] is one attempt: its result, or [inr e] when it failed
    with [e] and may be retried; [attempt] counts those before. *)
Fixpoint retry {A} (fuel : nat) (budget deadline : Z) (attempt : nat) (once : S (A + error)) : S A :=
  match fuel with
  | 0 => lift OutOfFuel
  | Datatypes.S fuel =>
      r ← once;
      match r with
      | inl a => mret a
      | inr e =>
          fail_if (budget <? 0)%Z e ;;
          sleep ← next_duration attempt;
          t ← gets now;
          let remaining := (deadline - t)%Z in
          fail_if (remaining <=? 0)%Z e ;;
          sleepCtx (Z.min sleep remaining) ;;
          retry fuel budget deadline (Datatypes.S attempt) once
      end
  end.

Definition with_retries {A} (fuel : nat) (r : RDB) (once : S (A + error)) : S A :=
  start ← gets now;
  retry fuel (retryBudget r) (start + retryBudget r)%Z 0 once.

(** A failed attempt is retried when the lock was not available. *)
Definition retryable {A} (e : error) : S (A + error) :=
  if isLockNotAvailable e then mret (inr e) else fail e.
Definition lock_attempt {A} (call : S A) : S (A + error) :=
  r ← try call; match r with inl a => mret (inl a) | inr e => retryable e end.
Definition tx_attempt (f : S ()) : S (() + error) :=
  sql_Begin ;;
  r ← try f;
  match r with
  | inl _ => tx_Commit ;; mret (inl ())
  | inr e => tx_Rollback ;; retryable e
  end.

Definition RDB_ExecContext (fuel : nat) (r : RDB) (query : string) : S () :=
  with_retries fuel r (lock_attempt (sql_Exec query)).
Definition RDB_QueryContext (fuel : nat) (r : RDB) (query : string) (args : list string) :
    S (option Rows) :=
  with_retries fuel r (lock_attempt (sql_Query query args)).
Definition RDB_WithRetryableTransaction (fuel : nat) (r : RDB) (f : S ()) : S () :=
  with_retries fuel r (tx_attempt f).

(** The connection of the rest of the program *)
#[export] Instance RDB_DB (fuel : nat) (r : RDB) : DB D := {|
  ExecContext query := RDB_ExecContext fuel r query;
  QueryContext query args := RDB_QueryContext fuel r query args;
  WithRetryableTransaction sqls :=
    RDB_WithRetryableTransaction fuel r (for_each (λ sql, tx_Exec sql) sqls);
  is_fake := false;
  RetryBudget _ := RDB_RetryBudget r;
  expired := sql_expired;
|}.

(** What holds before and after every attempt holds of the loop. *)
Lemma retry_rule {A} (once : S (A + error)) (P : D → Prop) (Q : outcome error A → D → Prop) :
  (∀ s, P s → match once s with
     | (Ok (inl a), s') => Q (Ok a) s'
     | (Ok (inr e), s') => P s' ∧ (∀ s'', P s'' → Q (Err e) s'')
     | (Err e, s') => Q (Err e) s'
     | (Panic, s') => Q Panic s'
     | (OutOfFuel, s') => Q OutOfFuel s'
     end) →
  (∀ n s, P s → P (Duration n s).2) →
  (∀ n s, P s → match wait n s with (None, s') => P s' | (Some e, s') => Q (Err e) s' end) →
  (∀ s, P s → Q OutOfFuel s) →
  ∀ fuel budget deadline attempt s, P s →
    Q (retry fuel budget deadline attempt once s).1 (retry fuel budget deadline attempt once s).2.
Proof.
  intros Honce Hdur Hwait Hout fuel budget deadline.
  induction fuel as [|fuel IH]; intros attempt s HP; [by apply Hout|].
  cbn [retry]. unfold mbind, prog_bind. specialize (Honce s HP).
  destruct (once s) as [[[a|e]|e| |] s']; cbn; try done.
  destruct Honce as [HP' He]. unfold fail_if.
  destruct (Z.ltb_spec budget 0); [by apply He|]. cbn [mret prog_ret].
  unfold next_duration. pose proof (Hdur attempt s' HP') as HPd.
  destruct (Duration attempt s') as [n s'']. cbn [snd] in HPd.
  unfold gets. destruct (Z.leb_spec (deadline - now s'') 0); [by apply He|].
  unfold sleepCtx, mret, prog_ret. destruct (Z.leb_spec (Z.min n (deadline - now s'')) 0); [by apply IH|].
  pose proof (Hwait (Z.min n (deadline - now s'')) s'' HPd) as HPw.
  destruct (wait _ s'') as [[e'|] s3]; [done|]. by apply IH.
Qed.

(** ** Locks that are released in time *)

Section loop.
Context {A : Type} (once : S (A + error)).

(** An attempt lasts at most [L]; one that is refused the lock takes time;
    sleeping lasts at least what it is told and is not interrupted; the other calls do not
    turn the clock back. *)
Record timely (L : Z) : Prop := {
  timely_attempt d : (now d ≤ now (once d).2 ≤ now d + L)%Z;
  timely_refused d e : (once d).1 = Ok (inr e) → (now d < now (once d).2)%Z;
  timely_wait n d : (0 < n)%Z → (wait n d).1 = None ∧ (now d ≤ now (wait n d).2)%Z;
  timely_duration n d : now (Duration n d).2 = now d;
}.

(** A result of the loop that is the result of an attempt *)
Definition once_settles (r : outcome error (A + error)) (o : outcome error A) : Prop :=
  match r, o with
  | Ok (inl a), Ok b => a = b
  | Err e, Err e' => e = e'
  | Panic, Panic | OutOfFuel, OutOfFuel => True
  | _, _ => False
  end.
Definition settled (o : outcome error A) : Prop := ∃ d, once_settles (once d).1 o.

Lemma retry_settles L T budget deadline :
  timely L → (0 ≤ budget)%Z → (T + L ≤ deadline)%Z →
  (∀ d e, (T ≤ now d)%Z → (once d).1 ≠ Ok (inr e)) →
  ∀ fuel attempt d, (deadline - now d < Z.of_nat fuel)%Z → (0 < fuel)%nat →
    settled (retry fuel budget deadline attempt once d).1.
Proof.
  intros HL Hb HT Hfree fuel. induction fuel as [|fuel IH]; intros attempt d Hf Hpos; [lia|].
  cbn [retry]. unfold mbind, prog_bind.
  destruct (once d) as [o d1] eqn:Hd.
  pose proof (timely_attempt L HL d) as Htime. rewrite Hd in Htime. cbn [snd] in Htime.
  assert (∀ o', once_settles (once d).1 o' → settled o') as Hset by (intros o' ?; by exists d).
  rewrite Hd in Hset. cbn [fst] in Hset.
  destruct o as [[a|e]|e| |]; cbn;
    [by apply (Hset (Ok a))| |by apply (Hset (Err e))|by apply (Hset Panic)|by apply (Hset OutOfFuel)].
  pose proof (timely_refused L HL d e) as Href. rewrite Hd in Href. specialize (Href eq_refl). cbn [snd] in Href.
  assert (now d < T)%Z as HdT.
  { destruct (Z.le_gt_cases T (now d)) as [Hle|]; [|lia]. exfalso. apply (Hfree d e Hle). by rewrite Hd. }
  unfold fail_if. destruct (Z.ltb_spec budget 0) as [|_]; [lia|]. cbn [mret prog_ret].
  unfold next_duration. destruct (Duration attempt d1) as [sl d2] eqn:Hdur.
  pose proof (timely_duration L HL attempt d1) as Hnow. rewrite Hdur in Hnow. cbn [snd] in Hnow.
  unfold gets. destruct (Z.leb_spec (deadline - now d2) 0) as [|Hrem]; [lia|].
  unfold sleepCtx, mret, prog_ret.
  destruct (Z.leb_spec (Z.min sl (deadline - now d2)) 0) as [_|Hsl].
  { apply IH; lia. }
  destruct (timely_wait L HL _ d2 Hsl) as [Hn Hw].
  destruct (wait _ d2) as [[e'|] d3]; [discriminate Hn|]. cbn [snd] in Hw. apply IH; lia.
Qed.

(** A refusal that is reported comes after the deadline. *)
Lemma retry_gives_up_late L budget deadline :
  timely L → (0 ≤ budget)%Z →
  (∀ d e, (once d).1 = Err e → isLockNotAvailable e = false) →
  ∀ fuel attempt d e,
    (retry fuel budget deadline attempt once d).1 = Err e → isLockNotAvailable e = true →
    (deadline ≤ now (retry fuel budget deadline attempt once d).2)%Z.
Proof.
  intros HL Hb Hok fuel. induction fuel as [|fuel IH]; intros attempt d e; [done|].
  cbn [retry]. unfold mbind, prog_bind.
  destruct (once d) as [o d1] eqn:Hd. specialize (Hok d). rewrite Hd in Hok.
  destruct o as [[a|e']|e'| |]; try done; cycle 1.
  { intros He Hl. cbn in He. injection He as ->. by rewrite (Hok _ eq_refl) in Hl. }
  unfold fail_if. destruct (Z.ltb_spec budget 0) as [|_]; [lia|]. cbn [mret prog_ret].
  unfold next_duration. destruct (Duration attempt d1) as [sl d2] eqn:Hdur.
  unfold gets. destruct (Z.leb_spec (deadline - now d2) 0) as [Hrem|Hrem]; [cbn; lia|].
  unfold sleepCtx, mret, prog_ret.
  destruct (Z.leb_spec (Z.min sl (deadline - now d2)) 0) as [_|Hsl]; [apply IH|].
  destruct (timely_wait L HL _ d2 Hsl) as [Hn _].
  destruct (wait _ d2) as [[e''|] d3]; [discriminate Hn|]. apply IH.
Qed.
End loop.

Lemma lock_attempt_refused {A} (call : S A) d e :
  (lock_attempt call d).1 = Ok (inr e) ↔ (call d).1 = Err e ∧ isLockNotAvailable e = true.
Proof.
  unfold lock_attempt, retryable, try, mbind, prog_bind.
  destruct (call d) as [[a|e'| |] d']; cbn; try (split; [done|intros [? _]; done]).
  destruct (isLockNotAvailable e') eqn:Hl; cbn; split; try done.
  - intros H. injection H as ->. done.
  - intros [H _]. injection H as ->. done.
  - intros [H Ht]. injection H as ->. congruence.
Qed.

Lemma lock_attempt_settles {A} (call : S A) d o :
  once_settles (lock_attempt call d).1 o → (call d).1 = o.
Proof.
  unfold lock_attempt, retryable, try, mbind, prog_bind.
  destruct (call d) as [[a|e'| |] d']; cbn; destruct o; cbn; try done; try congruence;
    destruct (isLockNotAvailable e'); cbn; intros; try done; congruence.
Qed.

Lemma lock_attempt_Err {A} (call : S A) d e :
  (lock_attempt call d).1 = Err e → isLockNotAvailable e = false.
Proof.
  unfold lock_attempt, retryable, try, mbind, prog_bind.
  destruct (call d) as [[a|e'| |] d']; cbn; try done.
  destruct (isLockNotAvailable e') eqn:Hl; cbn; [done|]. intros H. injection H as ->. done.
Qed.

(** C39. Exec waits out a lock: when the statement is refused for nothing but
    the lock, and from time [T] on the lock is free, [RDB.ExecContext] returns
    the statement's success, provided the retry budget reaches past [T] by one
    attempt; and whatever the lock does, a refusal it reports comes only after
    the whole budget. *)
Theorem ExecContext_waits_out_locks fuel r query L d :
  timely (lock_attempt (sql_Exec query)) L → (0 ≤ retryBudget r)%Z →
  (∀ T, (∀ d', (sql_Exec query d').1 = Ok () ∨
               ∃ e, (sql_Exec query d').1 = Err e ∧ isLockNotAvailable e = true ∧ (now d' < T)%Z) →
     (T + L ≤ now d + retryBudget r)%Z → (retryBudget r < Z.of_nat fuel)%Z →
     (RDB_ExecContext fuel r query d).1 = Ok ()) ∧
  (∀ e, (RDB_ExecContext fuel r query d).1 = Err e → isLockNotAvailable e = true →
     (now d + retryBudget r ≤ now (RDB_ExecContext fuel r query d).2)%Z).
Proof.
  intros HL Hb. unfold RDB_ExecContext, with_retries, gets, mbind, prog_bind. split.
  - intros T Hfree HT Hf.
    destruct (retry_settles _ L T (retryBudget r) (now d + retryBudget r) HL Hb HT) with
      (fuel := fuel) (attempt := 0) (d := d) as [d' Hd']; [|lia|lia|].
    + intros d' e Hd' He. apply lock_attempt_refused in He as [He _].
      destruct (Hfree d') as [H|(e' & _ & _ & H)]; [congruence|lia].
    + (* the attempt that settles is a success *)
      destruct (Hfree d') as [H|(e' & H & Hl & _)].
      * rewrite <- H. symmetry. by apply lock_attempt_settles.
      * exfalso. pose proof (proj2 (lock_attempt_refused (sql_Exec query) d' e') (conj H Hl)) as Hr.
        by rewrite Hr in Hd'.
  - intros e. apply (retry_gives_up_late _ L); [done..|]. intros d' e'. apply lock_attempt_Err.
Qed.
End Retry.

(** ** The progress of an index build *)

Record Blocker := mkBlocker {
  Blocker_PID : Z;
  Blocker_ApplicationName : string;
  Blocker_State : string;
  Blocker_TransactionAge : string;
  Blocker_Query : string;
}.
Record IndexBuildProgress := mkIndexBuildProgress {
  Progress_Phase : string;
  Progress_Elapsed : Z;
  Progress_Blocks : Z * Z;
  Progress_Tuples : Z * Z;
  Progress_Lockers : Z * Z;
  Progress_Blocker : option Blocker;
}.

Definition DefaultIndexProgressInterval : Z := 10000.
Definition indexProgressPollInterval : Z := 2000.
Definition EffectiveIndexProgressInterval (interval : Z) : Z :=
  if decide (interval = 0%Z) then DefaultIndexProgressInterval else interval.

(** What [startIndexBuildProgress] starts: the interval of the reports and the
    period of the polls, when there is a monitor, reporting is enabled and
    the session's [pid] is known *)
Definition startIndexBuildProgress (monitor : bool) (interval : Z) (pid : option Z) : option (Z * Z) :=
  let interval := EffectiveIndexProgressInterval interval in
  if negb monitor || (interval <=? 0)%Z then None
  else (λ _, (interval, Z.min indexProgressPollInterval interval)) <$> pid.

(** The first value of the row [pg_backend_pid()] returns *)
Definition backendPID (rows : outcome error (option Z)) : option Z :=
  match rows with Ok pid => pid | _ => None end.
(** The scanned row; the columns of the blocking session are zero values when
    there is none. *)
Definition readIndexBuildProgress (row : outcome error (IndexBuildProgress * Blocker)) :
    option IndexBuildProgress :=
  match row with
  | Ok (p, b) =>
      Some (mkIndexBuildProgress (Progress_Phase p) (Progress_Elapsed p) (Progress_Blocks p)
        (Progress_Tuples p) (Progress_Lockers p) (if decide (Blocker_PID b = 0%Z) then None else Some b))
  | _ => None
  end.

(** One turn of the poll: the sample, and the clock when it is tested against
    the last report and when it has been logged *)
Record tick := mkTick {
  tick_sample : option IndexBuildProgress;
  tick_tested : Z;
  tick_logged : Z;
}.
(** [time.Since] of the zero time is past every interval. *)
Definition reported_within (interval : Z) (lastReported : option Z) (t : Z) : bool :=
  match lastReported with Some l => (t - l <? interval)%Z | None => false end.
(** The loop, until its context ends: the turns that are logged *)
Fixpoint pollIndexBuildProgress (interval : Z) (lastPhase : string) (lastReported : option Z)
    (ticks : list tick) : list (tick * IndexBuildProgress) :=
  match ticks with
  | [] => []
  | t :: ticks =>
      match tick_sample t with
      | None => pollIndexBuildProgress interval lastPhase lastReported ticks
      | Some p =>
          if String.eqb (Progress_Phase p) lastPhase && reported_within interval lastReported (tick_tested t)
          then pollIndexBuildProgress interval lastPhase lastReported ticks
          else (t, p) :: pollIndexBuildProgress interval (Progress_Phase p) (Some (tick_logged t)) ticks
      end
  end.

(** Two reports in a row are an interval apart, unless the phase changed. *)
Definition report_apart (interval : Z) (r r' : tick * IndexBuildProgress) : Prop :=
  Progress_Phase r'.2 ≠ Progress_Phase r.2 ∨ (interval ≤ tick_tested r'.1 - tick_logged r.1)%Z.
Lemma poll_first interval phase l ticks r rest :
  pollIndexBuildProgress interval phase (Some l) ticks = r :: rest →
  Progress_Phase r.2 ≠ phase ∨ (interval ≤ tick_tested r.1 - l)%Z.
Proof.
  induction ticks as [|t ticks IH]; [done|]. cbn. destruct (tick_sample t) as [p|]; [|done].
  destruct (String.eqb_spec (Progress_Phase p) phase); cbn.
  - destruct (Z.ltb_spec (tick_tested t - l) interval); [done|]. intros [= <- _]. by right.
  - intros [= <- _]. by left.
Qed.
Lemma reports_apart interval ticks : ∀ phase l,
  Sorted (report_apart interval) (pollIndexBuildProgress interval phase l ticks).
Proof.
  induction ticks as [|t ticks IH]; intros phase l; cbn; [constructor|].
  destruct (tick_sample t) as [p|]; [|apply IH]. destruct (_ && _); [apply IH|]. constructor; [apply IH|].
  destruct (pollIndexBuildProgress _ _ _ ticks) as [|r rest] eqn:Hr; constructor. by eapply poll_first.
Qed.
(** A sample whose phase is not that of the sample before it is reported. *)
Lemma phase_change_reported interval t p t' p' between after : ∀ before phase l,
  tick_sample t = Some p → tick_sample t' = Some p' → Progress_Phase p' ≠ Progress_Phase p →
  Forall (λ u, tick_sample u = None) between →
  (t', p') ∈ pollIndexBuildProgress interval phase l (before ++ t :: between ++ t' :: after).
Proof.
  intros before phase l Ht Ht' Hne Hb.
  assert (∀ l, (t', p') ∈ pollIndexBuildProgress interval (Progress_Phase p) l (between ++ t' :: after)) as Hin.
  { intros l'. induction Hb as [|u between Hu _ IH]; cbn.
    - rewrite Ht'. destruct (String.eqb_spec (Progress_Phase p') (Progress_Phase p)); [done|left].
    - by rewrite Hu. }
  revert phase l. induction before as [|u before IH]; intros phase l; cbn.
  - rewrite Ht. destruct (String.eqb_spec (Progress_Phase p) phase) as [<-|]; cbn; [|right; apply Hin].
    destruct (reported_within _ _ _); [apply Hin|right; apply Hin].
  - destruct (tick_sample u) as [q|]; [|apply IH]. destruct (_ && _); [apply IH|right; apply IH].
Qed.

(** A clock of milliseconds, and a lock that is held until 300 *)
Definition sample_sql : SqlDB Z := {|
  sql_Exec _ t := if (t <? 300)%Z then (Err (pqError "55P03" "lock"), (t + 10)%Z) else (Ok (), (t + 10)%Z);
  sql_Query _ _ t := (Ok None, (t + 10)%Z);
  sql_Begin t := (Ok (), t);
  tx_Exec _ t := (Ok (), t);
  tx_QueryRow _ t := (Err ErrNoRows, t);
  tx_ExecAffected _ t := (Ok (Some 0%Z), t);
  tx_Commit t := (Ok (), t);
  tx_Rollback t := (Ok (), t);
  now t := t;
  wait n t := (None, (t + n)%Z);
  Duration n t := (Z.of_nat (2 ^ n) * 20, t)%Z;
  sql_expired t := (false, t);
|}.

Lemma ExecContext_waits_out_locks_witness :
  (RDB_ExecContext (D := Z) (SqlDB0 := sample_sql) 1001 (mkRDB 1000) "LOCK" 0%Z).1 = Ok ().
Proof.
  refine (proj1 (ExecContext_waits_out_locks (D := Z) (SqlDB0 := sample_sql) 1001 (mkRDB 1000) "LOCK" 10 0%Z _ _) 300%Z _ _ _).
  - split; cbn.
    + intros d. unfold lock_attempt, try, retryable, mbind, prog_bind. cbn.
      destruct (d <? 300)%Z; cbn; lia.
    + intros d e. unfold lock_attempt, try, retryable, mbind, prog_bind. cbn.
      destruct (d <? 300)%Z; cbn; [lia|done].
    + intros n d Hn. split; [done|lia].
    + done.
  - by vm_compute.
  - intros d. cbn. destruct (Z.ltb_spec d 300); [right|by left]. by exists (pqError "55P03" "lock").
  - by vm_compute.
  - by vm_compute.
Defined.
