(* ===== verification/Batches.v ===== *)
(** * Batches: installing the backfill triggers and updating the rows

    [backfill.go] from [New] on, [trigger.go], [config.go] and the package
    [templates]: the SQL of the triggers and of a batch, the two batchers, and
    the loop over batches.  [text/template] is written out as the text it
    produces.  Progress logging is left out. *)

From stdpp Require Import pretty.
From S2P Require Import Prelude.
From S2P Require Import GoStd.
From S2P Require Import Names.
From S2P Require Import Schema.
From S2P Require Import Types.
From S2P Require Import Db.
From S2P Require Import Backfill.
From S2P Require Import LocalSet.
From S2P Require Import History.
From S2P Require Import State.
From S2P Require Import Retry.

(** ** The package [templates] *)

(** [LastValue] is nil before the first batch. *)
Record BatchConfig := mkBatchConfig {
  BatchConfig_TableName : string;
  BatchConfig_PrimaryKey : list string;
  BatchConfig_LastValue : option (list string);
  BatchConfig_BatchSize : Z;
  BatchConfig_NeedsBackfillColumn : string;
}.

Definition set_LastValue (v : list string) (b : BatchConfig) : BatchConfig :=
  mkBatchConfig b.(BatchConfig_TableName) b.(BatchConfig_PrimaryKey) (Some v)
    b.(BatchConfig_BatchSize) b.(BatchConfig_NeedsBackfillColumn).

Section Templates.
Context `{!Pq}.
Abbreviation qi := QuoteIdentifier.
Abbreviation ql := QuoteLiteral.

Definition commaSeparate (slice : list string) : string := Join slice ", ".
Definition quoteIdentifiers (slice : list string) : list string := qi <$> slice.
Definition quoteLiterals (slice : list string) : list string := ql <$> slice.
Definition updateSetClause (tableName : string) (columns : list string) : string :=
  Join ((λ c, qi c +:+ " = " +:+ qi tableName +:+ "." +:+ qi c) <$> columns) ", ".
Definition updateWhereClause (tableName : string) (columns : list string) : string :=
  Join ((λ c, qi tableName +:+ "." +:+ qi c +:+ " = batch." +:+ qi c) <$> columns) " AND ".
Definition updateReturnClause (tableName : string) (columns : list string) : string :=
  Join ((λ c, qi tableName +:+ "." +:+ qi c) <$> columns) ", ".
Definition selectLastValue (columns : list string) : string :=
  Join ((λ c, "LAST_VALUE(" +:+ qi c +:+ ") OVER()") <$> columns) ", ".

(** The clause of [{{ if .LastValue }}]: an empty slice is false too. *)
Definition lastValueClause (cfg : BatchConfig) : string :=
  match cfg.(BatchConfig_LastValue) with
  | None | Some [] => ""
  | Some v =>
      "AND (" +:+ commaSeparate (quoteIdentifiers cfg.(BatchConfig_PrimaryKey)) +:+ ") > ("
      +:+ commaSeparate (quoteLiterals v) +:+ ")
  "
  end.

Definition BuildSQL (cfg : BatchConfig) : string :=
  let t := cfg.(BatchConfig_TableName) in
  let pk := cfg.(BatchConfig_PrimaryKey) in
  "WITH batch AS
(
  SELECT " +:+ commaSeparate (quoteIdentifiers pk) +:+ "
  FROM " +:+ qi t +:+ "
  WHERE " +:+ qi cfg.(BatchConfig_NeedsBackfillColumn) +:+ " = true
  " +:+ lastValueClause cfg +:+ "ORDER BY " +:+ commaSeparate (quoteIdentifiers pk) +:+ "
  LIMIT " +:+ pretty cfg.(BatchConfig_BatchSize) +:+ "
  FOR NO KEY UPDATE
),
update AS
(
  UPDATE " +:+ qi t +:+ "
  SET " +:+ updateSetClause t pk +:+ "
  FROM batch
  WHERE " +:+ updateWhereClause t pk +:+ "
  RETURNING " +:+ updateReturnClause t pk +:+ "
)
SELECT " +:+ selectLastValue pk +:+ "
FROM update
".

(** ** The trigger function and the trigger *)

(** One variable of [DECLARE]; a nil column is an error of the template. *)
Definition declareColumn (cfg : triggerConfig) (name : string) (col : option Column) :
    outcome error string :=
  match col with
  | None => Err (Errorf "template: function: nil pointer evaluating *schema.Column.Name" [])
  | Some col =>
      Ok (qi name +:+ " " +:+ qi cfg.(tc_SchemaName) +:+ "." +:+ qi cfg.(tc_TableName) +:+ "."
          +:+ qi col.(Column_Name) +:+ "%TYPE := NEW." +:+ qi col.(Column_Name) +:+ ";
      ")
  end.

(** [range] visits a map in the order of its keys. *)
Fixpoint declareColumns (cfg : triggerConfig) (columns : gmap string (option Column))
    (keys : list string) : outcome error string :=
  match keys with
  | [] => Ok ""
  | name :: keys =>
      d ← declareColumn cfg name (default None (columns !! name));
      ds ← declareColumns cfg columns keys;
      Ok (d +:+ ds)
  end.

Definition assignSQL (cfg : triggerConfig) (s : string) : string :=
  "
        NEW." +:+ qi cfg.(tc_PhysicalColumn) +:+ " = " +:+ s +:+ ";".

Definition buildFunction (cfg : triggerConfig) (columns : gmap string (option Column)) :
    outcome error string :=
  ds ← declareColumns cfg columns (sorted_keys columns);
  Ok ("CREATE OR REPLACE FUNCTION " +:+ qi cfg.(tc_Name) +:+ "()
    RETURNS TRIGGER
    LANGUAGE PLPGSQL
    AS $$
    DECLARE
      " +:+ ds +:+ "latest_schema text;
      search_path text;
    BEGIN
      SELECT current_setting
        INTO search_path
        FROM current_setting('search_path');

      IF search_path " +:+
      match cfg.(tc_Direction) with TriggerDirectionUp => "!=" | TriggerDirectionDown => "=" end
      +:+ " " +:+ ql cfg.(tc_LatestSchema) +:+ " THEN"
      +:+ Join (assignSQL cfg <$> cfg.(tc_SQL)) "" +:+ "
        NEW." +:+ qi cfg.(tc_NeedsBackfillColumn) +:+ " = false;
      END IF;

      RETURN NEW;
    END; $$
").

Definition buildTrigger (cfg : triggerConfig) : string :=
  "CREATE OR REPLACE TRIGGER " +:+ qi cfg.(tc_Name) +:+ "
    BEFORE UPDATE OR INSERT
    ON " +:+ qi cfg.(tc_TableName) +:+ "
    FOR EACH ROW
    EXECUTE PROCEDURE " +:+ qi cfg.(tc_Name) +:+ "();
".

(** [if len(sql) > 0 && sql[0] != '('] *)
Definition parenthesize (sql : string) : string :=
  match sql with
  | EmptyString => sql
  | String c _ => if decide (c = "("%char) then sql else "(" +:+ sql +:+ ")"
  end.
End Templates.

(** ** Configuration *)

(** A callback acts on the database's world: it may print, or count. *)
Record Config (D : Type) := mkConfig {
  Config_batchSize : Z;
  Config_batchDelay : Z;
  Config_callbacks : list (Z → Z → D → D);
}.
Arguments mkConfig {D} _ _ _.
Arguments Config_batchSize {D} _.
Arguments Config_batchDelay {D} _.
Arguments Config_callbacks {D} _.

Definition DefaultBatchSize : Z := 1000.
Definition DefaultDelay : Z := 0.

Section Config.
Context {D : Type}.
Definition OptionFn := Config D → Config D.
Definition NewConfig (opts : list OptionFn) : Config D :=
  foldl (λ c opt, opt c) (mkConfig DefaultBatchSize DefaultDelay []) opts.
Definition WithBatchSize (batchSize : Z) : OptionFn := λ o,
  mkConfig batchSize o.(Config_batchDelay) o.(Config_callbacks).
Definition WithBatchDelay (delay : Z) : OptionFn := λ o,
  mkConfig o.(Config_batchSize) delay o.(Config_callbacks).
Definition AddCallback (c : Config D) (fn : Z → Z → D → D) : Config D :=
  mkConfig c.(Config_batchSize) c.(Config_batchDelay) (c.(Config_callbacks) ++ [fn]).
End Config.

(** ** The batchers *)

(** [batcher] is an interface with two implementations. *)
Inductive batcher :=
  | pkBatcher (cfg : BatchConfig)
  | needsBackfillColumnBatcher (table : string) (batchSize : Z) (needsBackfillColumn : string).

(** 64-bit multiplication *)
Definition mul64 (x y : Z) : Z := ((x * y + 2 ^ 63) mod 2 ^ 64 - 2 ^ 63)%Z.

Section Run.
Context `{!Pq} {D : Type} `{!SqlDB D}.

(** The batcher is in memory next to the database. *)
Abbreviation B := (prog (D * batcher) error).

Definition set_batcher (b : batcher) : B () := modify (λ '(d, _), (d, b)).

(** The function the transaction runs, as often as it is retried *)
Definition pk_tx (cfg : BatchConfig) : B () :=
  let sql := BuildSQL cfg in
  let cfg := match cfg.(BatchConfig_LastValue) with
             | None => set_LastValue (replicate (length cfg.(BatchConfig_PrimaryKey)) "") cfg
             | Some _ => cfg
             end in
  set_batcher (pkBatcher cfg) ;;
  vs ← tx_QueryRow sql;
  fail_if (negb (length vs =? length (default [] cfg.(BatchConfig_LastValue)))%nat) scan_error ;;
  set_batcher (pkBatcher (set_LastValue vs cfg)).

Definition needsBackfillColumnStmt (table : string) (batchSize : Z) (column : string) : string :=
  "UPDATE " +:+ QuoteIdentifier table +:+ " SET " +:+ QuoteIdentifier column
  +:+ " = true WHERE ctid IN (SELECT ctid FROM " +:+ QuoteIdentifier table +:+ " WHERE "
  +:+ QuoteIdentifier column +:+ " = true LIMIT " +:+ pretty batchSize +:+ ")".

Definition marker_tx (table : string) (batchSize : Z) (column : string) : B () :=
  count ← tx_ExecAffected (needsBackfillColumnStmt table batchSize column);
  match count with
  | None => fail ErrNoRows
  | Some n => fail_if (n =? 0)%Z ErrNoRows
  end.

Definition batch_tx : B () :=
  b ← gets snd;
  match b with
  | pkBatcher cfg => pk_tx cfg
  | needsBackfillColumnBatcher table batchSize column => marker_tx table batchSize column
  end.

Definition updateBatch (rfuel : nat) (r : RDB) : B () :=
  RDB_WithRetryableTransaction rfuel r batch_tx.

(** ** The loop *)

Definition runCallbacks (c : Config D) (batch total : Z) : B () :=
  for_each (λ cb, modify (λ '(d, b), (cb (mul64 batch c.(Config_batchSize)) total d, b)))
    c.(Config_callbacks).

(** The pause between two batches *)
Definition pause (delay : Z) : B () := λ w,
  match wait delay w with (None, w) => (Ok (), w) | (Some e, w) => (Err e, w) end.

Fixpoint batches (fuel rfuel : nat) (r : RDB) (c : Config D) (total batch : Z) : B () :=
  match fuel with
  | 0 => lift OutOfFuel
  | S fuel =>
      runCallbacks c batch total ;;
      res ← try (updateBatch rfuel r);
      match res with
      | inr e => if decide (errors_Is e ErrNoRows) then mret () else fail e
      | inl _ =>
          pause c.(Config_batchDelay) ;;
          batches fuel rfuel r c total (batch + 1)
      end
  end.

(** The range over the map of columns stops at the first hit; a nil column
    before it is dereferenced. *)
Fixpoint uniqueColumn (l : list (string * option Column)) :
    outcome error (option (list string)) :=
  match l with
  | [] => Ok None
  | (_, None) :: _ => Panic
  | (_, Some col) :: l =>
      if col.(Column_Unique) && negb col.(Column_Nullable) then Ok (Some [col.(Column_Name)])
      else uniqueColumn l
  end.

Definition getIdentityColumns (table : Table) : outcome error (option (list string)) :=
  if decide (table.(Table_PrimaryKey) = []) then uniqueColumn (map_to_list table.(Table_Columns))
  else Ok (Some table.(Table_PrimaryKey)).

(** [conn.QueryContext] and [db.ScanFirstValue], with the errors of each *)
Definition queryFirst {A} (rfuel : nat) (r : RDB) (scan : Rows → A → outcome error A) (dest : A)
    (getting scanning : error → error) (sql : string) (args : list string) : prog D error A :=
  rows ← wrap_err getting (RDB_QueryContext rfuel r sql args);
  match rows with
  | None => lift Panic
  | Some rows => wrap_err scanning (lift (scan rows dest))
  end.

Definition estimateSQL : string := "
	  SELECT n_live_tup AS estimate
	  FROM pg_stat_user_tables
	  WHERE schemaname = $1 AND relname = $2".

Definition getRowCount (rfuel : nat) (r : RDB) (tableName : string) : prog D error Z :=
  currentSchema ← queryFirst rfuel r ScanFirstValue_string ""
    (ErrorfW "getting current schema: %w" []) (ErrorfW "scanning current schema: %w" [])
    "select current_schema()" [];
  total ← queryFirst rfuel r ScanFirstValue_int64 0%Z
    (ErrorfW "getting row count estimate for %q: %w" [tableName])
    (ErrorfW "scanning row count estimate for %q: %w" [tableName])
    estimateSQL [currentSchema; tableName];
  if (0 <? total)%Z then mret total
  else
    queryFirst rfuel r ScanFirstValue_int64 total
      (ErrorfW "getting row count for %q: %w" [tableName])
      (ErrorfW "scanning row count for %q: %w" [tableName])
      ("SELECT count(*) from " +:+ QuoteIdentifier tableName) [].

Definition with_batcher {A} (b : batcher) (m : B A) : prog D error A := λ d,
  let '(r, (d, _)) := m (d, b) in (r, d).

Definition newBatcher (c : Config D) (scope : string) (table : Table)
    (identityColumns : option (list string)) : batcher :=
  let markerCol := NeedsBackfillColumnName scope in
  match identityColumns with
  | Some pk => pkBatcher (mkBatchConfig table.(Table_Name) pk None c.(Config_batchSize) markerCol)
  | None => needsBackfillColumnBatcher table.(Table_Name) c.(Config_batchSize) markerCol
  end.

(** [Backfill.Start] *)
Definition Backfill_Start (fuel rfuel : nat) (r : RDB) (c : Config D) (scope : string)
    (table : Table) : prog D error () :=
  identityColumns ← lift (getIdentityColumns table);
  total ← wrap_err (ErrorfW "get row count for %q: %w" [table.(Table_Name)])
            (getRowCount rfuel r table.(Table_Name));
  with_batcher (newBatcher c scope table identityColumns) (batches fuel rfuel r c total 0).

(** ** The triggers *)

Definition set_tc_SQL (sql : list string) (column : string) (cfg : triggerConfig) : triggerConfig :=
  mkTriggerConfig cfg.(tc_Name) cfg.(tc_Direction) cfg.(tc_Columns) cfg.(tc_SchemaName)
    cfg.(tc_TableName) cfg.(tc_PhysicalColumn) cfg.(tc_LatestSchema) sql column
    cfg.(tc_MigrationScope).

(** [createTriggerAction.execute]; the three statements go through the
    connection, not through the transaction that is open around them. *)
Definition createTrigger (rfuel : nat) (r : RDB) (cfg : triggerConfig) : M D () :=
  let cfg := set_tc_SQL (parenthesize <$> cfg.(tc_SQL))
               (NeedsBackfillColumnName cfg.(tc_MigrationScope)) cfg in
  columns ← columns_of cfg.(tc_Columns);
  funcSQL ← lift (buildFunction cfg columns);
  let triggerSQL := buildTrigger cfg in
  on_state (RDB_WithRetryableTransaction rfuel r (
    RDB_ExecContext rfuel r
      ("ALTER TABLE " +:+ QuoteIdentifier cfg.(tc_TableName) +:+ " ADD COLUMN IF NOT EXISTS "
       +:+ QuoteIdentifier cfg.(tc_NeedsBackfillColumn) +:+ " boolean DEFAULT true") ;;
    RDB_ExecContext rfuel r funcSQL ;;
    RDB_ExecContext rfuel r triggerSQL)).

Definition CreateTriggers (rfuel : nat) (r : RDB) (j : Job) : M D () :=
  for_each (λ name,
    match j.(Job_triggers) !! name with
    | Some cfg =>
        wrap_err (ErrorfW "creating trigger %q: %w" [cfg.(tc_Name)]) (createTrigger rfuel r cfg)
    | None => mret ()
    end) (sorted_keys j.(Job_triggers)).

(** The two methods the lifecycle calls: it passes a pointer to the table. *)
Definition Backfill_Start_table (fuel rfuel : nat) (r : RDB) (c : Config D) (scope : string)
    (l : loc) : M D () :=
  t ← load l; on_state (Backfill_Start fuel rfuel r c scope t).
End Run.
