(* ===== verification/BatchFacts.v ===== *)
(** * BatchFacts: which rows a backfill that succeeds has reached

    The rows a backfill has to reach are those whose marker is set ([marked]).
    Other sessions only ever unset markers: every write fires the triggers.  A
    transaction sees its own changes ([seen]); they last when it commits.
    Under the documented behaviour of the statements ([TableLaws]) a run of
    [Backfill.Start] with a positive batch size that returns without an error
    leaves no marked row, whatever was retried or interrupted on the way, with
    one exception: a first batch that was refused is retried from the empty
    key, and rows whose key is not above it are missed.  A run whose calls
    succeed returns. *)

From S2P Require Import Prelude.
From S2P Require Import GoStd.
From S2P Require Import Names.
From S2P Require Import Schema.
From S2P Require Import Types.
From S2P Require Import Db.
From S2P Require Import Samples.
From S2P Require Import LocalSet.
From S2P Require Import History.
From S2P Require Import Lifecycle.
From S2P Require Import Retry.
From S2P Require Import Batches.

Definition no_rows (e : error) : Prop := errors_Is e ErrNoRows.

Lemma sublist_missing {A} (l1 l2 : list A) x :
  sublist l1 l2 → x ∈ l2 → x ∉ l1 → length l1 < length l2.
Proof.
  intros Hs Hx Hno. destruct (decide (length l1 < length l2)) as [|Hge]; [done|].
  destruct Hno. by rewrite (submseteq_length_Permutation l1 l2);
    [|apply sublist_submseteq|lia].
Qed.

Lemma sorted_sublist {A} (R : relation A) l1 l2 :
  sublist l1 l2 → StronglySorted R l2 → StronglySorted R l1.
Proof.
  induction 1 as [|x l1 l2 Hs IH|x l1 l2 _ IH]; [done|..]; intros [Hl Hx]%StronglySorted_inv;
    [|by apply IH].
  constructor; [by apply IH|]. apply Forall_forall. intros y Hy. eapply Forall_forall; [exact Hx|].
  by eapply elem_of_sublist.
Qed.

Section laws.
Context `{!Pq} {D : Type} `{!SqlDB D}.
Abbreviation key := (list string).
Context (marked seen : D → list key) (key_lt : relation key) `{!RelDecision key_lt}.

(** Markers are unset, never set. *)
Definition shrinks (d d' : D) : Prop := sublist (marked d') (marked d).

#[export] Instance shrinks_preorder : PreOrder shrinks.
Proof. unfold shrinks. split; [intros d; done|intros a b d' Hab Hbd; by etrans]. Qed.

(** Those of the marked rows [l] a batch may take *)
Definition due (v : option key) (l : list key) : list key :=
  match v with None => l | Some v => filter (key_lt v) l end.

(** A call that neither sets a marker nor fails for the want of rows *)
Definition harmless {A} (r : outcome error A * D) (d : D) : Prop :=
  shrinks d r.2 ∧ match r.1 with Err e => ¬ no_rows e | _ => True end.

Section table.
Context (c : Config D) (table marker : string) (pk : list string).
Let cfg (v : option key) : BatchConfig :=
  mkBatchConfig table pk v (Config_batchSize c) marker.
Let n : nat := Z.to_nat (Config_batchSize c).
Let empty_key : key := replicate (length pk) "".

(** The values the last key can have: the empty key, or the key of a row *)
Definition is_key (v : option key) : Prop :=
  match v with
  | None => True
  | Some v => v = empty_key ∨ ∃ d, v ∈ marked d
  end.

(** What the backfill relies on.  A transaction begins without changes of its
    own.  A batch locks and updates the first rows that are due, among those
    that are still marked by then ([m]), and returns the key of one of them
    (the order of [RETURNING] is not specified); it returns no row when none
    is due.  The changes last when the commit succeeds, and are lost or not
    when it fails.  The number of rows an [UPDATE] affected is known. *)
Record TableLaws : Prop := {
  law_order : StrictOrder key_lt;
  law_sorted d : StronglySorted key_lt (marked d);
  law_length d k : k ∈ marked d → length k = length pk;
  law_begin d : harmless (sql_Begin d) d ∧
    (is_ok (sql_Begin d).1 → seen (sql_Begin d).2 = marked (sql_Begin d).2);
  law_commit d : harmless (tx_Commit d) d ∧
    (is_ok (tx_Commit d).1 → sublist (marked (tx_Commit d).2) (seen d));
  law_rollback d : harmless (tx_Rollback d) d;
  law_wait k d : shrinks d (wait k d).2 ∧
    match (wait k d).1 with Some e => ¬ no_rows e | None => True end;
  law_duration k d : shrinks d (Duration k d).2;
  law_query q args d : shrinks d (sql_Query q args d).2;
  law_callbacks : Forall (λ cb : Z → Z → D → D, ∀ x y d, shrinks d (cb x y d)) (Config_callbacks c);
  law_batch v d : is_key v → seen d = marked d →
    let '(o, d') := tx_QueryRow (BuildSQL (cfg v)) d in
    shrinks d d' ∧
    match o with
    | Ok k => ∃ m, sublist m (marked d) ∧ sublist (seen d') m ∧ k ∈ take n (due v m) ∧
                ∀ k', k' ∈ take n (due v m) → k' ∉ seen d'
    | Err e => no_rows e → take n (due v (marked d')) = [] ∧ isLockNotAvailable e = false
    | _ => False
    end;
  law_marker d : seen d = marked d →
    let '(o, d') := tx_ExecAffected (needsBackfillColumnStmt table (Config_batchSize c) marker) d in
    shrinks d d' ∧
    match o with
    | Ok (Some m) => if decide (m = 0%Z) then take n (marked d') = []
                     else length (seen d') < length (marked d)
    | Err e => ¬ no_rows e
    | _ => False
    end;
}.

(** The first batch was refused for a lock. *)
Definition first_refused : Prop :=
  ∃ d e, (tx_QueryRow (BuildSQL (cfg None)) d).1 = Err e ∧ isLockNotAvailable e = true.

(** Whether the batches go by a key *)
Context (keyed : bool).

(** The rows a retry of the first batch misses *)
Definition missed (k : key) : Prop := keyed = true ∧ first_refused ∧ ¬ key_lt empty_key k.

(** Every call succeeds, the statements of a batch as long as rows are due. *)
Record Reliable : Prop := {
  ok_begin d : (sql_Begin d).1 = Ok ();
  ok_commit d : (tx_Commit d).1 = Ok ();
  ok_rollback d : (tx_Rollback d).1 = Ok ();
  ok_wait k d : (wait k d).1 = None;
  ok_batch v d : is_key v →
    (tx_QueryRow (BuildSQL (cfg v)) d).1 = Err ErrNoRows ∨
    is_ok (tx_QueryRow (BuildSQL (cfg v)) d).1;
  ok_marker d :
    is_ok (tx_ExecAffected (needsBackfillColumnStmt table (Config_batchSize c) marker) d).1;
}.

Context (HL : TableLaws) (Hn : (0 < Config_batchSize c)%Z).

(** The batcher between two batches: what is left lies above the last key,
    or is missed. *)
Definition above (v : option key) (d : D) : Prop :=
  match v with
  | None => True
  | Some v' => is_key v ∧ ∀ k, k ∈ marked d → key_lt v' k ∨ missed k
  end.
Definition batcher_inv (w : D * batcher) : Prop :=
  match w.2 with
  | pkBatcher b => keyed = true ∧ ∃ v, b = cfg v ∧ above v w.1
  | b => b = needsBackfillColumnBatcher table (Config_batchSize c) marker
  end.

(** The state at the end of a run *)
Definition done_with (w : D * batcher) : Prop :=
  match w.2 with
  | pkBatcher _ => ∀ k, k ∈ marked w.1 → missed k
  | _ => marked w.1 = []
  end.

Lemma above_key v d :
  above v d → is_key v.
Proof. destruct v as [v|]; [by intros []|done]. Qed.
Lemma is_key_length v : is_key (Some v) → length v = length pk.
Proof. intros [->|[d Hd]]; [apply length_replicate|by eapply (law_length HL)]. Qed.

Lemma above_shrinks v d d' : shrinks d d' → above v d → above v d'.
Proof.
  intros Hs. destruct v as [v|]; [|done]. intros [? Ha]. split; [done|].
  intros x Hx. apply Ha. by eapply elem_of_sublist.
Qed.

Lemma batcher_inv_shrinks d d' b : shrinks d d' → batcher_inv (d, b) → batcher_inv (d', b).
Proof.
  intros Hs. unfold batcher_inv. cbn. destruct b as [b|]; [|done]. intros (Hkeyed & v & -> & Hv).
  split; [done|]. exists v. split; [done|]. by eapply above_shrinks.
Qed.

Lemma done_with_shrinks d d' b : shrinks d d' → done_with (d, b) → done_with (d', b).
Proof.
  unfold done_with. cbn. intros Hs. destruct b as [b|].
  - intros Hd k Hk. apply Hd. by eapply elem_of_sublist.
  - intros Hd. apply sublist_nil_r. by rewrite <- Hd.
Qed.

Lemma take_batch_nil (l : list key) : take n l = [] → l = [].
Proof.
  intros Hl%(f_equal length). rewrite length_take in Hl.
  assert (0 < n) as Hpos by (unfold n; lia). destruct l; [done|]. cbn in Hl. lia.
Qed.

Lemma due_elem v l k : k ∈ due v l → k ∈ l.
Proof. destruct v; [|done]. by intros [_ ?]%list_elem_of_filter. Qed.
Lemma due_sorted v l : StronglySorted key_lt l → StronglySorted key_lt (due v l).
Proof. destruct v; [|done]. apply sorted_filter. Qed.

(** No row is due: what is marked is missed. *)
Lemma no_due_missed v d b : above v d → take n (due v (marked d)) = [] → done_with (d, pkBatcher b).
Proof.
  intros Ha Ht%take_batch_nil k Hk. cbn in Hk. destruct v as [v|]; cbn in Ht.
  - destruct Ha as [_ Ha]. destruct (Ha k Hk) as [Hlt|]; [|done].
    assert (k ∈ filter (key_lt v) (marked d)) as Hin by (by apply list_elem_of_filter).
    rewrite Ht in Hin. by apply elem_of_nil in Hin.
  - rewrite Ht in Hk. by apply elem_of_nil in Hk.
Qed.

(** A batch that returns, and is committed, leaves fewer rows, all above the
    key it returns or missed. *)
Lemma batch_progress v d m l k d' :
  above v d → sublist m (marked d) → sublist l m → k ∈ take n (due v m) →
  (∀ k', k' ∈ take n (due v m) → k' ∉ l) → sublist (marked d') l →
  above (Some k) d' ∧ length l < length (marked d).
Proof.
  intros Ha Hm Hl Hk Hgone Hd'.
  assert (k ∈ due v m) as Hdue by (rewrite <- (take_drop n (due v m)); apply elem_of_app; by left).
  pose proof (due_elem _ _ _ Hdue) as Hkm.
  split.
  - split; [right; exists d; by eapply elem_of_sublist|]. intros x Hx.
    assert (x ∈ l) as Hxl by (by eapply elem_of_sublist).
    assert (x ∈ m) as Hxm by (by eapply elem_of_sublist).
    destruct (decide (x ∈ due v m)) as [Hxd|Hxd].
    + left. assert (StronglySorted key_lt (due v m)) as Hsort.
      { by apply due_sorted, (sorted_sublist _ _ (marked d)), (law_sorted HL d). }
      rewrite <- (take_drop n (due v m)) in Hsort, Hxd.
      apply (StronglySorted_app_1_elem_of _ _ _ _ _ Hsort Hk).
      apply elem_of_app in Hxd as [Hin|]; [|done]. by destruct (Hgone x Hin).
    + right. destruct v as [v|]; [|done]. destruct Ha as [_ Ha].
      destruct (Ha x) as [Hlt|]; [by eapply elem_of_sublist| |done].
      destruct Hxd. by apply list_elem_of_filter.
  - eapply Nat.lt_le_trans; [|by apply sublist_length].
    apply (sublist_missing _ _ k); [done|done|by apply Hgone].
Qed.

(** ** One batch *)

Definition batch_ok (w : D * batcher) (o : outcome error ()) (w' : D * batcher) : Prop :=
  shrinks w.1 w'.1 ∧
  match o with
  | Ok _ => batcher_inv w' ∧ length (marked w'.1) < length (marked w.1)
  | Err e => no_rows e → done_with w'
  | _ => True
  end.

(** What the function of the transaction leaves: what it changed lasts when
    the transaction is committed. *)
Definition tx_ok (w : D * batcher) (o : outcome error ()) (w' : D * batcher) : Prop :=
  shrinks w.1 w'.1 ∧
  match o with
  | Ok _ => length (seen w'.1) < length (marked w.1) ∧
      ∀ d, sublist (marked d) (seen w'.1) → batcher_inv (d, w'.2)
  | Err e => (no_rows e → done_with w') ∧
      (isLockNotAvailable e = true → ¬ no_rows e ∧ batcher_inv w')
  | _ => True
  end.

Lemma batch_tx_spec w :
  batcher_inv w → seen w.1 = marked w.1 → tx_ok w (batch_tx w).1 (batch_tx w).2.
Proof.
  destruct w as [d [b|tb sz col]]; unfold batch_tx, mbind, prog_bind, gets; cbn [snd fst].
  - intros (Hkeyed & v & -> & Hv) Hseen. cbn in Hv. unfold pk_tx, set_batcher, modify, mbind, prog_bind.
    pose proof (law_batch HL v d (above_key _ _ Hv) Hseen) as Hb.
    cbn [tx_QueryRow SqlDB_prod on_fst].
    destruct (tx_QueryRow (BuildSQL (cfg v)) d) as [o d'] eqn:Hq. destruct Hb as [Hs Ho].
    destruct o as [k|e| |]; try done; cbn.
    + destruct Ho as (m & Hm & Hsm & Hk & Hgone).
      assert (∀ d1, sublist (marked d1) (seen d') → above (Some k) d1 ∧ length (seen d') < length (marked d))
        as Hprog by (intros d1 Hd1; by eapply batch_progress).
      assert (length k = length pk) as Hlen.
      { eapply (law_length HL d), elem_of_sublist; [|exact Hm]. apply (due_elem v).
        rewrite <- (take_drop n (due v m)). apply elem_of_app. by left. }
      replace (length k =? _)%nat with true; cbn.
      * split; [done|]. split.
        { eapply Nat.lt_le_trans; [|by apply (sublist_length _ _ Hm)].
          apply (sublist_missing _ _ k); [done| |by apply Hgone]. apply (due_elem v).
          rewrite <- (take_drop n (due v m)). apply elem_of_app. by left. }
        intros d1 Hd1. split; [done|]. exists (Some k). split; [by destruct v|]. by apply Hprog.
      * symmetry. apply Nat.eqb_eq. rewrite Hlen.
        destruct v as [v|]; cbn; [by rewrite (is_key_length v) by by apply (above_key _ d)|by rewrite length_replicate].
    + pose proof (above_shrinks _ _ _ Hs Hv) as Hv'. split; [done|]. split.
      * intros He. destruct (Ho He) as [Ht _]. by apply (no_due_missed v).
      * intros Hl. split; [intros He; destruct (Ho He); congruence|].
        split; [done|]. destruct v as [v|]; [by exists (Some v)|]. exists (Some empty_key). split; [done|].
        split; [by left|]. intros k _. destruct (decide (key_lt empty_key k)); [by left|].
        right. split; [done|]. split; [|done]. exists d, e. by rewrite Hq.
  - cbn. intros [= -> -> ->] Hseen. unfold marker_tx, mbind, prog_bind.
    cbn [tx_ExecAffected SqlDB_prod on_fst].
    pose proof (law_marker HL d Hseen) as Hm.
    destruct (tx_ExecAffected _ d) as [o d']. destruct Hm as [Hs Ho].
    destruct o as [[m|]|e| |]; try done; cbn.
    unfold fail_if. destruct (Z.eqb_spec m 0) as [->|Hm0]; cbn.
    + split; [done|]. split; [|done]. intros _. by apply take_batch_nil.
    + rewrite decide_False in Ho by done. by split.
Qed.

Lemma tx_attempt_spec w s :
  shrinks w.1 s.1 → batcher_inv s →
  match tx_attempt batch_tx s with
  | (Ok (inl a), s') => batch_ok w (Ok a) s'
  | (Ok (inr e), s') => (shrinks w.1 s'.1 ∧ batcher_inv s') ∧
      ∀ s'', shrinks w.1 s''.1 ∧ batcher_inv s'' → batch_ok w (Err e) s''
  | (Err e, s') => batch_ok w (Err e) s'
  | (Panic, s') => batch_ok w Panic s'
  | (OutOfFuel, s') => batch_ok w OutOfFuel s'
  end.
Proof.
  intros Hws Hinv. destruct s as [d b]. unfold tx_attempt, mbind, prog_bind, try.
  cbn [sql_Begin tx_Commit tx_Rollback SqlDB_prod on_fst].
  pose proof (law_begin HL d) as [[Hs1 He1] Hseen]. destruct (sql_Begin d) as [o1 d1]. cbn in Hs1, He1, Hseen.
  destruct o1 as [[]|e1| |]; cbn; try (by split; [by etrans|]).
  pose proof (batcher_inv_shrinks _ _ _ Hs1 Hinv) as Hinv1.
  destruct (batch_tx_spec (d1, b) Hinv1 (Hseen I)) as [Hs2 Ho2].
  destruct (batch_tx (d1, b)) as [o2 [d2 b2]]. cbn in Hs2, Ho2.
  assert (shrinks w.1 d2) as Hs by (etrans; [exact Hws|]; cbn; by etrans).
  destruct o2 as [[]|e2| |]; cbn; [| |by split..].
  - pose proof (law_commit HL d2) as [[Hs3 He3] Hc]. destruct (tx_Commit d2) as [o3 d3]. cbn in Hs3, He3, Hc.
    destruct Ho2 as [Hlt Hinv2]. destruct o3 as [[]|e3| |]; cbn; (split; [cbn; by etrans|]); try done.
    split; [by apply Hinv2, Hc|]. cbn.
    pose proof (sublist_length _ _ (Hc I)). pose proof (sublist_length _ _ Hs1).
    pose proof (sublist_length _ _ Hws). cbn in *. lia.
  - destruct Ho2 as [Hdone Hl2].
    pose proof (law_rollback HL d2) as [Hs3 He3]. destruct (tx_Rollback d2) as [o3 d3]. cbn in Hs3, He3.
    assert (shrinks w.1 d3) as Hs' by (by etrans).
    destruct o3 as [[]|e3| |]; cbn; try by split.
    unfold retryable. destruct (isLockNotAvailable e2) eqn:Hlock; cbn.
    + destruct (Hl2 eq_refl) as [Hnr Hinv2]. split.
      * split; [done|]. by apply (batcher_inv_shrinks d2).
      * intros s'' [Hs'' _]. by split.
    + split; [done|]. cbn. intros Hnr. by apply (done_with_shrinks d2), Hdone.
Qed.

Lemma updateBatch_spec rfuel r w :
  batcher_inv w → batch_ok w (updateBatch rfuel r w).1 (updateBatch rfuel r w).2.
Proof.
  intros Hinv. unfold updateBatch, RDB_WithRetryableTransaction, with_retries, gets, mbind, prog_bind.
  apply (retry_rule _ (λ s, shrinks w.1 s.1 ∧ batcher_inv s) (batch_ok w)); [..|by split].
  - intros s [Hs Hi]. by apply tx_attempt_spec.
  - intros k [d b] [Hs Hi]. cbn. pose proof (law_duration HL k d) as Hd.
    destruct (Duration k d) as [m d']. cbn in *. split; [by etrans|by eapply batcher_inv_shrinks].
  - intros k [d b] [Hs Hi]. cbn. pose proof (law_wait HL k d) as [Hd He].
    destruct (wait k d) as [[e|] d']; cbn in *.
    + split; [cbn; by etrans|done].
    + split; [by etrans|by eapply batcher_inv_shrinks].
  - intros s [Hs _]. by split.
Qed.

(** ** The loop *)

Lemma runCallbacks_spec w batch total :
  ∃ d', runCallbacks c batch total w = (Ok (), (d', w.2)) ∧ shrinks w.1 d'.
Proof.
  unfold runCallbacks. generalize (mul64 batch (Config_batchSize c)) as x. intros x.
  pose proof (law_callbacks HL) as Hcb. induction Hcb as [|cb l Hcb _ IH] in w |- *.
  - exists w.1. destruct w as [d b]. split; [done|]. cbn. unfold shrinks. done.
  - destruct w as [d b]. cbn [for_each]. unfold modify, mbind, prog_bind.
    destruct (IH (cb x total d, b)) as (d' & Heq & Hs). exists d'. split; [exact Heq|].
    etrans; [apply Hcb|exact Hs].
Qed.

Lemma batches_finish fuel rfuel r total batch w :
  batcher_inv w → (batches fuel rfuel r c total batch w).1 = Ok () →
  done_with (batches fuel rfuel r c total batch w).2.
Proof.
  induction fuel as [|fuel IH] in batch, w |- *; intros Hinv; [done|]. cbn [batches].
  destruct (runCallbacks_spec w batch total) as (d1 & Heq & Hs1).
  unfold mbind, prog_bind. rewrite Heq. unfold try. destruct w as [d b]. cbn [fst snd] in *.
  pose proof (batcher_inv_shrinks _ _ _ Hs1 Hinv) as Hinv1.
  destruct (updateBatch_spec rfuel r _ Hinv1) as [_ Ho].
  destruct (updateBatch rfuel r (d1, b)) as [[[]|e| |] [d2 b2]]; cbn in Ho; try done.
  - unfold pause. pose proof (law_wait HL (Config_batchDelay c) d2) as [Hs2 _].
    cbn [wait SqlDB_prod on_fst]. destruct (wait _ d2) as [[e|] d3]; [done|].
    apply IH. eapply batcher_inv_shrinks; [exact Hs2|apply Ho].
  - case_decide; [|done]. intros _. by apply Ho.
Qed.

(** ** Runs whose calls succeed *)

Lemma batch_tx_reliable w :
  Reliable → batcher_inv w → seen w.1 = marked w.1 →
  (batch_tx w).1 = Ok () ∨ (batch_tx w).1 = Err ErrNoRows.
Proof.
  intros HR Hinv Hseen. pose proof (batch_tx_spec w Hinv Hseen) as [_ Hok]. revert Hinv Hseen Hok.
  destruct w as [d [b|tb sz col]]; unfold batch_tx, mbind, prog_bind, gets; cbn [snd fst].
  - intros (_ & v & -> & Hv) Hseen _. cbn in Hv, Hseen. unfold pk_tx, set_batcher, modify, mbind, prog_bind.
    pose proof (law_batch HL v d (above_key _ _ Hv) Hseen) as Hb. pose proof (ok_batch HR v d (above_key _ _ Hv)) as Hok.
    cbn [tx_QueryRow SqlDB_prod on_fst].
    destruct (tx_QueryRow (BuildSQL (cfg v)) d) as [o d']. destruct Hb as [_ Ho].
    cbn [fst] in Hok. destruct Hok as [->|Hok]; [by right|]. destruct o as [k|e| |]; try done. left. cbn.
    destruct Ho as (m & Hm & _ & Hk & _). assert (k ∈ marked d) as Hkd.
    { eapply elem_of_sublist; [|exact Hm]. apply (due_elem v).
      rewrite <- (take_drop n (due v m)). apply elem_of_app. by left. }
    pose proof (law_length HL _ _ Hkd) as Hlen. replace (length k =? _)%nat with true; [done|].
    symmetry. apply Nat.eqb_eq. rewrite Hlen.
    destruct v as [v|]; cbn; [by rewrite (is_key_length v) by by apply (above_key _ d)|by rewrite length_replicate].
  - cbn. intros [= -> -> ->] Hseen _. unfold marker_tx, mbind, prog_bind. cbn [tx_ExecAffected SqlDB_prod on_fst].
    pose proof (law_marker HL d Hseen) as Hm. pose proof (ok_marker HR d) as Hok.
    destruct (tx_ExecAffected _ d) as [o d']. destruct Hm as [_ Ho].
    destruct o as [[m|]|e| |]; try done. cbn. unfold fail_if. destruct (m =? 0)%Z; [by right|by left].
Qed.

Lemma tx_attempt_reliable w :
  Reliable → batcher_inv w →
  (tx_attempt batch_tx w).1 = Ok (inl ()) ∨ (tx_attempt batch_tx w).1 = Err ErrNoRows.
Proof.
  intros HR Hinv. destruct w as [d b]. unfold tx_attempt, mbind, prog_bind, try.
  cbn [sql_Begin tx_Commit tx_Rollback SqlDB_prod on_fst].
  pose proof (ok_begin HR d) as Ho1. pose proof (law_begin HL d) as [[Hs1 _] Hseen].
  destruct (sql_Begin d) as [o1 d1]. cbn in Ho1, Hs1, Hseen. subst o1.
  pose proof (batcher_inv_shrinks _ _ _ Hs1 Hinv) as Hinv1.
  destruct (batch_tx_reliable (d1, b) HR Hinv1 (Hseen I)) as [Ho2|Ho2];
    destruct (batch_tx (d1, b)) as [o2 [d2 b2]]; cbn in Ho2; subst o2; cbn.
  - pose proof (ok_commit HR d2) as Ho3. destruct (tx_Commit d2) as [o3 d3]. cbn in Ho3. subst o3. by left.
  - pose proof (ok_rollback HR d2) as Ho3. destruct (tx_Rollback d2) as [o3 d3]. cbn in Ho3. subst o3. by right.
Qed.

Lemma updateBatch_reliable rfuel r w :
  Reliable → batcher_inv w → 0 < rfuel →
  (updateBatch rfuel r w).1 = Ok () ∨ (updateBatch rfuel r w).1 = Err ErrNoRows.
Proof.
  intros HR Hinv Hf. unfold updateBatch, RDB_WithRetryableTransaction, with_retries, gets.
  destruct rfuel as [|rfuel]; [lia|]. cbn [retry]. unfold mbind, prog_bind.
  destruct (tx_attempt_reliable w HR Hinv) as [Ho|Ho];
    destruct (tx_attempt batch_tx w) as [o w']; cbn in Ho; subst o; [by left|by right].
Qed.

Lemma batches_reliable fuel rfuel r total batch w :
  Reliable → batcher_inv w → 0 < rfuel → length (marked w.1) < fuel →
  (batches fuel rfuel r c total batch w).1 = Ok ().
Proof.
  intros HR. induction fuel as [|fuel IH] in batch, w |- *; intros Hinv Hrf Hf; [lia|]. cbn [batches].
  destruct (runCallbacks_spec w batch total) as (d1 & Heq & Hs1).
  unfold mbind, prog_bind. rewrite Heq. unfold try. destruct w as [d b]. cbn [fst snd] in *.
  pose proof (batcher_inv_shrinks _ _ _ Hs1 Hinv) as Hinv1.
  pose proof (updateBatch_spec rfuel r _ Hinv1) as [_ Ho].
  destruct (updateBatch_reliable rfuel r _ HR Hinv1 Hrf) as [Ho'|Ho'];
    destruct (updateBatch rfuel r (d1, b)) as [o [d2 b2]]; cbn in Ho, Ho'; subst o; [|done].
  unfold pause. pose proof (law_wait HL (Config_batchDelay c) d2) as [Hs2 _].
  pose proof (ok_wait HR (Config_batchDelay c) d2) as Hw.
  cbn [wait SqlDB_prod on_fst]. destruct (wait _ d2) as [[e|] d3]; [done|]. cbn in Hs2.
  destruct Ho as [Hinv2 Hlt]. cbn in Hlt.
  apply IH; [by apply (batcher_inv_shrinks d2)|done|].
  cbn. pose proof (sublist_length _ _ Hs1). pose proof (sublist_length _ _ Hs2). cbn in *. lia.
Qed.

(** ** The whole backfill of a table *)

Lemma queryFirst_shrinks {A} rfuel r (scan : Rows → A → outcome error A) dest g g' sql args d :
  shrinks d (queryFirst rfuel r scan dest g g' sql args d).2.
Proof.
  assert (shrinks d (RDB_QueryContext rfuel r sql args d).2) as Hq.
  { unfold RDB_QueryContext, with_retries, gets, mbind, prog_bind.
    apply (retry_rule _ (shrinks d) (λ _, shrinks d)); [..|reflexivity].
    - intros s Hs. unfold lock_attempt, try, retryable, mbind, prog_bind.
      pose proof (law_query HL sql args s) as Hq.
      destruct (sql_Query sql args s) as [[rows|e| |] s']; cbn in *; try (by etrans).
      destruct (isLockNotAvailable e); cbn; [split; [by etrans|done]|by etrans].
    - intros k s Hs. etrans; [exact Hs|]. apply (law_duration HL).
    - intros k s Hs. destruct (law_wait HL k s) as [Hw _].
      destruct (wait k s) as [[e|] s']; cbn in *; by etrans.
    - done. }
  unfold queryFirst, mbind, prog_bind, wrap_err.
  destruct (RDB_QueryContext rfuel r sql args d) as [[[rows|]|e| |] d']; cbn in *; try done.
  unfold lift. by destruct (scan rows dest).
Qed.

Lemma getRowCount_shrinks rfuel r name d : shrinks d (getRowCount rfuel r name d).2.
Proof.
  unfold getRowCount, mbind, prog_bind.
  match goal with |- context [queryFirst rfuel r ScanFirstValue_string ?a ?b ?e ?f ?g d] =>
    pose proof (queryFirst_shrinks rfuel r ScanFirstValue_string a b e f g d) as H1;
    destruct (queryFirst rfuel r ScanFirstValue_string a b e f g d) as [[s|e1| |] d1] end; cbn in H1; try done.
  match goal with |- context [queryFirst rfuel r ScanFirstValue_int64 ?a ?b ?e ?f ?g d1] =>
    pose proof (queryFirst_shrinks rfuel r ScanFirstValue_int64 a b e f g d1) as H2;
    destruct (queryFirst rfuel r ScanFirstValue_int64 a b e f g d1) as [[k|e2| |] d2] end; cbn in H2; try (by etrans).
  destruct (0 <? k)%Z; [by etrans|]. etrans; [exact H1|]. etrans; [exact H2|]. apply queryFirst_shrinks.
Qed.
End table.

Section start.
Context (fuel rfuel : nat) (r : RDB) (c : Config D) (scope : string) (t : Table)
  (ids : option (list string)) (d : D).
Context (Hids : getIdentityColumns t = Ok ids) (Hn : (0 < Config_batchSize c)%Z).
Context (HL : TableLaws c (Table_Name t) (NeedsBackfillColumnName scope) (default [] ids)).

Lemma newBatcher_inv d1 :
  batcher_inv c (Table_Name t) (NeedsBackfillColumnName scope) (default [] ids)
    (bool_decide (is_Some ids)) (d1, newBatcher c scope t ids).
Proof. destruct ids as [pk|]; [split; [done|]; by exists None|done]. Qed.

Lemma Backfill_Start_done :
  (Backfill_Start fuel rfuel r c scope t d).1 = Ok () →
  ∀ k, k ∈ marked (Backfill_Start fuel rfuel r c scope t d).2 →
    ∃ pk, ids = Some pk ∧ first_refused c (Table_Name t) (NeedsBackfillColumnName scope) pk ∧
      ¬ key_lt (replicate (length pk) "") k.
Proof.
  unfold Backfill_Start, mbind, prog_bind. rewrite Hids. unfold lift, wrap_err, with_batcher.
  destruct (getRowCount rfuel r (Table_Name t) d) as [[total|e| |] d']; try done.
  intros Hok. pose proof (batches_finish _ _ _ _ _ HL Hn fuel rfuel r total 0 _ (newBatcher_inv d')) as Hp.
  destruct (batches _ _ _ _ _ _ _) as [o [d'' b]]. specialize (Hp Hok). unfold done_with in Hp. cbn in Hp.
  intros k Hk. destruct b as [b|].
  - destruct (Hp k Hk) as (Hkeyed & Hr & Hlt). apply bool_decide_eq_true in Hkeyed as [pk Heq].
    rewrite Heq in Hr, Hlt. by exists pk.
  - cbn in Hk. rewrite Hp in Hk. by apply elem_of_nil in Hk.
Qed.

Lemma Backfill_Start_returns :
  Reliable c (Table_Name t) (NeedsBackfillColumnName scope) (default [] ids) →
  is_ok (getRowCount rfuel r (Table_Name t) d).1 → length (marked d) < fuel → 0 < rfuel →
  (Backfill_Start fuel rfuel r c scope t d).1 = Ok ().
Proof.
  unfold Backfill_Start, mbind, prog_bind. rewrite Hids. unfold lift, wrap_err, with_batcher.
  pose proof (getRowCount_shrinks _ _ _ _ HL rfuel r (Table_Name t) d) as Hs.
  destruct (getRowCount rfuel r (Table_Name t) d) as [[total|e| |] d']; cbn in Hs; try done.
  intros HR _ Hf Hrf.
  pose proof (batches_reliable _ _ _ _ _ HL Hn fuel rfuel r total 0 _ HR (newBatcher_inv d') Hrf) as Hp.
  destruct (batches _ _ _ _ _ _ _) as [o [d'' b]]. apply Hp. cbn.
  apply sublist_length in Hs. lia.
Qed.
End start.

End laws.

(** ** A table of text keys in memory

    The marked keys among [universe], those a transaction sees as marked, and
    the clock; a statement is recognised by its text.  [refused] says when the
    lock on the table cannot be had, [numeric] that the key's type has no empty
    value. *)

Definition universe : list (list string) := [[""]; ["a"]; ["b"]; ["c"]; ["d"]].
Definition key_order : relation (list string) := λ k k',
  match k, k' with [a], [b] => strict String.le a b | _, _ => False end.
#[local] Instance key_order_dec : RelDecision key_order.
Proof. intros [|a [|? ?]] [|b [|? ?]]; cbn; apply _. Defined.

Record TableDb := mkTableDb {
  td_committed : list (list string);
  td_own : list (list string);
  td_now : Z;
}.
Definition td_marked (d : TableDb) : list (list string) := filter (.∈ td_committed d) universe.
Definition td_seen (d : TableDb) : list (list string) := filter (.∈ td_own d) universe.
Definition td_unmark (ks : list (list string)) (d : TableDb) : TableDb :=
  mkTableDb (td_committed d) (filter (.∉ ks) (td_own d)) (td_now d).

Section TableDb.
Context (size : Z) (refused : TableDb → bool) (numeric : bool).
Definition td_cfg (v : option (list string)) : BatchConfig :=
  mkBatchConfig "users" ["id"] v size "_pgroll_needs_backfill".
Definition td_batch (v : option (list string)) (d : TableDb) : list (list string) :=
  take (Z.to_nat size) (due key_order v (td_seen d)).
Definition td_keys : list (option (list string)) := None :: (Some <$> universe).

Definition td_tick (n : Z) (d : TableDb) : TableDb :=
  mkTableDb (td_committed d) (td_own d) (td_now d + n).
Definition td_query (q : string) (d : TableDb) : outcome error (list string) * TableDb :=
  let d' := td_tick 1 d in
  if refused d then (Err (pqError "55P03" "canceling statement due to lock timeout"), d')
  else match find (λ v, String.eqb q (BuildSQL (td_cfg v))) td_keys with
  | None => (Err (pqError "42601" "syntax error"), d')
  | Some v =>
      if numeric && bool_decide (v = Some [""]) then
        (Err (pqError "22P02" "invalid input syntax for type integer"), d')
      else match last (td_batch v d) with
      | None => (Err ErrNoRows, d')
      | Some k => (Ok k, td_unmark (td_batch v d) d)
      end
  end.

#[local] Instance TableDb_sql : SqlDB TableDb := {|
  sql_Exec _ d := (Ok (), d);
  sql_Query q _ d :=
    (Ok (Some (mkRows [[if String.eqb q "select current_schema()" then VString "public" else VInt 4]] None)), d);
  sql_Begin d := (Ok (), mkTableDb (td_committed d) (td_committed d) (td_now d));
  tx_Exec _ d := (Ok (), d);
  tx_QueryRow := td_query;
  tx_ExecAffected _ d :=
    let b := take (Z.to_nat size) (td_seen d) in
    (Ok (Some (Z.of_nat (length b))), td_unmark b d);
  tx_Commit d :=
    (Ok (), mkTableDb (filter (.∈ td_own d) (td_committed d)) (td_own d) (td_now d));
  tx_Rollback d := (Ok (), mkTableDb (td_committed d) (td_committed d) (td_now d));
  now := td_now;
  wait n d := (None, td_tick n d);
  Duration n d := (1%Z, d);
  sql_expired d := (false, d);
|}.

Lemma td_cfg_inj v v' :
  match v with Some v => length v = 1 | None => True end →
  match v' with Some v => length v = 1 | None => True end →
  BuildSQL (td_cfg v) = BuildSQL (td_cfg v') → v = v'.
Proof.
  intros Hv Hv'. unfold BuildSQL, td_cfg. cbn [BatchConfig_TableName BatchConfig_PrimaryKey
    BatchConfig_LastValue BatchConfig_BatchSize BatchConfig_NeedsBackfillColumn].
  intros H. do 7 apply (inj (String.append _)) in H. revert H. unfold lastValueClause. cbn [BatchConfig_LastValue BatchConfig_PrimaryKey].
  destruct v as [[|k [|]]|], v' as [[|k' [|]]|]; try done.
  intros [H _]%app_inj_len; [|done]. do 3 apply (inj (String.append _)) in H.
  apply app_inj_len in H as [H _]; [|done]. cbn in H. injection H as H.
  apply app_inj_len in H as [-> _]; done.
Qed.

Lemma filter_shrinks {A} `{EqDecision A} (u l1 l2 : list A) :
  (∀ x, x ∈ l1 → x ∈ l2) → sublist (filter (.∈ l1) u) (filter (.∈ l2) u).
Proof.
  intros Hl. induction u as [|k u IH]; [done|]. rewrite !filter_cons.
  destruct (decide (k ∈ l1)) as [H1|H1], (decide (k ∈ l2)) as [H2|H2];
    [by constructor|destruct (H2 (Hl _ H1))|by constructor|done].
Qed.

Lemma unmark_sees ks d : sublist (td_seen (td_unmark ks d)) (td_seen d).
Proof. apply filter_shrinks. by intros x [_ ?]%list_elem_of_filter. Qed.
Lemma unmark_gone ks d k : k ∈ ks → k ∉ td_seen (td_unmark ks d).
Proof.
  intros Hk [Hin _]%list_elem_of_filter. cbn in Hin. by apply list_elem_of_filter in Hin as [? _].
Qed.

Lemma key_order_strict : StrictOrder key_order.
Proof.
  split.
  - intros [|a [|? ?]]; cbn; [intros []|intros Ha; by apply (irreflexivity (strict String.le) a)|intros []].
  - intros [|a [|? ?]] [|b [|? ?]] [|e [|? ?]]; cbn; try done. apply (transitivity (R := strict String.le)).
Qed.

Lemma td_sorted d : StronglySorted key_order (td_marked d).
Proof.
  apply sorted_filter. unfold universe.
  repeat (constructor; [|repeat (constructor; [split; decide_goal|]); constructor]). constructor.
Qed.

Lemma td_find v :
  v ∈ td_keys → find (λ v', String.eqb (BuildSQL (td_cfg v)) (BuildSQL (td_cfg v'))) td_keys = Some v.
Proof.
  assert (Forall (λ v : option (list string),
    match v with Some v => length v = 1 | None => True end) td_keys) as Hk by (repeat constructor).
  intros Hin. assert (match v with Some v => length v = 1 | None => True end) as Hv
    by (by eapply Forall_forall in Hk).
  revert Hin. induction Hk as [|v' l Hv' _ IH]; [by intros ?%elem_of_nil|]. cbn [find].
  destruct (String.eqb_spec (BuildSQL (td_cfg v)) (BuildSQL (td_cfg v'))) as [Heq|Hne].
  - by apply td_cfg_inj in Heq as ->.
  - intros [->|Hin]%elem_of_cons; [done|by apply IH].
Qed.

Lemma td_is_key v : is_key td_marked ["id"] v → v ∈ td_keys.
Proof.
  unfold td_keys. destruct v as [v|]; [|by left]. intros [->|[d [_ Hd]%list_elem_of_filter]]; right;
    apply list_elem_of_fmap; eexists; (split; [done|]); [by left|done].
Qed.

Lemma same_shrinks d d' : td_committed d' = td_committed d → shrinks td_marked d d'.
Proof. unfold shrinks, td_marked. by intros ->. Qed.

Lemma td_batch_law v d :
  v ∈ td_keys → td_seen d = td_marked d →
  let '(o, d') := td_query (BuildSQL (td_cfg v)) d in
  shrinks td_marked d d' ∧
  match o with
  | Ok k => ∃ m, sublist m (td_marked d) ∧ sublist (td_seen d') m ∧
      k ∈ take (Z.to_nat size) (due key_order v m) ∧
      ∀ k', k' ∈ take (Z.to_nat size) (due key_order v m) → k' ∉ td_seen d'
  | Err e => no_rows e → take (Z.to_nat size) (due key_order v (td_marked d')) = [] ∧
      isLockNotAvailable e = false
  | _ => False
  end.
Proof.
  intros Hv Hseen. unfold td_query. destruct (refused d).
  { split; [by apply same_shrinks|]. by intros [?|[]]. }
  rewrite td_find by done.
  destruct (_ && _); [split; [by apply same_shrinks|by intros [?|[]]]|].
  destruct (last (td_batch v d)) as [k|] eqn:Hl.
  - split; [by apply same_shrinks|]. apply last_Some_elem_of in Hl. exists (td_seen d).
    split; [by rewrite Hseen|]. split; [apply unmark_sees|]. split; [exact Hl|].
    intros k'. apply unmark_gone.
  - split; [by apply same_shrinks|]. intros _. split; [|done].
    apply last_None in Hl. unfold td_batch in Hl. by rewrite Hseen in Hl.
Qed.

Lemma td_marker_law d :
  td_seen d = td_marked d →
  let b := take (Z.to_nat size) (td_seen d) in
  if decide (Z.of_nat (length b) = 0%Z) then b = []
  else length (td_seen (td_unmark b d)) < length (td_marked d).
Proof.
  intros Hseen b. case_decide as Hb; [by apply length_zero_iff_nil, Nat2Z.inj|].
  destruct b as [|k l] eqn:Ht; [done|]. rewrite <- Hseen.
  apply (sublist_missing _ _ k); [apply unmark_sees| |by apply unmark_gone; left].
  eapply elem_of_sublist; [|apply (sublist_take _ (Z.to_nat size))]. fold b. rewrite Ht. left.
Qed.

Lemma td_laws c :
  size = Config_batchSize c → Config_callbacks c = [] →
  TableLaws (SqlDB0 := TableDb_sql) td_marked td_seen key_order c "users" "_pgroll_needs_backfill" ["id"].
Proof.
  intros Hsize Hcb. split.
  - apply key_order_strict.
  - apply td_sorted.
  - intros d k [_ Hk]%list_elem_of_filter. cut (Forall (λ k : list string, length k = 1) universe);
      [|unfold universe; by repeat constructor]. intros Hu. exact (proj1 (Forall_forall _ _) Hu k Hk).
  - intros d. split; [split; [by apply same_shrinks|done]|done].
  - intros d. split; [split; [|done]|intros _]; apply filter_shrinks; cbn;
      intros x [? ?]%list_elem_of_filter; done.
  - intros d. split; [by apply same_shrinks|done].
  - intros k d. split; [by apply same_shrinks|done].
  - intros k d. by apply same_shrinks.
  - intros q args d. by apply same_shrinks.
  - by rewrite Hcb.
  - intros v d Hv Hseen. rewrite <- Hsize. by apply td_batch_law; [apply td_is_key|].
  - intros d Hseen. cbn [tx_ExecAffected TableDb_sql]. rewrite <- Hsize.
    pose proof (td_marker_law d Hseen) as Hm. cbv zeta in Hm. split; [by apply same_shrinks|].
    case_decide; [|exact Hm]. change (td_marked (td_unmark _ d)) with (td_marked d). by rewrite <- Hseen.
Qed.

Lemma td_reliable c :
  size = Config_batchSize c → (∀ d, refused d = false) → numeric = false →
  Reliable (SqlDB0 := TableDb_sql) td_marked c "users" "_pgroll_needs_backfill" ["id"].
Proof.
  intros Hsize Href Hnum. split; try done.
  intros v d Hv. rewrite <- Hsize. change (mkBatchConfig _ _ _ _ _) with (td_cfg v).
  cbn [tx_QueryRow TableDb_sql]. unfold td_query. rewrite Href, Hnum, td_find by (by apply td_is_key).
  cbn. destruct (last _); [by right|by left].
Qed.
End TableDb.

Definition td_start : TableDb := mkTableDb [["c"]; ["a"]; ["d"]] [] 0.
Definition td_config : Config TableDb := NewConfig [WithBatchSize 2].

(** The lock is not to be had at first. *)
Definition td_locked (d : TableDb) : bool := (td_now d <? 1)%Z.


(** A first batch that is refused is retried from the empty key: where that is
    no value of the key's type the backfill fails although the lock is free
    again, and where it is the key of a row that row is missed. *)
Lemma first_retry_fails :
  (Backfill_Start (SqlDB0 := TableDb_sql 2 td_locked true) 9 9 (mkRDB 1000)
     td_config "" sample_users td_start).1 =
    Err (pqError "22P02" "invalid input syntax for type integer") ∧
  (Backfill_Start (SqlDB0 := TableDb_sql 2 (λ _, false) true) 9 9 (mkRDB 1000)
     td_config "" sample_users td_start).1 = Ok () ∧
  let run := Backfill_Start (SqlDB0 := TableDb_sql 2 td_locked false) 9 9 (mkRDB 1000)
     td_config "" sample_users (mkTableDb [[""]; ["a"]; ["d"]] [] 0) in
  run.1 = Ok () ∧ td_marked run.2 = [[""]].
Proof. by vm_compute. Qed.

(** With batches of no rows the backfill succeeds at once and reaches none. *)
Lemma empty_batches_skip_rows :
  let run := Backfill_Start (SqlDB0 := TableDb_sql 0 (λ _, false) false) 9 9 (mkRDB 1000)
    (NewConfig [WithBatchSize 0]) "" sample_users td_start in
  run.1 = Ok () ∧ td_marked run.2 = [["a"]; ["c"]; ["d"]].
Proof. by vm_compute. Qed.
