(* ===== verification/LifecycleInv.v ===== *)
(** * LifecycleInv: properties the lifecycle's helpers keep

    The helpers of the lifecycle execute statements, query the catalog and
    read the state store; what these keep, the helpers keep.  [Trace.v] uses it
    for properties of the log, [HistoryLogic.v] for the history. *)

From S2P Require Import Prelude.
From S2P Require Import GoStd.
From S2P Require Import Names.
From S2P Require Import Schema.
From S2P Require Import Types.
From S2P Require Import Db.
From S2P Require Import WorldFacts.
From S2P Require Import Actions.
From S2P Require Import Coordinator.
From S2P Require Import Backfill.
From S2P Require Import OpsBase.
From S2P Require Import Operations.
From S2P Require Import Migration.
From S2P Require Import OpsFacts.
From S2P Require Import Invert.
From S2P Require Import State.
From S2P Require Import Lifecycle.

(** ** Queries *)

Section queries.
Context `{!Pq} {D : Type} `{!DB D} (m : Roll D) (I : World D → Prop).
Context (Hquery : ∀ sql args, pres I (query sql args : M D _)).

Lemma pres_queryNames sql args e1 e2 e3 : pres I (queryNames sql args e1 e2 e3 : M D _).
Proof. unfold queryNames. pres_steps; apply Hquery. Qed.
Hint Resolve pres_queryNames : pgroll.
Lemma pres_hasVersionSchema live : pres I (hasVersionSchema m live).
Proof. unfold hasVersionSchema, ExistingVersionSchemas, versionSchemaNames. pres_steps. Qed.
End queries.

(** ** Statements *)

Section statements.
Context `{!Pq} {D : Type} `{!DB D} (m : Roll D) (I : World D → Prop) {HI : StoreInv I}.
Hint Extern 0 (StoreInv _) => exact HI : pgroll.

Lemma pres_coordinate fuel acts : pres I (coordinate fuel acts : M D _).
Proof. unfold coordinate, Coordinator_Execute, executeID. pres_steps. Qed.
Hint Resolve pres_coordinate : pgroll.
Lemma pres_dropVersionSchema mig : pres I (dropVersionSchema m mig).
Proof. apply inv_exec. Qed.
Lemma pres_DropVersionSchemasExcept keep : pres I (DropVersionSchemasExcept m keep).
Proof.
  unfold DropVersionSchemasExcept, versionSchemaNames.
  apply pres_bind; [apply pres_queryNames, inv_query|]. pres_steps.
Qed.
Lemma pres_ensureViews mig : pres I (ensureViews m mig).
Proof. unfold ensureViews, ensureView. pres_steps. Qed.
Lemma pres_completeOperations fuel mig c e : pres I (completeOperations fuel mig c e : M D _).
Proof. unfold completeOperations. pres_steps. Qed.
Lemma pres_rollbackOperations fuel mig : pres I (rollbackOperations fuel mig : M D _).
Proof. unfold rollbackOperations. pres_steps. Qed.
End statements.
#[export] Hint Resolve pres_coordinate pres_dropVersionSchema pres_DropVersionSchemasExcept
  pres_ensureViews pres_completeOperations pres_rollbackOperations : pgroll.

(** ** Properties of the database alone *)

Class DbInv {D} (I : World D → Prop) : Prop :=
  db_only w w' : w_db w' = w_db w → I w → I w'.

Section db_only.
Context {D : Type} (I : World D → Prop) {HI : DbInv I}.

Lemma pres_same_db {A} (p : M D A) : (∀ w, w_db (p w).2 = w_db w) → pres I p.
Proof. intros Hp w Hw. eapply db_only; [apply Hp|exact Hw]. Qed.
Lemma pres_use_schema p : pres I (use_schema p : M D _).
Proof. by apply pres_same_db. Qed.
Lemma pres_on_schema f : pres I (on_schema f : M D _).
Proof. by apply pres_same_db. Qed.
Lemma pres_virtually {A} (f : M () A) : pres I (virtually f : M D _).
Proof. apply pres_same_db. intros w. unfold virtually. by destruct (f _). Qed.
End db_only.
#[export] Hint Extern 1 (DbInv _) => apply _ : pgroll.
#[export] Hint Resolve pres_use_schema pres_on_schema pres_virtually : pgroll.

(** ** Properties of the database that reading the state store keeps *)

Class ReadInv {D} `{!DB D} `{!StateStore D} (m : Roll D) (I : World D → Prop) : Prop := {
  read_store :: StoreInv I;
  read_db :: DbInv I;
  read_ReadSchema : pres I (from_state m state_ReadSchema);
  read_SchemaAfterMigration n : pres I (from_state m (state_SchemaAfterMigration n));
  read_DeferredCompletes : pres I (from_state m state_DeferredCompletes);
  read_HasSealedDeferred : pres I (from_state m state_HasSealedDeferred);
  read_LatestMigration : pres I (from_state m state_LatestMigration);
  read_GetMigration n : pres I (from_state m (state_GetMigration n));
}.
#[export] Hint Resolve read_store read_ReadSchema read_SchemaAfterMigration read_DeferredCompletes
  read_HasSealedDeferred read_LatestMigration read_GetMigration : pgroll.

Section read.
Context `{!Pq} {D : Type} `{!DB D} `{!StateStore D} (m : Roll D) (I : World D → Prop).
Context {HI : ReadInv m I}.
Hint Extern 0 (ReadInv _ _) => exact HI : pgroll.

Lemma pres_readSchema ex : pres I (readSchemaWithDeferredExcluding m ex).
Proof.
  unfold readSchemaWithDeferredExcluding. pres_steps. apply pres_same_db; [apply _|done].
Qed.
Lemma pres_applyDeferredRenames ex : pres I (applyDeferredRenames m ex).
Proof. unfold applyDeferredRenames. pres_steps. Qed.
Hint Resolve pres_readSchema pres_applyDeferredRenames : pgroll.
Lemma pres_rollbackExpandPhase fuel mig parent : pres I (rollbackExpandPhase m fuel mig parent).
Proof. unfold rollbackExpandPhase. pres_steps. Qed.
End read.
#[export] Hint Resolve pres_readSchema pres_applyDeferredRenames pres_rollbackExpandPhase : pgroll.
