(* ===== verification/Rewrite.v ===== *)
(** * Rewrite: recording, pruning and anchoring history

    [stamp.go], [prune.go], [rebaseline.go], [baseline.go], [status.go],
    [materialize.go] and the remote half of [latest.go], over the interfaces
    [DB] and [StateStore]. *)

From S2P Require Import Prelude.
From S2P Require Import GoStd.
From S2P Require Import Names.
From S2P Require Import Schema.
From S2P Require Import Types.
From S2P Require Import Db.
From S2P Require Import OpsBase.
From S2P Require Import Operations.
From S2P Require Import Migration.
From S2P Require Import Invert.
From S2P Require Import LocalSet.
From S2P Require Import OpsJson.
From S2P Require Import Deps.
From S2P Require Import History.
From S2P Require Import State.
From S2P Require Import Lifecycle.

(** The encodings the package makes itself: operations ([OpsJson]),
    [json.Marshal] of a raw migration (its outcome only) and of a schema, and
    the hexadecimal SHA-256 of a migration's JSON *)
Class Codec := {
  codec_json :: OperationJson;
  MarshalRaw : RawMigration → outcome error ();
  MarshalSchema : snapshot → outcome error string;
  sha256_json : Migration → outcome error string;
}.

(** [roll.ErrRebaselineRefused] *)
Definition ErrRebaselineRefused_roll : error := Errorf "rebaseline refused" [].
Definition ErrNoMigrationApplied : error := Errorf "no migrations applied" [].
Definition ErrNoVersionSchema : error := Errorf "no version schemas found" [].

Inductive RebaselineOutcome :=
  | RebaselineConverted
  | RebaselineAlreadyBaseline
  | RebaselineDBBaselineNewer
  | RebaselineEmptyHistory
  | RebaselinePending.

(** Without the notes *)
Record RebaselineResult := mkRebaselineResult {
  Rebaseline_Outcome : RebaselineOutcome;
  Rebaseline_BaselineName : string;
  Rebaseline_DBBaseline : string;
}.

Inductive MigrationStatus :=
  | NoneMigrationStatus
  | InProgressMigrationStatus
  | CompleteMigrationStatus.

Record Status := mkStatus {
  Status_Schema : string;
  Status_Version : string;
  Status_Status : MigrationStatus;
}.

(** ** The marked baseline *)

Section marker.
Context `{!Dir}.

(** The loop over the files, [marked] being the marked one found so far *)
Fixpoint findBaseline (marked : option (string * RawMigration)) (files : list string) :
    outcome error (option (string * RawMigration)) :=
  match files with
  | [] => Ok marked
  | file :: files =>
      raw ← read_raw "reading migration file %q: %w" file;
      if negb raw.(RawMigration_Baseline) then findBaseline marked files
      else
        match marked with
        | Some (markedFile, _) =>
            Err (ErrorfW "%w: both %q and %q declare `baseline: true`; a directory has at most one baseline"
                   [markedFile; file] ErrRebaselineRefused_roll)
        | None => findBaseline (Some (file, raw)) files
        end
  end.

Definition FindBaselineMigration : outcome error RawMigration :=
  marked ← findBaseline None CollectFilesFromDir;
  match marked with
  | None =>
      Err (ErrorfW "%w: no migration declares `baseline: true`; rebaseline needs a marked baseline to anchor on"
             [] ErrRebaselineRefused_roll)
  | Some (markedFile, raw) =>
      match CollectFilesFromDir with
      | first :: _ =>
          if decide (markedFile = first) then Ok raw
          else Err (ErrorfW "%w: baseline %q is not the first migration in the directory (%q sorts before it)"
                      [markedFile; first] ErrRebaselineRefused_roll)
      | [] => Ok raw
      end
  end.
End marker.

Definition BaselineExecutionRefusedError (name : string) : error :=
  Errorf "refusing to execute baseline migration %q: it is marked `baseline: true`, a schema snapshot rather than a change to run, and this database already has migration history" [name].

Definition RefuseBaselineExecution (migs : list RawMigration) : outcome error () :=
  match List.find RawMigration_Baseline migs with
  | Some mig => Err (BaselineExecutionRefusedError mig.(RawMigration_Name))
  | None => Ok ()
  end.

Section Rewrite.
Context `{!Pq} {D : Type} `{!DB D} `{!StateStore D} `{!Codec}.
Context (m : Roll D).

(** ** Stamping *)

(** The migrations that have no row yet *)
Fixpoint stampTodo (migs : list RawMigration) : M D (list RawMigration) :=
  match migs with
  | [] => mret []
  | raw :: migs =>
      exists_ ← wrap_err (ErrorfW "stamp: %w" [])
                  (from_state m (state_MigrationExists raw.(RawMigration_Name)));
      if (exists_ : bool) then stampTodo migs
      else
        wrap_err (ErrorfW "stamp: marshalling migration %q: %w" [raw.(RawMigration_Name)])
          (lift (MarshalRaw raw)) ;;
        rest ← stampTodo migs; mret (raw :: rest)
  end.

(** The names stamped before an error are not returned with it here. *)
Fixpoint stampEach (sc : snapshot) (migrationType : string) (parent : option string)
    (todo : list RawMigration) : M D (list string) :=
  match todo with
  | [] => mret []
  | raw :: todo =>
      from_state m (state_Stamp raw (if decide (todo = []) then Some sc else None) parent
        (if raw.(RawMigration_Baseline) then MigrationTypeBaseline else migrationType)) ;;
      rest ← stampEach sc migrationType (Some raw.(RawMigration_Name)) todo;
      mret (raw.(RawMigration_Name) :: rest)
  end.

(** A pointer to an empty string is as good as nil. *)
Definition non_empty (s : option string) : option string :=
  match s with Some "" | None => None | Some s => Some s end.

Definition Roll_Stamp (migs : list RawMigration) (migrationType : string) : M D (list string) :=
  if decide (migs = []) then mret []
  else
    active ← wrap_err (ErrorfW "stamp: checking active migration period: %w" [])
               (from_state m state_IsActiveMigrationPeriod);
    fail_if active
      (Errorf "stamp: a migration is currently in progress on schema %q; run `pgroll rollback` first"
         [Roll_schema m]) ;;
    todo ← stampTodo migs;
    if decide (todo = []) then mret []
    else
      first ← wrap_err (ErrorfW "stamp: reading latest migration: %w" [])
                (from_state m state_LatestMigration);
      sc ← wrap_err (ErrorfW "stamp: reading live schema: %w" []) (from_state m state_ReadSchema);
      wrap_err (ErrorfW "stamp: marshalling live schema: %w" []) (lift (MarshalSchema sc)) ;;
      stampEach sc migrationType (non_empty first) todo.

(** ** Pruning *)

Definition PruneTargets (names : list string) : M D (list PruneTarget) :=
  if decide (names = []) then mret []
  else
    active ← wrap_err (ErrorfW "prune: checking active migration period: %w" [])
               (from_state m state_IsActiveMigrationPeriod);
    fail_if active
      (Errorf "prune: a migration is currently in progress on schema %q; complete it or run `pgroll rollback` first"
         [Roll_schema m]) ;;
    targets ← wrap_err (ErrorfW "prune: reading migrations: %w" [])
                (from_state m (state_PruneRows names));
    for_each (λ name,
      fail_if (negb (slices_Contains (PruneTarget_Name <$> targets) name))
        (Errorf "prune: migration %q not found in schema history for %q" [name; Roll_schema m])) names ;;
    for_each (λ t,
      fail_if (String.eqb t.(PruneTarget_MigrationType) MigrationTypeBaseline)
        (Errorf "prune: refusing to prune baseline migration %q" [t.(PruneTarget_Name)]) ;;
      fail_if (negb t.(PruneTarget_Done))
        (Errorf "prune: migration %q is in progress; use `pgroll rollback`" [t.(PruneTarget_Name)]))
      targets ;;
    mret targets.

Definition Roll_Prune (names : list string) : M D (list PruneTarget) :=
  targets ← PruneTargets names;
  if decide (targets = []) then mret []
  else
    (if Roll_disableVersionSchemas m then mret ()
     else
       for_each (λ t,
         let versionSchema := VersionedSchemaName (Roll_schema m) t.(PruneTarget_VersionSchema) in
         wrap_err (ErrorfW "prune: dropping version schema %q: %w" [versionSchema])
           (exec (dropSchemaSQL versionSchema))) targets) ;;
    from_state m (state_Prune (PruneTarget_Name <$> targets)) ;;
    mret targets.

(** ** Rebaselining *)

Definition Roll_CreateBaseline (baselineVersion : string) : M D () :=
  from_state m (state_CreateBaseline baselineVersion).

(** The comparison with the database's baseline, which may settle the run *)
Definition baselineDecided (marked : string) (dbBaseline : option (string * snapshot)) :
    option RebaselineResult :=
  match dbBaseline with
  | None => None
  | Some (name, _) =>
      if decide (name = marked) then
        Some (mkRebaselineResult RebaselineAlreadyBaseline marked name)
      else if String.ltb marked name then
        Some (mkRebaselineResult RebaselineDBBaselineNewer marked name)
      else None
  end.

Definition Rebaseline `{!Dir} (checkOnly : bool) : M D RebaselineResult :=
  marked ← lift FindBaselineMigration;
  let name := marked.(RawMigration_Name) in
  latest ← wrap_err (ErrorfW "rebaseline: reading latest migration: %w" [])
             (from_state m state_LatestMigration);
  if decide (non_empty latest = None) then mret (mkRebaselineResult RebaselineEmptyHistory name "")
  else
    dbBaseline ← wrap_err (ErrorfW "rebaseline: reading latest baseline: %w" [])
                   (from_state m state_LatestBaseline);
    match baselineDecided name dbBaseline with
    | Some result => mret result
    | None =>
        exists_ ← wrap_err (ErrorfW "rebaseline: checking for anchor row: %w" [])
                    (from_state m (state_MigrationExists name));
        fail_if (negb exists_)
          (ErrorfW "%w: baseline %q has no applied row in the history of schema %q. This database either predates the baseline — catch up by running `pgroll migrate` from a checkout that still has the pre-truncation migrations — or must be rebuilt. Refusing, because `pgroll migrate` would otherwise execute the baseline's full schema snapshot into a non-empty database"
             [name; Roll_schema m] ErrRebaselineRefused_roll) ;;
        conv ← wrap_err (λ e, if decide (errors_Is e ErrRebaselineRefused)
                              then JoinError ErrRebaselineRefused_roll e else e)
                 (from_state m (state_ConvertMigrationToBaseline name checkOnly));
        mret (mkRebaselineResult
                (if conv.(AlreadyBaseline) then RebaselineAlreadyBaseline
                 else if (checkOnly : bool) then RebaselinePending else RebaselineConverted)
                name (default "" (fst <$> dbBaseline)))
    end.

(** ** Status and materialization *)

Definition Roll_Status : M D Status :=
  latestVersion ← from_state m state_LatestVersion;
  let version := default "" latestVersion in
  isActive ← from_state m state_IsActiveMigrationPeriod;
  mret (mkStatus (Roll_schema m) version
          (if decide (version = "") then NoneMigrationStatus
           else if (isActive : bool) then InProgressMigrationStatus else CompleteMigrationStatus)).

(** [sc] is [None] when nil. *)
Definition Materialize (version : string) (sc : option snapshot) : M D () :=
  fail_if (bool_decide (version = "")) (Errorf "materialize: version name must not be empty" []) ;;
  match sc with
  | None => fail (Errorf "materialize: schema must not be nil" [])
  | Some sc =>
      use_schema sc ;;
      wrap_err (ErrorfW "materialize: %w" [])
        (ensureViews m (mkMigration version "" [] [] [] false false [] ""))
  end.

Definition LatestVersionRemote : M D string :=
  v ← wrap_err (ErrorfW "failed to get latest version: %w" []) (from_state m state_LatestVersion);
  require v ErrNoVersionSchema.
Definition LatestMigrationNameRemote : M D string :=
  v ← wrap_err (ErrorfW "failed to get latest migration name: %w" [])
        (from_state m state_LatestMigration);
  require v ErrNoMigrationApplied.

(** [ResolveMigrations] and [UnappliedMigrations] of the database *)
Definition Roll_ResolveMigrations `{!Dir} : M D Resolution :=
  history ← wrap_err (ErrorfW "reading schema history: %w" []) (from_state m state_SchemaHistory);
  baseline ← wrap_err (ErrorfW "reading baseline: %w" []) (from_state m state_LatestBaseline);
  lift (ResolveMigrations (names history) (fst <$> baseline) (Roll_target m)).
Definition Roll_UnappliedMigrations `{!Dir} : M D (list RawMigration) :=
  res ← Roll_ResolveMigrations; mret res.(Resolution_Apply).
End Rewrite.
