(* ===== verification/Check.v ===== *)
(** * Check: validating a migrations directory without a database

    [check.go]: the shape of every file, the dependency graph, target
    coverage, reversibility and the baseline marker ([CheckMigrationsDir]),
    and the order of new files against a base revision
    ([CheckBaseOrdering]).  The text of an issue is kept as the error
    constructor that prints it. *)

From S2P Require Import Prelude.
From S2P Require Import GoStd.
From S2P Require Import Names.
From S2P Require Import Schema.
From S2P Require Import Types.
From S2P Require Import Db.
From S2P Require Import Operations.
From S2P Require Import Migration.
From S2P Require Import LocalSet.
From S2P Require Import OpsJson.
From S2P Require Import Deps.
From S2P Require Import History.
From S2P Require Import Rewrite.

Record CheckIssue := mkCheckIssue { Issue_File : string; Issue_Message : error }.
Record CheckResult := mkCheckResult { Errors : list CheckIssue; Warnings : list CheckIssue }.

Definition HasErrors (r : CheckResult) : bool := (0 <? length (Errors r))%nat.
Definition addError (file : string) (msg : error) (r : CheckResult) : CheckResult :=
  mkCheckResult (Errors r ++ [mkCheckIssue file msg]) (Warnings r).
Definition addWarning (file : string) (msg : error) (r : CheckResult) : CheckResult :=
  mkCheckResult (Errors r) (Warnings r ++ [mkCheckIssue file msg]).

(** ** The parts of the check *)

(** The entries of a [targets] list, [seen] being those before *)
Fixpoint checkTargetEntries (file : string) (seen : gset string) (ts : list string)
    (result : CheckResult) : CheckResult :=
  match ts with
  | [] => result
  | t :: ts =>
      if String.eqb (TrimSpace t) "" then
        checkTargetEntries file seen ts
          (addError file (Errorf "'targets' contains an empty entry" []) result)
      else
        checkTargetEntries file ({[t]} ∪ seen) ts
          (if decide (t ∈ seen)
           then addError file (Errorf "'targets' lists %q more than once" [t]) result else result)
  end.

Definition checkTargets (file : string) (raw : RawMigration) (required : bool)
    (result : CheckResult) : CheckResult :=
  match raw.(RawMigration_Targets) with
  | None =>
      if required
      then addError file (Errorf "declares no `targets`, so a targeted run would refuse to apply it" []) result
      else result
  | Some [] =>
      addError file (Errorf "declares an empty 'targets' list; omit the field or name at least one target" []) result
  | Some ts => checkTargetEntries file ∅ ts result
  end.

(** A file that was read, with what it holds *)
Abbreviation parsedMig := (string * RawMigration)%type.

Definition emptyOperations (raw : RawMigration) : bool :=
  String.eqb raw.(RawMigration_Operations) "" || String.eqb raw.(RawMigration_Operations) "null"
  || String.eqb raw.(RawMigration_Operations) "[]".

(** The loop over the files *)
Fixpoint parseFiles `{!Dir} (requireTargets : bool) (files : list string) (result : CheckResult) :
    outcome error (CheckResult * list parsedMig) :=
  match files with
  | [] => Ok (result, [])
  | file :: files =>
      match ReadRawMigration file with
      | Err e =>
          parseFiles requireTargets files
            (addError file (ErrorfW "invalid syntax: %v" [] e) result)
      | Ok raw =>
          if emptyOperations raw then
            parseFiles requireTargets files
              (addError file (Errorf "missing or empty 'operations' field" []) result)
          else
            let schemaName := String.append "public_" raw.(RawMigration_Name) in
            let result :=
              if (63 <? String.length schemaName)%nat
              then addError file (Errorf "name too long: schema %q would be %d chars (max 63)" [schemaName]) result
              else result in
            '(result, parsed) ← parseFiles requireTargets files (checkTargets file raw requireTargets result);
            Ok (result, (file, raw) :: parsed)
      | Panic => Panic
      | OutOfFuel => OutOfFuel
      end
  end.

Definition each_dependency (parsed : list parsedMig)
    (f : parsedMig → string → CheckResult → CheckResult) (result : CheckResult) : CheckResult :=
  foldl (λ result p, foldl (λ result dep, f p dep result) result p.2.(RawMigration_DependsOn))
    result parsed.

Definition checkKnown (parsed : list parsedMig) : CheckResult → CheckResult :=
  let allNames : gset string := list_to_set (RawMigration_Name ∘ snd <$> parsed) in
  each_dependency parsed (λ p dep result,
    if decide (dep ∈ allNames) then result
    else addError p.1 (Errorf "depends_on target %q not found in migration set" [dep]) result).

(** [rawByName]: the last migration of a name wins *)
Definition rawByName (parsed : list parsedMig) : gmap string RawMigration :=
  foldl (λ m p, <[p.2.(RawMigration_Name) := p.2]> m) ∅ parsed.

Definition uncoveredBy (raw depRaw : RawMigration) : list string :=
  filter (λ t, slices_Contains (targets_of depRaw) t = false) (targets_of raw).

Definition checkCoverage (parsed : list parsedMig) : CheckResult → CheckResult :=
  each_dependency (filter (λ p, targets_of p.2 ≠ []) parsed) (λ p dep result,
    match rawByName parsed !! dep with
    | None => result
    | Some depRaw =>
        if decide (targets_of depRaw = []) then result
        else
          let uncovered := uncoveredBy p.2 depRaw in
          if decide (uncovered = []) then result
          else addError p.1
            (Errorf "depends_on %q does not declare target(s) %v, so on those targets it is skipped and this migration starts without it. Widen %q's targets to cover them, or drop the dependency if the ordering does not matter there"
               (dep :: uncovered ++ [dep])) result
    end).

(** The spellings of each target name up to case and white space.  The code
    ranges over a map, whose order is not specified; here it is the map's. *)
Definition targetVariants (parsed : list parsedMig) : gmap string (gset string) :=
  foldl (λ variants p,
    foldl (λ variants t,
      let key := ToLower (TrimSpace t) in
      <[key := {[t]} ∪ default ∅ (variants !! key)]> variants) variants (targets_of p.2))
    ∅ parsed.
Definition checkVariants (parsed : list parsedMig) (result : CheckResult) : CheckResult :=
  foldl (λ result kv,
    if (size kv.2 <? 2)%nat then result
    else addWarning ""
      (Errorf "target %q is spelled %d different ways across the directory (%v); pgroll matches target names verbatim, so these are distinct targets"
         (kv.1 :: slices_Sort (elements kv.2))) result)
    result (map_to_list (targetVariants parsed)).

Definition checkCycles (parsed : list parsedMig) (result : CheckResult) : outcome error CheckResult :=
  match TopoSortMigrations (snd <$> parsed) ∅ ∅ with
  | Ok _ => Ok result
  | Err e => Ok (addError "" (ErrorfW "dependency graph: %v" [] e) result)
  | Panic => Panic
  | OutOfFuel => OutOfFuel
  end.

(** [json.Unmarshal] fails on a syntax error and on another type. *)
Definition hasRawSQLOps `{!OperationJson} (ops : string) : bool :=
  match json_syntax ops, json_objects ops with
  | None, Some opList => existsb (λ op : gmap string string, bool_decide (is_Some (op !! "sql"))) opList
  | _, _ => false
  end.

Definition checkRawSQL `{!OperationJson} (parsed : list parsedMig) (result : CheckResult) : CheckResult :=
  foldl (λ result p,
    if negb (bool_decide (p.2.(RawMigration_Preconditions) = [])) then result
    else if hasRawSQLOps p.2.(RawMigration_Operations)
    then addWarning p.1 (Errorf "contains raw SQL operations without preconditions" []) result
    else result) result parsed.

Fixpoint checkReversibility `{!Codec} (parsed : list parsedMig) (result : CheckResult) :
    outcome error CheckResult :=
  match parsed with
  | [] => Ok result
  | p :: parsed =>
      match ParseMigration p.2 with
      | Err e => checkReversibility parsed (addError p.1 (ErrorfW "invalid operations: %v" [] e) result)
      | Ok mig =>
          match ValidateReversibility mig with
          | None => checkReversibility parsed result
          | Some e => checkReversibility parsed (addError p.1 e result)
          end
      | Panic => Panic
      | OutOfFuel => OutOfFuel
      end
  end.

(** One file of [checkBaselineMarker], and the marked files so far *)
Definition checkMarker (files : list string) (p : parsedMig) (acc : CheckResult * list string) :
    CheckResult * list string :=
  let '(result, marked) := acc in
  let '(file, raw) := p in
  let name := ToLower (MigrationNameFromFile file) in
  if negb raw.(RawMigration_Baseline) then
    (if Contains name "baseline"
     then addWarning file (Errorf "filename suggests a baseline but the file does not declare `baseline: true`; pgroll identifies baselines by the marker, not the filename" []) result
     else result, marked)
  else
    let result :=
      match files with
      | first :: _ =>
          if String.eqb file first then result
          else addError file (Errorf "declares `baseline: true` but is not the first migration in the directory (%q sorts before it); a baseline anchors the chain, so every other migration must sort after it" [first]) result
      | [] => result
      end in
    let result :=
      if raw.(RawMigration_Irreversible) then result
      else addError file (Errorf "declares `baseline: true` but not `irreversible: true`; a baseline is a schema snapshot with nothing behind it to revert to, so it must be marked irreversible" []) result in
    (result, marked ++ [file]).

Definition checkBaselineMarker (files : list string) (parsed : list parsedMig) (result : CheckResult) :
    CheckResult :=
  let '(result, marked) := foldl (λ acc p, checkMarker files p acc) (result, []) parsed in
  if (1 <? length marked)%nat
  then addError "" (Errorf "%d files declare `baseline: true` (%v); a directory has at most one baseline" marked) result
  else result.

Definition CheckMigrationsDir `{!Dir} `{!Codec} (requireTargets : bool) :
    outcome error CheckResult :=
  let files := CollectFilesFromDir in
  let result := mkCheckResult [] [] in
  if decide (files = []) then Ok result
  else
    '(result, parsed) ← parseFiles requireTargets files result;
    let result := checkVariants parsed (checkCoverage parsed (checkKnown parsed result)) in
    result ← checkCycles parsed result;
    result ← checkReversibility parsed (checkRawSQL parsed result);
    Ok (checkBaselineMarker files parsed result).

(** ** The order against a base revision *)

Definition targetsOverlap (a b : list string) : bool :=
  if decide (a = []) then true
  else if decide (b = []) then true
  else existsb (slices_Contains b) a.

(** The commands of git, with the working directory's migrations in [Dir],
    and the decoding of a file's [targets] *)
Class Git := {
  git_merge_base : string → outcome error string;
  git_ls_tree : string → string → outcome error string;
  git_added : string → string → outcome error string;
  git_show : string → string → string → outcome error string;
  yaml_targets : string → outcome error (list string);
}.

(** [strings.Split] at line feeds *)
Fixpoint split_lines (s : string) : list string :=
  match s with
  | "" => [""]
  | String c s =>
      if Ascii.eqb c "010"%char then "" :: split_lines s
      else match split_lines s with l :: ls => String c l :: ls | [] => [String c ""] end
  end.

(** [filepath.Ext] of a path *)
Fixpoint path_last_dot (s : string) : option string :=
  match s with
  | "" => None
  | String c s' =>
      match path_last_dot s' with
      | Some e => Some e
      | None => if Ascii.eqb c "."%char && negb (Contains s' "/") then Some s else None
      end
  end.
Definition path_Ext (path : string) : string := default "" (path_last_dot path).

(** [filepath.Base] *)
Fixpoint trim_slashes (s : string) : string :=
  match s with
  | "" => ""
  | String c s' =>
      match trim_slashes s' with
      | "" => if Ascii.eqb c "/"%char then "" else String c ""
      | t => String c t
      end
  end.
Fixpoint after_last_slash (s : string) : string :=
  match s with
  | "" => ""
  | String c s' =>
      if Contains s' "/" then after_last_slash s'
      else if Ascii.eqb c "/"%char then s' else String c s'
  end.
Definition filepath_Base (path : string) : string :=
  if String.eqb path "" then "."
  else match after_last_slash (trim_slashes path) with "" => "/" | base => base end.

Section base_ordering.
Context `{!Dir} `{!Git}.
Context (migrationsDir : string).

Definition is_migration_file (f : string) : bool :=
  slices_Contains [".yaml"; ".yml"; ".json"] (ToLower (path_Ext f)).

Definition readTargets (base : string) : list string :=
  match ReadRawMigration base with Ok raw => targets_of raw | _ => [] end.

Definition readTargetsForFiles (rev : string) (names : list string) : gmap string (list string) :=
  foldl (λ out name,
    match (blob ← git_show rev migrationsDir name; yaml_targets blob) with
    | Ok targets => <[name := targets]> out
    | _ => out
    end) ∅ names.

(** The newest base file the new file is compared with *)
Definition lastBaseFor (baseMigrations : list string) (baseTargets : gmap string (list string))
    (basename : string) : string :=
  let newTargets := readTargets basename in
  foldl (λ lastBase candidate,
    if String.leb basename candidate then lastBase
    else if negb (targetsOverlap newTargets (default [] (baseTargets !! candidate))) then lastBase
    else if String.ltb lastBase candidate then candidate else lastBase) "" baseMigrations.

Definition checkNewFile (baseMigrations : list string) (baseTargets : gmap string (list string))
    (basename : string) (result : CheckResult) : CheckResult :=
  let lastBase := lastBaseFor baseMigrations baseTargets basename in
  if String.eqb lastBase "" then result
  else addError basename
    (Errorf "sorts before or equal to base branch's latest migration %q — run pgroll rebase" [lastBase]) result.

Definition wrap {A} (format : string) (o : outcome error A) : outcome error A :=
  match o with Err e => Err (ErrorfW format [] e) | o => o end.

Definition CheckBaseOrdering (baseRef : string) : outcome error CheckResult :=
  mergeBase ← TrimSpace <$> wrap "git merge-base failed: %w" (git_merge_base baseRef);
  lsTree ← wrap "git ls-tree failed: %w" (git_ls_tree mergeBase migrationsDir);
  let baseFiles := filter (λ f, f ≠ "") (TrimSpace <$> split_lines (TrimSpace lsTree)) in
  let baseMigrations := filepath_Base <$> filter (λ f, is_migration_file f = true) baseFiles in
  if decide (baseMigrations = []) then Ok (mkCheckResult [] [])
  else
    let baseMigrations := slices_Sort baseMigrations in
    let baseTargets := readTargetsForFiles mergeBase baseMigrations in
    diff ← wrap "git diff failed: %w" (git_added mergeBase migrationsDir);
    let newFiles := filter (λ f, f ≠ "") (TrimSpace <$> split_lines (TrimSpace diff)) in
    Ok (foldl (λ result f, checkNewFile baseMigrations baseTargets (filepath_Base f) result)
          (mkCheckResult [] []) newFiles).
End base_ordering.
