(* ===== verification/Revert.v ===== *)
(** * Revert: walking the deployment in flight back

    [revert.go]: the revertible window, the bounded plan, and the walk that
    rolls back the newest migration and removes it from the history, one at a
    time. *)

From stdpp Require Import pretty.
From S2P Require Import Prelude.
From S2P Require Import GoStd.
From S2P Require Import Names.
From S2P Require Import Schema.
From S2P Require Import Types.
From S2P Require Import ErrorText.
From S2P Require Import Db.
From S2P Require Import Actions.
From S2P Require Import Coordinator.
From S2P Require Import OpsBase.
From S2P Require Import Operations.
From S2P Require Import Migration.
From S2P Require Import Invert.
From S2P Require Import LocalSet.
From S2P Require Import History.
From S2P Require Import State.
From S2P Require Import Lifecycle.

Definition ErrRevertTargetSealed : error := Errorf "revert target is sealed" [].

Inductive RevertTargetState := RevertStateInProgress | RevertStateDeferred | RevertStateApplied.

Record RevertTarget := mkRevertTarget {
  RevertTarget_Name : string;
  RevertTarget_State : RevertTargetState;
  RevertTarget_OperationCount : nat;
  RevertTarget_VersionSchema : string;
  RevertTarget_Parent : option string;
  RevertTarget_migration : Migration;
}.

(** [revertOptions]: [steps] is zero and [to] empty when not given *)
Record revertOptions := mkRevertOptions { ro_steps : Z; ro_to : string }.

(** The record's classification, or why it cannot be reverted *)
Definition revertState (r : MigrationRecord) : outcome error RevertTargetState :=
  if decide (rec_MigrationType r = MigrationTypeInferred) then
    Err (Errorf "migration %q was captured from DDL run outside pgroll and cannot be reverted; run `pgroll complete` to seal it"
           [rec_Name r])
  else if (rec_Migration r).(Migration_Irreversible) then
    Err (Errorf "migration %q is marked irreversible and cannot be reverted; run `pgroll complete` to seal the window"
           [rec_Name r])
  else if negb (rec_Done r) then Ok RevertStateInProgress
  else if rec_CompleteDeferred r then Ok RevertStateDeferred
  else if CompleteMustBeDeferred (rec_Migration r) then
    Err (Errorf "migration %q has completed destructive operations but is not sealed — a previous seal was interrupted; re-run `pgroll migrate` or `pgroll complete` to finish draining before reverting"
           [rec_Name r])
  else Ok RevertStateApplied.

Definition revertTarget (r : MigrationRecord) (s : RevertTargetState) : RevertTarget :=
  mkRevertTarget (rec_Name r) s (length (rec_Migration r).(Migration_Operations))
    (VersionSchemaName (rec_Migration r)) (rec_Parent r) (rec_Migration r).

(** The walk from [name] towards the parents: the targets and the number of
    records visited.  [fuel] bounds the walk by the number of records. *)
Fixpoint revertWalk (fuel : nat) (byName : gmap string MigrationRecord) (name : string) :
    outcome error (list RevertTarget * nat) :=
  match fuel with
  | 0 => OutOfFuel
  | S fuel =>
      match byName !! name with
      | None => Panic
      | Some r =>
          if decide (rec_MigrationType r = MigrationTypeBaseline) then Ok ([], 1)
          else
            s ← revertState r;
            let t := revertTarget r s in
            match rec_Parent r with
            | None => Ok ([t], 1)
            | Some p =>
                match byName !! p with
                | None => Ok ([t], 1)
                | Some _ =>
                    '(ts, visited) ← revertWalk fuel byName p; Ok (t :: ts, S visited)
                end
            end
      end
  end.

Definition recordsByName (records : list MigrationRecord) : gmap string MigrationRecord :=
  foldl (λ m r, <[rec_Name r := r]> m) ∅ records.

(** The part of [RevertTargets] after its two queries *)
Definition revertWindow (records : list MigrationRecord) (latest : option string) :
    outcome error (list RevertTarget) :=
  let byName := recordsByName records in
  match latest with
  | None => Err (Errorf "history has advanced past the revert window: the leaf %q is sealed but %d unsealed migration(s) sit beneath it (out-of-band DDL was captured, or history was stamped, while the window was open); run `pgroll complete` to seal the window" ["(none)"; decimal (length records)])
  | Some leaf =>
      match byName !! leaf with
      | None => Err (Errorf "history has advanced past the revert window: the leaf %q is sealed but %d unsealed migration(s) sit beneath it (out-of-band DDL was captured, or history was stamped, while the window was open); run `pgroll complete` to seal the window" [leaf; decimal (length records)])
      | Some _ =>
          '(targets, visited) ← revertWalk (length records) byName leaf;
          if Nat.eqb visited (length records) then Ok targets
          else
            let stray := rec_Name <$> filter (λ r, rec_Name r ∉ (RevertTarget_Name <$> targets : list string) ∧
                                                   rec_MigrationType r ≠ MigrationTypeBaseline) records in
            Err (Errorf "the revert window is not contiguous: unsealed migration(s) %v are not ancestors of the leaf %q; run `pgroll complete` to seal the window" [go_slice stray; leaf])
      end
  end.

Section Revert.
Context `{!Pq} {D : Type} `{!DB D} `{!StateStore D}.
Context (m : Roll D).

Definition RevertTargets : M D (list RevertTarget) :=
  records ← from_state m state_UnsealedMigrations;
  if decide (records = []) then mret []
  else
    latest ← wrap_err (ErrorfW "unable to determine latest migration: %w" [])
               (from_state m state_LatestMigration);
    lift (revertWindow records latest).

(** The targets above [to], when it is one of them *)
Fixpoint targetsAbove (to : string) (targets : list RevertTarget) : option (list RevertTarget) :=
  match targets with
  | [] => None
  | t :: targets =>
      if decide (RevertTarget_Name t = to) then Some []
      else cons t <$> targetsAbove to targets
  end.

(** The bound [to] when it names no target *)
Definition planSealedTo (to : string) (targets : list RevertTarget) : M D (list RevertTarget) :=
  let boundary := t ← last targets; RevertTarget_Parent t in
  if decide (boundary = Some to) then mret targets
  else
    latest ← wrap_err (ErrorfW "unable to determine latest migration: %w" [])
               (from_state m state_LatestMigration);
    if decide (latest = Some to) then mret []
    else
      exists_ ← from_state m (state_MigrationExists to);
      if (exists_ : bool) then
        fail (ErrorfW "migration %q is sealed: its contraction has run and a lossless revert cannot restore the prior state (the deepest lossless target is %q): %w"
                [to; default "(none)" (if decide (targets = []) then latest else boundary)]
                ErrRevertTargetSealed)
      else fail (Errorf "migration %q not found in history" [to]).

Definition RevertPlan (o : revertOptions) : M D (list RevertTarget) :=
  fail_if ((0 <? ro_steps o)%Z && negb (bool_decide (ro_to o = "")))
    (Errorf "revert bounds are mutually exclusive: specify steps or a target migration, not both" []) ;;
  fail_if (ro_steps o <? 0)%Z (Errorf "revert steps must be positive, got %d" [pretty (ro_steps o)]) ;;
  targets ← RevertTargets;
  if (0 <? ro_steps o)%Z then mret (take (Z.to_nat (ro_steps o)) targets)
  else if decide (ro_to o = "") then mret targets
  else
    match targetsAbove (ro_to o) targets with
    | Some above => mret above
    | None => planSealedTo (ro_to o) targets
    end.

(** ** The walk *)

Definition rollbackCompletedOperations (fuel : nat) (mig : Migration) : M D () :=
  for_each (λ op,
    actions ← wrap_err (ErrorfW "unable to collect actions for rollback operation: %w" [])
                (match RollbackCompleted op with Some rollback => rollback | None => Rollback op end);
    wrap_err (ErrorfW "unable to execute rollback operation: %w" []) (coordinate fuel actions))
    (reverse mig.(Migration_Operations)).

Definition revertMigration (fuel : nat) (t : RevertTarget) : M D () :=
  let mig := RevertTarget_migration t in
  match RevertTarget_State t with
  | RevertStateApplied =>
      dropVersionSchema m mig ;;
      wrap_err (ErrorfW "unable to read schema: %w" []) (readSchemaWithDeferred m) ;;
      on_schema (set_Schema_MigrationScope (MigrationScopeFor mig.(Migration_Name))) ;;
      rollbackCompletedOperations fuel mig
  | _ => rollbackExpandPhase m fuel mig (RevertTarget_Parent t)
  end ;;
  wrap_err (ErrorfW "unable to remove migration from history: %w" [])
    (from_state m (state_DeleteMigration mig.(Migration_Name))).

Definition ensureLeafVersionSchema : M D () :=
  if Roll_disableVersionSchemas m then mret ()
  else
    latest ← wrap_err (ErrorfW "unable to determine latest migration: %w" [])
               (from_state m state_LatestMigration);
    match latest with
    | None => mret ()
    | Some name =>
        leaf ← from_state m (state_GetMigration name);
        exists_ ← hasVersionSchema m leaf;
        if (exists_ : bool) then mret ()
        else
          wrap_err (ErrorfW "unable to read schema: %w" []) (readSchemaWithDeferred m) ;;
          ensureViews m leaf
    end.

Definition revertAll (fuel : nat) (targets : list RevertTarget) : M D () :=
  for_each (λ t,
    wrap_err (ErrorfW "unable to revert migration %q: %w" [RevertTarget_Name t])
      (revertMigration fuel t)) targets.

Definition Roll_Revert (fuel : nat) (o : revertOptions) : M D (list RevertTarget) :=
  targets ← RevertPlan o;
  revertAll fuel targets ;;
  (if decide (targets = []) then mret ()
   else wrap_err (ErrorfW "unable to materialize version schema for the new leaf: %w" [])
          ensureLeafVersionSchema) ;;
  mret targets.
End Revert.
