(* ===== verification/RevertSealed.v ===== *)
(** * RevertSealed: undoing sealed history by its inverses

    [revert_sealed.go]: the plan of the inverse train for a segment of sealed
    history, its execution through the ordinary expand and contract engine,
    the pruning that ends it, and the resumption of an interrupted run. *)

From S2P Require Import Prelude.
From S2P Require Import GoStd.
From S2P Require Import Names.
From S2P Require Import Schema.
From S2P Require Import Types.
From S2P Require Import ErrorText.
From S2P Require Import Db.
From S2P Require Import Backfill.
From S2P Require Import Operations.
From S2P Require Import Migration.
From S2P Require Import Invert.
From S2P Require Import LocalSet.
From S2P Require Import OpsJson.
From S2P Require Import History.
From S2P Require Import State.
From S2P Require Import Lifecycle.
From S2P Require Import Rewrite.
From S2P Require Import Revert.

Record SealedRevertPlan := mkSealedRevertPlan {
  Plan_Targets : list string;
  Plan_Boundary : string;
  Plan_BoundaryVersionSchema : string;
  Plan_Inverses : list Migration;
}.

Definition set_Migration_Targets (l : list string) (m : Migration) : Migration :=
  mkMigration m.(Migration_Name) m.(Migration_VersionSchema) m.(Migration_Operations)
    m.(Migration_DependsOn) m.(Migration_Preconditions) m.(Migration_Irreversible)
    m.(Migration_Baseline) l m.(Migration_RevertOf).
Definition set_Migration_VersionSchema (v : string) (m : Migration) : Migration :=
  mkMigration m.(Migration_Name) v m.(Migration_Operations)
    m.(Migration_DependsOn) m.(Migration_Preconditions) m.(Migration_Irreversible)
    m.(Migration_Baseline) m.(Migration_Targets) m.(Migration_RevertOf).

Definition pollutionMarkers : list string :=
  ["_pgroll_new_"; "_pgroll_needs_backfill"; "_pgroll_del_"; "_pgroll_dup_"].

(** [ContentHash], without the targets *)
Definition ContentHash `{!Codec} (mig : Migration) : outcome error string :=
  match sha256_json (set_Migration_Targets [] mig) with
  | Err e => Err (ErrorfW "unable to marshal migration %q for hashing: %w" [mig.(Migration_Name)] e)
  | o => o
  end.

(** The position of the row of a name in the history *)
Definition position (name : string) (history : list RawMigration) : option nat :=
  fst <$> list_find (λ h, h.(RawMigration_Name) = name) history.

(** The rows above the boundary and, when given, up to [through];
    [boundaryIdx] is [None] when the boundary is the baseline. *)
Definition segmentOf (history : list RawMigration) (boundaryIdx : option nat) (to through : string) :
    outcome error (list RawMigration) :=
  let lower := match boundaryIdx with Some i => S i | None => 0 end in
  if decide (through = "") then Ok (drop lower history)
  else
    match position through history with
    | None => Err (Errorf "migration %q not found in history" [through])
    | Some throughIdx =>
        if (throughIdx <? lower)%nat
        then Err (Errorf "migration %q is not above the boundary %q" [through; to])
        else Ok (drop lower (take (S throughIdx) history))
    end.

Definition invertible `{!Codec} (raw : RawMigration) : outcome error Migration :=
  match ParseMigration raw with
  | Err e => Err (ErrorfW "unable to parse migration %q: %w" [raw.(RawMigration_Name)] e)
  | Ok mig =>
      if mig.(Migration_Irreversible) then
        Err (Errorf "migration %q is marked irreversible and cannot be inverted" [mig.(Migration_Name)])
      else if decide (mig.(Migration_Operations) = []) then
        Err (Errorf "migration %q has no operations (inferred or stamped DDL?) and cannot be inverted"
               [mig.(Migration_Name)])
      else Ok mig
  | o => o
  end.

Definition polluted (snapshot : string) : bool := existsb (Contains snapshot) pollutionMarkers.

Definition parse_row `{!Codec} (raw : RawMigration) : outcome error Migration :=
  match ParseMigration raw with
  | Err e => Err (ErrorfW "unable to parse migration %q: %w" [raw.(RawMigration_Name)] e)
  | o => o
  end.

(** The loop of [FinishPendingSealedRevert], newest row first *)
Fixpoint findBoundary `{!Codec} (reverted : gset string) (rows : list RawMigration) :
    outcome error string :=
  match rows with
  | [] => Ok ""
  | raw :: rows =>
      mig ← parse_row raw;
      if decide (mig.(Migration_RevertOf) ≠ "") then findBoundary ({[mig.(Migration_RevertOf)]} ∪ reverted) rows
      else if decide (mig.(Migration_Name) ∈ reverted) then findBoundary reverted rows
      else Ok mig.(Migration_Name)
  end.

(** The loop of [finishSealedRevert]: the inverses above [to], newest first *)
Fixpoint inversesAbove `{!Codec} (to : string) (rows : list RawMigration) :
    outcome error (list Migration) :=
  match rows with
  | [] => Ok []
  | raw :: rows =>
      if decide (raw.(RawMigration_Name) = to) then Ok []
      else
        mig ← parse_row raw;
        rest ← inversesAbove to rows;
        Ok (if decide (mig.(Migration_RevertOf) ≠ "") then mig :: rest else rest)
  end.

Section RevertSealed.
Context `{!Pq} {D : Type} `{!DB D} `{!StateStore D} `{!Codec}.
Context (m : Roll D).

Definition planSealedSegment (to through : string) : M D (option SealedRevertPlan) :=
  history ← wrap_err (ErrorfW "unable to read schema history: %w" [])
              (from_state m state_SchemaHistoryWithInferred);
  let boundaryIdx := position to history in
  match boundaryIdx with
  | Some _ => mret ()
  | None =>
      baseline ← from_state m state_LatestBaseline;
      fail_if (negb (bool_decide (fst <$> baseline = Some to)))
        (Errorf "migration %q not found in history" [to])
  end ;;
  segment ← lift (segmentOf history boundaryIdx to through);
  if decide (segment = []) then mret None
  else
    forward ← lift (map_outcome invertible segment);
    boundarySchema ← wrap_err (ErrorfW "unable to read boundary snapshot for %q: %w" [to])
                       (from_state m (state_SchemaAfterMigration to));
    rawSnapshot ← lift (MarshalSchema boundarySchema);
    fail_if (polluted rawSnapshot)
      (Errorf "migration %q is not a clean train boundary (its snapshot contains in-flight pgroll artifacts); choose a deployment-final migration" [to]) ;;
    inverses ← lift (InvertSegment forward boundarySchema);
    boundaryMig ← from_state m (state_GetMigration to);
    mret (Some (mkSealedRevertPlan (reverse (Migration_Name <$> forward)) to
                  (VersionSchemaName boundaryMig) inverses)).

Definition PlanRevertSealed (to : string) : M D (option SealedRevertPlan) :=
  active ← try (from_state m state_GetActiveMigration);
  fail_if (match active with inl _ => true | inr _ => false end)
    (Errorf "a migration is in progress; complete or roll it back before reverting sealed history" []) ;;
  unsealed ← from_state m state_UnsealedMigrations;
  fail_if (negb (bool_decide (unsealed = [])))
    (Errorf "the revert window is open (%d unsealed migration(s)); revert it first with a plain revert" [decimal (length unsealed)]) ;;
  planSealedSegment to "".

Definition PlanRevertSealedBelowWindow (to through : string) : M D (option SealedRevertPlan) :=
  fail_if (bool_decide (through = ""))
    (Errorf "the sealed leg of a composed revert needs the window's lower boundary" []) ;;
  planSealedSegment to through.

(** [true] is a text that says what resuming will do. *)
Definition PendingSealedRevertResume : M D bool :=
  unsealed ← from_state m state_UnsealedMigrations;
  if decide (unsealed ≠ []) then
    mret (forallb (λ r, negb (String.eqb (rec_Migration r).(Migration_RevertOf) "")) unsealed)
  else
    latest ← from_state m state_LatestMigration;
    match latest with
    | None => mret false
    | Some name =>
        leaf ← from_state m (state_GetMigration name);
        mret (negb (String.eqb leaf.(Migration_RevertOf) ""))
    end.

Definition tombstoneOf (name : string) : M D Tombstone :=
  mig ← wrap_err (ErrorfW "unable to load reverted migration %q for its tombstone: %w" [name])
          (from_state m (state_GetMigration name));
  hash ← lift (ContentHash mig);
  mret (mkTombstone name hash).

Definition pruneSealedRevert (plan : SealedRevertPlan) : M D () :=
  tombstones ← map_each tombstoneOf (Plan_Targets plan);
  from_state m (state_RecordRevertedMigrations tombstones) ;;
  wrap_err (ErrorfW "unable to prune reverted history: %w" [])
    (from_state m (state_Prune (Plan_Targets plan ++ (Migration_Name <$> Plan_Inverses plan)))) ;;
  wrap_err (ErrorfW "unable to materialize the boundary's version schema: %w" [])
    (ensureLeafVersionSchema m).

(** The leaf of the history, when it is an inverse *)
Definition inverseLeaf : M D (option Migration) :=
  latest ← from_state m state_LatestMigration;
  match latest with
  | None => mret None
  | Some name =>
      leaf ← from_state m (state_GetMigration name);
      mret (if decide (leaf.(Migration_RevertOf) = "") then None else Some leaf)
  end.

Definition finishSealedRevert (to : string) : M D (option SealedRevertPlan) :=
  leaf ← inverseLeaf;
  match leaf with
  | None => mret None
  | Some _ =>
      history ← from_state m state_SchemaHistoryWithInferred;
      inverses ← lift (inversesAbove to (reverse history));
      if decide (inverses = []) then mret None
      else
        boundary ← try (from_state m (state_GetMigration to));
        let version := match boundary with inl mig => VersionSchemaName mig | inr _ => "" end in
        let plan := mkSealedRevertPlan (Migration_RevertOf <$> inverses) to version inverses in
        pruneSealedRevert plan ;; mret (Some plan)
  end.

Definition FinishPendingSealedRevert : M D (option SealedRevertPlan) :=
  leaf ← inverseLeaf;
  match leaf with
  | None => mret None
  | Some _ =>
      history ← from_state m state_SchemaHistoryWithInferred;
      boundary ← lift (findBoundary ∅ (reverse history));
      boundary ←
        (if decide (boundary = "") then
           baseline ← from_state m state_LatestBaseline;
           match baseline with
           | None => fail (Errorf "cannot finish the pending revert: no boundary found beneath the inverse train" [])
           | Some b => mret b.1
           end
         else mret boundary);
      finishSealedRevert boundary
  end.

(** ** The execution *)

(** The two methods of [Backfill] that [Start] calls *)
Context (CreateTriggers : Job → M D ()) (Backfill_Start : string → loc → M D ()).
Abbreviation Start := (Roll_Start m CreateTriggers Backfill_Start).

(** An inverse before the last: no version schema, its completion deferred
    when it must be *)
Definition applyInverse (fuel : nat) (inv : Migration) : M D () :=
  wrap_err (ErrorfW "unable to start inverse migration %q: %w" [inv.(Migration_Name)])
    (Start fuel inv (mkStartOptions true ∅)) ;;
  wrap_err (ErrorfW "unable to complete inverse migration %q: %w" [inv.(Migration_Name)])
    (Roll_Complete m fuel (if CompleteMustBeDeferred inv then mkCompleteOptions false true
                           else mkCompleteOptions true false)).

(** The train, the last inverse under the boundary's version schema; [true]
    when the caller is to stop after its expand phase *)
Fixpoint applyInverses (fuel : nat) (expandOnly : bool) (version : string) (invs : list Migration) :
    M D bool :=
  match invs with
  | [] => mret false
  | [inv] =>
      let inv := set_Migration_VersionSchema version inv in
      wrap_err (ErrorfW "unable to start inverse migration %q: %w" [inv.(Migration_Name)])
        (Start fuel inv (mkStartOptions false ∅)) ;;
      if expandOnly then mret true
      else
        wrap_err (ErrorfW "unable to complete inverse migration %q: %w" [inv.(Migration_Name)])
          (Roll_Complete m fuel (mkCompleteOptions false false)) ;;
        mret false
  | inv :: invs => applyInverse fuel inv ;; applyInverses fuel expandOnly version invs
  end.

(** The plan as it is returned: the last inverse has been given the version
    schema in place. *)
Definition executedPlan (plan : SealedRevertPlan) : SealedRevertPlan :=
  mkSealedRevertPlan (Plan_Targets plan) (Plan_Boundary plan) (Plan_BoundaryVersionSchema plan)
    (match reverse (Plan_Inverses plan) with
     | [] => []
     | inv :: invs => reverse (set_Migration_VersionSchema (Plan_BoundaryVersionSchema plan) inv :: invs)
     end).

(** A partial inverse train of an interrupted run is taken back. *)
Definition undoPartialTrain (fuel : nat) : M D () :=
  unsealed ← from_state m state_UnsealedMigrations;
  if negb (bool_decide (unsealed = []))
     && forallb (λ r, negb (String.eqb (rec_Migration r).(Migration_RevertOf) "")) unsealed
  then
    wrap_err (ErrorfW "unable to undo the partial inverse train: %w" [])
      (Roll_Revert m fuel (mkRevertOptions 0 "") ;; mret ())
  else mret ().

Definition RevertSealed (fuel : nat) (to : string) (expandOnly : bool) :
    M D (option SealedRevertPlan) :=
  undoPartialTrain fuel ;;
  done ← finishSealedRevert to;
  match done with
  | Some plan => mret (Some plan)
  | None =>
      plan ← PlanRevertSealed to;
      match plan with
      | None => mret None
      | Some plan =>
          stop ← applyInverses fuel expandOnly (Plan_BoundaryVersionSchema plan) (Plan_Inverses plan);
          let plan := executedPlan plan in
          (if (stop : bool) then mret () else pruneSealedRevert plan) ;; mret (Some plan)
      end
  end.
End RevertSealed.
