(* ===== verification/Plan.v ===== *)
(** * Plan: what it takes to converge a database to a directory

    [plan.go]: the execution-free description of the migrations to apply and
    to revert, over the planners of [Revert.v] and [RevertSealed.v]. *)

From S2P Require Import Prelude.
From S2P Require Import GoStd.
From S2P Require Import Names.
From S2P Require Import Schema.
From S2P Require Import Types.
From S2P Require Import ErrorText.
From S2P Require Import Db.
From S2P Require Import Operations.
From S2P Require Import Migration.
From S2P Require Import LocalSet.
From S2P Require Import Deps.
From S2P Require Import History.
From S2P Require Import State.
From S2P Require Import Lifecycle.
From S2P Require Import Rewrite.
From S2P Require Import Revert.
From S2P Require Import RevertSealed.

Record ApplyView := mkApplyView { Apply_Count : nat; Apply_Migrations : list string }.

Record RevertView := mkRevertView {
  Revert_Count : nat;
  Revert_Migrations : list string;
  Revert_To : option string;
  Revert_ToSchema : option string;
  Revert_Contiguous : bool;
  Revert_ContainsContracted : bool;
  Revert_WouldDropSchemas : list string;
}.

Record BlockedView := mkBlockedView {
  Blocked_Count : nat;
  Blocked_Reason : option string;
  Blocked_Migrations : list string;
}.

(** Without the field [Schema], a constant of the run *)
Record PlanResult := mkPlanResult {
  Plan_LiveSchema : option string;
  Plan_Status : MigrationStatus;
  Plan_ActiveMigration : option string;
  Plan_DBLatest : option string;
  Plan_LocalLatest : option string;
  Plan_Target : string;
  Plan_InSync : bool;
  Plan_Diverged : bool;
  Plan_Apply : ApplyView;
  Plan_Revert : RevertView;
  Plan_Blocked : BlockedView;
}.

Definition no_revert : RevertView := mkRevertView 0 [] None None true false [].
Definition not_blocked : BlockedView := mkBlockedView 0 None [].

Definition rawVersionSchemaName (raw : RawMigration) : string :=
  if decide (raw.(RawMigration_VersionSchema) = "") then raw.(RawMigration_Name)
  else raw.(RawMigration_VersionSchema).

(** The last row of a name wins. *)
Definition schemasByName (history : list RawMigration) : gmap string string :=
  foldl (λ m h, <[h.(RawMigration_Name) := rawVersionSchemaName h]> m) ∅ history.

Definition contains_any (msg : string) (parts : list string) : bool := existsb (Contains msg) parts.
Definition classifyBlockedReason `{!PqText} (err : error) : string :=
  let msg := Error err in
  if Contains msg "not found" then "target not found"
  else if contains_any msg ["irreversible"; "cannot be inverted"; "captured from DDL"; "no operations";
                            "not a clean train boundary"] then "inverse unavailable"
  else if contains_any msg ["not contiguous"; "not an ancestor"; "advanced past the revert window"]
  then "non-contiguous"
  else if contains_any msg ["in progress"; "window is open"; "not sealed"] then "window open"
  else "unavailable".

(** [inSync], of the parts of the result it reads *)
Definition inSync (dbLatest localLatest : option string) (apply revert blocked : nat)
    (status : MigrationStatus) (targeted : bool) : bool :=
  match status with
  | CompleteMigrationStatus =>
      if (negb (Nat.eqb apply 0) || negb (Nat.eqb revert 0) || negb (Nat.eqb blocked 0))%bool then false
      else if targeted then true
      else match dbLatest, localLatest with Some d, Some l => String.eqb d l | _, _ => false end
  | _ => false
  end.

(** The names above the last one that is local, and that one *)
Fixpoint convergence (localNames : gset string) (dbNames : list string) : option string * list string :=
  match dbNames with
  | [] => (None, [])
  | n :: dbNames =>
      match convergence localNames dbNames with
      | (Some to, suffix) => (Some to, suffix)
      | (None, suffix) => if decide (n ∈ localNames) then (Some n, suffix) else (None, n :: suffix)
      end
  end.

(** The names above [to]; all of them when it is the baseline *)
Fixpoint namesAbove (to : string) (dbNames : list string) : option (list string) :=
  match dbNames with
  | [] => None
  | n :: dbNames => if decide (n = to) then Some dbNames else namesAbove to dbNames
  end.

Section Plan.
Context `{!Pq} {D : Type} `{!DB D} `{!StateStore D} `{!Codec} `{!PqText}.
Context (m : Roll D).

Definition versionSchemasByName : M D (gmap string string) :=
  history ← wrap_err (ErrorfW "reading schema history: %w" []) (from_state m state_SchemaHistory);
  mret (schemasByName history).

Definition targetSchema (t : RevertTarget) : string :=
  VersionedSchemaName (Roll_schema m) (RevertTarget_VersionSchema t).

Definition windowView (plan : list RevertTarget) (boundary : option string) : M D RevertView :=
  let restoreName :=
    match boundary with
    | Some b => b
    | None => default "" (t ← last plan; RevertTarget_Parent t)
    end in
  '(to, toSchema) ←
    (if decide (restoreName = "") then mret (None, None)
     else
       mig ← wrap_err (ErrorfW "unable to resolve the restore target %q: %w" [restoreName])
               (from_state m (state_GetMigration restoreName));
       mret (Some restoreName, Some (VersionedSchemaName (Roll_schema m) (VersionSchemaName mig))));
  mret (mkRevertView (length plan) (RevertTarget_Name <$> plan) to toSchema true false
          (targetSchema <$> plan)).

Definition composedRevertView (to : string) (byName : option (gmap string string)) : M D RevertView :=
  windowTargets ← RevertTargets m;
  sealed ←
    match last windowTargets with
    | Some oldest =>
        match RevertTarget_Parent oldest with
        | None => fail (Errorf "migration %q not found beneath the in-flight window" [to])
        | Some parent => PlanRevertSealedBelowWindow m to parent
        end
    | None => PlanRevertSealed m to
    end;
  match sealed with
  | None =>
      mret (mkRevertView (length windowTargets) (RevertTarget_Name <$> windowTargets) (Some to) None
              true true (targetSchema <$> windowTargets))
  | Some plan =>
      byName ← match byName with Some byName => mret byName | None => versionSchemasByName end;
      let schemaOf name :=
        VersionedSchemaName (Roll_schema m)
          (match (byName : gmap string string) !! name with
           | Some v => if decide (v = "") then name else v
           | None => name
           end) in
      let migs := (RevertTarget_Name <$> windowTargets) ++ Plan_Targets plan in
      mret (mkRevertView (length migs) migs (Some (Plan_Boundary plan))
              (Some (VersionedSchemaName (Roll_schema m) (Plan_BoundaryVersionSchema plan))) true true
              ((targetSchema <$> windowTargets) ++ (schemaOf <$> Plan_Targets plan)))
  end.

Definition previewRevertTo (to : string) (byName : option (gmap string string)) : M D RevertView :=
  plan ← try (RevertPlan m (mkRevertOptions 0 to));
  match plan with
  | inl plan => windowView plan (Some to)
  | inr e =>
      if decide (errors_Is e ErrRevertTargetSealed) then composedRevertView to byName else fail e
  end.

Definition PreviewRevert (o : revertOptions) : M D RevertView :=
  if decide (ro_to o = "") then plan ← RevertPlan m o; windowView plan None
  else previewRevertTo (ro_to o) None.

(** The revert leg of a plan, or why there is none *)
Definition fillRevertLeg (to : string) (candidates : list string) (byName : gmap string string) :
    M D (RevertView * BlockedView) :=
  view ← try (previewRevertTo to (Some byName));
  match view with
  | inl view => mret (view, not_blocked)
  | inr e =>
      mret (mkRevertView 0 [] None None false false [],
            mkBlockedView (Nat.max 1 (length candidates)) (Some (classifyBlockedReason e)) candidates)
  end.

(** The revert leg towards the newest shared migration *)
Definition convergeLeg (baselineName : string) (shared : option string) (suffix : list string)
    (byName : gmap string string) : M D (RevertView * BlockedView) :=
  if decide (suffix = []) then mret (no_revert, not_blocked)
  else
    match shared with
    | Some to => fillRevertLeg to suffix byName
    | None =>
        if decide (baselineName = "") then
          mret (mkRevertView 0 [] None None false false [],
                mkBlockedView (length suffix) (Some "no convergence target") suffix)
        else fillRevertLeg baselineName suffix byName
    end.

(** [o_to] is the option of [WithPlanTo], empty when not given. *)
Definition Plan `{!Dir} (o_to : string) : M D PlanResult :=
  status ← wrap_err (ErrorfW "reading status: %w" []) (Roll_Status m);
  dbLatest ← wrap_err (ErrorfW "reading latest migration: %w" []) (from_state m state_LatestMigration);
  history ← wrap_err (ErrorfW "reading schema history: %w" []) (from_state m state_SchemaHistory);
  baseline ← wrap_err (ErrorfW "reading baseline: %w" []) (from_state m state_LatestBaseline);
  let dbNames := names history in
  let dbSet : gset string := list_to_set dbNames in
  let byName := schemasByName history in
  let baselineName := default "" (fst <$> baseline) in
  let target := Roll_target m in
  local ← wrap_err (ErrorfW "reading local migrations: %w" [])
            (lift (resolveLocalSet baselineName dbSet target));
  let localNames : gset string := list_to_set (names local.(All)) in
  let localLatest := RawMigration_Name <$> last local.(Selected) in
  let diverged :=
    match dbLatest, localLatest with
    | Some d, Some l => bool_decide (d ∉ localNames) && bool_decide (l ∉ dbSet)
    | _, _ => false
    end in
  let result (apply : list string) (leg : RevertView * BlockedView) :=
    mkPlanResult
      (if decide (status.(Status_Version) = "") then None
       else Some (VersionedSchemaName (Roll_schema m) status.(Status_Version)))
      status.(Status_Status)
      (match status.(Status_Status) with InProgressMigrationStatus => dbLatest | _ => None end)
      dbLatest localLatest target
      (inSync dbLatest localLatest (length apply) (Revert_Count leg.1) (Blocked_Count leg.2)
         status.(Status_Status) (negb (String.eqb target "")))
      diverged (mkApplyView (length apply) apply) leg.1 leg.2 in
  if decide (o_to ≠ "") then
    fail_if (bool_decide (o_to ∉ dbSet) && negb (String.eqb o_to baselineName))
      (Errorf "--to target %q not found in database history" [o_to]) ;;
    leg ← fillRevertLeg o_to (default dbNames (namesAbove o_to dbNames)) byName;
    mret (result [] leg)
  else
    sorted ← wrap_err (ErrorfW "ordering unapplied migrations: %w" [])
               (lift (TopoSortMigrations
                        (filter (λ raw, raw.(RawMigration_Name) ∉ dbSet) local.(Selected))
                        dbSet local.(Excluded)));
    let '(shared, suffix) := convergence localNames dbNames in
    let interleaved := filter (λ n, n ∉ localNames ∧ n ∉ suffix) dbNames in
    '(revert, blocked) ← convergeLeg baselineName shared suffix byName;
    let blocked :=
      if decide (interleaved ≠ [] ∧ Blocked_Count blocked = 0)
      then mkBlockedView (length interleaved) (Some "non-contiguous") interleaved else blocked in
    mret (result (names sorted) (revert, blocked)).
End Plan.

(** The verdict [pgroll plan] prints above the plan *)
Definition planHeadline (p : PlanResult) : string :=
  if Plan_InSync p then "IN SYNC"
  else if (0 <? Blocked_Count (Plan_Blocked p))%nat then "BLOCKED"
  else if Plan_Diverged p then "DIVERGED"
  else if (0 <? Apply_Count (Plan_Apply p))%nat && (0 <? Revert_Count (Plan_Revert p))%nat then "CONVERGE"
  else if (0 <? Revert_Count (Plan_Revert p))%nat then "REVERT"
  else if (0 <? Apply_Count (Plan_Apply p))%nat then "APPLY"
  else "NOTHING TO DO".
