(* ===== verification/Migrate.v ===== *)
(** * Migrate: the commands that apply migrations

    [pgroll migrate], [start], [complete] and [rollback] ([cmd/migrate.go],
    [start.go], [complete.go], [rollback.go]) after the connection is set up.
    What a command prints is kept as far as it says which way the run went;
    the pre-flight report is reduced to the state it finds. *)

From stdpp Require Import pretty.
From S2P Require Import Prelude.
From S2P Require Import GoStd.
From S2P Require Import Names.
From S2P Require Import Schema.
From S2P Require Import Types.
From S2P Require Import ErrorText.
From S2P Require Import Db.
From S2P Require Import Backfill.
From S2P Require Import Operations.
From S2P Require Import Migration.
From S2P Require Import LocalSet.
From S2P Require Import OpsJson.
From S2P Require Import Deps.
From S2P Require Import History.
From S2P Require Import State.
From S2P Require Import Lifecycle.
From S2P Require Import Rewrite.
From S2P Require Import Revert.
From S2P Require Import RevertSealed.

(** ** The bound of [--to] *)

(** [pull]: the dependencies of [name] that this run applies join the bound.
    The closure recurses at most once per migration of the run. *)
Fixpoint pull (fuel : nat) (inRun : gmap string RawMigration) (bound : gset string)
    (name : string) : outcome error (gset string) :=
  match fuel with
  | 0 => OutOfFuel
  | S fuel =>
      match inRun !! name with
      | None => Ok bound
      | Some rm =>
          foldl_outcome (λ bound dep,
            if decide (dep ∈ bound) then Ok bound
            else if decide (inRun !! dep = None) then Ok bound
            else pull fuel inRun ({[dep]} ∪ bound) dep) bound rm.(RawMigration_DependsOn)
      end
  end.

(** The range over the map [bound] may or may not visit what is added on the
    way; here it does not. *)
Definition closeBound (inRun : gmap string RawMigration) (bound : gset string) :
    outcome error (gset string) :=
  foldl_outcome (pull (S (size inRun)) inRun) bound (elements bound).

Definition boundTrain (rawMigs all : list RawMigration) (idx : nat) :
    outcome error (list RawMigration) :=
  let inRun := index_by_name (λ _ m, m) rawMigs in
  bound ← closeBound inRun (list_to_set (names (take (S idx) all)));
  Ok (filter (λ rm, RawMigration_Name rm ∈ bound) rawMigs).

(** ** The state of the deployment *)

Inductive cycleState :=
  | cycleFresh
  | cycleIncremental
  | cycleRecovery
  | cycleInProgress
  | cycleInterrupted
  | cycleAwaitingComplete
  | cycleNoOp.

Definition classifyCycle (activePeriod : bool) (otherBackends : Z) (remaining applied : nat)
    (stateInSync expandComplete : bool) : cycleState :=
  if activePeriod && (0 <? otherBackends)%Z then cycleInProgress
  else if activePeriod && expandComplete && (remaining =? 0)%nat then cycleAwaitingComplete
  else if activePeriod then cycleInterrupted
  else if (remaining =? 0)%nat then cycleNoOp
  else if stateInSync && (applied =? 0)%nat then cycleFresh
  else if stateInSync then cycleIncremental
  else cycleRecovery.

(** The errors of all migrations that do not parse, joined *)
Fixpoint parseAll `{!Codec} (migs : list RawMigration) (errs : option error) :
    outcome error (list Migration * option error) :=
  match migs with
  | [] => Ok ([], errs)
  | raw :: migs =>
      match ParseMigration raw with
      | Ok mig => '(rest, errs) ← parseAll migs errs; Ok (mig :: rest, errs)
      | Err e =>
          let errs := match errs with None => e | Some es => JoinError es e end in
          '(rest, errs) ← parseAll migs (Some errs); Ok (rest, errs)
      | Panic => Panic
      | OutOfFuel => OutOfFuel
      end
  end.

Definition parseMigrations `{!Codec} (migs : list RawMigration) : outcome error (list Migration) :=
  '(parsed, errs) ← parseAll migs None;
  match errs with
  | Some e => Err (ErrorfW "incompatible migration(s): %w" [] e)
  | None => Ok parsed
  end.

(** The refusal of a migration whose file a sealed revert has undone *)
Fixpoint checkTombstones `{!Codec} (tombstones : gmap string string) (migs : list Migration) :
    outcome error () :=
  match migs with
  | [] => Ok ()
  | mig :: migs =>
      match tombstones !! mig.(Migration_Name) with
      | None => checkTombstones tombstones migs
      | Some want =>
          hash ← ContentHash mig;
          if decide (hash = want) then
            Err (Errorf "migration %q was undone by a sealed revert and its content is unchanged; re-applying would re-run the reverted DDL. Edit the migration to confirm intent, or remove it from the migrations directory"
                   [mig.(Migration_Name)])
          else checkTombstones tombstones migs
      end
  end.

(** ** The connections *)

(** One row from the state store's own connection *)
Class StateConn (D : Type) :=
  state_QueryRow : string → list string → D → outcome error (list sqlval) * D.

(** What a run of [migrate] that returns no error has done *)
Inductive migrateResult :=
  | NeedsBaseline
  | AlreadyAt
  | AwaitingComplete
  | CompletedPending
  | UpToDate
  | AppliedTrain (migs : list Migration).

Record migrateFlags := mkMigrateFlags {
  flag_complete : bool;
  flag_expectOne : bool;
  flag_to : string;
}.

Section Migrate.
Context `{!Pq} {D : Type} `{!DB D} `{!StateStore D} `{!StateConn D} `{!Codec} `{!Dir}.
Context (m : Roll D).
Context (CreateTriggers : Job → M D ()) (Backfill_Start : string → loc → M D ()).

(** ** Sessions *)

Definition scan_int (row : list sqlval) : outcome error Z :=
  match row with [VInt n] => Ok n | _ => Err scan_error end.

Definition State_BackendPID : M D Z :=
  wrap_err (ErrorfW "reading pg_backend_pid: %w" [])
    (row ← on_state (state_QueryRow "SELECT pg_backend_pid()" []); lift (scan_int row)).

(** [pq.Array] of the process ids *)
Definition pid_array (pids : list Z) : string := "{" +:+ Join (pretty <$> pids) "," +:+ "}".

Definition OtherPgrollBackends (excludePIDs : list Z) : M D Z :=
  wrap_err (ErrorfW "counting pgroll backends: %w" [])
    (row ← on_state (state_QueryRow "
		SELECT count(*)
		FROM pg_stat_activity
		WHERE application_name IN ('pgroll', 'pgroll-state')
		  AND datname = current_database()
		  AND pid <> ALL($1)" [pid_array excludePIDs]);
     lift (scan_int row)).

Definition Roll_BackendPID : M D Z :=
  let reading := ErrorfW "reading pg_backend_pid: %w" [] in
  rows ← wrap_err reading (query "SELECT pg_backend_pid()" []);
  match rows with
  | None => panic
  | Some rows =>
      match rows.(Rows_data), rows.(Rows_err) with
      | [], Some e => fail (reading e)
      | [], None => fail (Errorf "reading pg_backend_pid: no rows" [])
      | row :: _, _ =>
          wrap_err (ErrorfW "scanning pg_backend_pid: %w" []) (lift (scan_int row))
      end
  end.

(** ** The pre-flight report *)

(** The expand phase of the active migration is complete: its version schema
    is there and no row waits for its backfill.  Errors count as no. *)
Definition expandIsComplete (liveSchemas : list string) : M D bool :=
  activeMig ← try (from_state m state_GetActiveMigration);
  match activeMig with
  | inr _ => mret false
  | inl activeMig =>
      if slices_Contains liveSchemas (VersionedSchemaName (Roll_schema m) (VersionSchemaName activeMig))
      then
        pending ← try (HasPendingBackfill m activeMig.(Migration_Name));
        mret (match pending with inl pending => negb pending | inr _ => false end)
      else mret false
  end.

(** Errors count as no other backend. *)
Definition countOtherBackends : M D Z :=
  statePID ← try State_BackendPID;
  rollPID ← try Roll_BackendPID;
  match statePID, rollPID with
  | inl statePID, inl rollPID =>
      n ← try (OtherPgrollBackends [statePID; rollPID]);
      mret (match n with inl n => n | inr _ => 0%Z end)
  | _, _ => mret 0%Z
  end.

(** The projection of the leaf of the history is deployed. *)
Definition stateInSync (liveSchemas : list string) (history : list RawMigration) : bool :=
  match last history with
  | Some leaf =>
      Roll_disableVersionSchemas m ||
      slices_Contains liveSchemas
        (Roll_schema m +:+ "_" +:+
         (if decide (leaf.(RawMigration_VersionSchema) = "") then leaf.(RawMigration_Name)
          else leaf.(RawMigration_VersionSchema)))
  | None => true
  end.

(** The plan of a run that has something to apply *)
Definition preFlightPlan (unapplied : list RawMigration) : M D () :=
  match last unapplied with
  | None => panic
  | Some _ =>
      wrap_err (ErrorfW "reading deferred completes: %w" [])
        (from_state m state_DeferredCompletes) ;;
      mret ()
  end.

Definition printMigratePreFlight (unapplied : list RawMigration) : M D cycleState :=
  liveSchemas ← wrap_err (ErrorfW "listing existing version schemas: %w" [])
                  (ExistingVersionSchemas m);
  history ← wrap_err (ErrorfW "reading schema history: %w" []) (from_state m state_SchemaHistory);
  activePeriod ← wrap_err (ErrorfW "reading active migration period: %w" [])
                   (from_state m state_IsActiveMigrationPeriod);
  '(expandComplete, otherBackends) ←
    (if (activePeriod : bool) then
       wrap_err (ErrorfW "reading latest migration: %w" []) (from_state m state_LatestMigration) ;;
       expandComplete ← expandIsComplete liveSchemas;
       otherBackends ← countOtherBackends;
       mret (expandComplete, otherBackends)
     else mret (false, 0%Z));
  let state := classifyCycle activePeriod otherBackends (length unapplied) (length history)
                 (stateInSync liveSchemas history) expandComplete in
  (match state with
   | cycleFresh | cycleIncremental | cycleRecovery => preFlightPlan unapplied
   | _ => mret ()
   end) ;;
  mret state.

(** ** Running one migration *)

Definition runMigration (fuel : nat) (mig : Migration) (complete : bool) (so : startOptions)
    (co : completeOptions) : M D () :=
  Roll_Start m CreateTriggers Backfill_Start fuel mig so ;;
  if complete then Roll_Complete m fuel co else mret ().

Definition ReadMigration (filename : string) : outcome error Migration :=
  raw ← ReadRawMigration filename; ParseMigration raw.

Definition runMigrationFromFile (fuel : nat) (fileName : string) (complete : bool) : M D () :=
  mig ← lift (ReadMigration fileName);
  (if mig.(Migration_Baseline) then
     latest ← wrap_err (ErrorfW "unable to determine latest migration: %w" [])
                (from_state m state_LatestMigration);
     match latest with
     | Some _ => fail (BaselineExecutionRefusedError mig.(Migration_Name))
     | None => mret ()
     end
   else mret ()) ;;
  runMigration fuel mig complete (mkStartOptions false ∅) (mkCompleteOptions false false).

(** [pgroll start]; [true] when the schema needs a baseline first *)
Definition checkBaseline : M D bool :=
  wrap_err (ErrorfW "failed to check for existing schema: %w" [])
    (from_state m state_HasExistingSchemaWithoutHistory).

Definition startCmd (fuel : nat) (fileName : string) (complete : bool) : M D bool :=
  needsBaseline ← checkBaseline;
  if (needsBaseline : bool) then mret true
  else runMigrationFromFile fuel fileName complete ;; mret false.

(** ** Completing and rolling back *)

Definition finishPendingRevert : M D () :=
  wrap_err (ErrorfW "failed to finish the pending revert: %w" []) (FinishPendingSealedRevert m) ;;
  mret ().

Definition completeCmd (fuel : nat) (force : bool) : M D () :=
  r ← try (Roll_Complete m fuel (mkCompleteOptions false false));
  match r with
  | inl _ => finishPendingRevert
  | inr e =>
      if decide (errors_Is e ErrNoActiveMigration) then
        FinishContraction m fuel force ;; finishPendingRevert
      else fail e
  end.

(** A flag that a command cannot act on is refused. *)
Definition refuseTarget (target name : string) : M D () :=
  fail_if (negb (String.eqb target ""))
    (Errorf "--target is not supported by `pgroll %s`: it does not select migrations from a set, so the flag would have no effect" [name]).

Definition rollbackCmd (fuel : nat) (target : string) : M D () :=
  refuseTarget target "rollback" ;; Roll_Rollback m fuel.

(** ** The train *)

(** The list to apply, bounded by [--to]; [None] when there is nothing to do
    because the bound is in the history alone *)
Definition boundedRun (to dir : string) (resolution : Resolution) :
    M D (option (list RawMigration)) :=
  let rawMigs := resolution.(Resolution_Apply) in
  if decide (to = "") then mret (Some rawMigs)
  else
    match position to resolution.(Resolution_All) with
    | None =>
        exists_ ← wrap_err (ErrorfW "unable to check for migration %q: %w" [to])
                    (from_state m (state_MigrationExists to));
        if (exists_ : bool) then mret None
        else fail (Errorf "migration %q not found in %s" [to; dir])
    | Some idx => bounded ← lift (boundTrain rawMigs resolution.(Resolution_All) idx); mret (Some bounded)
    end.

Definition interruptedBase : string :=
  "migration %q is in progress and was not completed; this usually means a previous run was interrupted (e.g. lock_timeout under contention or SIGINT).".

Definition interruptedMessage (active : string) : M D error :=
  unsealed ← try (from_state m state_UnsealedMigrations);
  mret (match unsealed with
    | inl unsealed =>
        let applied := decimal (length (filter (λ r, rec_Name r ≠ active) unsealed)) in
        if decide (filter (λ r, rec_Name r ≠ active) unsealed = []) then
          Errorf (interruptedBase +:+ "

  Nothing else is applied-but-uncontracted, so `pgroll rollback` cleans this
  up completely. Re-running `pgroll migrate` also resumes from where it
  stopped, which is usually what you want after a transient failure.") [active]
        else
          Errorf (interruptedBase +:+ "

  This deployment has already applied %d other migration(s) that are not yet
  contracted, so the two cleanup verbs differ:

    pgroll rollback   undoes ONLY %q, leaving the other %d applied
    pgroll revert     walks the whole uncontracted window back

  Re-running `pgroll migrate` also resumes from where it stopped, which is
  usually what you want after a transient failure.") [active; applied; active; applied]
    | inr _ =>
        Errorf (interruptedBase +:+ "

  Run `pgroll rollback` to undo this migration, or `pgroll revert` to walk
  back the whole uncontracted window if earlier migrations in the same batch
  were already applied. Re-running `pgroll migrate` resumes from where it
  stopped.") [active]
    end).

(** A run that finds a migration active; a nil name is dereferenced. *)
Definition resumeActive (fuel : nat) (complete : bool) (state : cycleState)
    (latest : option string) : M D migrateResult :=
  match latest with
  | None =>
      match state, complete with
      | cycleAwaitingComplete, true => try (Roll_Complete m fuel (mkCompleteOptions false false)) ;; panic
      | _, _ => panic
      end
  | Some name =>
      match state with
      | cycleInProgress =>
          fail (Errorf "migration %q is currently being run by another pgroll process; wait for that run to finish before retrying" [name])
      | cycleAwaitingComplete =>
          if negb complete then mret AwaitingComplete
          else
            wrap_err (ErrorfW "failed to complete already-applied migration %q: %w" [name])
              (Roll_Complete m fuel (mkCompleteOptions false false)) ;;
            mret CompletedPending
      | _ => e ← interruptedMessage name; fail e
      end
  end.

(** The migrations before the last project no version schema. *)
Definition runIntermediate (fuel : nat) (excluded : gset string) (mig : Migration) : M D () :=
  wrap_err (ErrorfW "failed to run migration file %q: %w" [mig.(Migration_Name)])
    (runMigration fuel mig true (mkStartOptions true excluded)
       (if CompleteMustBeDeferred mig then mkCompleteOptions false true
        else mkCompleteOptions true false)).

Fixpoint runTrain (fuel : nat) (complete : bool) (excluded : gset string) (migs : list Migration) :
    M D () :=
  match migs with
  | [] => panic
  | [mig] => runMigration fuel mig complete (mkStartOptions false excluded) (mkCompleteOptions false false)
  | mig :: migs => runIntermediate fuel excluded mig ;; runTrain fuel complete excluded migs
  end.

Definition applyTrain (fuel : nat) (fl : migrateFlags) (excluded : gset string)
    (rawMigs : list RawMigration) : M D migrateResult :=
  if decide (rawMigs = []) then mret UpToDate
  else
    fail_if (flag_expectOne fl && (1 <? length rawMigs)%nat)
      (Errorf "expected one migration to apply but found %d" [decimal (length rawMigs)]) ;;
    migs ← wrap_err (ErrorfW "failed to run migrate: %w" []) (lift (parseMigrations rawMigs));
    tombstones ← wrap_err (ErrorfW "failed to check reverted migrations: %w" [])
                   (from_state m state_RevertedMigrations);
    lift (checkTombstones tombstones migs) ;;
    runTrain fuel (flag_complete fl) excluded migs ;;
    (if decide (tombstones = ∅) then mret ()
     else
       wrap_err (ErrorfW "failed to clear re-application tombstones: %w" [])
         (from_state m (state_ClearRevertedMigrations
            (filter (λ n, is_Some (tombstones !! n)) (Migration_Name <$> migs))))) ;;
    mret (AppliedTrain migs).

(** [pgroll migrate] on the directory [dir] *)
Definition migrateCmd (fuel : nat) (fl : migrateFlags) (dir : string) : M D migrateResult :=
  needsBaseline ← checkBaseline;
  if (needsBaseline : bool) then mret NeedsBaseline
  else
    resolution ← wrap_err (ErrorfW "failed to get migrations to apply: %w" [])
                   (Roll_ResolveMigrations m);
    bounded ← boundedRun (flag_to fl) dir resolution;
    match bounded with
    | None => mret AlreadyAt
    | Some rawMigs =>
        latest ← wrap_err (ErrorfW "unable to determine latest migration: %w" [])
                   (from_state m state_LatestMigration);
        (match latest with
         | Some _ => lift (RefuseBaselineExecution rawMigs)
         | None => mret ()
         end) ;;
        state ← wrap_err (ErrorfW "pre-flight summary: %w" []) (printMigratePreFlight rawMigs);
        latest ← wrap_err (ErrorfW "unable to determine latest version: %w" [])
                   (from_state m state_LatestMigration);
        active ← wrap_err (ErrorfW "unable to determine active migration period: %w" [])
                   (from_state m state_IsActiveMigrationPeriod);
        if (active : bool) then resumeActive fuel (flag_complete fl) state latest
        else applyTrain fuel fl resolution.(Resolution_Excluded) rawMigs
    end.
End Migrate.
