(* ===== verification/Connect.v ===== *)
(** * Connect: opening a session

    What happens before any command: [state.New] with its version check and
    [Init] ([pkg/state/state.go], [version.go], [opts.go]), [roll.New] with
    its options ([pkg/roll/roll.go], [options.go]) and [NewRoll]
    ([cmd/root.go], [init.go]).  The server, [database/sql]'s connections to
    it and the semantic versions of [golang.org/x/mod] are classes; the text
    of [init.sql] is a variable.  The log is left out. *)

From Stdlib Require Import DecimalString.
From stdpp Require Import pretty.
From S2P Require Import Prelude.
From S2P Require Import GoStd.
From S2P Require Import Types.
From S2P Require Import Db.
From S2P Require Import Lifecycle.
From S2P Require Import Retry.

(** A server.  [srv_QueryRow] is [QueryRowContext] with the value of the one
    column, without a row an error; [srv_Begin] opens the transaction of a
    connection, in which [srv_TxExec] runs. *)
Class Server (D : Type) := {
  conn : Type;
  pq_ParseURL : string → outcome error string;
  srv_Open : string → D → outcome error conn * D;
  srv_Ping : conn → D → outcome error () * D;
  srv_Close : conn → D → outcome error () * D;
  srv_Exec : conn → string → list sqlval → D → outcome error () * D;
  srv_QueryRow : conn → string → list sqlval → D → outcome error sqlval * D;
  srv_Begin : conn → D → outcome error () * D;
  srv_TxExec : conn → string → list sqlval → D → outcome error () * D;
  srv_Commit : conn → D → outcome error () * D;
  srv_Rollback : conn → D → outcome error () * D;
}.

(** [golang.org/x/mod/semver] *)
Class Semver := {
  semver_IsValid : string → bool;
  semver_Canonical : string → string;
  semver_Compare : string → string → Z;
}.

Inductive VersionCompat :=
  | VersionCompatCheckSkipped
  | VersionCompatNotInitialized
  | VersionCompatVersionSchemaOlder
  | VersionCompatVersionSchemaEqual
  | VersionCompatVersionSchemaNewer.
#[export] Instance VersionCompat_eq_dec : EqDecision VersionCompat.
Proof. solve_decision. Defined.

Definition ErrNewPgrollSchema : error :=
  Errorf "pgroll binary version is older than pgroll schema version" [].
Definition errPGRollNotInitialized : error :=
  Errorf "pgroll is not initialized, run 'pgroll init' to initialize" [].

(** [Scan] into a [bool], a [string] and an integer *)
Definition scan_bool (v : sqlval) : outcome error bool :=
  match v with VBool b => Ok b | _ => Err scan_error end.
Definition scan_string (v : sqlval) : outcome error string :=
  match v with VString s => Ok s | _ => Err scan_error end.
Definition scan_number (v : sqlval) : outcome error Z :=
  match v with
  | VInt n => Ok n
  | VString s =>
      if decide (s = "") then Err scan_error
      else match NilEmpty.uint_of_string s with
           | Some n => Ok (Z.of_uint n)
           | None => Err scan_error
           end
  | _ => Err scan_error
  end.

Definition ensureVPrefix (version : string) : string :=
  match version with
  | String c _ => if Ascii.eqb c "v" then version else "v" +:+ version
  | "" => version
  end.

(** [defer f()]: [f] runs whatever way [p] ends; its result is dropped. *)
Definition deferring {D A} (f : prog D error ()) (p : prog D error A) : prog D error A := λ d,
  let '(r, d) := p d in (r, (f d).2).

Record StateHandle `{Server D} := mkStateHandle {
  st_conn : conn;
  st_version : string;
  st_schema : string;
}.
Arguments mkStateHandle {D _} _ _ _.

Section state.
Context {D : Type} `{!Server D} `{!Semver} `{!Pq} (sqlInit : string).
Abbreviation S := (prog D error).
Implicit Types s : StateHandle (D := D).

Definition state_query s (sql : string) (args : list sqlval) : S sqlval := srv_QueryRow (st_conn s) sql args.

Definition State_IsInitialized s : S bool :=
  v ← state_query s "SELECT EXISTS (SELECT 1 from pg_catalog.pg_namespace WHERE nspname = $1)"
        [VString (st_schema s)];
  lift (scan_bool v).

Definition State_versionTableExists s : S bool :=
  v ← state_query s "SELECT EXISTS (
		SELECT 1 FROM information_schema.tables 
		WHERE table_schema = $1 AND table_name = 'pgroll_version'
	)" [VString (st_schema s)];
  lift (scan_bool v).

Definition State_SchemaVersion s : S string :=
  v ← state_query s ("SELECT version FROM " +:+ QuoteIdentifier (st_schema s) +:+
        ".pgroll_version ORDER BY initialized_at DESC LIMIT 1") [];
  lift (scan_string v).

Definition compareVersions (schemaVersion pgrollVersion : string) : VersionCompat :=
  let schemaVersion := ensureVPrefix schemaVersion in
  let pgrollVersion := ensureVPrefix pgrollVersion in
  if negb (semver_IsValid schemaVersion) || negb (semver_IsValid pgrollVersion)
  then VersionCompatCheckSkipped
  else
    let cmp := semver_Compare (semver_Canonical schemaVersion) (semver_Canonical pgrollVersion) in
    if (cmp <? 0)%Z then VersionCompatVersionSchemaOlder
    else if (0 <? cmp)%Z then VersionCompatVersionSchemaNewer
    else VersionCompatVersionSchemaEqual.

Definition VersionCompatibility s : S VersionCompat :=
  if decide (st_version s = "development") then mret VersionCompatCheckSkipped
  else
    ok ← wrap_err (ErrorfW "failed to check initialization status: %w" []) (State_IsInitialized s);
    if negb ok then mret VersionCompatCheckSkipped
    else
      versionTableExists ← wrap_err (ErrorfW "failed to check version table existence: %w" [])
                             (State_versionTableExists s);
      if negb versionTableExists then mret VersionCompatVersionSchemaOlder
      else
        schemaVersion ← wrap_err (ErrorfW "failed to get stored version: %w" [])
                          (State_SchemaVersion s);
        if decide (schemaVersion = "development") then mret VersionCompatCheckSkipped
        else mret (compareVersions schemaVersion (st_version s)).

Definition State_Init s : S () :=
  let c := st_conn s in
  srv_Begin c ;;
  deferring (srv_Rollback c) (
    srv_TxExec c "SELECT pg_advisory_xact_lock($1)" [VInt 0x2c03057fb9525b] ;;
    srv_TxExec c (ReplaceAll sqlInit "placeholder" (QuoteIdentifier (st_schema s))) [] ;;
    srv_TxExec c ("TRUNCATE TABLE " +:+ QuoteIdentifier (st_schema s) +:+ ".pgroll_version") [] ;;
    srv_TxExec c ("INSERT INTO " +:+ QuoteIdentifier (st_schema s) +:+
      ".pgroll_version (version) VALUES ($1)") [VString (st_version s)] ;;
    srv_Commit c).

Definition StateOpt : Type := StateHandle (D := D) → StateHandle (D := D).
Definition WithPgrollVersion (version : string) : StateOpt :=
  λ s, mkStateHandle (st_conn s) version (st_schema s).

(** The keyword form of a connection string; one that is not a URL is kept. *)
Definition dsnOf (pgURL : string) : string :=
  match pq_ParseURL pgURL with Ok dsn => dsn | _ => pgURL end.

Definition openConn (dsn : string) : S conn :=
  c ← srv_Open dsn; srv_Ping c ;; mret c.
Definition noInferred (c : conn) : S () :=
  wrap_err (ErrorfW "unable to set pgroll.no_inferred_migrations to true: %w" [])
    (srv_Exec c "SET pgroll.no_inferred_migrations TO 'TRUE'" []).

(** What [New] does about the state schema's version *)
Definition settleVersion s : S () :=
  compat ← VersionCompatibility s;
  match compat with
  | VersionCompatVersionSchemaNewer =>
      v ← try (State_SchemaVersion s);
      fail (ErrorfW "%w: binary: %s vs schema: %s"
              [st_version s; match v with inl v => v | inr _ => "unknown" end] ErrNewPgrollSchema)
  | VersionCompatVersionSchemaOlder => State_Init s
  | _ => mret ()
  end.

Definition State_New (pgURL stateSchema : string) (opts : list StateOpt) : S (StateHandle (D := D)) :=
  c ← openConn (dsnOf pgURL +:+ " search_path=" +:+ stateSchema +:+ " application_name=pgroll-state");
  noInferred c ;;
  let st := foldl (λ st opt, opt st) (mkStateHandle c "development" stateSchema) opts in
  settleVersion st ;; mret st.

Definition State_Close s : S () := srv_Close (st_conn s).
End state.

(** ** The options of a session ([options.go]) *)

Record MigrationHooks (E : Type) := mkMigrationHooks {
  hook_BeforeStartDDL : option (M E ());
  hook_AfterStartDDL : option (M E ());
  hook_BeforeCompleteDDL : option (M E ());
  hook_AfterCompleteDDL : option (M E ());
}.
Arguments mkMigrationHooks {E} _ _ _ _.
Arguments hook_BeforeStartDDL {E} _.
Arguments hook_AfterStartDDL {E} _.
Arguments hook_BeforeCompleteDDL {E} _.
Arguments hook_AfterCompleteDDL {E} _.

(** Durations are milliseconds; [verbose] and the logger have no effect. *)
Record options (E : Type) := mkOptions {
  o_lockTimeoutMs : Z;
  o_lockRetryTimeout : Z;
  o_role : string;
  o_disableVersionSchemas : bool;
  o_target : string;
  o_searchPath : list string;
  o_skipValidation : bool;
  o_requireReversible : bool;
  o_hooks : MigrationHooks E;
  o_indexProgressInterval : Z;
}.
Arguments mkOptions {E} _ _ _ _ _ _ _ _ _ _.
Arguments o_lockTimeoutMs {E} _.
Arguments o_lockRetryTimeout {E} _.
Arguments o_role {E} _.
Arguments o_disableVersionSchemas {E} _.
Arguments o_target {E} _.
Arguments o_searchPath {E} _.
Arguments o_skipValidation {E} _.
Arguments o_requireReversible {E} _.
Arguments o_hooks {E} _.
Arguments o_indexProgressInterval {E} _.

Definition noOptions {E} : options E :=
  mkOptions 0 0 "" false "" [] false false (mkMigrationHooks None None None None) 0.
Definition Option_ (E : Type) : Type := options E → options E.
Definition WithLockTimeoutMs {E} (n : Z) : Option_ E :=
  λ '(mkOptions lt rt r dv t sp sk rr h ip), mkOptions n rt r dv t sp sk rr h ip.
Definition WithLockRetryTimeout {E} (d : Z) : Option_ E :=
  λ '(mkOptions lt rt r dv t sp sk rr h ip), mkOptions lt d r dv t sp sk rr h ip.
Definition WithRole {E} (role : string) : Option_ E :=
  λ '(mkOptions lt rt r dv t sp sk rr h ip), mkOptions lt rt role dv t sp sk rr h ip.
Definition WithVersionSchema {E} (enabled : bool) : Option_ E :=
  λ '(mkOptions lt rt r dv t sp sk rr h ip), mkOptions lt rt r (negb enabled) t sp sk rr h ip.
Definition WithTarget {E} (target : string) : Option_ E :=
  λ '(mkOptions lt rt r dv t sp sk rr h ip), mkOptions lt rt r dv target sp sk rr h ip.
Definition WithMigrationHooks {E} (hooks : MigrationHooks E) : Option_ E :=
  λ '(mkOptions lt rt r dv t sp sk rr h ip), mkOptions lt rt r dv t sp sk rr hooks ip.
Definition WithSearchPath {E} (schemas : list string) : Option_ E :=
  λ '(mkOptions lt rt r dv t sp sk rr h ip), mkOptions lt rt r dv t schemas sk rr h ip.
Definition WithSkipValidation {E} (skip : bool) : Option_ E :=
  λ '(mkOptions lt rt r dv t sp sk rr h ip), mkOptions lt rt r dv t sp skip rr h ip.
Definition WithRequireReversible {E} : Option_ E :=
  λ '(mkOptions lt rt r dv t sp sk rr h ip), mkOptions lt rt r dv t sp sk true h ip.
Definition WithIndexProgressInterval {E} (d : Z) : Option_ E :=
  λ '(mkOptions lt rt r dv t sp sk rr h ip), mkOptions lt rt r dv t sp sk rr h d.

(** ** Opening *)

(** The flags [NewRoll] reads; [f_indexProgressInterval] as it was given *)
Record cliFlags := mkCliFlags {
  f_postgresURL : string;
  f_schema : string;
  f_stateSchema : string;
  f_lockTimeout : Z;
  f_lockRetryTimeout : Z;
  f_role : string;
  f_skipValidation : bool;
  f_useVersionSchema : bool;
  f_target : string;
  f_indexProgressInterval : Z;
}.
(** Zero means off, which is a negative interval for [roll]. *)
Definition IndexProgressInterval (fl : cliFlags) : Z :=
  if (f_indexProgressInterval fl <=? 0)%Z then (-1)%Z else f_indexProgressInterval fl.

Record Session (D E : Type) `{Server D} := mkSession {
  ses_roll : Roll E;
  ses_conn : conn;
  ses_rdb : RDB;
  ses_indexProgressInterval : Z;
  ses_monitor : option conn;
  ses_state : StateHandle (D := D);
}.
Arguments mkSession {D E _} _ _ _ _ _ _.
Arguments ses_roll {D E _} _.
Arguments ses_conn {D E _} _.
Arguments ses_rdb {D E _} _.
Arguments ses_indexProgressInterval {D E _} _.
Arguments ses_monitor {D E _} _.
Arguments ses_state {D E _} _.

Section roll.
Context {D E : Type} `{!Server D} `{!Semver} `{!Pq} (sqlInit Version : string).
Abbreviation S := (prog D error).

Definition setupConn (pgURL schema : string) (o : options E) : S conn :=
  c ← openConn (dsnOf pgURL +:+ " search_path=" +:+ Join (schema :: o_searchPath o) "," +:+
                " application_name=pgroll");
  noInferred c ;;
  (if (0 <? o_lockTimeoutMs o)%Z then
     wrap_err (ErrorfW "unable to set lock_timeout: %w" [])
       (srv_Exec c ("SET lock_timeout to '" +:+ pretty (o_lockTimeoutMs o) +:+ "ms'") [])
   else mret ()) ;;
  (if decide (o_role o = "") then mret ()
   else wrap_err (ErrorfW "unable to set role to '%s': %w" [o_role o])
          (srv_Exec c ("SET ROLE " +:+ o_role o) [])) ;;
  mret c.

Definition setupMonitorConn (pgURL schema : string) : S conn :=
  c ← srv_Open (dsnOf pgURL +:+ " search_path=" +:+ schema +:+ " application_name=pgroll-monitor");
  r ← try (srv_Ping c);
  match r with inl _ => mret c | inr e => try (srv_Close c) ;; fail e end.

(** A monitor that cannot be opened is done without. *)
Definition Roll_New (pgURL schema : string) (st : StateHandle (D := D)) (opts : list (Option_ E)) :
    S (Session D E) :=
  let o := foldl (λ o opt, opt o) noOptions opts in
  c ← setupConn pgURL schema o;
  monitor ← try (setupMonitorConn pgURL schema);
  v ← wrap_err (ErrorfW "unable to retrieve postgres version: %w" [])
        (v ← srv_QueryRow c "SELECT substring(split_part(version(), ' ', 2) from '^[0-9]+')" [];
         lift (scan_number v));
  let h := o_hooks o in
  mret (mkSession
    (mkRoll E schema (o_disableVersionSchemas o) (o_target o) (o_skipValidation o)
       (o_requireReversible o) v (hook_BeforeStartDDL h) (hook_AfterStartDDL h)
       (hook_BeforeCompleteDDL h) (hook_AfterCompleteDDL h))
    c (mkRDB (o_lockRetryTimeout o)) (o_indexProgressInterval o)
    match monitor with inl c => Some c | inr _ => None end st).

Definition Roll_Init (ses : Session D E) : S () := State_Init sqlInit (ses_state ses).
Definition Roll_Close (ses : Session D E) : S () :=
  State_Close (ses_state ses) ;;
  match ses_monitor ses with Some c => srv_Close c | None => mret () end ;;
  srv_Close (ses_conn ses).

Definition NewRoll (fl : cliFlags) : S (Session D E) :=
  st ← State_New sqlInit (f_postgresURL fl) (f_stateSchema fl) [WithPgrollVersion Version];
  Roll_New (f_postgresURL fl) (f_schema fl) st
    [WithLockTimeoutMs (f_lockTimeout fl); WithLockRetryTimeout (f_lockRetryTimeout fl);
     WithRole (f_role fl); WithSkipValidation (f_skipValidation fl);
     WithVersionSchema (f_useVersionSchema fl); WithTarget (f_target fl);
     WithIndexProgressInterval (IndexProgressInterval fl); WithRequireReversible].

Definition EnsureInitialized (st : StateHandle (D := D)) : S () :=
  ok ← State_IsInitialized st; fail_if (negb ok) errPGRollNotInitialized.

Definition NewRollWithInitCheck (fl : cliFlags) : S (Session D E) :=
  m ← NewRoll fl;
  r ← try (EnsureInitialized (ses_state m));
  match r with inl _ => mret m | inr e => try (Roll_Close m) ;; fail e end.

(** [pgroll init] *)
Definition initCmd (fl : cliFlags) : S () :=
  m ← NewRoll fl; deferring (Roll_Close m) (Roll_Init m).
End roll.
