(* ===== verification/ConnectFacts.v ===== *)
(** * ConnectFacts: a binary and the state schema it works on

    What [state.New] does about the version the state schema records: an older
    release is brought up, a newer one refused, and what cannot be compared
    left alone. *)

From S2P Require Import Prelude.
From S2P Require Import GoStd.
From S2P Require Import Types.
From S2P Require Import Db.
From S2P Require Import Lifecycle.
From S2P Require Import Retry.
From S2P Require Import Connect.

(** What PostgreSQL promises: reading, opening a connection and setting a
    session variable change no answer; a transaction that is rolled back, or
    whose commit fails, has done nothing; the transaction of [Init] leaves the schema, the version
    table and in it the one version it inserted. *)
Class ServerLaws (D : Type) `{!Server D} `{!Pq} (sqlInit : string) := {
  (** [same d d']: every query is answered alike in [d] and [d']. *)
  same : D → D → Prop;
  same_equiv :: Equivalence same;
  same_answers c q args d d' : same d d' → (srv_QueryRow c q args d).1 = (srv_QueryRow c q args d').1;
  query_same c q args d : same d (srv_QueryRow c q args d).2;
  open_same dsn d : same d (srv_Open dsn d).2;
  ping_same c d : same d (srv_Ping c d).2;
  set_same c d : same d (srv_Exec c "SET pgroll.no_inferred_migrations TO 'TRUE'" [] d).2;
  (** [in_tx c d0 d]: in [d] the connection has an open transaction, begun in
      [d0]. *)
  in_tx : conn → D → D → Prop;
  begin_tx c d u d' : srv_Begin c d = (Ok u, d') → in_tx c d d';
  begin_failed c d o d' : srv_Begin c d = (o, d') → is_ok o = false → same d d';
  exec_tx c d0 q args d : in_tx c d0 d → in_tx c d0 (srv_TxExec c q args d).2;
  rollback_tx c d0 d : in_tx c d0 d → same d0 (srv_Rollback c d).2;
  (** A commit that fails has committed nothing. *)
  commit_failed c d0 d :
    in_tx c d0 d → is_ok (srv_Commit c d).1 = false → in_tx c d0 (srv_Commit c d).2;
  rollback_done c d u d' : srv_Commit c d = (Ok u, d') → same d' (srv_Rollback c d').2;
  init_recorded (s : StateHandle (D := D)) d d1 d2 d3 d4 d5 d6 u1 u2 u3 u4 u5 u6 :
    srv_Begin (st_conn s) d = (Ok u1, d1) →
    srv_TxExec (st_conn s) "SELECT pg_advisory_xact_lock($1)" [VInt 0x2c03057fb9525b] d1 = (Ok u2, d2) →
    srv_TxExec (st_conn s) (ReplaceAll sqlInit "placeholder" (QuoteIdentifier (st_schema s))) [] d2 = (Ok u3, d3) →
    srv_TxExec (st_conn s) ("TRUNCATE TABLE " +:+ QuoteIdentifier (st_schema s) +:+ ".pgroll_version") [] d3 = (Ok u4, d4) →
    srv_TxExec (st_conn s) ("INSERT INTO " +:+ QuoteIdentifier (st_schema s) +:+
      ".pgroll_version (version) VALUES ($1)") [VString (st_version s)] d4 = (Ok u5, d5) →
    srv_Commit (st_conn s) d5 = (Ok u6, d6) →
    (State_IsInitialized s d6).1 = Ok true ∧ (State_versionTableExists s d6).1 = Ok true ∧
    (State_SchemaVersion s d6).1 = Ok (st_version s);
}.

(** [golang.org/x/mod/semver]: [Compare] is an ordering. *)
Class SemverLaws `{!Semver} := {
  compare_swap v w : semver_Compare w v = Z.opp (semver_Compare v w);
}.

Section versions.
Context `{!Semver} {HL : SemverLaws}.

(** A binary finds a schema newer exactly when a binary of that schema's
    version finds its schema older. *)
Lemma compareVersions_swap v w :
  compareVersions v w = VersionCompatVersionSchemaNewer ↔
  compareVersions w v = VersionCompatVersionSchemaOlder.
Proof.
  unfold compareVersions. rewrite (orb_comm (negb (semver_IsValid (ensureVPrefix w)))).
  destruct (_ || _); [done|]. rewrite (compare_swap (semver_Canonical (ensureVPrefix w))).
  generalize (semver_Compare (semver_Canonical (ensureVPrefix w)) (semver_Canonical (ensureVPrefix v))).
  intros z. destruct (Z.ltb_spec (- z) 0), (Z.ltb_spec 0 (- z)), (Z.ltb_spec z 0), (Z.ltb_spec 0 z); try lia; done.
Qed.
End versions.

Section facts.
Context {D : Type} `{!Server D} `{!Semver} `{!Pq} (sqlInit : string).
Context {HS : ServerLaws D sqlInit}.
Implicit Types s : StateHandle (D := D).

(** Programs that change no answer *)
Definition quiet {A} (p : prog D error A) : Prop := ∀ d, same d (p d).2.

Lemma quiet_ret {A} (a : A) : quiet (mret a).
Proof. by intros d. Qed.
Lemma quiet_fail {A} e : quiet (fail e : prog D error A).
Proof. by intros d. Qed.
Lemma quiet_bind {A B} (p : prog D error A) (k : A → prog D error B) :
  quiet p → (∀ a, quiet (k a)) → quiet (p ≫= k).
Proof.
  intros Hp Hk d. unfold mbind, prog_bind. specialize (Hp d).
  destruct (p d) as [[a|e| |] d1]; cbn in *; try done. etrans; [exact Hp|apply Hk].
Qed.
Lemma quiet_wrap {A} f (p : prog D error A) : quiet p → quiet (wrap_err f p).
Proof. intros Hp d. specialize (Hp d). unfold wrap_err. by destruct (p d) as [[]?]. Qed.
Lemma quiet_try {A} (p : prog D error A) : quiet p → quiet (try p).
Proof. intros Hp d. specialize (Hp d). unfold try. by destruct (p d) as [[]?]. Qed.
Lemma quiet_lift {A} (o : outcome error A) : quiet (lift o : prog D error A).
Proof. by intros d. Qed.
Lemma quiet_query s q args : quiet (state_query s q args).
Proof. intros d. apply query_same. Qed.
Lemma quiet_IsInitialized s : quiet (State_IsInitialized s).
Proof. apply quiet_bind; [apply quiet_query|intros; apply quiet_lift]. Qed.
Lemma quiet_versionTable s : quiet (State_versionTableExists s).
Proof. apply quiet_bind; [apply quiet_query|intros; apply quiet_lift]. Qed.
Lemma quiet_SchemaVersion s : quiet (State_SchemaVersion s).
Proof. apply quiet_bind; [apply quiet_query|intros; apply quiet_lift]. Qed.

Lemma quiet_compat s : quiet (VersionCompatibility s).
Proof.
  unfold VersionCompatibility. destruct (decide _); [apply quiet_ret|].
  apply quiet_bind; [apply quiet_wrap, quiet_IsInitialized|]. intros [|]; [|apply quiet_ret].
  apply quiet_bind; [apply quiet_wrap, quiet_versionTable|]. intros [|]; [|apply quiet_ret].
  apply quiet_bind; [apply quiet_wrap, quiet_SchemaVersion|]. intros v.
  destruct (decide _); apply quiet_ret.
Qed.

(** A query of a handle reads what [same] keeps. *)
Lemma reads_same {A} s q args (f : sqlval → outcome error A) d d' :
  same d d' →
  ((v ← state_query s q args; lift (f v)) d).1 = ((v ← state_query s q args; lift (f v)) d').1.
Proof.
  intros Hd. unfold mbind, prog_bind, state_query. pose proof (same_answers (st_conn s) q args d d' Hd) as Ha.
  destruct (srv_QueryRow (st_conn s) q args d) as [[v|e| |] d1],
    (srv_QueryRow (st_conn s) q args d') as [[v'|e'| |] d2]; cbn in *; by simplify_eq.
Qed.

Lemma versionTable_same s d d' :
  same d d' → (State_versionTableExists s d).1 = (State_versionTableExists s d').1.
Proof. apply reads_same. Qed.
Lemma SchemaVersion_same s d d' : same d d' → (State_SchemaVersion s d).1 = (State_SchemaVersion s d').1.
Proof. apply reads_same. Qed.

Lemma IsInitialized_same s d d' : same d d' → (State_IsInitialized s d).1 = (State_IsInitialized s d').1.
Proof. apply reads_same. Qed.

Lemma compat_same s d d' : same d d' → (VersionCompatibility s d).1 = (VersionCompatibility s d').1.
Proof.
  intros Hd. unfold VersionCompatibility. destruct (decide _); [done|]. unfold mbind, prog_bind, wrap_err.
  pose proof (IsInitialized_same s d d' Hd) as H1.
  pose proof (quiet_IsInitialized s d) as Q1. pose proof (quiet_IsInitialized s d') as Q1'.
  destruct (State_IsInitialized s d) as [o1 d1], (State_IsInitialized s d') as [o1' d1']. cbn in *. subst o1'.
  destruct o1 as [[|]|e| |]; try done. cbn.
  assert (same d1 d1') as Hd1 by (etrans; [symmetry; exact Q1|etrans; [exact Hd|exact Q1']]).
  pose proof (versionTable_same s d1 d1' Hd1) as H2.
  pose proof (quiet_versionTable s d1) as Q2. pose proof (quiet_versionTable s d1') as Q2'.
  destruct (State_versionTableExists s d1) as [o2 d2], (State_versionTableExists s d1') as [o2' d2']. cbn in *. subst o2'.
  destruct o2 as [[|]|e| |]; try done. cbn.
  assert (same d2 d2') as Hd2 by (etrans; [symmetry; exact Q2|etrans; [exact Hd1|exact Q2']]).
  pose proof (SchemaVersion_same s d2 d2' Hd2) as H3.
  destruct (State_SchemaVersion s d2) as [o3 d3], (State_SchemaVersion s d2') as [o3' d3']. cbn in *. subst o3'.
  destruct o3 as [v|e| |]; try done. by destruct (decide _).
Qed.

(** What the state schema says of its version *)
Inductive found := NoSchema | NoTable | Version (schemaVersion : string).
Definition finds s d (f : found) : Prop :=
  match f with
  | NoSchema => (State_IsInitialized s d).1 = Ok false
  | NoTable => (State_IsInitialized s d).1 = Ok true ∧ (State_versionTableExists s d).1 = Ok false
  | Version sv => (State_IsInitialized s d).1 = Ok true ∧ (State_versionTableExists s d).1 = Ok true ∧
      (State_SchemaVersion s d).1 = Ok sv
  end.

(** Two versions are compared unless one is not a release. *)
Definition release (v : string) : Prop :=
  v ≠ "development" ∧ semver_IsValid (ensureVPrefix v) = true.
Definition vcompare (v w : string) : Z :=
  semver_Compare (semver_Canonical (ensureVPrefix v)) (semver_Canonical (ensureVPrefix w)).

Definition older (v w : string) : Prop := release v ∧ release w ∧ (vcompare v w < 0)%Z.
Definition newer (v w : string) : Prop := release v ∧ release w ∧ (0 < vcompare v w)%Z.

Lemma finds_same s d d' f : same d d' → finds s d f → finds s d' f.
Proof.
  intros Hd. unfold finds.
  by rewrite (IsInitialized_same s d d' Hd), (versionTable_same s d d' Hd), (SchemaVersion_same s d d' Hd).
Qed.
Lemma finds_unique s d f f' : finds s d f → finds s d f' → f = f'.
Proof. destruct f, f'; cbn; naive_solver congruence. Qed.

Lemma compat_finds s d c :
  (VersionCompatibility s d).1 = Ok c → st_version s ≠ "development" →
  ∃ f, finds s d f ∧ c = match f with
    | NoSchema => VersionCompatCheckSkipped
    | NoTable => VersionCompatVersionSchemaOlder
    | Version sv => if decide (sv = "development") then VersionCompatCheckSkipped
                    else compareVersions sv (st_version s)
    end.
Proof.
  intros Hc Hdev. unfold VersionCompatibility in Hc. rewrite decide_False in Hc by done.
  unfold mbind, prog_bind, wrap_err in Hc.
  pose proof (quiet_IsInitialized s d) as Q1.
  destruct (State_IsInitialized s d) as [[[|]|e| |] d1] eqn:H1; cbn in Q1; try done; cbn in Hc;
    [|exists NoSchema; injection Hc as <-; cbn; by rewrite H1].
  pose proof (quiet_versionTable s d1) as Q2. pose proof (versionTable_same s _ _ Q1) as E2.
  destruct (State_versionTableExists s d1) as [[[|]|e| |] d2] eqn:H2; cbn in Q2, E2; try done; cbn in Hc;
    [|exists NoTable; injection Hc as <-; cbn; by rewrite H1, E2].
  assert (same d d2) as Q12 by (etrans; [exact Q1|exact Q2]).
  pose proof (SchemaVersion_same s _ _ Q12) as E3.
  destruct (State_SchemaVersion s d2) as [[sv|e| |] d3]; cbn in E3; try done. cbn in Hc.
  exists (Version sv). split; [cbn; by rewrite H1, E2, E3|].
  destruct (decide _); by injection Hc as <-.
Qed.

Lemma compareVersions_spec sv v :
  sv ≠ "development" → v ≠ "development" →
  match compareVersions sv v with
  | VersionCompatVersionSchemaOlder => older sv v
  | VersionCompatVersionSchemaNewer => newer sv v
  | VersionCompatNotInitialized => False
  | _ => ¬ older sv v ∧ ¬ newer sv v
  end.
Proof.
  intros Hs Hv. unfold compareVersions, older, newer, release. fold (vcompare sv v).
  destruct (semver_IsValid (ensureVPrefix sv)), (semver_IsValid (ensureVPrefix v)); cbn; try naive_solver.
  destruct (Z.ltb_spec (vcompare sv v) 0); [done|].
  destruct (Z.ltb_spec 0 (vcompare sv v)); [done|]. split; intros (_ & _ & ?); lia.
Qed.

Lemma compat_not_initialized s d : (VersionCompatibility s d).1 ≠ Ok VersionCompatNotInitialized.
Proof.
  intros Hc. destruct (decide (st_version s = "development")) as [Hdev|Hdev].
  { unfold VersionCompatibility in Hc. by rewrite decide_True in Hc. }
  destruct (compat_finds s d _ Hc Hdev) as ([| |sv] & _ & Hf); try done.
  destruct (decide _) as [|Hsv]; [done|]. pose proof (compareVersions_spec sv _ Hsv Hdev) as Hcmp.
  by rewrite <-Hf in Hcmp.
Qed.

(** [Init]: done, or nothing is done.  A commit that fails leaves its
    transaction to be rolled back. *)
Lemma Init_ok s d u d' :
  State_Init sqlInit s d = (Ok u, d') →
  finds s d' (Version (st_version s)).
Proof.
  unfold State_Init. intros ([] & d1 & Hb & Hd)%bind_ok. unfold deferring in Hd.
  match type of Hd with (let '(_, _) := ?t in _) = _ => destruct t as [r d2] eqn:Hrun end. injection Hd as -> <-.
  apply bind_ok in Hrun as (u1 & e1 & H1 & Hrun). apply bind_ok in Hrun as (u2 & e2 & H2 & Hrun).
  apply bind_ok in Hrun as (u3 & e3 & H3 & Hrun). apply bind_ok in Hrun as (u4 & e4 & H4 & H5).
  destruct (init_recorded s _ _ _ _ _ _ _ _ _ _ _ _ _ Hb H1 H2 H3 H4 H5) as (Hi & Ht & Hv).
  pose proof (rollback_done _ _ _ _ H5) as Hsame.
  split_and!.
  - rewrite <-Hi. symmetry. by apply reads_same.
  - rewrite <-Ht. symmetry. by apply versionTable_same.
  - rewrite <-Hv. symmetry. by apply SchemaVersion_same.
Qed.
Lemma Init_err s d e d' : State_Init sqlInit s d = (Err e, d') → same d d'.
Proof.
  unfold State_Init. unfold mbind at 1, prog_bind at 1.
  destruct (srv_Begin (st_conn s) d) as [[u|e0| |] d1] eqn:Hb; try done.
  2: { intros [= <- <-]. by apply (begin_failed _ _ _ _ Hb). }
  unfold deferring.
  match goal with |- (let '(_, _) := ?t in _) = _ → _ => destruct t as [r d2] eqn:Hrun end. intros [= -> <-].
  apply begin_tx in Hb. apply (rollback_tx (st_conn s)).
  assert (∀ q args (k : () → prog D error ()) d0, in_tx (st_conn s) d d0 →
    (∀ u d3 d4 e, in_tx (st_conn s) d d3 → k u d3 = (Err e, d4) → in_tx (st_conn s) d d4) →
    ∀ d4 e, (srv_TxExec (st_conn s) q args ≫= k) d0 = (Err e, d4) → in_tx (st_conn s) d d4) as Hstep.
  { intros q args k d0 Hd0 Hk d4 e1. unfold mbind, prog_bind.
    pose proof (exec_tx (st_conn s) d q args d0 Hd0) as Hx.
    destruct (srv_TxExec (st_conn s) q args d0) as [[u0|e2| |] d3]; cbn in Hx; try done.
    - by apply Hk.
    - by intros [= <- <-]. }
  revert Hrun. apply Hstep; [done|]. intros _ d3 d4 e1 H3. apply Hstep; [done|]. intros _ d5 d6 e2 H5.
  apply Hstep; [done|]. intros _ d7 d8 e3 H7. apply Hstep; [done|]. intros _ d9 d10 e4 H9 Hc.
  pose proof (commit_failed (st_conn s) d d9 H9) as Hcommit. rewrite Hc in Hcommit. by apply Hcommit.
Qed.

Lemma quiet_open dsn : quiet (c ← openConn dsn; noInferred c ;; mret c).
Proof.
  apply quiet_bind; [apply quiet_bind; [intros d; apply open_same|]|].
  - intros c. apply quiet_bind; [intros d; apply ping_same|intros; apply quiet_ret].
  - intros c. apply quiet_bind; [apply quiet_wrap; intros d; apply set_same|intros; apply quiet_ret].
Qed.

(** What a session that opens has found, and has left *)
Definition settled s d d' : Prop :=
  st_version s = "development" ∧ same d d' ∨
  ∃ f, finds s d f ∧ match f with
    | NoSchema => same d d'
    | NoTable => finds s d' (Version (st_version s))
    | Version sv =>
        ¬ newer sv (st_version s) ∧
        (¬ older sv (st_version s) → same d d') ∧
        (older sv (st_version s) → finds s d' (Version (st_version s)))
    end.

Lemma settle_ok s d u d' : settleVersion sqlInit s d = (Ok u, d') → settled s d d'.
Proof.
  unfold settleVersion. intros (c & d1 & Hc & Hs)%bind_ok.
  pose proof (quiet_compat s d) as Hq. rewrite Hc in Hq. cbn in Hq.
  destruct (decide (st_version s = "development")) as [Hdev|Hdev].
  { left. split; [done|]. unfold VersionCompatibility in Hc. rewrite decide_True in Hc by done.
    injection Hc as <- <-. by injection Hs as _ <-. }
  right. assert ((VersionCompatibility s d).1 = Ok c) as Hc1 by (by rewrite Hc).
  destruct (compat_finds s d c Hc1 Hdev) as (f & Hf & Hcf). exists f. split; [done|].
  assert (c = VersionCompatVersionSchemaOlder → finds s d' (Version (st_version s))) as Hold
    by (intros ->; by apply (Init_ok s d1 u)).
  assert (c ∈ [VersionCompatCheckSkipped; VersionCompatVersionSchemaEqual] → same d d') as Heq.
  { intros Hin. by repeat (apply elem_of_cons in Hin as [->|Hin]; [by injection Hs as _ <-|]);
      apply elem_of_nil in Hin. }
  destruct f as [| |sv]; subst c; [by apply Heq; left|by apply Hold|].
  destruct (decide (sv = "development")) as [->|Hsv].
  { split_and!; [by intros ([] & _)|intros _; apply Heq; by left|by intros ([] & _)]. }
  pose proof (compareVersions_spec sv (st_version s) Hsv Hdev) as Hcmp.
  destruct (compareVersions sv (st_version s)); try done.
  - destruct Hcmp. split_and!; [done|intros _; apply Heq; by left|done].
  - split_and!; [|done|by intros _; apply Hold].
    destruct Hcmp as (_ & _ & ?). intros (_ & _ & ?). lia.
  - destruct Hcmp. split_and!; [done|intros _; apply Heq; right; by left|done].
  - by apply bind_ok in Hs as (? & ? & _ & ?).
Qed.
Lemma settle_err s d e d' : settleVersion sqlInit s d = (Err e, d') → same d d'.
Proof.
  unfold settleVersion, mbind at 1, prog_bind at 1. pose proof (quiet_compat s d) as Hq.
  destruct (VersionCompatibility s d) as [[c|e0| |] d1]; cbn in Hq; try done; [|by intros [= _ <-]].
  destruct c; try done.
  - intros Hi. etrans; [exact Hq|]. by apply (Init_err s d1 e).
  - intros Hf. etrans; [exact Hq|]. assert (quiet (v ← try (State_SchemaVersion s);
      fail (ErrorfW "%w: binary: %s vs schema: %s"
        [st_version s; match v with inl v => v | inr _ => "unknown" end] ErrNewPgrollSchema) : prog D error ())) as Hqf.
    { apply quiet_bind; [apply quiet_try, quiet_SchemaVersion|intros; apply quiet_fail]. }
    specialize (Hqf d1). by rewrite Hf in Hqf.
Qed.

(** C16. What opening a session does about the version of the state schema, on
    a server whose transactions are atomic.  A session opens, with its own
    version and schema, in one of these cases.  Nothing is compared, and
    nothing changes: the binary is a development build, the state schema does
    not exist, or one of the two versions is not a release (a development
    build, or no semantic version).  The recorded version is not older: then it
    is not newer either, and nothing changes.  It is older, or there is no
    version table: then [Init] has run in one transaction, and the schema
    records the binary's version.  Hence a newer release is never opened; and
    on every error nothing that can be read has changed, so that an old binary
    cannot damage a schema it does not know. *)
Theorem State_New_spec url schema version d :
  match State_New sqlInit url schema [WithPgrollVersion version] d with
  | (Ok s, d') => st_version s = version ∧ st_schema s = schema ∧ settled s d d'
  | (Err e, d') => same d d'
  | _ => True
  end.
Proof.
  assert (State_New sqlInit url schema [WithPgrollVersion version] d =
    (c ← (c ← openConn (dsnOf url +:+ " search_path=" +:+ schema +:+ " application_name=pgroll-state");
          noInferred c ;; mret c);
     settleVersion sqlInit (mkStateHandle c version schema) ;; mret (mkStateHandle c version schema)) d) as ->.
  { unfold State_New. rewrite bind_assoc. unfold mbind at 1 4, prog_bind at 1 4.
    destruct (openConn _ d) as [[c|e| |] d1]; try done. rewrite bind_assoc. done. }
  generalize (quiet_open (dsnOf url +:+ " search_path=" +:+ schema +:+ " application_name=pgroll-state")).
  generalize (c ← openConn (dsnOf url +:+ " search_path=" +:+ schema +:+ " application_name=pgroll-state");
              noInferred c ;; mret c). intros p Hp.
  specialize (Hp d). unfold mbind, prog_bind. destruct (p d) as [[c|e| |] d1]; cbn in Hp; try done.
  destruct (settleVersion sqlInit _ d1) as [[u|e| |] d'] eqn:Hs; try done; cbn.
  - split_and!; [done..|]. apply settle_ok in Hs as [[Hdev Hd]|(f & Hf & Hd)].
    { left. split; [done|]. by etrans. }
    right. exists f. split; [by apply (finds_same _ d1); [symmetry|]|].
    destruct f as [| |sv]; [by etrans|done|]. destruct Hd as (Hn & He & Ho). split_and!; [done| |done].
    intros Hno. etrans; [exact Hp|by apply He].
  - etrans; [exact Hp|]. by eapply settle_err.
Qed.
End facts.

(** ** A server in memory *)

(** The state schema's version table: no schema, or the versions in it; and
    what a transaction, if one is open, began with *)
Record mem_server := mkMemServer { ms_versions : option (list string); ms_saved : option (option (list string)) }.
Definition mem_state (d : mem_server) : option (list string) := default (ms_versions d) (ms_saved d).

#[local] Instance mem_Server : Server mem_server := {|
  conn := ();
  pq_ParseURL s := Ok s;
  srv_Open _ d := (Ok tt, d);
  srv_Ping _ d := (Ok (), d);
  srv_Close _ d := (Ok (), d);
  srv_Exec _ _ _ d := (Ok (), d);
  srv_QueryRow _ q _ d :=
    (if HasPrefix q "SELECT substring" then Ok (VString "16")
     else if HasPrefix q "SELECT EXISTS" then Ok (VBool (bool_decide (is_Some (mem_state d))))
     else match mem_state d with
          | Some (v :: _) => Ok (VString v)
          | _ => Err (Errorf "sql: no rows in result set" [])
          end, d);
  srv_Begin _ d := match ms_saved d with
                   | None => (Ok (), mkMemServer (ms_versions d) (Some (ms_versions d)))
                   | Some _ => (Err (Errorf "there is already a transaction" []), d)
                   end;
  srv_TxExec _ q args d :=
    (Ok (), if HasPrefix q "INSERT"
            then match args with
                 | [VString v] => mkMemServer (Some (v :: default [] (ms_versions d))) (ms_saved d)
                 | _ => d
                 end
            else if HasPrefix q "TRUNCATE" then mkMemServer (Some []) (ms_saved d)
            else d);
  srv_Commit _ d := (Ok (), mkMemServer (ms_versions d) None);
  srv_Rollback _ d := match ms_saved d with Some v => (Ok (), mkMemServer v None) | None => (Ok (), d) end;
|}.
#[local] Instance mem_Semver : Semver := {|
  semver_IsValid v := HasPrefix v "v";
  semver_Canonical v := v;
  semver_Compare v w := match String.compare v w with Lt => (-1)%Z | Eq => 0%Z | Gt => 1%Z end;
|}.
#[local] Instance mem_versions : SemverLaws.
Proof. split. intros v w. cbn. rewrite String.compare_antisym. by destruct (String.compare v w). Qed.
#[local] Instance mem_Pq : Pq :=
  {| QuoteIdentifier s := s; QuoteLiteral s := s; NewString _ := "" |}.
Definition mem_init : string := "CREATE TABLE placeholder.pgroll_version (version TEXT)".
#[local] Instance mem_laws : ServerLaws mem_server mem_init.
Proof.
  refine {| same d d' := mem_state d = mem_state d'; in_tx _ d0 d := ms_saved d = Some (mem_state d0) |};
    try done.
  - split; [intros d; done|intros d d' Hd; by symmetry|intros d d' d'' H1 H2; by etrans].
  - intros c q args d d' Hd. cbn. by rewrite Hd.
  - intros c [v [s|]] u d' [= _ <-]. done.
  - intros c [v [s|]] o d'; cbn; intros [= <- <-]; done.
  - intros c d0 q args [v sv] Hd. cbn in *. by repeat case_match.
  - intros c d0 [v sv] Hd. cbn in *. by rewrite Hd.
  - intros c d u d' [= _ <-]. done.
  - intros s [v [sv|]] d1 d2 d3 d4 d5 d6 u1 u2 u3 u4 u5 u6 H1; [done|]. injection H1 as _ <-. cbn.
    intros [= _ <-]. cbn. intros [= _ <-].
    intros [= _ <-]. cbn. intros [= _ <-]. cbn. intros [= _ <-]. done.
Defined.

(** A binary of version 0.17 brings up the schema of version 0.16, and does
    not open that of 0.18. *)
Lemma State_New_spec_witness :
  let opts := [WithPgrollVersion "v0.17.0"] in
  (State_New mem_init "postgres://" "pgroll" opts (mkMemServer (Some ["v0.18.0"]) None)).1 =
    Err (ErrorfW "%w: binary: %s vs schema: %s" ["v0.17.0"; "v0.18.0"] ErrNewPgrollSchema) ∧
  match State_New mem_init "postgres://" "pgroll" opts (mkMemServer (Some ["v0.16.0"]) None) with
  | (Ok s, d') => mem_state d' = Some ["v0.17.0"] ∧
      settled mem_init s (mkMemServer (Some ["v0.16.0"]) None) d'
  | _ => False
  end.
Proof.
  split; [vm_compute; reflexivity|].
  pose proof (State_New_spec mem_init "postgres://" "pgroll" "v0.17.0" (mkMemServer (Some ["v0.16.0"]) None)) as Hs.
  assert (match State_New mem_init "postgres://" "pgroll" [WithPgrollVersion "v0.17.0"]
      (mkMemServer (Some ["v0.16.0"]) None) with
    | (Ok s, d') => mem_state d' = Some ["v0.17.0"] | _ => False end) as Hr by (vm_compute; reflexivity).
  cbv zeta in *. destruct (State_New _ _ _ _ _) as [[s|e| |] d']; try done.
  split; [exact Hr|]. apply Hs.
Defined.

(** Every command opens its session this way, so one that only reads, such as
    [pgroll plan], brings an older state schema up as well. *)
Definition plain_flags : cliFlags :=
  mkCliFlags "postgres://" "public" "pgroll" 500 300000 "" false true "" 0.
Lemma reading_commands_upgrade :
  match NewRollWithInitCheck (E := ()) mem_init "v0.17.0" plain_flags (mkMemServer (Some ["v0.16.0"]) None) with
  | (Ok m, d') => mem_state d' = Some ["v0.17.0"] ∧ Roll_pgVersion (ses_roll m) = 16%Z
  | _ => False
  end.
Proof. by vm_compute. Qed.
