(* ===== verification/Sql2Pgroll.v ===== *)
(** * Sql2Pgroll: SQL statements as operations

    [pkg/sql2pgroll]: the conversion of a parsed SQL text into operations,
    and [cmd/convert.go].  The parser is a third-party library: its tree is a
    class of abstract messages with the getters the conversion calls.  A
    pointer that may be nil is an [option]; the elements of a repeated field
    are never nil. *)

From S2P Require Import Prelude.
From S2P Require Import GoStd.
From S2P Require Import Types.
From S2P Require Import OpsTable.

(** ** The parser's enumerations: the members the code names, and the others *)

Inductive ObjectType :=
  | OBJECT_TABLE | OBJECT_COLUMN | OBJECT_TABCONSTRAINT | OBJECT_INDEX | OBJECT_other.
Inductive DropBehavior := DROP_RESTRICT | DROP_CASCADE | DROP_undefined.
Inductive AlterTableType :=
  | AT_SetNotNull | AT_DropNotNull | AT_AlterColumnType | AT_AddConstraint
  | AT_DropColumn | AT_ColumnDefault | AT_DropConstraint | AT_AddColumn | AT_other.
Inductive ConstrType :=
  | CONSTR_NULL | CONSTR_NOTNULL | CONSTR_UNIQUE | CONSTR_PRIMARY | CONSTR_CHECK
  | CONSTR_DEFAULT | CONSTR_FOREIGN | CONSTR_ATTR_NOT_DEFERRABLE
  | CONSTR_ATTR_IMMEDIATE | CONSTR_GENERATED | CONSTR_IDENTITY
  | CONSTR_ATTR_DEFERRABLE | CONSTR_ATTR_DEFERRED | CONSTR_EXCLUSION | CONSTR_other.
Inductive SortByDir := SORTBY_DEFAULT | SORTBY_ASC | SORTBY_DESC | SORTBY_other.
Inductive SortByNulls :=
  | SORTBY_NULLS_DEFAULT | SORTBY_NULLS_FIRST | SORTBY_NULLS_LAST | SORTBY_NULLS_other.

(** The messages, their getters and the functions of the library *)
Class PgQuery := {
  Node : Type;
  RangeVar : Type;
  TypeName : Type;
  ColumnDef : Type;
  PgConstraint : Type;
  IndexElem : Type;
  AlterTableCmd : Type;
  CreateStmt : Type;
  AlterTableStmt : Type;
  RenameStmt : Type;
  DropStmt : Type;
  IndexStmt : Type;

  (** The cases of a node that the code asks for; at most one holds. *)
  Node_CreateStmt : Node → option CreateStmt;
  Node_AlterTableStmt : Node → option AlterTableStmt;
  Node_RenameStmt : Node → option RenameStmt;
  Node_DropStmt : Node → option DropStmt;
  Node_IndexStmt : Node → option IndexStmt;
  Node_AlterTableCmd : Node → option AlterTableCmd;
  Node_ColumnDef : Node → option ColumnDef;
  Node_Constraint : Node → option PgConstraint;
  Node_IndexElem : Node → option IndexElem;
  Node_String : Node → option string;
  Node_List : Node → option (list Node);
  (** [Isnull] of a constant *)
  Node_AConst : Node → option bool;
  Node_GoType : Node → string;

  RangeVar_Relname : RangeVar → string;
  RangeVar_Schemaname : RangeVar → string;
  RangeVar_Relpersistence : RangeVar → string;
  RangeVar_Inh : RangeVar → bool;

  ColumnDef_Colname : ColumnDef → string;
  ColumnDef_TypeName : ColumnDef → TypeName;
  ColumnDef_Constraints : ColumnDef → list Node;
  ColumnDef_StorageName : ColumnDef → string;
  ColumnDef_Compression : ColumnDef → string;
  ColumnDef_CollClause : ColumnDef → option Node;
  ColumnDef_RawDefault : ColumnDef → option Node;

  PgConstraint_Contype : PgConstraint → ConstrType;
  PgConstraint_Conname : PgConstraint → string;
  PgConstraint_RawExpr : PgConstraint → option Node;
  PgConstraint_Keys : PgConstraint → list Node;
  PgConstraint_Including : PgConstraint → list Node;
  PgConstraint_Options : PgConstraint → list Node;
  PgConstraint_Exclusions : PgConstraint → list Node;
  PgConstraint_WhereClause : PgConstraint → option Node;
  PgConstraint_AccessMethod : PgConstraint → string;
  PgConstraint_Indexspace : PgConstraint → string;
  PgConstraint_NullsNotDistinct : PgConstraint → bool;
  PgConstraint_IsNoInherit : PgConstraint → bool;
  PgConstraint_Deferrable : PgConstraint → bool;
  PgConstraint_Initdeferred : PgConstraint → bool;
  PgConstraint_SkipValidation : PgConstraint → bool;
  PgConstraint_GeneratedWhen : PgConstraint → string;
  PgConstraint_Pktable : PgConstraint → option RangeVar;
  PgConstraint_PkAttrs : PgConstraint → list Node;
  PgConstraint_FkAttrs : PgConstraint → list Node;
  PgConstraint_FkMatchtype : PgConstraint → string;
  PgConstraint_FkDelAction : PgConstraint → string;
  PgConstraint_FkUpdAction : PgConstraint → string;
  PgConstraint_FkDelSetCols : PgConstraint → list Node;

  IndexElem_Name : IndexElem → string;
  IndexElem_Expr : IndexElem → option Node;
  IndexElem_Collation : IndexElem → list Node;
  IndexElem_Opclass : IndexElem → list Node;
  IndexElem_Opclassopts : IndexElem → list Node;
  IndexElem_Ordering : IndexElem → SortByDir;
  IndexElem_NullsOrdering : IndexElem → SortByNulls;

  AlterTableCmd_Subtype : AlterTableCmd → AlterTableType;
  AlterTableCmd_Name : AlterTableCmd → string;
  AlterTableCmd_Def : AlterTableCmd → option Node;
  AlterTableCmd_Behavior : AlterTableCmd → DropBehavior;
  AlterTableCmd_MissingOk : AlterTableCmd → bool;

  CreateStmt_Relation : CreateStmt → option RangeVar;
  CreateStmt_TableElts : CreateStmt → list Node;
  CreateStmt_InhRelations : CreateStmt → list Node;
  (** [true]: not nil *)
  CreateStmt_Partspec : CreateStmt → bool;
  CreateStmt_OfTypename : CreateStmt → bool;
  CreateStmt_AccessMethod : CreateStmt → string;
  CreateStmt_Options : CreateStmt → list Node;
  (** [true]: not [ONCOMMIT_NOOP] *)
  CreateStmt_Oncommit : CreateStmt → bool;
  CreateStmt_Tablespacename : CreateStmt → string;

  AlterTableStmt_Objtype : AlterTableStmt → ObjectType;
  AlterTableStmt_Relation : AlterTableStmt → option RangeVar;
  AlterTableStmt_Cmds : AlterTableStmt → list Node;

  RenameStmt_RenameType : RenameStmt → ObjectType;
  RenameStmt_Relation : RenameStmt → option RangeVar;
  RenameStmt_Subname : RenameStmt → string;
  RenameStmt_Newname : RenameStmt → string;

  DropStmt_RemoveType : DropStmt → ObjectType;
  DropStmt_Objects : DropStmt → list Node;
  DropStmt_Behavior : DropStmt → DropBehavior;

  IndexStmt_Relation : IndexStmt → option RangeVar;
  IndexStmt_Idxname : IndexStmt → string;
  IndexStmt_AccessMethod : IndexStmt → string;
  IndexStmt_TableSpace : IndexStmt → string;
  IndexStmt_IndexParams : IndexStmt → list Node;
  IndexStmt_IndexIncludingParams : IndexStmt → list Node;
  IndexStmt_Options : IndexStmt → list Node;
  IndexStmt_WhereClause : IndexStmt → option Node;
  IndexStmt_Unique : IndexStmt → bool;
  IndexStmt_NullsNotDistinct : IndexStmt → bool;

  (** The statements of a text, nil where the statement is empty *)
  pgq_Parse : string → outcome error (list (option Node));
  SplitWithParser : string → outcome error (list string);
  DeparseTypeName : TypeName → outcome error string;
  DeparseExpr : option Node → outcome error string;
  DeparseParenthesizedSeqOptList : list Node → outcome error string;
  DeparseIndexElem : Node → outcome error string;
  DeparseAnyOperator : list Node → outcome error string;
  DeparseAnyName : list Node → outcome error string;
  DeparseRelOptions : list Node → outcome error string;
}.

Definition PlaceHolderColumnName : string := "placeholder".
Definition PlaceHolderSQL : string := "TODO: Implement SQL data migration".

(** ** Fallible conversions

    A conversion returns [(nil, nil)], here [None], for a statement it leaves
    as it is. *)
Definition conv (A : Type) : Type := outcome error (option A).
Definition conv_bind {A B} (f : A → conv B) (x : conv A) : conv B :=
  match x with
  | Ok (Some a) => f a
  | Ok None => Ok None
  | Err e => Err e
  | Panic => Panic
  | OutOfFuel => OutOfFuel
  end.
Definition raw {A} : conv A := Ok None.
Definition value {A} (a : A) : conv A := Ok (Some a).
(** [if !ok { return nil, nil }] *)
Definition only_if {A} (ok : bool) (x : conv A) : conv A := if ok then x else raw.
(** [if err != nil { return nil, wrap(err) }] *)
Definition or_error {A} (wrap : error → error) (x : outcome error A) : conv A :=
  match x with
  | Ok a => value a
  | Err e => Err (wrap e)
  | Panic => Panic
  | OutOfFuel => OutOfFuel
  end.
(** [if err != nil { return nil, nil }] *)
Definition or_raw {A} (x : outcome error A) : conv A :=
  match x with
  | Ok a => value a
  | Err _ => raw
  | Panic => Panic
  | OutOfFuel => OutOfFuel
  end.
Definition conv_wrap {A} (wrap : error → error) (x : conv A) : conv A :=
  match x with Err e => Err (wrap e) | _ => x end.
Definition crash {A} : conv A := Panic.
(** [len(l) == 0] *)
Definition is_nil {A} (l : list A) : bool := match l with [] => true | _ => false end.

Declare Scope conv_scope.
Delimit Scope conv_scope with conv.
Notation "x <~ m ; k" := (conv_bind (λ x, k) m)
  (at level 20, m at level 100, k at level 200, right associativity) : conv_scope.
Open Scope conv_scope.

Fixpoint conv_map {A B} (f : A → conv B) (l : list A) : conv (list B) :=
  match l with
  | [] => value []
  | x :: l => y <~ f x; ys <~ conv_map f l; value (y :: ys)
  end.
Fixpoint conv_fold {A B} (f : B → A → conv B) (l : list A) (b : B) : conv B :=
  match l with
  | [] => value b
  | x :: l => b <~ f b x; conv_fold f l b
  end.

(** [s[1 : len(s)-1]] *)
Definition strip_outer (s : string) : conv string :=
  if (2 <=? String.length s)%nat then value (take_str (String.length s - 2) (drop_str 1 s)) else crash.
(** [strings.Split] at one character *)
Fixpoint Split (sep : Ascii.ascii) (s : string) : list string :=
  match s with
  | "" => [""]
  | String c s =>
      match Split sep s with
      | part :: parts => if Ascii.eqb c sep then "" :: part :: parts else String c part :: parts
      | [] => []
      end
  end.

Definition referentialAction (c : string) : string :=
  match c with
  | "a" => ForeignKeyActionNOACTION
  | "c" => ForeignKeyActionCASCADE
  | "d" => ForeignKeyActionSETDEFAULT
  | "n" => ForeignKeyActionSETNULL
  | "r" => ForeignKeyActionRESTRICT
  | _ => ""
  end.
Definition matchTypes (c : string) : string :=
  match c with
  | "s" => ForeignKeyMatchTypeSIMPLE
  | "p" => ForeignKeyMatchTypePARTIAL
  | "f" => ForeignKeyMatchTypeFULL
  | _ => ""
  end.

(** What a column constraint has set so far *)
Record columnParts := mkColumnParts {
  p_notNull : bool;
  p_pk : bool;
  p_unique : bool;
  p_check : option MigCheckConstraint;
  p_foreignKey : option ForeignKeyReference;
  p_defaultValue : option string;
  p_generated : option ColumnGenerated;
}.
Definition noParts : columnParts := mkColumnParts false false false None None None None.

Section conversion.
Context `{!PgQuery}.

Definition relname (rel : option RangeVar) : string := from_option RangeVar_Relname "" rel.
Definition getQualifiedRelationName (rel : option RangeVar) : string :=
  let schema := from_option RangeVar_Schemaname "" rel in
  if decide (schema = "") then relname rel else schema +:+ "." +:+ relname rel.

(** [GetString_().GetSval()] and [GetString_().Sval] *)
Definition GetSval (n : Node) : string := default "" (Node_String n).
Definition Sval (n : Node) : conv string :=
  match Node_String n with Some s => value s | None => crash end.

Definition extractDefault (node : option Node) : outcome error Nullable :=
  match node with
  | None => Ok Unspecified
  | Some n =>
      if decide (Node_AConst n = Some true) then Ok Null
      else
        match DeparseExpr node with
        | Ok def => Ok (Value def)
        | Err e => Err (ErrorfW "failed to deparse expression: %w" [] e)
        | Panic => Panic
        | OutOfFuel => OutOfFuel
        end
  end.

(** ** What is left alone *)

Definition canConvertForeignKeyConstraint (c : PgConstraint) : bool :=
  negb (PgConstraint_SkipValidation c).
Definition canConvertCheckConstraint (c : PgConstraint) : bool :=
  negb (PgConstraint_SkipValidation c).
Definition canConvertUniqueConstraint (c : PgConstraint) : bool :=
  negb (PgConstraint_NullsNotDistinct c) &&
  is_nil (PgConstraint_Including c) &&
  is_nil (PgConstraint_Options c) &&
  String.eqb (PgConstraint_Indexspace c) "".
Definition canConvertPrimaryKeyConstraint (c : PgConstraint) : bool :=
  String.eqb (PgConstraint_Indexspace c) "" && is_nil (PgConstraint_Options c).
Definition isConstraintNamed (c : PgConstraint) : bool :=
  negb (String.eqb (PgConstraint_Conname c) "").
Definition canConvertColumnDef (col : ColumnDef) : bool :=
  String.eqb (ColumnDef_StorageName col) "" && String.eqb (ColumnDef_Compression col) "" &&
  match ColumnDef_CollClause col with None => true | _ => false end.
Definition canConvertColumnForSetDataType (col : ColumnDef) : bool :=
  match ColumnDef_CollClause col, ColumnDef_RawDefault col with None, None => true | _, _ => false end.
Definition canConvertDropConstraint (cmd : AlterTableCmd) : bool :=
  match AlterTableCmd_Behavior cmd with DROP_CASCADE => false | _ => true end.
Definition canConvertAddColumn (cmd : AlterTableCmd) : bool := negb (AlterTableCmd_MissingOk cmd).
Definition canConvertDropColumn (cmd : AlterTableCmd) : bool :=
  negb (AlterTableCmd_MissingOk cmd) &&
  match AlterTableCmd_Behavior cmd with DROP_CASCADE => false | _ => true end.
Definition canConvertCreateStatement (stmt : CreateStmt) : bool :=
  String.eqb (from_option RangeVar_Relpersistence "" (CreateStmt_Relation stmt)) "p" &&
  is_nil (CreateStmt_InhRelations stmt) && negb (CreateStmt_Partspec stmt) &&
  String.eqb (CreateStmt_AccessMethod stmt) "" && is_nil (CreateStmt_Options stmt) &&
  negb (CreateStmt_Oncommit stmt) && String.eqb (CreateStmt_Tablespacename stmt) "" &&
  negb (CreateStmt_OfTypename stmt).
Definition canConvertDropIndex (stmt : DropStmt) : bool :=
  negb (1 <? length (DropStmt_Objects stmt))%nat &&
  match DropStmt_Behavior stmt with DROP_CASCADE => false | _ => true end.
Definition canConvertDropTable (stmt : DropStmt) : bool :=
  match DropStmt_Behavior stmt with DROP_CASCADE => false | _ => true end.
Definition hasExpr (n : Node) : bool :=
  match Node_IndexElem n with
  | Some e => match IndexElem_Expr e with Some _ => true | None => false end
  | None => false
  end.
Definition canConvertCreateIndexStmt (stmt : IndexStmt) : bool :=
  String.eqb (IndexStmt_TableSpace stmt) "" && is_nil (IndexStmt_IndexIncludingParams stmt) &&
  from_option RangeVar_Inh false (IndexStmt_Relation stmt) &&
  negb (IndexStmt_NullsNotDistinct stmt) &&
  negb (existsb hasExpr (IndexStmt_IndexParams stmt)).

(** ** Column definitions *)

Definition convertInlineCheckConstraint (tableName columnName : string) (c : PgConstraint) :
    conv MigCheckConstraint :=
  only_if (canConvertCheckConstraint c) (
    expr <~ or_error (ErrorfW "failed to deparse CHECK expression: %w" [])
              (DeparseExpr (PgConstraint_RawExpr c));
    value (mkMigCheckConstraint expr
      (if isConstraintNamed c then PgConstraint_Conname c
       else tableName +:+ "_" +:+ columnName +:+ "_check")
      (PgConstraint_IsNoInherit c))).

(** An action or match type that is absent has its default; an unknown one
    is the zero value. *)
Definition actionOf (c : string) : string :=
  if decide (c = "") then ForeignKeyActionNOACTION else referentialAction c.
Definition matchOf (c : string) : string :=
  if decide (c = "") then ForeignKeyMatchTypeSIMPLE else matchTypes c.

Definition convertInlineForeignKeyConstraint (tableName columnName : string) (c : PgConstraint) :
    conv ForeignKeyReference :=
  only_if (canConvertForeignKeyConstraint c) (
    match PgConstraint_PkAttrs c with
    | [] => crash
    | attr :: _ =>
        value (mkForeignKeyReference (GetSval attr) (PgConstraint_Deferrable c)
          (PgConstraint_Initdeferred c) (matchOf (PgConstraint_FkMatchtype c))
          (if isConstraintNamed c then PgConstraint_Conname c
           else tableName +:+ "_" +:+ columnName +:+ "_fkey")
          (actionOf (PgConstraint_FkDelAction c)) (actionOf (PgConstraint_FkUpdAction c))
          (getQualifiedRelationName (PgConstraint_Pktable c)))
    end).

Definition convertIdentity (c : PgConstraint) : conv ColumnGenerated :=
  when <~ match PgConstraint_GeneratedWhen c with
          | "a" => value ColumnGeneratedIdentityUserSpecifiedValuesALWAYS
          | "d" => value ColumnGeneratedIdentityUserSpecifiedValuesBYDEFAULT
          | _ => raw
          end;
  options <~ (if is_nil (PgConstraint_Options c) then value ""
    else
      options <~ or_error (ErrorfW "parsing sequence options: %w" [])
        (DeparseParenthesizedSeqOptList (PgConstraint_Options c));
      strip_outer options);
  value (mkColumnGenerated "" (Some (mkColumnGeneratedIdentity options when))).

(** One turn of the loop over the constraints of a column *)
Definition convertColumnConstraint (tableName columnName : string) (p : columnParts) (n : Node) :
    conv columnParts :=
  let '(mkColumnParts nn pk un ck fk df gen) := p in
  match Node_Constraint n with
  | None => raw
  | Some c =>
      let unnamed := negb (isConstraintNamed c) in
      match PgConstraint_Contype c with
      | CONSTR_NULL => only_if unnamed (value (mkColumnParts false pk un ck fk df gen))
      | CONSTR_NOTNULL => only_if unnamed (value (mkColumnParts true pk un ck fk df gen))
      | CONSTR_UNIQUE =>
          only_if (unnamed && canConvertUniqueConstraint c) (value (mkColumnParts nn pk true ck fk df gen))
      | CONSTR_PRIMARY =>
          only_if (unnamed && canConvertPrimaryKeyConstraint c)
            (value (mkColumnParts true true un ck fk df gen))
      | CONSTR_CHECK =>
          ck <~ conv_wrap (ErrorfW "error converting inline check constraint: %w" [])
                  (convertInlineCheckConstraint tableName columnName c);
          value (mkColumnParts nn pk un (Some ck) fk df gen)
      | CONSTR_DEFAULT =>
          only_if unnamed (
            d <~ or_error (ErrorfW "error deparsing default value: %w" [])
                   (extractDefault (PgConstraint_RawExpr c));
            match d with
            | Null => value p
            | Value v => value (mkColumnParts nn pk un ck fk (Some v) gen)
            | Unspecified => crash
            end)
      | CONSTR_FOREIGN =>
          fk <~ conv_wrap (ErrorfW "error converting inline foreign key constraint: %w" [])
                  (convertInlineForeignKeyConstraint tableName columnName c);
          value (mkColumnParts nn pk un ck (Some fk) df gen)
      | CONSTR_ATTR_NOT_DEFERRABLE | CONSTR_ATTR_IMMEDIATE => value p
      | CONSTR_GENERATED =>
          match PgConstraint_RawExpr c with
          | None => raw
          | Some _ =>
              expr <~ or_error (ErrorfW "deparsing generated expression: %w" [])
                        (DeparseExpr (PgConstraint_RawExpr c));
              value (mkColumnParts true pk un ck fk df (Some (mkColumnGenerated expr None)))
          end
      | CONSTR_IDENTITY =>
          g <~ convertIdentity c; value (mkColumnParts true pk un ck fk df (Some g))
      | _ => raw
      end
  end.

Definition convertColumnDef (tableName : string) (col : ColumnDef) : conv MigColumn :=
  only_if (canConvertColumnDef col) (
    typeString <~ or_error (ErrorfW "error deparsing column type: %w" [])
                    (DeparseTypeName (ColumnDef_TypeName col));
    p <~ conv_fold (convertColumnConstraint tableName (ColumnDef_Colname col))
           (ColumnDef_Constraints col) noParts;
    value (mkMigColumn (p_check p) None (p_defaultValue p) (p_generated p) (ColumnDef_Colname col)
      (negb (p_notNull p)) (p_pk p) (p_foreignKey p) typeString (p_unique p))).

(** ** Table constraints *)

Definition convertFkConstraint (c : PgConstraint) : conv (list string * TableForeignKeyReference) :=
  referencedColumns <~ conv_map Sval (PgConstraint_PkAttrs c);
  columnsToSet <~ (if decide (PgConstraint_FkDelAction c = "") then value []
                   else conv_map Sval (PgConstraint_FkDelSetCols c));
  columns <~ conv_map Sval (PgConstraint_FkAttrs c);
  value (columns, mkTableForeignKeyReference referencedColumns (matchOf (PgConstraint_FkMatchtype c))
    (actionOf (PgConstraint_FkDelAction c)) columnsToSet (actionOf (PgConstraint_FkUpdAction c))
    (getQualifiedRelationName (PgConstraint_Pktable c))).

(** [elem.GetList() == nil && len(elem.GetList().Items) != 2] is never true:
    it dereferences the list when that is nil. *)
Definition convertExclusion (elem : Node) : conv string :=
  match Node_List elem with
  | None => crash
  | Some items =>
      match items with
      | [] => crash
      | column :: items =>
          indexElem <~ or_raw (DeparseIndexElem column);
          match items with
          | [] => crash
          | op :: _ =>
              match Node_List op with
              | None => crash
              | Some names =>
                  anyOp <~ or_raw (DeparseAnyOperator names);
                  value (indexElem +:+ " WITH " +:+ anyOp)
              end
          end
      end
  end.
Definition convertExclude (c : PgConstraint) : conv ConstraintExclude :=
  whereClause <~ match PgConstraint_WhereClause c with
                 | None => value ""
                 | Some _ => or_raw (DeparseExpr (PgConstraint_WhereClause c))
                 end;
  exclusionElements <~ conv_map convertExclusion (PgConstraint_Exclusions c);
  value (mkConstraintExclude (Join exclusionElements ", ") (PgConstraint_AccessMethod c) whereClause).

Definition relOptions (options : list Node) : conv string :=
  if is_nil options then value ""
  else
    params <~ or_error (ErrorfW "parsing options: %w" []) (DeparseRelOptions options);
    strip_outer params.

(** The type of a table constraint, its columns and what its type adds *)
Definition constraintParts (columns : list string) (c : PgConstraint) :
    conv (string * list string * bool * string * option TableForeignKeyReference *
          option ConstraintExclude) :=
  match PgConstraint_Contype c with
  | CONSTR_UNIQUE =>
      value (ConstraintTypeUnique, columns, PgConstraint_NullsNotDistinct c, "", None, None)
  | CONSTR_CHECK =>
      expr <~ or_error (ErrorfW "deparsing check expression: %w" [])
                (DeparseExpr (PgConstraint_RawExpr c));
      value (ConstraintTypeCheck, columns, false, expr, None, None)
  | CONSTR_PRIMARY => value (ConstraintTypePrimaryKey, columns, false, "", None, None)
  | CONSTR_FOREIGN =>
      fk <~ convertFkConstraint c;
      value (ConstraintTypeForeignKey, fk.1, false, "", Some fk.2, None)
  | CONSTR_EXCLUSION =>
      exclude <~ convertExclude c;
      value (ConstraintTypeExclude, columns, false, "", None, Some exclude)
  | _ => raw
  end.

Definition convertConstraint (c : PgConstraint) : conv Constraint :=
  columns <~ conv_map Sval (PgConstraint_Keys c);
  parts <~ constraintParts columns c;
  let '(constraintType, columns, nullsNotDistinct, checkExpr, references, exclude) := parts in
  including <~ conv_map Sval (PgConstraint_Including c);
  storageParams <~ relOptions (PgConstraint_Options c);
  let indexParameters :=
    if String.eqb storageParams "" && String.eqb (PgConstraint_Indexspace c) "" && is_nil including
    then None
    else Some (mkConstraintIndexParameters including storageParams (PgConstraint_Indexspace c)) in
  value (mkConstraint checkExpr columns (PgConstraint_Deferrable c) exclude indexParameters
    (PgConstraint_Initdeferred c) (PgConstraint_Conname c) (PgConstraint_IsNoInherit c)
    nullsNotDistinct references constraintType).

(** ** Statements *)

Definition tableElement (tableName : string) (t : list MigColumn * list Constraint) (elt : Node) :
    conv (list MigColumn * list Constraint) :=
  match Node_ColumnDef elt with
  | Some col =>
      column <~ conv_wrap (ErrorfW "error converting column definition: %w" [])
                  (convertColumnDef tableName col);
      value (t.1 ++ [column], t.2)
  | None =>
      match Node_Constraint elt with
      | Some c =>
          constraint <~ conv_wrap (ErrorfW "error converting table constraint: %w" [])
                          (convertConstraint c);
          value (t.1, t.2 ++ [constraint])
      | None => raw
      end
  end.
Definition convertCreateStmt (stmt : CreateStmt) : conv (list Operation) :=
  only_if (canConvertCreateStatement stmt) (
    t <~ conv_fold (tableElement (relname (CreateStmt_Relation stmt)))
           (CreateStmt_TableElts stmt) ([], []);
    value [CreateTable_ (mkOpCreateTable t.1 None t.2
            (getQualifiedRelationName (CreateStmt_Relation stmt)))]).

Definition qualifiedName (object : Node) : string :=
  Join (GetSval <$> default [] (Node_List object)) ".".
Definition convertDropIndexStatement (stmt : DropStmt) : conv (list Operation) :=
  only_if (canConvertDropIndex stmt)
    match DropStmt_Objects stmt with
    | [] => crash
    | object :: _ => value [DropIndex_ (mkOpDropIndex (qualifiedName object))]
    end.
Definition convertDropTableStatement (stmt : DropStmt) : conv (list Operation) :=
  only_if (canConvertDropTable stmt)
    match DropStmt_Objects stmt with
    | [] => crash
    | object :: _ => value [DropTable_ (mkOpDropTable (qualifiedName object))]
    end.
Definition convertDropStatement (stmt : DropStmt) : conv (list Operation) :=
  match DropStmt_RemoveType stmt with
  | OBJECT_INDEX => convertDropIndexStatement stmt
  | OBJECT_TABLE => convertDropTableStatement stmt
  | _ => raw
  end.

Definition convertRenameStmt (stmt : RenameStmt) : conv (list Operation) :=
  let table := relname (RenameStmt_Relation stmt) in
  let from := RenameStmt_Subname stmt in
  let to := RenameStmt_Newname stmt in
  match RenameStmt_RenameType stmt with
  | OBJECT_TABLE => value [RenameTable_ (mkOpRenameTable table to)]
  | OBJECT_COLUMN => value [RenameColumn_ (mkOpRenameColumn from table to)]
  | OBJECT_TABCONSTRAINT => value [RenameConstraint_ (mkOpRenameConstraint from table to)]
  | _ => raw
  end.

Definition convertOpclass (e : IndexElem) : conv (option IndexFieldOpclass) :=
  opclassName <~ or_raw (DeparseAnyName (IndexElem_Opclass e));
  if decide (opclassName = "") then value None
  else
    opts <~ or_raw (DeparseRelOptions (IndexElem_Opclassopts e));
    opclassOpts <~ (if decide (opts = "()") then value []
                    else inner <~ strip_outer opts;
                         value (TrimSpace <$> Split "," inner));
    value (Some (mkIndexFieldOpclass opclassName opclassOpts)).
(** An index parameter that names no column is passed over. *)
Definition indexParam (columns : list IndexField) (param : Node) : conv (list IndexField) :=
  match Node_IndexElem param with
  | None => value columns
  | Some e =>
      if decide (IndexElem_Name e = "") then value columns
      else
        collate <~ or_raw (DeparseAnyName (IndexElem_Collation e));
        opclass <~ convertOpclass e;
        sort <~ match IndexElem_Ordering e with
                | SORTBY_DEFAULT => value "" | SORTBY_ASC => value IndexFieldSortASC
                | SORTBY_DESC => value IndexFieldSortDESC | SORTBY_other => raw end;
        nulls <~ match IndexElem_NullsOrdering e with
                 | SORTBY_NULLS_DEFAULT => value None
                 | SORTBY_NULLS_FIRST => value (Some IndexFieldNullsFIRST)
                 | SORTBY_NULLS_LAST => value (Some IndexFieldNullsLAST)
                 | SORTBY_NULLS_other => raw end;
        value (columns ++ [mkIndexField collate (IndexElem_Name e) nulls opclass sort])
  end.
Definition convertCreateIndexStmt (stmt : IndexStmt) : conv (list Operation) :=
  only_if (canConvertCreateIndexStmt stmt) (
    columns <~ conv_fold indexParam (IndexStmt_IndexParams stmt) [];
    let '(method, err) := ParseCreateIndexMethod (IndexStmt_AccessMethod stmt) in
    match err with
    | Some e => Err (ErrorfW "parse create index method: %w" [] e)
    | None =>
        predicate <~ match IndexStmt_WhereClause stmt with
                     | None => value ""
                     | Some _ => or_error (ErrorfW "parsing where clause: %w" [])
                                   (DeparseExpr (IndexStmt_WhereClause stmt))
                     end;
        storageParams <~ relOptions (IndexStmt_Options stmt);
        value [CreateIndex_ (mkOpCreateIndex columns method (IndexStmt_Idxname stmt) predicate
                storageParams (getQualifiedRelationName (IndexStmt_Relation stmt))
                (IndexStmt_Unique stmt))]
    end).

(** ** ALTER TABLE *)

Definition placeholders (columns : list string) : gmap string string :=
  list_to_map ((λ column, (column, PlaceHolderSQL)) <$> columns).
Definition alterColumn (stmt : AlterTableStmt) (cmd : AlterTableCmd) (def : Nullable)
    (nullable : option bool) (type : option string) : Operation :=
  AlterColumn_ (mkOpAlterColumn None (AlterTableCmd_Name cmd) Unspecified def PlaceHolderSQL nullable
    None (relname (AlterTableStmt_Relation stmt)) type None PlaceHolderSQL).

Definition convertAlterTableSetNotNull (stmt : AlterTableStmt) (cmd : AlterTableCmd) (notNull : bool) :
    conv Operation :=
  value (alterColumn stmt cmd Unspecified (Some (negb notNull)) None).

(** [cmd.GetDef().Node] of a nil definition is a nil dereference. *)
Definition convertAlterTableAlterColumnType (stmt : AlterTableStmt) (cmd : AlterTableCmd) :
    conv Operation :=
  match AlterTableCmd_Def cmd with
  | None => crash
  | Some n =>
      match Node_ColumnDef n with
      | None => Err (Errorf "expected column definition, got %T" [Node_GoType n])
      | Some col =>
          typeName <~ or_error (ErrorfW "failed to deparse type name: %w" [])
                        (DeparseTypeName (ColumnDef_TypeName col));
          only_if (canConvertColumnForSetDataType col)
            (value (alterColumn stmt cmd Unspecified None (Some typeName)))
      end
  end.

Definition createConstraint (type table : string) (c : PgConstraint) (columns : list string)
    (check : option string) (noInherit : bool) (references : option TableForeignKeyReference) :
    Operation :=
  CreateConstraint_ (mkOpCreateConstraint check columns (placeholders columns) None
    (PgConstraint_Conname c) noInherit references table type (placeholders columns)).

Definition keyName (n : Node) : conv string :=
  match Node_String n with
  | Some s => value s
  | None => Err (Errorf "expected string key, got %T" [Node_GoType n])
  end.
Definition convertAlterTableAddUniqueConstraint (stmt : AlterTableStmt) (c : PgConstraint) :
    conv Operation :=
  only_if (canConvertUniqueConstraint c) (
    columns <~ conv_map keyName (PgConstraint_Keys c);
    value (createConstraint OpCreateConstraintTypeUnique (relname (AlterTableStmt_Relation stmt)) c
            columns None false None)).
Definition convertAlterTableAddForeignKeyConstraint (stmt : AlterTableStmt) (c : PgConstraint) :
    conv Operation :=
  only_if (canConvertForeignKeyConstraint c) (
    fk <~ convertFkConstraint c;
    value (createConstraint OpCreateConstraintTypeForeignKey
            (getQualifiedRelationName (AlterTableStmt_Relation stmt)) c fk.1 None false (Some fk.2))).
Definition convertAlterTableAddCheckConstraint (stmt : AlterTableStmt) (c : PgConstraint) :
    conv Operation :=
  only_if (canConvertCheckConstraint c) (
    expr <~ or_error (ErrorfW "failed to deparse CHECK expression: %w" [])
              (DeparseExpr (PgConstraint_RawExpr c));
    value (createConstraint OpCreateConstraintTypeCheck
            (getQualifiedRelationName (AlterTableStmt_Relation stmt)) c [PlaceHolderColumnName]
            (Some expr) (PgConstraint_IsNoInherit c) None)).
Definition convertAlterTableAddConstraint (stmt : AlterTableStmt) (cmd : AlterTableCmd) :
    conv Operation :=
  match AlterTableCmd_Def cmd with
  | None => crash
  | Some n =>
      match Node_Constraint n with
      | None => Err (Errorf "expected constraint definition, got %T" [Node_GoType n])
      | Some c =>
          match PgConstraint_Contype c with
          | CONSTR_UNIQUE => convertAlterTableAddUniqueConstraint stmt c
          | CONSTR_FOREIGN => convertAlterTableAddForeignKeyConstraint stmt c
          | CONSTR_CHECK => convertAlterTableAddCheckConstraint stmt c
          | _ => raw
          end
      end
  end.

Definition convertAlterTableSetColumnDefault (stmt : AlterTableStmt) (cmd : AlterTableCmd) :
    conv Operation :=
  def <~ or_error id (extractDefault (AlterTableCmd_Def cmd));
  if IsSpecified def then value (alterColumn stmt cmd def None None)
  else
    match AlterTableCmd_Behavior cmd with
    | DROP_RESTRICT => value (alterColumn stmt cmd Null None None)
    | _ => raw
    end.

Definition convertAlterTableDropConstraint (stmt : AlterTableStmt) (cmd : AlterTableCmd) :
    conv Operation :=
  only_if (canConvertDropConstraint cmd)
    (value (DropMultiColumnConstraint_ (mkOpDropMultiColumnConstraint
       (Some (placeholders [PlaceHolderColumnName])) (AlterTableCmd_Name cmd)
       (getQualifiedRelationName (AlterTableStmt_Relation stmt))
       (Some (placeholders [PlaceHolderColumnName]))))).

Definition convertAlterTableAddColumn (stmt : AlterTableStmt) (cmd : AlterTableCmd) :
    conv Operation :=
  only_if (canConvertAddColumn cmd)
    (let table := getQualifiedRelationName (AlterTableStmt_Relation stmt) in
     match n ← AlterTableCmd_Def cmd; Node_ColumnDef n with
     | None => crash
     | Some col =>
         column <~ conv_wrap (ErrorfW "error converting column definition: %w" [])
                     (convertColumnDef table col);
         value (AddColumn_ (mkOpAddColumn column table PlaceHolderSQL))
     end).

Definition convertAlterTableDropColumn (stmt : AlterTableStmt) (cmd : AlterTableCmd) :
    conv Operation :=
  only_if (canConvertDropColumn cmd)
    (value (DropColumn_ (mkOpDropColumn (AlterTableCmd_Name cmd) PlaceHolderSQL
       (relname (AlterTableStmt_Relation stmt))))).

Definition convertAlterTableCmd (stmt : AlterTableStmt) (cmd : AlterTableCmd) : conv Operation :=
  match AlterTableCmd_Subtype cmd with
  | AT_SetNotNull => convertAlterTableSetNotNull stmt cmd true
  | AT_DropNotNull => convertAlterTableSetNotNull stmt cmd false
  | AT_AlterColumnType => convertAlterTableAlterColumnType stmt cmd
  | AT_AddConstraint => convertAlterTableAddConstraint stmt cmd
  | AT_DropColumn => convertAlterTableDropColumn stmt cmd
  | AT_ColumnDefault => convertAlterTableSetColumnDefault stmt cmd
  | AT_DropConstraint => convertAlterTableDropConstraint stmt cmd
  | AT_AddColumn => convertAlterTableAddColumn stmt cmd
  | AT_other => raw
  end.
Definition alterStep (stmt : AlterTableStmt) (ops : list Operation) (n : Node) : conv (list Operation) :=
  match Node_AlterTableCmd n with
  | None => value ops
  | Some cmd => op <~ convertAlterTableCmd stmt cmd; value (ops ++ [op])
  end.
(** No operation at all is the nil slice. *)
Definition convertAlterTableStmt (stmt : AlterTableStmt) : conv (list Operation) :=
  match AlterTableStmt_Objtype stmt with
  | OBJECT_TABLE =>
      ops <~ conv_fold (alterStep stmt) (AlterTableStmt_Cmds stmt) [];
      only_if (negb (is_nil ops)) (value ops)
  | _ => raw
  end.

(** ** The whole text *)

Definition rawSQL (up : string) : Operation := RawSQL_ (mkOpRawSQL "" false up).
Definition makeRawSQLOperation (sql : string) (idx : nat) : outcome error (list Operation) :=
  match SplitWithParser sql with
  | Ok stmts => match stmts !! idx with Some s => Ok [rawSQL s] | None => Panic end
  | Err _ => Ok [rawSQL sql]
  | Panic => Panic
  | OutOfFuel => OutOfFuel
  end.

(** The type switch over a statement *)
Definition convertStmt (n : Node) : conv (list Operation) :=
  match Node_CreateStmt n with Some s => convertCreateStmt s | None =>
  match Node_AlterTableStmt n with Some s => convertAlterTableStmt s | None =>
  match Node_RenameStmt n with Some s => convertRenameStmt s | None =>
  match Node_DropStmt n with Some s => convertDropStatement s | None =>
  match Node_IndexStmt n with Some s => convertCreateIndexStmt s | None => raw
  end end end end end.

Definition convertOne (sql : string) (i : nat) (stmt : option Node) : outcome error (list Operation) :=
  match stmt with
  | None => Ok []
  | Some n =>
      ops ← convertStmt n;
      match ops with Some ops => Ok ops | None => makeRawSQLOperation sql i end
  end.
Fixpoint convertFrom (sql : string) (i : nat) (stmts : list (option Node)) :
    outcome error (list Operation) :=
  match stmts with
  | [] => Ok []
  | stmt :: stmts =>
      ops ← convertOne sql i stmt;
      migOps ← convertFrom sql (S i) stmts;
      Ok (ops ++ migOps)
  end.
Definition Convert (sql : string) : outcome error (list Operation) :=
  match pgq_Parse sql with
  | Ok stmts => convertFrom sql 0 stmts
  | Err e => Err (ErrorfW "parse error: %w" [] e)
  | Panic => Panic
  | OutOfFuel => OutOfFuel
  end.

(** [cmd/convert.go] *)
Definition sqlStatementsToMigration (sql : string) : outcome error Migration :=
  ops ← Convert sql; Ok (mkMigration "" "" ops [] [] false false [] "").
End conversion.
