(* ===== verification/Sql2PgrollFacts.v ===== *)
(** * Sql2PgrollFacts: what a converted SQL text keeps

    Every statement of the text is converted as a whole or kept as raw SQL; a
    CREATE TABLE is converted exactly when nothing of it would be lost that
    the code looks at. *)

From S2P Require Import Prelude.
From S2P Require Import GoStd.
From S2P Require Import Types.
From S2P Require Import OpsTable.
From S2P Require Import Sql2Pgroll.

(** ** Fallible conversions *)

Lemma conv_bind_ok {A B} (f : A → conv B) x b :
  conv_bind f x = Ok (Some b) ↔ ∃ a, x = Ok (Some a) ∧ f a = Ok (Some b).
Proof.
  destruct x as [[a|]|e| |]; cbn; (split; [intros Hb|intros (? & [=] & Hb)]); try done; subst; [by exists a|done].
Qed.
Lemma only_if_ok {A} ok (x : conv A) a : only_if ok x = Ok (Some a) ↔ ok = true ∧ x = Ok (Some a).
Proof. destruct ok; unfold only_if, raw; split; [by split|by intros [_ ?]|done|by intros [? _]]. Qed.
Lemma or_error_ok {A} w (x : outcome error A) a : or_error w x = Ok (Some a) ↔ x = Ok a.
Proof. unfold or_error, or_raw, conv_wrap, value, raw. destruct x; split; intros H; simplify_eq; done. Qed.
Lemma or_raw_ok {A} (x : outcome error A) a : or_raw x = Ok (Some a) ↔ x = Ok a.
Proof. unfold or_error, or_raw, conv_wrap, value, raw. destruct x; split; intros H; simplify_eq; done. Qed.
Lemma conv_wrap_ok {A} w (x : conv A) a : conv_wrap w x = Ok (Some a) ↔ x = Ok (Some a).
Proof. unfold or_error, or_raw, conv_wrap, value, raw. destruct x; split; intros H; simplify_eq; done. Qed.
Lemma value_ok {A} (a b : A) : value a = Ok (Some b) ↔ a = b.
Proof. split; [by intros [=]|by intros ->]. Qed.
Lemma raw_ok {A} (a : A) : raw = Ok (Some a) ↔ False.
Proof. done. Qed.
Lemma crash_ok {A} (a : A) : crash = Ok (Some a) ↔ False.
Proof. done. Qed.
Create Rewrite HintDb conv.
#[export] Hint Rewrite @conv_bind_ok @only_if_ok @or_error_ok @or_raw_ok @conv_wrap_ok @value_ok @raw_ok @crash_ok
  @andb_true_iff @negb_true_iff String.eqb_eq @String.eqb_neq : conv.

Lemma is_nil_true {A} (l : list A) : is_nil l = true ↔ l = [].
Proof. by destruct l. Qed.
#[export] Hint Rewrite @is_nil_true : conv.

Lemma conv_fold_app {A B} (f : B → A → conv B) l1 l2 b :
  conv_fold f (l1 ++ l2) b = conv_bind (conv_fold f l2) (conv_fold f l1 b).
Proof.
  revert b. induction l1 as [|x l1 IH]; intros b; [done|]. cbn.
  destruct (f b x) as [[b'|]|e| |]; cbn; [apply IH|done..].
Qed.

Ltac conv_cases :=
  cbn; unfold value, raw, crash; split; intros;
  repeat (destruct_and? || match goal with H : ∃ _, _ |- _ => destruct H end || simplify_eq/=);
  try done; eauto 10.

Lemma Forall2_equiv {A B} (P Q : A → B → Prop) l k :
  (∀ x y, P x y ↔ Q x y) → Forall2 P l k ↔ Forall2 Q l k.
Proof. intros Heq. split; intros Hl; apply (Forall2_impl _ _ _ _ Hl); intros x y; apply Heq. Qed.

Lemma Forall2_function {A B} (P : A → Prop) (g : A → B) l ys :
  Forall2 (λ x y, P x ∧ y = g x) l ys ↔ Forall P l ∧ ys = g <$> l.
Proof.
  revert ys. induction l as [|x l IH]; intros ys; cbn.
  - split; [by intros ->%Forall2_nil_inv_l|by intros [_ ->]].
  - rewrite Forall_cons. split.
    + intros (y & ys' & [Hx ->] & [Hl ->]%IH & ->)%Forall2_cons_inv_l. by split_and!.
    + intros [[Hx Hl] ->]. constructor; [done|]. by apply IH.
Qed.

(** A fold that follows a function of the elements seen so far *)
Lemma conv_fold_ok {A B} (f : B → A → conv B) (P : A → Prop) (g : list A → B) :
  (∀ seen x b, f (g seen) x = Ok (Some b) ↔ P x ∧ b = g (seen ++ [x])) →
  ∀ l b, conv_fold f l (g []) = Ok (Some b) ↔ Forall P l ∧ b = g l.
Proof.
  intros Hf l. induction l as [|x l IH] using rev_ind; intros b.
  - split; [by intros [= <-]|by intros [_ ->]].
  - rewrite conv_fold_app, conv_bind_ok, Forall_app, Forall_singleton.
    setoid_rewrite IH. cbn. setoid_rewrite conv_bind_ok.
    split.
    + intros (b' & [Hl ->] & b'' & [Hx ->]%Hf & [= <-]). by split_and!.
    + intros ([Hl Hx] & ->). exists (g l). split; [done|]. eexists. split; [by apply Hf|done].
Qed.

(** A map whose function is known exactly *)
Lemma conv_map_ok {A B} (f : A → conv B) (P : A → Prop) (g : A → B) :
  (∀ x y, f x = Ok (Some y) ↔ P x ∧ y = g x) →
  ∀ l ys, conv_map f l = Ok (Some ys) ↔ Forall P l ∧ ys = g <$> l.
Proof.
  intros Hf l. induction l as [|x l IH]; intros ys; cbn.
  - rewrite value_ok, Forall_nil. split; [by intros <-|by intros [_ ->]].
  - rewrite conv_bind_ok, Forall_cons. setoid_rewrite conv_bind_ok. setoid_rewrite value_ok.
    setoid_rewrite Hf. setoid_rewrite IH. split.
    + intros (? & [Hx ->] & ? & [Hl ->] & <-). by split_and!.
    + intros [[Hx Hl] ->]. eauto 10.
Qed.

#[export] Instance ConstrType_eq_dec : EqDecision ConstrType.
Proof. solve_decision. Defined.

(** ** Columns *)

Section facts.
Context `{!PgQuery}.
Implicit Types n : Node.

(** The last constraint that says something about it decides. *)
Definition latest {A} (f : Node → option A) (cs : list Node) : option A := last (omap f cs).

Definition onConstraint {A} (f : PgConstraint → option A) n : option A := Node_Constraint n ≫= f.
Definition ok_of {E A} (o : outcome E A) : option A := match o with Ok a => Some a | _ => None end.

Definition saysNull (c : PgConstraint) : option bool :=
  match PgConstraint_Contype c with
  | CONSTR_NULL => Some true
  | CONSTR_NOTNULL | CONSTR_PRIMARY | CONSTR_GENERATED | CONSTR_IDENTITY => Some false
  | _ => None
  end.
Definition saysPrimary (c : PgConstraint) : option bool :=
  match PgConstraint_Contype c with CONSTR_PRIMARY => Some true | _ => None end.
Definition saysUnique (c : PgConstraint) : option bool :=
  match PgConstraint_Contype c with CONSTR_UNIQUE => Some true | _ => None end.
Definition saysCheck (t col : string) (c : PgConstraint) : option MigCheckConstraint :=
  match PgConstraint_Contype c with
  | CONSTR_CHECK =>
      expr ← ok_of (DeparseExpr (PgConstraint_RawExpr c));
      Some (mkMigCheckConstraint expr
        (if isConstraintNamed c then PgConstraint_Conname c
         else t +:+ "_" +:+ col +:+ "_check") (PgConstraint_IsNoInherit c))
  | _ => None
  end.
Definition saysReferences (t col : string) (c : PgConstraint) : option ForeignKeyReference :=
  match PgConstraint_Contype c with
  | CONSTR_FOREIGN =>
      attr ← head (PgConstraint_PkAttrs c);
      Some (mkForeignKeyReference (GetSval attr) (PgConstraint_Deferrable c)
        (PgConstraint_Initdeferred c) (matchOf (PgConstraint_FkMatchtype c))
        (if isConstraintNamed c then PgConstraint_Conname c
         else t +:+ "_" +:+ col +:+ "_fkey")
        (actionOf (PgConstraint_FkDelAction c)) (actionOf (PgConstraint_FkUpdAction c))
        (getQualifiedRelationName (PgConstraint_Pktable c)))
  | _ => None
  end.
Definition saysDefault (c : PgConstraint) : option string :=
  match PgConstraint_Contype c with
  | CONSTR_DEFAULT => d ← ok_of (extractDefault (PgConstraint_RawExpr c)); Nullable_Get d
  | _ => None
  end.
Definition saysGenerated (c : PgConstraint) : option ColumnGenerated :=
  match PgConstraint_Contype c with
  | CONSTR_GENERATED =>
      expr ← ok_of (DeparseExpr (PgConstraint_RawExpr c)); Some (mkColumnGenerated expr None)
  | CONSTR_IDENTITY => g ← ok_of (convertIdentity c); g
  | _ => None
  end.

Definition partsOf (t col : string) (cs : list Node) : columnParts :=
  mkColumnParts (negb (default true (latest (onConstraint saysNull) cs)))
    (default false (latest (onConstraint saysPrimary) cs))
    (default false (latest (onConstraint saysUnique) cs))
    (latest (onConstraint (saysCheck t col)) cs) (latest (onConstraint (saysReferences t col)) cs)
    (latest (onConstraint saysDefault) cs) (latest (onConstraint saysGenerated) cs).

(** The column a definition without anything unsupported stands for *)
Definition columnOf (t : string) (col : ColumnDef) (type : string) : MigColumn :=
  let name := ColumnDef_Colname col in
  let cs := ColumnDef_Constraints col in
  mkMigColumn (latest (onConstraint (saysCheck t name)) cs) None (latest (onConstraint saysDefault) cs)
    (latest (onConstraint saysGenerated) cs) name
    (default true (latest (onConstraint saysNull) cs))
    (default false (latest (onConstraint saysPrimary) cs))
    (latest (onConstraint (saysReferences t name)) cs) type
    (default false (latest (onConstraint saysUnique) cs)).

(** What an operation can say of a constraint *)
Definition expressible n : Prop :=
  match Node_Constraint n with
  | None => False
  | Some c =>
      match PgConstraint_Contype c with
      | CONSTR_NULL | CONSTR_NOTNULL => PgConstraint_Conname c = ""
      | CONSTR_UNIQUE =>
          PgConstraint_Conname c = "" ∧ PgConstraint_NullsNotDistinct c = false ∧
          PgConstraint_Including c = [] ∧ PgConstraint_Options c = [] ∧ PgConstraint_Indexspace c = ""
      | CONSTR_PRIMARY =>
          PgConstraint_Conname c = "" ∧ PgConstraint_Indexspace c = "" ∧ PgConstraint_Options c = []
      | CONSTR_CHECK =>
          PgConstraint_SkipValidation c = false ∧ ∃ e, DeparseExpr (PgConstraint_RawExpr c) = Ok e
      | CONSTR_DEFAULT =>
          PgConstraint_Conname c = "" ∧
          ∃ d, extractDefault (PgConstraint_RawExpr c) = Ok d ∧ IsSpecified d = true
      | CONSTR_FOREIGN => PgConstraint_SkipValidation c = false ∧ PgConstraint_PkAttrs c ≠ []
      | CONSTR_ATTR_NOT_DEFERRABLE | CONSTR_ATTR_IMMEDIATE => True
      | CONSTR_GENERATED =>
          PgConstraint_RawExpr c ≠ None ∧ ∃ e, DeparseExpr (PgConstraint_RawExpr c) = Ok e
      | CONSTR_IDENTITY => ∃ g, convertIdentity c = Ok (Some g)
      | _ => False
      end
  end.

Lemma latest_snoc {A} (f : Node → option A) cs n :
  latest f (cs ++ [n]) = match f n with Some a => Some a | None => latest f cs end.
Proof.
  unfold latest. rewrite omap_app. cbn. destruct (f n); cbn; [by rewrite last_snoc|by rewrite app_nil_r].
Qed.

Lemma unnamed c : isConstraintNamed c = false ↔ PgConstraint_Conname c = "".
Proof. unfold isConstraintNamed. by rewrite negb_false_iff, String.eqb_eq. Qed.

Lemma convertColumnConstraint_ok t col seen n p :
  convertColumnConstraint t col (partsOf t col seen) n = Ok (Some p) ↔
  expressible n ∧ p = partsOf t col (seen ++ [n]).
Proof.
  unfold convertColumnConstraint, expressible, partsOf. rewrite !latest_snoc.
  repeat match goal with |- context [latest ?f seen] => generalize (latest f seen); intros ? end.
  unfold onConstraint. destruct (Node_Constraint n) as [c|] eqn:Hc; [cbn [mbind option_bind]|by split; [|intros [[] _]]].
  unfold saysNull, saysPrimary, saysUnique, saysCheck, saysReferences, saysDefault, saysGenerated.
  unfold convertInlineCheckConstraint, convertInlineForeignKeyConstraint,
    canConvertUniqueConstraint, canConvertPrimaryKeyConstraint, canConvertCheckConstraint,
    canConvertForeignKeyConstraint.
  destruct (PgConstraint_Contype c) eqn:Ht; autorewrite with conv; rewrite ?unnamed; cbn [default negb id];
    try (split; intros; destruct_and?; subst; done).
  - destruct (PgConstraint_SkipValidation c), (DeparseExpr (PgConstraint_RawExpr c)); conv_cases.
  - destruct (extractDefault _) as [[]|e| |]; conv_cases.
  - destruct (PgConstraint_SkipValidation c), (PgConstraint_PkAttrs c); conv_cases.
  - destruct (PgConstraint_RawExpr c) as [raw|]; [destruct (DeparseExpr (Some raw))|]; conv_cases.
  - destruct (convertIdentity c) as [[g|]|e| |]; conv_cases.
Qed.

Lemma convertColumnDef_ok t col c :
  convertColumnDef t col = Ok (Some c) ↔
  (ColumnDef_StorageName col = "" ∧ ColumnDef_Compression col = "" ∧ ColumnDef_CollClause col = None) ∧
  Forall expressible (ColumnDef_Constraints col) ∧
  ∃ type, DeparseTypeName (ColumnDef_TypeName col) = Ok type ∧ c = columnOf t col type.
Proof.
  unfold convertColumnDef, canConvertColumnDef. autorewrite with conv.
  assert (match ColumnDef_CollClause col with None => true | _ => false end = true ↔
    ColumnDef_CollClause col = None) as -> by (by destruct (ColumnDef_CollClause col)).
  setoid_rewrite or_error_ok. setoid_rewrite conv_bind_ok. setoid_rewrite value_ok.
  pose proof (conv_fold_ok (convertColumnConstraint t (ColumnDef_Colname col)) expressible
    (partsOf t (ColumnDef_Colname col))
    (λ seen x b, convertColumnConstraint_ok t (ColumnDef_Colname col) seen x b)
    (ColumnDef_Constraints col)) as Hf.
  change (partsOf t (ColumnDef_Colname col) []) with noParts in Hf. setoid_rewrite Hf.
  assert (∀ type, mkMigColumn (p_check (partsOf t (ColumnDef_Colname col) (ColumnDef_Constraints col))) None
    (p_defaultValue (partsOf t (ColumnDef_Colname col) (ColumnDef_Constraints col)))
    (p_generated (partsOf t (ColumnDef_Colname col) (ColumnDef_Constraints col))) (ColumnDef_Colname col)
    (negb (p_notNull (partsOf t (ColumnDef_Colname col) (ColumnDef_Constraints col))))
    (p_pk (partsOf t (ColumnDef_Colname col) (ColumnDef_Constraints col)))
    (p_foreignKey (partsOf t (ColumnDef_Colname col) (ColumnDef_Constraints col))) type
    (p_unique (partsOf t (ColumnDef_Colname col) (ColumnDef_Constraints col))) = columnOf t col type) as Hc.
  { intros type. unfold partsOf, columnOf. cbn. by rewrite negb_involutive. }
  split.
  - intros ([[? ?] ?] & type & Ht & p & [Hl ->] & <-). split_and!; try done. exists type. by rewrite Hc.
  - intros ((? & ? & ?) & Hl & type & Ht & ->). split; [done|]. exists type. split; [done|].
    eexists. split; [by split|]. apply Hc.
Qed.

(** ** Tables *)

Definition tableColumn n : option ColumnDef := Node_ColumnDef n.
Definition tableConstraint n : option PgConstraint :=
  match Node_ColumnDef n with Some _ => None | None => Node_Constraint n end.

(** The elements are columns and constraints, which convert to these. *)
Definition elementsOf (t : string) (elts : list Node) (cols : list MigColumn) (cons : list Constraint) : Prop :=
  Forall (λ n, is_Some (tableColumn n) ∨ is_Some (tableConstraint n)) elts ∧
  Forall2 (λ col c, convertColumnDef t col = Ok (Some c)) (omap tableColumn elts) cols ∧
  Forall2 (λ k c, convertConstraint k = Ok (Some c)) (omap tableConstraint elts) cons.

Lemma elements_ok t elts cols cons :
  conv_fold (tableElement t) elts ([], []) = Ok (Some (cols, cons)) ↔ elementsOf t elts cols cons.
Proof.
  revert cols cons. induction elts as [|n elts IH] using rev_ind; intros cols cons.
  - unfold elementsOf. cbn. split; [intros [= <- <-]; by repeat constructor|].
    intros (_ & ->%Forall2_nil_inv_l & ->%Forall2_nil_inv_l). done.
  - rewrite conv_fold_app, conv_bind_ok. unfold elementsOf. rewrite Forall_app, Forall_singleton, !omap_app.
    split.
    + intros ([cols' cons'] & (Hf & H1 & H2)%IH & Hx). cbn in Hx. apply conv_bind_ok in Hx as ([? ?] & Hx & [= -> ->]).
      unfold tableElement, tableColumn, tableConstraint in *. cbn in *.
      destruct (Node_ColumnDef n) as [col|] eqn:Hn.
      * autorewrite with conv in Hx. destruct Hx as (c & Hc%conv_wrap_ok & [= <- <-]).
        split_and!; [done|by left|by apply Forall2_app; repeat constructor|by rewrite app_nil_r].
      * destruct (Node_Constraint n) as [k|] eqn:Hk; [|done].
        autorewrite with conv in Hx. destruct Hx as (c & Hc%conv_wrap_ok & [= <- <-]).
        split_and!; [done|by right|by rewrite app_nil_r|by apply Forall2_app; repeat constructor].
    + intros ([Hf Hn] & (c1 & c2 & H1 & H2 & ->)%Forall2_app_inv_l & (k1 & k2 & H3 & H4 & ->)%Forall2_app_inv_l).
      exists (c1, k1). split; [by apply IH|]. cbn. unfold tableElement, tableColumn, tableConstraint in *. cbn in *.
      destruct (Node_ColumnDef n) as [col|].
      * apply Forall2_cons_inv_l in H2 as (c & ? & Hc & ->%Forall2_nil_inv_l & ->).
        apply Forall2_nil_inv_l in H4 as ->. by rewrite Hc, app_nil_r.
      * destruct Hn as [[? [=]]|[k Hk]]. rewrite Hk in *. apply Forall2_nil_inv_l in H2 as ->.
        apply Forall2_cons_inv_l in H4 as (c & ? & Hc & ->%Forall2_nil_inv_l & ->).
        by rewrite Hc, app_nil_r.
Qed.

(** ** Table constraints *)

Definition typeOfConstraint (t : ConstrType) : option string :=
  match t with
  | CONSTR_UNIQUE => Some ConstraintTypeUnique
  | CONSTR_CHECK => Some ConstraintTypeCheck
  | CONSTR_PRIMARY => Some ConstraintTypePrimaryKey
  | CONSTR_FOREIGN => Some ConstraintTypeForeignKey
  | CONSTR_EXCLUSION => Some ConstraintTypeExclude
  | _ => None
  end.
Definition constraintColumns (k : PgConstraint) : list string :=
  GetSval <$> match PgConstraint_Contype k with
              | CONSTR_FOREIGN => PgConstraint_FkAttrs k
              | _ => PgConstraint_Keys k
              end.
Definition referencesOf (k : PgConstraint) : TableForeignKeyReference :=
  mkTableForeignKeyReference (GetSval <$> PgConstraint_PkAttrs k) (matchOf (PgConstraint_FkMatchtype k))
    (actionOf (PgConstraint_FkDelAction k))
    (if decide (PgConstraint_FkDelAction k = "") then [] else GetSval <$> PgConstraint_FkDelSetCols k)
    (actionOf (PgConstraint_FkUpdAction k)) (getQualifiedRelationName (PgConstraint_Pktable k)).

(** A text without its first and last character: deparsed options have
    parentheses around them *)
Definition inner (s : string) : string := take_str (String.length s - 2) (drop_str 1 s).
Definition optionsText (options : list Node) : string :=
  if decide (options = []) then "" else inner (default "" (ok_of (DeparseRelOptions options))).
(** An exclusion element is a list of a column and a list of names. *)
Definition exclusionText (elem : Node) : string :=
  let items := default [] (Node_List elem) in
  default "" (c ← items !! 0; ok_of (DeparseIndexElem c)) +:+ " WITH " +:+
  default "" (o ← items !! 1; names ← Node_List o; ok_of (DeparseAnyOperator names)).
Definition whereText (node : option Node) : string :=
  from_option (λ n, default "" (ok_of (DeparseExpr (Some n)))) "" node.
Definition indexParametersOf (k : PgConstraint) : option ConstraintIndexParameters :=
  let including := GetSval <$> PgConstraint_Including k in
  let storage := optionsText (PgConstraint_Options k) in
  if decide (including = [] ∧ storage = "" ∧ PgConstraint_Indexspace k = "") then None
  else Some (mkConstraintIndexParameters including storage (PgConstraint_Indexspace k)).

Definition isType (k : PgConstraint) (t : ConstrType) : bool := bool_decide (PgConstraint_Contype k = t).

(** The constraint of an operation that says all a table constraint says *)
Definition constraintOf (k : PgConstraint) : Constraint :=
  mkConstraint
    (if isType k CONSTR_CHECK then default "" (ok_of (DeparseExpr (PgConstraint_RawExpr k))) else "")
    (constraintColumns k)
    (PgConstraint_Deferrable k)
    (if isType k CONSTR_EXCLUSION
     then Some (mkConstraintExclude (Join (exclusionText <$> PgConstraint_Exclusions k) ", ")
            (PgConstraint_AccessMethod k) (whereText (PgConstraint_WhereClause k)))
     else None)
    (indexParametersOf k)
    (PgConstraint_Initdeferred k)
    (PgConstraint_Conname k)
    (PgConstraint_IsNoInherit k)
    (isType k CONSTR_UNIQUE && PgConstraint_NullsNotDistinct k)
    (if isType k CONSTR_FOREIGN then Some (referencesOf k) else None)
    (default "" (typeOfConstraint (PgConstraint_Contype k))).

Definition named n : Prop := is_Some (Node_String n).
(** An exclusion element whose column and operator can be written out *)
Definition exclusionExpressible (elem : Node) : Prop :=
  ∃ column op rest names indexElem anyOp,
    Node_List elem = Some (column :: op :: rest) ∧ Node_List op = Some names ∧
    DeparseIndexElem column = Ok indexElem ∧ DeparseAnyOperator names = Ok anyOp.

(** What the type of a table constraint asks for *)
Definition detailsExpressible (k : PgConstraint) : Prop :=
  match PgConstraint_Contype k with
  | CONSTR_UNIQUE | CONSTR_PRIMARY => True
  | CONSTR_CHECK => ∃ e, DeparseExpr (PgConstraint_RawExpr k) = Ok e
  | CONSTR_FOREIGN =>
      Forall named (PgConstraint_PkAttrs k) ∧ Forall named (PgConstraint_FkAttrs k) ∧
      (PgConstraint_FkDelAction k = "" ∨ Forall named (PgConstraint_FkDelSetCols k))
  | CONSTR_EXCLUSION =>
      (PgConstraint_WhereClause k = None ∨ ∃ e, DeparseExpr (PgConstraint_WhereClause k) = Ok e) ∧
      Forall exclusionExpressible (PgConstraint_Exclusions k)
  | _ => False
  end.
Definition optionsExpressible (options : list Node) : Prop :=
  options = [] ∨ ∃ text, DeparseRelOptions options = Ok text ∧ 2 ≤ String.length text.

(** What an operation can say of a table constraint *)
Definition constraintExpressible (k : PgConstraint) : Prop :=
  Forall named (PgConstraint_Keys k) ∧ Forall named (PgConstraint_Including k) ∧
  optionsExpressible (PgConstraint_Options k) ∧ detailsExpressible k.

Lemma Svals_ok l names :
  conv_map Sval l = Ok (Some names) ↔ Forall named l ∧ names = GetSval <$> l.
Proof.
  apply conv_map_ok. intros n name. unfold Sval, named, GetSval.
  destruct (Node_String n) as [s|]; [rewrite value_ok|rewrite crash_ok]; cbn; split; try done.
  - by intros [_ ->].
  - intros [[? [=]] _].
Qed.

Lemma strip_outer_ok s t : strip_outer s = Ok (Some t) ↔ 2 ≤ String.length s ∧ t = inner s.
Proof.
  unfold strip_outer, inner. destruct (Nat.leb_spec 2 (String.length s)).
  - rewrite value_ok. naive_solver.
  - rewrite crash_ok. split; [done|]. intros [? _]. lia.
Qed.

Lemma relOptions_ok options text :
  relOptions options = Ok (Some text) ↔
  optionsExpressible options ∧ text = optionsText options.
Proof.
  unfold relOptions, optionsText, optionsExpressible. destruct options as [|n options]; cbn [is_nil].
  - rewrite decide_True, value_ok by done. naive_solver.
  - rewrite decide_False by done. rewrite conv_bind_ok. setoid_rewrite or_error_ok.
    setoid_rewrite strip_outer_ok. destruct (DeparseRelOptions (n :: options)); naive_solver.
Qed.

Lemma convertFkConstraint_ok k fk :
  convertFkConstraint k = Ok (Some fk) ↔
  (Forall named (PgConstraint_PkAttrs k) ∧ Forall named (PgConstraint_FkAttrs k) ∧
   (PgConstraint_FkDelAction k = "" ∨ Forall named (PgConstraint_FkDelSetCols k))) ∧
  fk = (GetSval <$> PgConstraint_FkAttrs k, referencesOf k).
Proof.
  unfold convertFkConstraint, referencesOf. rewrite conv_bind_ok. setoid_rewrite conv_bind_ok.
  setoid_rewrite conv_bind_ok. setoid_rewrite value_ok. setoid_rewrite Svals_ok.
  destruct (decide (PgConstraint_FkDelAction k = "")); [setoid_rewrite value_ok|setoid_rewrite Svals_ok].
  - split.
    + intros (? & [? ->] & ? & <- & ? & [? ->] & <-). split_and!; [done..|by left|done].
    + intros ((? & ? & _) & ->). eauto 12.
  - split.
    + intros (? & [? ->] & ? & [? ->] & ? & [? ->] & <-). split_and!; [done..|by right|done].
    + intros ((? & ? & [?|?]) & ->); [done|]. eauto 12.
Qed.

Lemma convertExclusion_ok elem text :
  convertExclusion elem = Ok (Some text) ↔ exclusionExpressible elem ∧ text = exclusionText elem.
Proof.
  unfold convertExclusion, exclusionExpressible, exclusionText. split.
  - destruct (Node_List elem) as [[|column [|op rest]]|] eqn:He; try done;
      rewrite conv_bind_ok; intros (a & Ha & Hop); [done|].
    destruct (Node_List op) as [names|] eqn:Hn; [|done].
    apply conv_bind_ok in Hop as (b & Hb & [= <-]). rewrite or_raw_ok in Ha, Hb. split.
    + by exists column, op, rest, names, a, b.
    + cbn. rewrite Hn. cbn. by rewrite Ha, Hb.
  - intros [(column & op & rest & names & a & b & He & Hn & Ha & Hb) ->]. rewrite He, Ha. cbn.
    rewrite Hn, Hb. cbn. by rewrite Ha, Hb.
Qed.

Lemma convertExclude_ok k exclude :
  convertExclude k = Ok (Some exclude) ↔
  ((PgConstraint_WhereClause k = None ∨ ∃ e, DeparseExpr (PgConstraint_WhereClause k) = Ok e) ∧
   Forall exclusionExpressible (PgConstraint_Exclusions k)) ∧
  exclude = mkConstraintExclude (Join (exclusionText <$> PgConstraint_Exclusions k) ", ")
              (PgConstraint_AccessMethod k) (whereText (PgConstraint_WhereClause k)).
Proof.
  unfold convertExclude, whereText. rewrite conv_bind_ok. setoid_rewrite conv_bind_ok.
  setoid_rewrite value_ok. setoid_rewrite (conv_map_ok _ _ _ convertExclusion_ok).
  destruct (PgConstraint_WhereClause k) as [n|]; cbn.
  - setoid_rewrite or_raw_ok. split.
    + intros (e & He & ? & [? ->] & <-). rewrite He. eauto 10.
    + intros [[[?|[e He]] ?] ->]; [done|]. rewrite He. eauto 10.
  - setoid_rewrite value_ok. split.
    + intros (? & <- & ? & [? ->] & <-). eauto 10.
    + intros [[_ ?] ->]. eauto 10.
Qed.

Lemma indexParameters_same k :
  (if String.eqb (optionsText (PgConstraint_Options k)) "" && String.eqb (PgConstraint_Indexspace k) ""
        && is_nil (GetSval <$> PgConstraint_Including k)
   then None
   else Some (mkConstraintIndexParameters (GetSval <$> PgConstraint_Including k)
          (optionsText (PgConstraint_Options k)) (PgConstraint_Indexspace k))) = indexParametersOf k.
Proof.
  unfold indexParametersOf. destruct (String.eqb_spec (optionsText (PgConstraint_Options k)) ""),
    (String.eqb_spec (PgConstraint_Indexspace k) ""), (GetSval <$> PgConstraint_Including k);
    cbn; case_decide; destruct_and?; try done; by tauto.
Qed.

Lemma constraintParts_ok k p :
  constraintParts (GetSval <$> PgConstraint_Keys k) k = Ok (Some p) ↔
  detailsExpressible k ∧
  p = (Constraint_Type (constraintOf k), constraintColumns k,
       Constraint_NullsNotDistinct (constraintOf k), Constraint_Check (constraintOf k),
       Constraint_References (constraintOf k), Constraint_Exclude (constraintOf k)).
Proof.
  unfold constraintParts, detailsExpressible, constraintOf, isType, constraintColumns. cbn.
  destruct (PgConstraint_Contype k); cbn; try (by split; [|intros []]).
  - rewrite value_ok. naive_solver.
  - rewrite value_ok. naive_solver.
  - rewrite conv_bind_ok. setoid_rewrite or_error_ok. setoid_rewrite value_ok.
    destruct (DeparseExpr _); naive_solver.
  - rewrite conv_bind_ok. setoid_rewrite convertFkConstraint_ok. setoid_rewrite value_ok. naive_solver.
  - rewrite conv_bind_ok. setoid_rewrite convertExclude_ok. setoid_rewrite value_ok. naive_solver.
Qed.

(** A table constraint is converted exactly when it can be expressed. *)
Lemma convertConstraint_ok k c :
  convertConstraint k = Ok (Some c) ↔ constraintExpressible k ∧ c = constraintOf k.
Proof.
  unfold convertConstraint, constraintExpressible. rewrite conv_bind_ok. setoid_rewrite Svals_ok. split.
  - intros (? & [Hk ->] & (? & [Hd ->]%constraintParts_ok & Hc)%conv_bind_ok).
    apply conv_bind_ok in Hc as (? & [Hi ->]%Svals_ok & (? & [Ho ->]%relOptions_ok & [= <-])%conv_bind_ok).
    split; [done|]. by rewrite indexParameters_same.
  - intros [(Hk & Hi & Ho & Hd) ->]. eexists. split; [by split|].
    apply conv_bind_ok. eexists. split; [by apply constraintParts_ok|].
    apply conv_bind_ok. eexists. split; [by apply Svals_ok|].
    apply conv_bind_ok. eexists. split; [by apply relOptions_ok|].
    by rewrite indexParameters_same.
Qed.

(** ** CREATE TABLE *)

(** A table of the ordinary kind *)
Definition plainTable (stmt : CreateStmt) : Prop :=
  from_option RangeVar_Relpersistence "" (CreateStmt_Relation stmt) = "p" ∧
  CreateStmt_InhRelations stmt = [] ∧ CreateStmt_Partspec stmt = false ∧
  CreateStmt_AccessMethod stmt = "" ∧ CreateStmt_Options stmt = [] ∧
  CreateStmt_Oncommit stmt = false ∧ CreateStmt_Tablespacename stmt = "" ∧
  CreateStmt_OfTypename stmt = false.
(** A column that is converted, and the column it becomes *)
Definition columnKept (t : string) (col : ColumnDef) (c : MigColumn) : Prop :=
  (ColumnDef_StorageName col = "" ∧ ColumnDef_Compression col = "" ∧ ColumnDef_CollClause col = None) ∧
  Forall expressible (ColumnDef_Constraints col) ∧
  ∃ type, DeparseTypeName (ColumnDef_TypeName col) = Ok type ∧ c = columnOf t col type.

(** The operations of a CREATE TABLE: one that creates the table with its
    columns and its constraints, all of which can be expressed *)
Definition creates (stmt : CreateStmt) (ops : list Operation) : Prop :=
  plainTable stmt ∧
  Forall (λ n, is_Some (tableColumn n) ∨ is_Some (tableConstraint n)) (CreateStmt_TableElts stmt) ∧
  Forall constraintExpressible (omap tableConstraint (CreateStmt_TableElts stmt)) ∧
  ∃ cols,
    Forall2 (columnKept (relname (CreateStmt_Relation stmt))) (omap tableColumn (CreateStmt_TableElts stmt)) cols ∧
    ops = [CreateTable_ (mkOpCreateTable cols None
             (constraintOf <$> omap tableConstraint (CreateStmt_TableElts stmt))
             (getQualifiedRelationName (CreateStmt_Relation stmt)))].

Lemma plainTable_ok stmt : canConvertCreateStatement stmt = true ↔ plainTable stmt.
Proof. unfold canConvertCreateStatement, plainTable. autorewrite with conv. tauto. Qed.

Lemma elementsOf_ok t elts cols cons :
  elementsOf t elts cols cons ↔
  Forall (λ n, is_Some (tableColumn n) ∨ is_Some (tableConstraint n)) elts ∧
  Forall constraintExpressible (omap tableConstraint elts) ∧
  Forall2 (columnKept t) (omap tableColumn elts) cols ∧
  cons = constraintOf <$> omap tableConstraint elts.
Proof.
  unfold elementsOf.
  rewrite (Forall2_equiv _ (columnKept t) _ cols (convertColumnDef_ok t)).
  rewrite (Forall2_equiv _ _ _ cons convertConstraint_ok), Forall2_function. tauto.
Qed.

Lemma convertCreateStmt_creates stmt ops : convertCreateStmt stmt = Ok (Some ops) ↔ creates stmt ops.
Proof.
  unfold convertCreateStmt, creates. rewrite only_if_ok, conv_bind_ok, plainTable_ok. split.
  - intros (Hp & [cols cons] & (Hf & Hc & H1 & H2)%elements_ok%elementsOf_ok & [= <-]).
    cbn. rewrite H2. split_and!; [done..|]. by exists cols.
  - intros (Hp & Hf & Hc & cols & H1 & ->). split; [done|]. eexists (cols, _).
    split; [by apply elements_ok, elementsOf_ok|done].
Qed.

(** C36. A CREATE TABLE becomes an operation exactly when it is an ordinary
    table all of whose elements are columns and constraints that can be
    expressed: no storage, compression or collation, no named constraint that
    an operation cannot name, nothing deferrable on a column, every expression
    deparsed, every column of a constraint named, every exclusion element a
    column and an operator.  The operation then has the same name, the columns
    in their order, each with what the last constraint of each kind says of it,
    and the table constraints in their order with all they had: name, type,
    columns, check, reference, exclusion elements, deferrability, NO INHERIT,
    NULLS NOT DISTINCT, included columns, storage parameters and tablespace. *)
Theorem convertCreateStmt_spec stmt ops :
  convertCreateStmt stmt = Ok (Some ops) ↔
  plainTable stmt ∧
  Forall (λ n, is_Some (tableColumn n) ∨ is_Some (tableConstraint n)) (CreateStmt_TableElts stmt) ∧
  Forall constraintExpressible (omap tableConstraint (CreateStmt_TableElts stmt)) ∧
  ∃ cols,
    Forall2 (columnKept (relname (CreateStmt_Relation stmt))) (omap tableColumn (CreateStmt_TableElts stmt)) cols ∧
    ops = [CreateTable_ (mkOpCreateTable cols None
             (constraintOf <$> omap tableConstraint (CreateStmt_TableElts stmt))
             (getQualifiedRelationName (CreateStmt_Relation stmt)))].
Proof. apply convertCreateStmt_creates. Qed.

(** ** The other statements *)

Lemma conv_fold_collect {A B C} (g : A → option B) (f : B → conv C) l out0 out :
  conv_fold (λ out x, match g x with None => value out | Some y => z <~ f y; value (out ++ [z]) end)
    l out0 = Ok (Some out) ↔
  ∃ new, out = out0 ++ new ∧ Forall2 (λ y z, f y = Ok (Some z)) (omap g l) new.
Proof.
  revert out0. induction l as [|x l IH]; intros out0.
  - cbn. split; [intros [= ->]; exists []; by rewrite app_nil_r|].
    intros (new & -> & ->%Forall2_nil_inv_l). by rewrite app_nil_r.
  - cbn [conv_fold]. rewrite conv_bind_ok. setoid_rewrite IH. cbn. destruct (g x) as [y|]; cbn.
    + setoid_rewrite conv_bind_ok. setoid_rewrite value_ok. split.
      * intros (? & (z & Hz & <-) & new & -> & Hn). exists (z :: new). rewrite <-app_assoc. by repeat constructor.
      * intros (? & -> & (z & new & Hz & Hn & ->)%Forall2_cons_inv_l). exists (out0 ++ [z]).
        split; [by exists z|]. exists new. by rewrite <-app_assoc.
    + setoid_rewrite value_ok. split; [by intros (? & <- & Hn)|]. intros Hn. by exists out0.
Qed.

(** The operation that changes an attribute of a column *)
Definition changes (stmt : AlterTableStmt) (cmd : AlterTableCmd) (def : Nullable)
    (nullable : option bool) (type : option string) : Operation :=
  AlterColumn_ (mkOpAlterColumn None (AlterTableCmd_Name cmd) Unspecified def PlaceHolderSQL nullable
    None (relname (AlterTableStmt_Relation stmt)) type None PlaceHolderSQL).

(** The operation that adds a constraint to [table] *)
Definition adds (k : PgConstraint) (type table : string) (columns : list string)
    (check : option string) (noInherit : bool) (refs : option TableForeignKeyReference) : Operation :=
  CreateConstraint_ (mkOpCreateConstraint check columns
    (list_to_map ((λ column, (column, PlaceHolderSQL)) <$> columns)) None
    (PgConstraint_Conname k) noInherit refs table type
    (list_to_map ((λ column, (column, PlaceHolderSQL)) <$> columns))).

(** A default that is written out: a constant NULL is null. *)
Definition defaultSays (n : Node) (def : Nullable) : Prop :=
  Node_AConst n = Some true ∧ def = Null ∨
  Node_AConst n ≠ Some true ∧ ∃ text, DeparseExpr (Some n) = Ok text ∧ def = Value text.

(** A command of ALTER TABLE and its operation.  Columns and UNIQUE
    constraints are changed on the table's name without its schema, the others
    on the name as it is qualified; SQL the operation needs and the command
    does not have is a placeholder. *)
Inductive alters (stmt : AlterTableStmt) (cmd : AlterTableCmd) : Operation → Prop :=
  | alters_set_not_null : AlterTableCmd_Subtype cmd = AT_SetNotNull →
      alters stmt cmd (changes stmt cmd Unspecified (Some false) None)
  | alters_drop_not_null : AlterTableCmd_Subtype cmd = AT_DropNotNull →
      alters stmt cmd (changes stmt cmd Unspecified (Some true) None)
  | alters_type col type : AlterTableCmd_Subtype cmd = AT_AlterColumnType →
      AlterTableCmd_Def cmd ≫= Node_ColumnDef = Some col →
      DeparseTypeName (ColumnDef_TypeName col) = Ok type →
      ColumnDef_CollClause col = None → ColumnDef_RawDefault col = None →
      alters stmt cmd (changes stmt cmd Unspecified None (Some type))
  | alters_set_default n def : AlterTableCmd_Subtype cmd = AT_ColumnDefault →
      AlterTableCmd_Def cmd = Some n → defaultSays n def →
      alters stmt cmd (changes stmt cmd def None None)
  | alters_drop_default : AlterTableCmd_Subtype cmd = AT_ColumnDefault →
      AlterTableCmd_Def cmd = None → AlterTableCmd_Behavior cmd = DROP_RESTRICT →
      alters stmt cmd (changes stmt cmd Null None None)
  | alters_drop_column : AlterTableCmd_Subtype cmd = AT_DropColumn →
      AlterTableCmd_MissingOk cmd = false → AlterTableCmd_Behavior cmd ≠ DROP_CASCADE →
      alters stmt cmd (DropColumn_ (mkOpDropColumn (AlterTableCmd_Name cmd) PlaceHolderSQL
        (relname (AlterTableStmt_Relation stmt))))
  | alters_drop_constraint : AlterTableCmd_Subtype cmd = AT_DropConstraint →
      AlterTableCmd_Behavior cmd ≠ DROP_CASCADE →
      alters stmt cmd (DropMultiColumnConstraint_ (mkOpDropMultiColumnConstraint
        (Some {[PlaceHolderColumnName := PlaceHolderSQL]}) (AlterTableCmd_Name cmd)
        (getQualifiedRelationName (AlterTableStmt_Relation stmt))
        (Some {[PlaceHolderColumnName := PlaceHolderSQL]})))
  | alters_add_column col c : AlterTableCmd_Subtype cmd = AT_AddColumn →
      AlterTableCmd_MissingOk cmd = false →
      AlterTableCmd_Def cmd ≫= Node_ColumnDef = Some col →
      columnKept (getQualifiedRelationName (AlterTableStmt_Relation stmt)) col c →
      alters stmt cmd (AddColumn_ (mkOpAddColumn c
        (getQualifiedRelationName (AlterTableStmt_Relation stmt)) PlaceHolderSQL))
  | alters_add_unique k : AlterTableCmd_Subtype cmd = AT_AddConstraint →
      AlterTableCmd_Def cmd ≫= Node_Constraint = Some k → PgConstraint_Contype k = CONSTR_UNIQUE →
      PgConstraint_NullsNotDistinct k = false → PgConstraint_Including k = [] →
      PgConstraint_Options k = [] → PgConstraint_Indexspace k = "" →
      alters stmt cmd (adds k OpCreateConstraintTypeUnique (relname (AlterTableStmt_Relation stmt))
        (GetSval <$> PgConstraint_Keys k) None false None)
  | alters_add_check k check : AlterTableCmd_Subtype cmd = AT_AddConstraint →
      AlterTableCmd_Def cmd ≫= Node_Constraint = Some k → PgConstraint_Contype k = CONSTR_CHECK →
      PgConstraint_SkipValidation k = false → DeparseExpr (PgConstraint_RawExpr k) = Ok check →
      alters stmt cmd (adds k OpCreateConstraintTypeCheck
        (getQualifiedRelationName (AlterTableStmt_Relation stmt)) [PlaceHolderColumnName] (Some check)
        (PgConstraint_IsNoInherit k) None)
  | alters_add_foreign k : AlterTableCmd_Subtype cmd = AT_AddConstraint →
      AlterTableCmd_Def cmd ≫= Node_Constraint = Some k → PgConstraint_Contype k = CONSTR_FOREIGN →
      PgConstraint_SkipValidation k = false →
      alters stmt cmd (adds k OpCreateConstraintTypeForeignKey
        (getQualifiedRelationName (AlterTableStmt_Relation stmt)) (GetSval <$> PgConstraint_FkAttrs k)
        None false (Some (referencesOf k))).

Lemma keyNames_ok l names : conv_map keyName l = Ok (Some names) → names = GetSval <$> l.
Proof.
  intros Hk. apply (conv_map_ok keyName named GetSval) in Hk; [by destruct Hk|].
  intros n name. unfold keyName, named, GetSval. destruct (Node_String n) as [s|]; cbn; split; try done.
  - intros [= ->]. split; [by eexists|done].
  - by intros [_ ->].
  - intros [[? [=]] _].
Qed.

Lemma addConstraint_alters stmt cmd op : AlterTableCmd_Subtype cmd = AT_AddConstraint →
  convertAlterTableAddConstraint stmt cmd = Ok (Some op) → alters stmt cmd op.
Proof.
  intros Hsub. unfold convertAlterTableAddConstraint. destruct (AlterTableCmd_Def cmd) as [n|] eqn:Hd; [|done].
  destruct (Node_Constraint n) as [k|] eqn:Hk; [|done].
  assert (AlterTableCmd_Def cmd ≫= Node_Constraint = Some k) as Hdk by (by rewrite Hd).
  destruct (PgConstraint_Contype k) eqn:Ht; try done.
  - unfold convertAlterTableAddUniqueConstraint, canConvertUniqueConstraint. autorewrite with conv.
    intros ([[[? ?] ?] ?] & columns & ->%keyNames_ok & [= <-]). by apply (alters_add_unique _ _ k).
  - unfold convertAlterTableAddCheckConstraint, canConvertCheckConstraint. autorewrite with conv.
    intros (? & expr & He & [= <-]). rewrite or_error_ok in He. by apply (alters_add_check _ _ k).
  - unfold convertAlterTableAddForeignKeyConstraint, canConvertForeignKeyConstraint. autorewrite with conv.
    intros (? & fk & [_ ->]%convertFkConstraint_ok & [= <-]). by apply (alters_add_foreign _ _ k).
Qed.

Lemma setDefault_alters stmt cmd op : AlterTableCmd_Subtype cmd = AT_ColumnDefault →
  convertAlterTableSetColumnDefault stmt cmd = Ok (Some op) → alters stmt cmd op.
Proof.
  intros Hsub. unfold convertAlterTableSetColumnDefault. rewrite conv_bind_ok. setoid_rewrite or_error_ok.
  intros (def & Hdef & Ho). destruct (AlterTableCmd_Def cmd) as [n|] eqn:Hd; cbn in Hdef.
  - assert (defaultSays n def ∧ IsSpecified def = true) as [Hs Hspec].
    { unfold defaultSays. destruct (decide _) as [Hn|Hn]; [injection Hdef as <-; by split; [left|]|].
      destruct (DeparseExpr (Some n)) as [text|e| |]; try done. injection Hdef as <-.
      split; [|done]. right. split; [done|]. by exists text. }
    rewrite Hspec in Ho. injection Ho as <-. by apply (alters_set_default _ _ n).
  - injection Hdef as <-. cbn in Ho. destruct (AlterTableCmd_Behavior cmd) eqn:Hb; try done.
    injection Ho as <-. by apply alters_drop_default.
Qed.

Lemma convertAlterTableCmd_alters stmt cmd op :
  convertAlterTableCmd stmt cmd = Ok (Some op) → alters stmt cmd op.
Proof.
  unfold convertAlterTableCmd. destruct (AlterTableCmd_Subtype cmd) eqn:Hsub; try done.
  - intros [= <-]. by apply alters_set_not_null.
  - intros [= <-]. by apply alters_drop_not_null.
  - unfold convertAlterTableAlterColumnType, canConvertColumnForSetDataType.
    destruct (AlterTableCmd_Def cmd) as [n|] eqn:Hd; [|done].
    destruct (Node_ColumnDef n) as [col|] eqn:Hn; [|done]. autorewrite with conv.
    intros (ty & Hty & (Hc & [= <-])%only_if_ok). rewrite or_error_ok in Hty.
    destruct (ColumnDef_CollClause col) eqn:?, (ColumnDef_RawDefault col) eqn:?; try done.
    apply (alters_type _ _ col); by rewrite ?Hd.
  - by apply addConstraint_alters.
  - unfold convertAlterTableDropColumn, canConvertDropColumn. autorewrite with conv.
    intros ([? Hb] & [= <-]). apply alters_drop_column; [done..|]. by destruct (AlterTableCmd_Behavior cmd).
  - by apply setDefault_alters.
  - unfold convertAlterTableDropConstraint, canConvertDropConstraint. rewrite only_if_ok.
    intros (Hb & [= <-]). apply alters_drop_constraint; [done|]. by destruct (AlterTableCmd_Behavior cmd).
  - unfold convertAlterTableAddColumn, canConvertAddColumn. rewrite only_if_ok, negb_true_iff. intros (? & Hc).
    destruct (AlterTableCmd_Def cmd ≫= Node_ColumnDef) as [col|] eqn:Hd; [|done].
    apply conv_bind_ok in Hc as (c & Hc%conv_wrap_ok & [= <-]).
    apply (alters_add_column _ _ col); [done..|]. by apply convertColumnDef_ok.
Qed.

Lemma convertAlterTableStmt_ok stmt ops :
  convertAlterTableStmt stmt = Ok (Some ops) →
  AlterTableStmt_Objtype stmt = OBJECT_TABLE ∧ ops ≠ [] ∧
  Forall2 (alters stmt) (omap Node_AlterTableCmd (AlterTableStmt_Cmds stmt)) ops.
Proof.
  unfold convertAlterTableStmt. destruct (AlterTableStmt_Objtype stmt); try done.
  rewrite conv_bind_ok. intros (ops' & Hf & (Hnil & [= <-])%only_if_ok).
  apply (conv_fold_collect Node_AlterTableCmd (convertAlterTableCmd stmt)) in Hf as (new & -> & Hf).
  split_and!; [done|by intros Heq; rewrite Heq in Hnil|].
  apply (Forall2_impl _ _ _ _ Hf). intros cmd op. apply convertAlterTableCmd_alters.
Qed.

(** The columns of an index: the parameters that name one *)
Definition indexed (params : list Node) : list IndexElem :=
  filter (λ e, IndexElem_Name e ≠ "") (omap Node_IndexElem params).
Definition opclassSays (e : IndexElem) (opclass : option IndexFieldOpclass) : Prop :=
  ∃ name, DeparseAnyName (IndexElem_Opclass e) = Ok name ∧
    (name = "" ∧ opclass = None ∨
     name ≠ "" ∧ ∃ opts, DeparseRelOptions (IndexElem_Opclassopts e) = Ok opts ∧
       opclass = Some (mkIndexFieldOpclass name
         (if decide (opts = "()") then [] else TrimSpace <$> Split "," (inner opts)))).
Definition sortSays (o : SortByDir) (sort : string) : Prop :=
  match o with
  | SORTBY_DEFAULT => sort = "" | SORTBY_ASC => sort = IndexFieldSortASC
  | SORTBY_DESC => sort = IndexFieldSortDESC | SORTBY_other => False
  end.
Definition nullsSay (o : SortByNulls) (nulls : option string) : Prop :=
  match o with
  | SORTBY_NULLS_DEFAULT => nulls = None
  | SORTBY_NULLS_FIRST => nulls = Some IndexFieldNullsFIRST
  | SORTBY_NULLS_LAST => nulls = Some IndexFieldNullsLAST
  | SORTBY_NULLS_other => False
  end.
Definition fieldSays (e : IndexElem) (f : IndexField) : Prop :=
  IndexField_Column f = IndexElem_Name e ∧
  DeparseAnyName (IndexElem_Collation e) = Ok (IndexField_Collate f) ∧
  opclassSays e (IndexField_Opclass f) ∧ sortSays (IndexElem_Ordering e) (IndexField_Sort f) ∧
  nullsSay (IndexElem_NullsOrdering e) (IndexField_Nulls f).

Lemma convertOpclass_ok e opclass : convertOpclass e = Ok (Some opclass) → opclassSays e opclass.
Proof.
  unfold convertOpclass, opclassSays. rewrite conv_bind_ok. setoid_rewrite or_raw_ok.
  intros (name & Hn & Ho). exists name. split; [done|]. case_decide as Hd; [by left; injection Ho as <-|].
  right. split; [done|]. apply conv_bind_ok in Ho as (opts & Ho & Hp). rewrite or_raw_ok in Ho.
  apply conv_bind_ok in Hp as (params & Hp & [= <-]). exists opts. split; [done|].
  destruct (decide (opts = "()")); [by injection Hp as <-|].
  apply conv_bind_ok in Hp as (text & [_ ->]%strip_outer_ok & [= <-]). done.
Qed.

Lemma indexParams_ok params fields0 fields :
  conv_fold indexParam params fields0 = Ok (Some fields) →
  ∃ new, fields = fields0 ++ new ∧ Forall2 fieldSays (indexed params) new.
Proof.
  unfold indexed. revert fields0. induction params as [|n params IH]; intros fields0.
  - intros [= <-]. exists []. by rewrite app_nil_r.
  - cbn [conv_fold]. rewrite conv_bind_ok. intros (fields1 & H1 & (new & -> & Hnew)%IH).
    unfold indexParam in H1. cbn [omap list_omap].
    destruct (Node_IndexElem n) as [e|]; [|injection H1 as ->; by exists new].
    destruct (decide (IndexElem_Name e = "")) as [He|He].
    + rewrite filter_cons_False by (by intros []). injection H1 as ->. by exists new.
    + rewrite filter_cons_True by done.
      apply conv_bind_ok in H1 as (collate & Hcol & (opclass & Hop & H1)%conv_bind_ok).
      apply conv_bind_ok in H1 as (sort & Hsort & (nulls & Hnulls & [= <-])%conv_bind_ok).
      rewrite or_raw_ok in Hcol.
      exists (mkIndexField collate (IndexElem_Name e) nulls opclass sort :: new).
      rewrite <-app_assoc. split; [done|]. constructor; [|done]. split_and!; cbn; try done.
      * by apply convertOpclass_ok.
      * destruct (IndexElem_Ordering e); cbn in *; try done; by injection Hsort.
      * destruct (IndexElem_NullsOrdering e); cbn in *; try done; by injection Hnulls.
Qed.

(** CREATE INDEX and its operation *)
Definition indexes (stmt : IndexStmt) (op : Operation) : Prop :=
  (IndexStmt_TableSpace stmt = "" ∧ IndexStmt_IndexIncludingParams stmt = [] ∧
   from_option RangeVar_Inh false (IndexStmt_Relation stmt) = true ∧
   IndexStmt_NullsNotDistinct stmt = false ∧ existsb hasExpr (IndexStmt_IndexParams stmt) = false) ∧
  optionsExpressible (IndexStmt_Options stmt) ∧
  ∃ fields predicate,
    Forall2 fieldSays (indexed (IndexStmt_IndexParams stmt)) fields ∧
    match IndexStmt_WhereClause stmt with
    | None => predicate = ""
    | Some n => DeparseExpr (Some n) = Ok predicate
    end ∧
    op = CreateIndex_ (mkOpCreateIndex fields (IndexStmt_AccessMethod stmt) (IndexStmt_Idxname stmt)
           predicate (optionsText (IndexStmt_Options stmt))
           (getQualifiedRelationName (IndexStmt_Relation stmt)) (IndexStmt_Unique stmt)).

Lemma convertCreateIndexStmt_ok stmt ops :
  convertCreateIndexStmt stmt = Ok (Some ops) → ∃ op, ops = [op] ∧ indexes stmt op.
Proof.
  unfold convertCreateIndexStmt, canConvertCreateIndexStmt. autorewrite with conv.
  intros (Hp & fields & (new & -> & Hf)%indexParams_ok & Hm). destruct_and?.
  unfold ParseCreateIndexMethod in Hm. destruct (slices_Contains _ _); [|done].
  apply conv_bind_ok in Hm as (pred & Hpred & (sto & [Hsto ->]%relOptions_ok & [= <-])%conv_bind_ok).
  eexists. split; [done|]. split; [by split_and!|]. split; [done|]. exists new, pred. split; [done|].
  split; [|done]. destruct (IndexStmt_WhereClause stmt); [by rewrite or_error_ok in Hpred|by injection Hpred].
Qed.

(** ** A whole text *)

(** The text of a statement: where the splitter fails, the whole text *)
Definition textAt (sql : string) (i : nat) : option string :=
  match SplitWithParser sql with Ok texts => texts !! i | Err _ => Some sql | _ => None end.

(** RENAME and its operation; the table's name without its schema *)
Definition renames (s : RenameStmt) (op : Operation) : Prop :=
  let table := relname (RenameStmt_Relation s) in
  match RenameStmt_RenameType s with
  | OBJECT_TABLE => op = RenameTable_ (mkOpRenameTable table (RenameStmt_Newname s))
  | OBJECT_COLUMN => op = RenameColumn_ (mkOpRenameColumn (RenameStmt_Subname s) table (RenameStmt_Newname s))
  | OBJECT_TABCONSTRAINT =>
      op = RenameConstraint_ (mkOpRenameConstraint (RenameStmt_Subname s) table (RenameStmt_Newname s))
  | _ => False
  end.

(** DROP and its operation, which is about the first object of the statement,
    under its qualified name; a second index is never there. *)
Definition drops (s : DropStmt) (op : Operation) : Prop :=
  DropStmt_Behavior s ≠ DROP_CASCADE ∧
  ∃ object rest, DropStmt_Objects s = object :: rest ∧
    (DropStmt_RemoveType s = OBJECT_TABLE ∧ op = DropTable_ (mkOpDropTable (qualifiedName object)) ∨
     DropStmt_RemoveType s = OBJECT_INDEX ∧ rest = [] ∧
     op = DropIndex_ (mkOpDropIndex (qualifiedName object))).

(** What a converted statement becomes *)
Definition becomes n (ops : list Operation) : Prop :=
  (∃ s, Node_CreateStmt n = Some s ∧ creates s ops) ∨
  (∃ s, Node_AlterTableStmt n = Some s ∧ AlterTableStmt_Objtype s = OBJECT_TABLE ∧
     Forall2 (alters s) (omap Node_AlterTableCmd (AlterTableStmt_Cmds s)) ops) ∨
  (∃ s op, Node_RenameStmt n = Some s ∧ ops = [op] ∧ renames s op) ∨
  (∃ s op, Node_DropStmt n = Some s ∧ ops = [op] ∧ drops s op) ∨
  (∃ s op, Node_IndexStmt n = Some s ∧ ops = [op] ∧ indexes s op).

Lemma convertDropStatement_ok s ops :
  convertDropStatement s = Ok (Some ops) → ∃ op, ops = [op] ∧ drops s op.
Proof.
  unfold convertDropStatement, convertDropTableStatement, convertDropIndexStatement,
    canConvertDropTable, canConvertDropIndex, drops.
  destruct (DropStmt_RemoveType s); try done; rewrite only_if_ok; intros [Hc Ho];
    destruct (DropStmt_Objects s) as [|object rest]; try done; injection Ho as <-;
    (eexists; split; [done|]).
  - split; [by destruct (DropStmt_Behavior s)|]. exists object, rest. split; [done|by left].
  - apply andb_true_iff in Hc as [Hl Hb]. split; [by destruct (DropStmt_Behavior s)|].
    exists object, rest. split; [done|]. right. by destruct rest.
Qed.

Lemma convertStmt_ok n ops : convertStmt n = Ok (Some ops) → ops ≠ [] ∧ becomes n ops.
Proof.
  unfold convertStmt, becomes. destruct (Node_CreateStmt n) as [s|] eqn:Hn.
  { intros Hc%convertCreateStmt_creates. split; [|left; by exists s].
    by destruct Hc as (_ & _ & _ & cols & _ & ->). }
  destruct (Node_AlterTableStmt n) as [s|].
  { intros (? & ? & ?)%convertAlterTableStmt_ok. split; [done|]. right. left. by exists s. }
  destruct (Node_RenameStmt n) as [s|].
  { unfold convertRenameStmt, renames. intros Hr. destruct (RenameStmt_RenameType s) eqn:Ht; try done;
      injection Hr as <-; (split; [done|]); do 2 right; left; exists s; eexists; by rewrite Ht. }
  destruct (Node_DropStmt n) as [s|].
  { intros (op & -> & Hd)%convertDropStatement_ok. split; [done|]. do 3 right. left. by exists s, op. }
  destruct (Node_IndexStmt n) as [s|]; [|done].
  intros (op & -> & Hi)%convertCreateIndexStmt_ok. split; [done|]. do 4 right. by exists s, op.
Qed.

Lemma makeRaw_ok sql i ops :
  makeRawSQLOperation sql i = Ok ops ↔ ∃ up, textAt sql i = Some up ∧ ops = [rawSQL up].
Proof.
  unfold makeRawSQLOperation, textAt. destruct (SplitWithParser sql) as [texts|e| |].
  - destruct (texts !! i) as [up|]; (split; [|intros (? & [=] & ->)]); try done; [|by subst].
    intros [= <-]. by exists up.
  - split; [intros [= <-]; by exists sql|by intros (? & [= <-] & ->)].
  - split; [done|by intros (? & [=] & _)].
  - split; [done|by intros (? & [=] & _)].
Qed.

(** A statement and its operations *)
Definition statementOps (sql : string) (i : nat) (stmt : option Node) (ops : list Operation) : Prop :=
  match stmt with
  | None => ops = []
  | Some n =>
      ops ≠ [] ∧
      (becomes n ops ∨ convertStmt n = Ok None ∧ ∃ up, textAt sql i = Some up ∧ ops = [rawSQL up])
  end.

Lemma convertOne_ok sql i stmt ops : convertOne sql i stmt = Ok ops → statementOps sql i stmt ops.
Proof.
  unfold convertOne. destruct stmt as [n|]; cbn; [|by intros [= <-]].
  destruct (convertStmt n) as [[r|]|e| |] eqn:Hc; cbn; try done.
  - intros [= <-]. apply convertStmt_ok in Hc as [? ?]. split; [done|by left].
  - intros (up & Hup & ->)%makeRaw_ok. split; [done|]. right. split; [done|]. by exists up.
Qed.

Lemma convertFrom_ok sql stmts i ops :
  convertFrom sql i stmts = Ok ops →
  ∃ chunks, ops = concat chunks ∧ length chunks = length stmts ∧
    ∀ j stmt chunk, stmts !! j = Some stmt → chunks !! j = Some chunk →
      statementOps sql (i + j) stmt chunk.
Proof.
  revert i ops. induction stmts as [|stmt stmts IH]; intros i ops; cbn.
  - intros [= <-]. by exists [].
  - destruct (convertOne sql i stmt) as [chunk|e| |] eqn:H1; try done. cbn.
    destruct (convertFrom sql (S i) stmts) as [rest|e| |] eqn:H2; try done. intros [= <-].
    destruct (IH _ _ H2) as (chunks & -> & Hl & Hs). exists (chunk :: chunks). cbn.
    split_and!; [done|by rewrite Hl|]. intros [|j] st c; cbn.
    + intros [= <-] [= <-]. rewrite Nat.add_0_r. by apply convertOne_ok.
    + rewrite Nat.add_succ_r, <-Nat.add_succ_l. apply Hs.
Qed.


(** ** What is lost or refused *)

(** Of DROP TABLE a, b only the first table is dropped. *)
Lemma drop_table_drops_first s object rest :
  DropStmt_RemoveType s = OBJECT_TABLE → DropStmt_Behavior s ≠ DROP_CASCADE →
  DropStmt_Objects s = object :: rest →
  convertDropStatement s = Ok (Some [DropTable_ (mkOpDropTable (qualifiedName object))]).
Proof.
  intros Ht Hb Ho. unfold convertDropStatement, convertDropTableStatement, canConvertDropTable.
  rewrite Ht, Ho. by destruct (DropStmt_Behavior s).
Qed.

(** A column that references a table without naming a column crashes the
    conversion. *)
Lemma inline_reference_panics t col k :
  PgConstraint_SkipValidation k = false → PgConstraint_PkAttrs k = [] →
  convertInlineForeignKeyConstraint t col k = Panic.
Proof.
  intros Hs Hp. unfold convertInlineForeignKeyConstraint, canConvertForeignKeyConstraint. by rewrite Hs, Hp.
Qed.

(** Of two checks on a column the first is lost. *)
Lemma first_check_lost t col n1 n2 seen :
  onConstraint (saysCheck t col) n2 ≠ None →
  p_check (partsOf t col (seen ++ [n1; n2])) = p_check (partsOf t col [n2]).
Proof.
  intros Hn. change [n1; n2] with ([n1] ++ [n2]). rewrite app_assoc.
  unfold partsOf. cbn [p_check]. change [n2] with ([] ++ [n2]) at 2. rewrite !latest_snoc.
  by destruct (onConstraint (saysCheck t col) n2).
Qed.

(** The guard on the elements of an exclusion constraint never holds. *)
Lemma exclusion_guard_panics elem : Node_List elem = None → convertExclusion elem = Panic.
Proof. intros He. unfold convertExclusion. by rewrite He. Qed.
End facts.

(** ** A concrete tree *)

(** A message as its kind, its scalar fields and its nested messages *)
Inductive tree := Tree (kind : string) (attrs : list (string * string)) (kids : list (string * list tree)).
Fixpoint assoc {A} (k : string) (l : list (string * A)) : option A :=
  match l with [] => None | (k', a) :: l => if String.eqb k k' then Some a else assoc k l end.
Definition attr (k : string) (t : tree) : string := let '(Tree _ attrs _) := t in default "" (assoc k attrs).
Definition flag (k : string) (t : tree) : bool := String.eqb (attr k t) "true".
Definition kids (k : string) (t : tree) : list tree := let '(Tree _ _ l) := t in default [] (assoc k l).
Definition kid (k : string) (t : tree) : option tree := head (kids k t).
Definition as_kind (k : string) (t : tree) : option tree :=
  let '(Tree kind _ _) := t in if String.eqb kind k then Some t else None.
Definition text_of (t : tree) : outcome error string := Ok (attr "text" t).
Definition in_parens (sep : string) (l : list tree) : outcome error string :=
  Ok ("(" +:+ Join (attr "text" <$> l) sep +:+ ")").
Definition names_of (l : list tree) : outcome error string := Ok (Join (attr "sval" <$> l) ".").

Definition object_type (s : string) : ObjectType :=
  match s with
  | "table" => OBJECT_TABLE | "column" => OBJECT_COLUMN | "tabconstraint" => OBJECT_TABCONSTRAINT
  | "index" => OBJECT_INDEX | _ => OBJECT_other
  end.
Definition behavior (s : string) : DropBehavior :=
  match s with "cascade" => DROP_CASCADE | "restrict" => DROP_RESTRICT | _ => DROP_undefined end.
Definition subtype (s : string) : AlterTableType :=
  match s with
  | "set_not_null" => AT_SetNotNull | "drop_not_null" => AT_DropNotNull | "type" => AT_AlterColumnType
  | "add_constraint" => AT_AddConstraint | "drop_column" => AT_DropColumn
  | "default" => AT_ColumnDefault | "drop_constraint" => AT_DropConstraint
  | "add_column" => AT_AddColumn | _ => AT_other
  end.
Definition contype (s : string) : ConstrType :=
  match s with
  | "null" => CONSTR_NULL | "not_null" => CONSTR_NOTNULL | "unique" => CONSTR_UNIQUE
  | "primary" => CONSTR_PRIMARY | "check" => CONSTR_CHECK | "default" => CONSTR_DEFAULT
  | "foreign" => CONSTR_FOREIGN | "generated" => CONSTR_GENERATED | "identity" => CONSTR_IDENTITY
  | "exclusion" => CONSTR_EXCLUSION | "attr_not_deferrable" => CONSTR_ATTR_NOT_DEFERRABLE
  | "attr_immediate" => CONSTR_ATTR_IMMEDIATE | "attr_deferrable" => CONSTR_ATTR_DEFERRABLE
  | "attr_deferred" => CONSTR_ATTR_DEFERRED | _ => CONSTR_other
  end.
Definition ordering (s : string) : SortByDir :=
  match s with "" => SORTBY_DEFAULT | "asc" => SORTBY_ASC | "desc" => SORTBY_DESC | _ => SORTBY_other end.
Definition nulls_ordering (s : string) : SortByNulls :=
  match s with
  | "" => SORTBY_NULLS_DEFAULT | "first" => SORTBY_NULLS_FIRST | "last" => SORTBY_NULLS_LAST
  | _ => SORTBY_NULLS_other
  end.

Definition str (s : string) : tree := Tree "String" [("sval", s)] [].
Definition lst (l : list string) : tree := Tree "List" [] [("items", str <$> l)].
Definition table (name : string) : string * list tree :=
  ("relation", [Tree "RangeVar" [("relname", name); ("relpersistence", "p")] []]).
Definition col (name type : string) (cs : list tree) : tree :=
  Tree "ColumnDef" [("colname", name)] [("typeName", [Tree "TypeName" [("text", type)] []]); ("constraints", cs)].
Definition con (type : string) (more : list (string * string)) (kids : list (string * list tree)) : tree :=
  Tree "Constraint" (("contype", type) :: more) kids.
Definition expr (text : string) : string * list tree := ("rawExpr", [Tree "Expr" [("text", text)] []]).
Definition cmd (type name : string) : tree := Tree "AlterTableCmd" [("subtype", type); ("name", name)] [].

(** [CREATE TABLE users (id int PRIMARY KEY, age int NULL CHECK (age > 0));
    ALTER TABLE users ALTER age SET NOT NULL, DROP COLUMN name;;
    DROP TABLE a, b; DROP TYPE t] *)
Definition create_users : tree :=
  Tree "CreateStmt" [] [table "users"; ("tableElts",
    [col "id" "int" [con "primary" [] []];
     col "age" "int" [con "null" [] []; con "check" [] [expr "age > 0"]]])].
Definition sample_stmts : list (option tree) :=
  [Some create_users;
   Some (Tree "AlterTableStmt" [("objtype", "table")]
     [table "users"; ("cmds", [cmd "set_not_null" "age"; cmd "drop_column" "name"])]);
   None;
   Some (Tree "DropStmt" [("removeType", "table")] [("objects", [lst ["a"]; lst ["b"]])]);
   Some (Tree "DropStmt" [("removeType", "type")] [("objects", [lst ["t"]])])].

Definition tree_query_of (parse : string → outcome error (list (option tree)))
    (split : string → outcome error (list string)) : PgQuery := {|
  Node := tree; RangeVar := tree; TypeName := option tree; ColumnDef := tree; PgConstraint := tree;
  IndexElem := tree; AlterTableCmd := tree; CreateStmt := tree; AlterTableStmt := tree;
  RenameStmt := tree; DropStmt := tree; IndexStmt := tree;
  Node_CreateStmt := as_kind "CreateStmt"; Node_AlterTableStmt := as_kind "AlterTableStmt";
  Node_RenameStmt := as_kind "RenameStmt"; Node_DropStmt := as_kind "DropStmt";
  Node_IndexStmt := as_kind "IndexStmt"; Node_AlterTableCmd := as_kind "AlterTableCmd";
  Node_ColumnDef := as_kind "ColumnDef"; Node_Constraint := as_kind "Constraint";
  Node_IndexElem := as_kind "IndexElem";
  Node_String t := attr "sval" <$> as_kind "String" t;
  Node_List t := kids "items" <$> as_kind "List" t;
  Node_AConst t := flag "isnull" <$> as_kind "A_Const" t;
  Node_GoType t := let '(Tree kind _ _) := t in kind;
  RangeVar_Relname := attr "relname"; RangeVar_Schemaname := attr "schemaname";
  RangeVar_Relpersistence := attr "relpersistence"; RangeVar_Inh := flag "inh";
  ColumnDef_Colname := attr "colname"; ColumnDef_TypeName := kid "typeName";
  ColumnDef_Constraints := kids "constraints"; ColumnDef_StorageName := attr "storage";
  ColumnDef_Compression := attr "compression"; ColumnDef_CollClause := kid "collClause";
  ColumnDef_RawDefault := kid "rawDefault";
  PgConstraint_Contype t := contype (attr "contype" t); PgConstraint_Conname := attr "conname";
  PgConstraint_RawExpr := kid "rawExpr"; PgConstraint_Keys := kids "keys";
  PgConstraint_Including := kids "including"; PgConstraint_Options := kids "options";
  PgConstraint_Exclusions := kids "exclusions"; PgConstraint_WhereClause := kid "whereClause";
  PgConstraint_AccessMethod := attr "accessMethod"; PgConstraint_Indexspace := attr "indexspace";
  PgConstraint_NullsNotDistinct := flag "nullsNotDistinct"; PgConstraint_IsNoInherit := flag "noInherit";
  PgConstraint_Deferrable := flag "deferrable"; PgConstraint_Initdeferred := flag "initdeferred";
  PgConstraint_SkipValidation := flag "skipValidation"; PgConstraint_GeneratedWhen := attr "generatedWhen";
  PgConstraint_Pktable := kid "pktable"; PgConstraint_PkAttrs := kids "pkAttrs";
  PgConstraint_FkAttrs := kids "fkAttrs"; PgConstraint_FkMatchtype := attr "matchtype";
  PgConstraint_FkDelAction := attr "delAction"; PgConstraint_FkUpdAction := attr "updAction";
  PgConstraint_FkDelSetCols := kids "delSetCols";
  IndexElem_Name := attr "name"; IndexElem_Expr := kid "expr"; IndexElem_Collation := kids "collation";
  IndexElem_Opclass := kids "opclass"; IndexElem_Opclassopts := kids "opclassopts";
  IndexElem_Ordering t := ordering (attr "ordering" t);
  IndexElem_NullsOrdering t := nulls_ordering (attr "nulls" t);
  AlterTableCmd_Subtype t := subtype (attr "subtype" t); AlterTableCmd_Name := attr "name";
  AlterTableCmd_Def := kid "def"; AlterTableCmd_Behavior t := behavior (attr "behavior" t);
  AlterTableCmd_MissingOk := flag "missingOk";
  CreateStmt_Relation := kid "relation"; CreateStmt_TableElts := kids "tableElts";
  CreateStmt_InhRelations := kids "inhRelations"; CreateStmt_Partspec := flag "partspec";
  CreateStmt_OfTypename := flag "ofTypename"; CreateStmt_AccessMethod := attr "accessMethod";
  CreateStmt_Options := kids "options"; CreateStmt_Oncommit := flag "oncommit";
  CreateStmt_Tablespacename := attr "tablespace";
  AlterTableStmt_Objtype t := object_type (attr "objtype" t); AlterTableStmt_Relation := kid "relation";
  AlterTableStmt_Cmds := kids "cmds";
  RenameStmt_RenameType t := object_type (attr "renameType" t); RenameStmt_Relation := kid "relation";
  RenameStmt_Subname := attr "subname"; RenameStmt_Newname := attr "newname";
  DropStmt_RemoveType t := object_type (attr "removeType" t); DropStmt_Objects := kids "objects";
  DropStmt_Behavior t := behavior (attr "behavior" t);
  IndexStmt_Relation := kid "relation"; IndexStmt_Idxname := attr "idxname";
  IndexStmt_AccessMethod := attr "accessMethod"; IndexStmt_TableSpace := attr "tableSpace";
  IndexStmt_IndexParams := kids "indexParams"; IndexStmt_IndexIncludingParams := kids "including";
  IndexStmt_Options := kids "options"; IndexStmt_WhereClause := kid "whereClause";
  IndexStmt_Unique := flag "unique"; IndexStmt_NullsNotDistinct := flag "nullsNotDistinct";
  pgq_Parse := parse; SplitWithParser := split;
  DeparseTypeName t := from_option text_of (Ok "") t;
  DeparseExpr t := from_option text_of (Ok "") t;
  DeparseParenthesizedSeqOptList := in_parens ""; DeparseIndexElem := text_of;
  DeparseAnyOperator := names_of; DeparseAnyName := names_of; DeparseRelOptions := in_parens ", ";
|}.
#[local] Instance tree_query : PgQuery := tree_query_of
  (λ sql, if String.eqb sql "sample" then Ok sample_stmts else Err (Errorf "syntax error" []))
  (λ _, Ok ["CREATE TABLE users"; "ALTER TABLE users"; ""; "DROP TABLE a, b"; "DROP TYPE t"]).

Definition users_columns : list MigColumn :=
  [mkMigColumn None None None None "id" false true None "int" false;
   mkMigColumn (Some (mkMigCheckConstraint "age > 0" "users_age_check" false)) None None None "age"
     true false None "int" false].

(** Of the two dropped tables one is left behind. *)
Definition sample_ops : list Operation :=
  [CreateTable_ (mkOpCreateTable users_columns None [] "users");
   AlterColumn_ (mkOpAlterColumn None "age" Unspecified Unspecified PlaceHolderSQL (Some false) None "users"
     None None PlaceHolderSQL);
   DropColumn_ (mkOpDropColumn "name" PlaceHolderSQL "users");
   DropTable_ (mkOpDropTable "a"); rawSQL "DROP TYPE t"].


(** [CREATE TABLE rooms (id int, CONSTRAINT k UNIQUE NULLS NOT DISTINCT (id)
    INCLUDE (id) WITH (fillfactor = 70), CONSTRAINT e EXCLUDE USING gist
    (id WITH =))] *)
Definition create_rooms : tree :=
  Tree "CreateStmt" [] [table "rooms"; ("tableElts",
    [col "id" "int" [];
     con "unique" [("conname", "k"); ("nullsNotDistinct", "true")]
       [("keys", [str "id"]); ("including", [str "id"]);
        ("options", [Tree "DefElem" [("text", "fillfactor=70")] []])];
     con "exclusion" [("conname", "e"); ("accessMethod", "gist")]
       [("exclusions", [Tree "List" [] [("items",
          [Tree "IndexElem" [("text", "id")] []; Tree "List" [] [("items", [str "="])]])]])]])].

Definition rooms_constraints : list Constraint :=
  [mkConstraint "" ["id"] false None
     (Some (mkConstraintIndexParameters ["id"] "fillfactor=70" "")) false "k" false true None
     ConstraintTypeUnique;
   mkConstraint "" [] false (Some (mkConstraintExclude "id WITH =" "gist" "")) None false "e" false false
     None ConstraintTypeExclude].

Lemma convertCreateStmt_spec_witness :
  ∃ cols, convertCreateStmt create_rooms =
      Ok (Some [CreateTable_ (mkOpCreateTable cols None rooms_constraints "rooms")]) ∧
    constraintOf <$> omap tableConstraint (CreateStmt_TableElts create_rooms) = rooms_constraints ∧
    Forall constraintExpressible (omap tableConstraint (CreateStmt_TableElts create_rooms)).
Proof.
  set (cols := [mkMigColumn None None None None "id" true false None "int" false]).
  assert (convertCreateStmt create_rooms =
    Ok (Some [CreateTable_ (mkOpCreateTable cols None rooms_constraints "rooms")])) as Hc
    by (vm_compute; reflexivity).
  exists cols. split; [exact Hc|].
  destruct (proj1 (@convertCreateStmt_spec tree_query create_rooms _) Hc) as (_ & _ & He & cols' & _ & Ho).
  split; [|exact He].
  exact (eq_sym (f_equal (λ ops, match ops with
    [CreateTable_ o] => OpCreateTable_Constraints o | _ => [] end) Ho)).
Defined.

(** An ALTER TABLE that adds a deferrable foreign key gives the operation of
    the one that is not deferrable. *)
Definition add_key (more : list (string * string)) : tree :=
  Tree "AlterTableCmd" [("subtype", "add_constraint")]
    [("def", [con "foreign" (("conname", "fk") :: more)
       [("fkAttrs", [str "a"]); ("pkAttrs", [str "b"]); ("pktable", [Tree "RangeVar" [("relname", "t")] []])]])].
Lemma deferrable_key_lost stmt :
  convertAlterTableCmd stmt (add_key [("deferrable", "true"); ("initdeferred", "true")]) =
  convertAlterTableCmd stmt (add_key []).
Proof. by vm_compute. Qed.

(** Renaming a table of another schema renames the table of that name in the
    schema of the migration. *)
Lemma rename_drops_schema :
  convertRenameStmt (Tree "RenameStmt" [("renameType", "table"); ("newname", "bar")]
    [("relation", [Tree "RangeVar" [("schemaname", "other"); ("relname", "foo")] []])]) =
  Ok (Some [RenameTable_ (mkOpRenameTable "foo" "bar")]).
Proof. by vm_compute. Qed.
