(* ===== verification/Expect.v ===== *)
(** * Expect: the operations the conversion's tests expect

    The values of [pkg/sql2pgroll/expect], and the tests of [pkg/sql2pgroll]
    that name them: each SQL text with the tree the parser gives for it and
    the operation it must become, or with the tree alone when it must stay
    raw SQL. *)

From S2P Require Import Prelude.
From S2P Require Import GoStd.
From S2P Require Import Types.
From S2P Require Import OpsTable.
From S2P Require Import Sql2Pgroll.
From S2P Require Import Sql2PgrollFacts.

(** ** The expected operations *)

(** [expect/create_table.go] *)
Definition CreateTableOp1 : Operation :=
  CreateTable_ (mkOpCreateTable [mkMigColumn None None None None "a" true false None "int" false]
    None [] "foo").
Definition CreateTableOp2 : Operation :=
  CreateTable_ (mkOpCreateTable [mkMigColumn None None None None "a" false false None "int" false]
    None [] "foo").
Definition CreateTableOp3 : Operation :=
  CreateTable_ (mkOpCreateTable [mkMigColumn None None None None "a" true false None
    "varchar(255)" false] None [] "foo").
Definition CreateTableOp4 : Operation :=
  CreateTable_ (mkOpCreateTable [mkMigColumn None None None None "a" true false None
    "numeric(10, 2)" false] None [] "foo").
Definition CreateTableOp5 : Operation :=
  CreateTable_ (mkOpCreateTable [mkMigColumn None None None None "a" true false None "int" true]
    None [] "foo").
Definition CreateTableOp6 : Operation :=
  CreateTable_ (mkOpCreateTable [mkMigColumn None None None None "a" false true None "int" false]
    None [] "foo").
Definition CreateTableOp7 : Operation :=
  CreateTable_ (mkOpCreateTable [mkMigColumn None None None None "a" true false None "text[]"
    false] None [] "foo").
Definition CreateTableOp8 : Operation :=
  CreateTable_ (mkOpCreateTable [mkMigColumn None None None None "a" true false None "text[5]"
    false] None [] "foo").
Definition CreateTableOp9 : Operation :=
  CreateTable_ (mkOpCreateTable [mkMigColumn None None None None "a" true false None "text[5][3]"
    false] None [] "foo").
Definition CreateTableOp10 : Operation :=
  CreateTable_ (mkOpCreateTable [mkMigColumn (Some (mkMigCheckConstraint "a > 0" "foo_a_check"
    false)) None None None "a" true false None "int" false] None [] "foo").
Definition CreateTableOp11 : Operation :=
  CreateTable_ (mkOpCreateTable [mkMigColumn None None (Some "now()") None "a" true false None
    "timestamptz" false] None [] "foo").
Definition CreateTableOp12 : Operation :=
  CreateTable_ (mkOpCreateTable [mkMigColumn None None None None "a" true false (Some
    (mkForeignKeyReference "b" false false ForeignKeyMatchTypeSIMPLE "foo_a_fkey"
    ForeignKeyActionNOACTION ForeignKeyActionNOACTION "bar")) "int" false] None [] "foo").
Definition CreateTableOp13 : Operation :=
  CreateTable_ (mkOpCreateTable [mkMigColumn None None None None "a" true false (Some
    (mkForeignKeyReference "b" false false ForeignKeyMatchTypeSIMPLE "foo_a_fkey"
    ForeignKeyActionRESTRICT ForeignKeyActionNOACTION "bar")) "int" false] None [] "foo").
Definition CreateTableOp14 : Operation :=
  CreateTable_ (mkOpCreateTable [mkMigColumn None None None None "a" true false (Some
    (mkForeignKeyReference "b" false false ForeignKeyMatchTypeSIMPLE "foo_a_fkey"
    ForeignKeyActionSETNULL ForeignKeyActionNOACTION "bar")) "int" false] None [] "foo").
Definition CreateTableOp15 : Operation :=
  CreateTable_ (mkOpCreateTable [mkMigColumn None None None None "a" true false (Some
    (mkForeignKeyReference "b" false false ForeignKeyMatchTypeSIMPLE "foo_a_fkey"
    ForeignKeyActionSETDEFAULT ForeignKeyActionNOACTION "bar")) "int" false] None [] "foo").
Definition CreateTableOp16 : Operation :=
  CreateTable_ (mkOpCreateTable [mkMigColumn None None None None "a" true false (Some
    (mkForeignKeyReference "b" false false ForeignKeyMatchTypeSIMPLE "foo_a_fkey"
    ForeignKeyActionCASCADE ForeignKeyActionNOACTION "bar")) "int" false] None [] "foo").
Definition CreateTableOp17 : Operation :=
  CreateTable_ (mkOpCreateTable [mkMigColumn None None None None "a" true false None "int" false]
    None [] "schema.foo").
Definition CreateTableOp18 : Operation :=
  CreateTable_ (mkOpCreateTable [mkMigColumn (Some (mkMigCheckConstraint "a > 0" "my_check"
    false)) None None None "a" true false None "int" false] None [] "foo").
Definition CreateTableOp19 : Operation :=
  CreateTable_ (mkOpCreateTable [mkMigColumn None None None None "a" true false (Some
    (mkForeignKeyReference "b" false false ForeignKeyMatchTypeFULL "my_fk"
    ForeignKeyActionNOACTION ForeignKeyActionNOACTION "bar")) "int" false] None [] "foo").
Definition CreateTableOp20 : Operation :=
  CreateTable_ (mkOpCreateTable [mkMigColumn None None None None "a" true false None "int" false]
    None [] "foo").
Definition CreateTableOp21 : Operation :=
  CreateTable_ (mkOpCreateTable [mkMigColumn None None None None "a" false true None "serial"
    false; mkMigColumn (Some (mkMigCheckConstraint "b > 0" "foo_b_check" false)) None (Some "100")
    None "b" true false None "int" false; mkMigColumn None None None None "c" false false None
    "text" true] None [] "foo").
Definition CreateTableOp22 : Operation :=
  CreateTable_ (mkOpCreateTable [mkMigColumn None None None None "a" false true None "serial"
    false; mkMigColumn None None None None "b" true false None "text" false; mkMigColumn None None
    None None "c" true false None "text" false] None [mkConstraint "" ["b"; "c"] false None None
    false "" false false None ConstraintTypeUnique] "foo").
Definition CreateTableOp23 : Operation :=
  CreateTable_ (mkOpCreateTable [mkMigColumn None None None None "b" true false None "text" false;
    mkMigColumn None None None None "c" true false None "text" false] None [mkConstraint "" ["b"]
    false None (Some (mkConstraintIndexParameters ["c"] "fillfactor=70" "my_tablespace")) false ""
    false false None ConstraintTypeUnique] "foo").
Definition CreateTableOp24 : Operation :=
  CreateTable_ (mkOpCreateTable [mkMigColumn None None None None "a" true false None "int" false]
    None [mkConstraint "a > 0" [] false None None false "" false false None ConstraintTypeCheck]
    "foo").
Definition CreateTableOp25 : Operation :=
  CreateTable_ (mkOpCreateTable [mkMigColumn None None None None "b" true false None "text" false;
    mkMigColumn None None None None "c" true false None "text" false] None [mkConstraint "b = c"
    [] false None None false "" true false None ConstraintTypeCheck] "foo").
Definition CreateTableOp26 : Operation :=
  CreateTable_ (mkOpCreateTable [mkMigColumn None None None None "b" true false None "text" false;
    mkMigColumn None None None None "c" true false None "text" false] None [mkConstraint "" ["b"]
    true None None false "" false false None ConstraintTypePrimaryKey] "foo").
Definition CreateTableOp27 : Operation :=
  CreateTable_ (mkOpCreateTable [mkMigColumn None None None (Some (mkColumnGenerated "" (Some
    (mkColumnGeneratedIdentity "START 1 INCREMENT 1 MINVALUE 1 MAXVALUE 1000 CYCLE CACHE 1 "
    ColumnGeneratedIdentityUserSpecifiedValuesALWAYS)))) "b" false true None "bigint" false] None
    [] "foo").
Definition CreateTableOp28 : Operation :=
  CreateTable_ (mkOpCreateTable [mkMigColumn None None None None "a" true false None "text" false;
    mkMigColumn None None None (Some (mkColumnGenerated "upper(a)" None)) "b" false false None
    "text" false] None [] "foo").
Definition CreateTableOp29 : Operation :=
  CreateTable_ (mkOpCreateTable [mkMigColumn None None None None "a" true false None "int" false]
    None [mkConstraint "" ["a"] false None None false "foo_fk" false false (Some
    (mkTableForeignKeyReference ["b"] ForeignKeyMatchTypeSIMPLE ForeignKeyActionNOACTION []
    ForeignKeyActionNOACTION "bar")) ConstraintTypeForeignKey] "foo").
Definition CreateTableOp30 : Operation :=
  CreateTable_ (mkOpCreateTable [mkMigColumn None None None None "a" true false None "int" false]
    None [mkConstraint "" ["a"] false None None false "" false false (Some
    (mkTableForeignKeyReference ["b"] ForeignKeyMatchTypeSIMPLE ForeignKeyActionSETNULL []
    ForeignKeyActionCASCADE "bar")) ConstraintTypeForeignKey] "foo").
Definition CreateTableOp31 : Operation :=
  CreateTable_ (mkOpCreateTable [mkMigColumn None None None None "a" true false None "int" false;
    mkMigColumn None None None None "b" true false None "int" false] None [mkConstraint "" ["a";
    "b"] false None None false "" false false (Some (mkTableForeignKeyReference ["c"; "d"]
    ForeignKeyMatchTypeSIMPLE ForeignKeyActionSETNULL ["b"] ForeignKeyActionNOACTION "bar"))
    ConstraintTypeForeignKey] "foo").
Definition CreateTableOp32 : Operation :=
  CreateTable_ (mkOpCreateTable [mkMigColumn None None None None "a" true false None "int" false;
    mkMigColumn None None None None "b" true false None "int" false; mkMigColumn None None None
    None "c" true false None "int" false] None [mkConstraint "" ["a"; "b"; "c"] false None None
    false "" false false (Some (mkTableForeignKeyReference ["d"; "e"; "f"]
    ForeignKeyMatchTypeSIMPLE ForeignKeyActionSETNULL [] ForeignKeyActionCASCADE "bar"))
    ConstraintTypeForeignKey] "foo").
Definition CreateTableOp33 : Operation :=
  CreateTable_ (mkOpCreateTable [mkMigColumn None None None None "a" true false None "int" false;
    mkMigColumn None None None None "b" true false None "int" false; mkMigColumn None None None
    None "c" true false None "int" false] None [mkConstraint "" ["a"; "b"; "c"] false None None
    false "" false false (Some (mkTableForeignKeyReference ["d"; "e"; "f"] ForeignKeyMatchTypeFULL
    ForeignKeyActionNOACTION [] ForeignKeyActionNOACTION "bar")) ConstraintTypeForeignKey] "foo").
Definition CreateTableOp34 (matchType : string) (onDelete onUpdate : string) : Operation :=
  CreateTable_ (mkOpCreateTable [mkMigColumn None None None None "a" true false (Some
    (mkForeignKeyReference "b" false false matchType "foo_a_fkey" onDelete onUpdate "bar")) "int"
    false] None [] "foo").
Definition CreateTableOp35 : Operation :=
  CreateTable_ (mkOpCreateTable [mkMigColumn None None None None "id" true false None "int" false;
    mkMigColumn None None None None "s" true false None "timestamptz" false; mkMigColumn None None
    None None "e" true false None "timestamptz" false; mkMigColumn None None (Some "false") None
    "canceled" true false None "boolean" false] None [mkConstraint "" [] false (Some
    (mkConstraintExclude "id WITH =, tstzrange(s, e) WITH &&" "gist" "NOT canceled")) None false
    "" false false None ConstraintTypeExclude] "foo").
Definition CreateTableOp36 : Operation :=
  CreateTable_ (mkOpCreateTable [mkMigColumn None None None None "id" true false None "int" false;
    mkMigColumn None None None None "b" true false None "text" false] None [mkConstraint "" []
    true (Some (mkConstraintExclude "id WITH =" "btree" "")) None true "" false false None
    ConstraintTypeExclude] "foo").
Definition CreateTableOp37 : Operation :=
  CreateTable_ (mkOpCreateTable [mkMigColumn (Some (mkMigCheckConstraint "a > 0" "foo_a_check"
    true)) None None None "a" true false None "int" false] None [] "foo").
(** [expect/alter_column.go] *)
Definition AlterColumnOp1 : Operation :=
  AlterColumn_ (mkOpAlterColumn None "a" Unspecified Unspecified PlaceHolderSQL (Some false) None
    "foo" None None PlaceHolderSQL).
Definition AlterColumnOp2 : Operation :=
  AlterColumn_ (mkOpAlterColumn None "a" Unspecified Unspecified PlaceHolderSQL (Some true) None
    "foo" None None PlaceHolderSQL).
Definition AlterColumnOp3 : Operation :=
  AlterColumn_ (mkOpAlterColumn None "a" Unspecified Unspecified PlaceHolderSQL None None "foo"
    (Some "text") None PlaceHolderSQL).
Definition AlterColumnOp5 : Operation :=
  AlterColumn_ (mkOpAlterColumn None "bar" Unspecified (Value "'baz'") PlaceHolderSQL None None
    "foo" None None PlaceHolderSQL).
Definition AlterColumnOp6 : Operation :=
  AlterColumn_ (mkOpAlterColumn None "bar" Unspecified (Value "123") PlaceHolderSQL None None
    "foo" None None PlaceHolderSQL).
Definition AlterColumnOp7 : Operation :=
  AlterColumn_ (mkOpAlterColumn None "bar" Unspecified Null PlaceHolderSQL None None "foo" None
    None PlaceHolderSQL).
Definition AlterColumnOp8 : Operation :=
  AlterColumn_ (mkOpAlterColumn None "bar" Unspecified (Value "123.456") PlaceHolderSQL None None
    "foo" None None PlaceHolderSQL).
Definition AlterColumnOp9 : Operation :=
  AlterColumn_ (mkOpAlterColumn None "bar" Unspecified (Value "true") PlaceHolderSQL None None
    "foo" None None PlaceHolderSQL).
Definition AlterColumnOp10 : Operation :=
  AlterColumn_ (mkOpAlterColumn None "bar" Unspecified (Value "b'0101'") PlaceHolderSQL None None
    "foo" None None PlaceHolderSQL).
Definition AlterColumnOp11 : Operation :=
  AlterColumn_ (mkOpAlterColumn None "bar" Unspecified (Value "now()") PlaceHolderSQL None None
    "foo" None None PlaceHolderSQL).
Definition AlterColumnOp12 : Operation :=
  AlterColumn_ (mkOpAlterColumn None "bar" Unspecified (Value "(first_name || ' ') || last_name")
    PlaceHolderSQL None None "foo" None None PlaceHolderSQL).
(** [expect/create_constraint.go] *)
Definition CreateConstraintOp1 : Operation :=
  CreateConstraint_ (mkOpCreateConstraint None ["a"] {["a" := PlaceHolderSQL]} None "bar" false
    None "foo" OpCreateConstraintTypeUnique {["a" := PlaceHolderSQL]}).
Definition CreateConstraintOp2 : Operation :=
  CreateConstraint_ (mkOpCreateConstraint None ["a"; "b"] {["a" := PlaceHolderSQL; "b" :=
    PlaceHolderSQL]} None "bar" false None "foo" OpCreateConstraintTypeUnique {["a" :=
    PlaceHolderSQL; "b" := PlaceHolderSQL]}).
Definition CreateConstraintOp3 : Operation :=
  CreateConstraint_ (mkOpCreateConstraint (Some "age > 0") [PlaceHolderColumnName]
    {[PlaceHolderColumnName := PlaceHolderSQL]} None "bar" false None "foo"
    OpCreateConstraintTypeCheck {[PlaceHolderColumnName := PlaceHolderSQL]}).
Definition CreateConstraintOp4 : Operation :=
  CreateConstraint_ (mkOpCreateConstraint (Some "age > 0") [PlaceHolderColumnName]
    {[PlaceHolderColumnName := PlaceHolderSQL]} None "bar" false None "schema.foo"
    OpCreateConstraintTypeCheck {[PlaceHolderColumnName := PlaceHolderSQL]}).
Definition CreateConstraintOp5 : Operation :=
  CreateConstraint_ (mkOpCreateConstraint (Some "age > 0") [PlaceHolderColumnName]
    {[PlaceHolderColumnName := PlaceHolderSQL]} None "bar" true None "foo"
    OpCreateConstraintTypeCheck {[PlaceHolderColumnName := PlaceHolderSQL]}).
(** [expect/add_foreign_key.go] *)
Definition AddForeignKeyOp1WithParams (matchType : string) (onDelete onUpdate : string) : Operation :=
  CreateConstraint_ (mkOpCreateConstraint None ["a"; "b"] {["a" := PlaceHolderSQL; "b" :=
    PlaceHolderSQL]} None "fk_bar_cd" false (Some (mkTableForeignKeyReference ["c"; "d"] matchType
    onDelete [] onUpdate "bar")) "foo" OpCreateConstraintTypeForeignKey {["a" := PlaceHolderSQL;
    "b" := PlaceHolderSQL]}).
Definition AddForeignKeyOp2 : Operation :=
  CreateConstraint_ (mkOpCreateConstraint None ["a"] {["a" := PlaceHolderSQL]} None "fk_bar_c"
    false (Some (mkTableForeignKeyReference ["c"] ForeignKeyMatchTypeSIMPLE
    ForeignKeyActionNOACTION [] ForeignKeyActionNOACTION "bar")) "foo"
    OpCreateConstraintTypeForeignKey {["a" := PlaceHolderSQL]}).
Definition AddForeignKeyOp3 : Operation :=
  CreateConstraint_ (mkOpCreateConstraint None ["a"] {["a" := PlaceHolderSQL]} None "fk_bar_c"
    false (Some (mkTableForeignKeyReference ["c"] ForeignKeyMatchTypeSIMPLE
    ForeignKeyActionNOACTION [] ForeignKeyActionNOACTION "schema_a.bar")) "schema_a.foo"
    OpCreateConstraintTypeForeignKey {["a" := PlaceHolderSQL]}).
(** [expect/add_column.go] *)
Definition AddColumnOp1 : Operation :=
  AddColumn_ (mkOpAddColumn (mkMigColumn None None None None "bar" true false None "int" false)
    "foo" PlaceHolderSQL).
Definition AddColumnOp2 : Operation :=
  AddColumn_ (mkOpAddColumn (mkMigColumn None None None None "bar" true false None "int" false)
    "schema.foo" PlaceHolderSQL).
Definition AddColumnOp1WithDefault (def : option string) : Operation :=
  AddColumn_ (mkOpAddColumn (mkMigColumn None None def None "bar" true false None "int" false)
    "foo" PlaceHolderSQL).
Definition AddColumnOp3 : Operation :=
  AddColumn_ (mkOpAddColumn (mkMigColumn None None None None "bar" true false None "int" false)
    "foo" PlaceHolderSQL).
Definition AddColumnOp4 : Operation :=
  AddColumn_ (mkOpAddColumn (mkMigColumn None None None None "bar" true false None "int" true)
    "foo" PlaceHolderSQL).
Definition AddColumnOp5 : Operation :=
  AddColumn_ (mkOpAddColumn (mkMigColumn None None None None "bar" false true None "int" false)
    "foo" PlaceHolderSQL).
Definition AddColumnOp6 : Operation :=
  AddColumn_ (mkOpAddColumn (mkMigColumn (Some (mkMigCheckConstraint "bar > 0" "foo_bar_check"
    false)) None None None "bar" true false None "int" false) "foo" PlaceHolderSQL).
Definition AddColumnOp7 : Operation :=
  AddColumn_ (mkOpAddColumn (mkMigColumn (Some (mkMigCheckConstraint "bar > 0" "check_bar" false))
    None None None "bar" true false None "int" false) "foo" PlaceHolderSQL).
Definition AddColumnOp8 : Operation :=
  AddColumn_ (mkOpAddColumn (mkMigColumn None None None None "bar" false false None "int" false)
    "foo" PlaceHolderSQL).
Definition AddColumnOp9 : Operation :=
  AddColumn_ (mkOpAddColumn (mkMigColumn None None None (Some (mkColumnGenerated "" (Some
    (mkColumnGeneratedIdentity "" ColumnGeneratedIdentityUserSpecifiedValuesBYDEFAULT)))) "bar"
    false false None "int" false) "foo" PlaceHolderSQL).
Definition AddColumnOp10 : Operation :=
  AddColumn_ (mkOpAddColumn (mkMigColumn None None None (Some (mkColumnGenerated "123" None))
    "bar" false false None "int" false) "foo" PlaceHolderSQL).
Definition AddColumnOp8WithOnDeleteAction (onDelete onUpdate : string) (matchType : string) : Operation :=
  AddColumn_ (mkOpAddColumn (mkMigColumn None None None None "bar" true false (Some
    (mkForeignKeyReference "bar" false false matchType "fk_baz" onDelete onUpdate "baz")) "int"
    false) "foo" PlaceHolderSQL).
Definition AddColumnOp9WithOnDeleteActionUnnamed (name : string) (onDelete onUpdate : string) (matchType : string) : Operation :=
  AddColumn_ (mkOpAddColumn (mkMigColumn None None None None "bar" true false (Some
    (mkForeignKeyReference "bar" false false matchType name onDelete onUpdate "baz")) "int" false)
    "foo" PlaceHolderSQL).
Definition AddConstraintOp10ForeignKey (onDelete onUpdate : string) (matchType : string) : Operation :=
  CreateConstraint_ (mkOpCreateConstraint None ["a"; "b"] {["a" := PlaceHolderSQL; "b" :=
    PlaceHolderSQL]} None "fk_baz" false (Some (mkTableForeignKeyReference ["c"; "d"] matchType
    onDelete [] onUpdate "bar")) "foo" OpCreateConstraintTypeForeignKey {["a" := PlaceHolderSQL;
    "b" := PlaceHolderSQL]}).
(** [expect/create_index.go] *)
Definition CreateIndexOp1 : Operation :=
  CreateIndex_ (mkOpCreateIndex [mkIndexField "" "bar" None None ""] OpCreateIndexMethodBtree
    "idx_name" "" "" "foo" false).
Definition CreateIndexOp2 : Operation :=
  CreateIndex_ (mkOpCreateIndex [mkIndexField "" "bar" None None ""] OpCreateIndexMethodBtree
    "idx_name" "" "" "schema.foo" false).
Definition CreateIndexOp3 : Operation :=
  CreateIndex_ (mkOpCreateIndex [mkIndexField "" "bar" None None ""; mkIndexField "" "baz" None
    None ""] OpCreateIndexMethodBtree "idx_name" "" "" "foo" false).
Definition CreateIndexOp4 : Operation :=
  CreateIndex_ (mkOpCreateIndex [mkIndexField "" "bar" None None ""] OpCreateIndexMethodBtree
    "idx_name" "" "" "foo" true).
Definition CreateIndexOp5 : Operation :=
  CreateIndex_ (mkOpCreateIndex [mkIndexField "" "bar" None None ""] OpCreateIndexMethodBtree
    "idx_name" "foo > 0" "" "foo" false).
Definition CreateIndexOp6 : Operation :=
  CreateIndex_ (mkOpCreateIndex [mkIndexField "en_us" "bar" None None ""] OpCreateIndexMethodBtree
    "idx_name" "" "" "foo" false).
Definition CreateIndexOp7 : Operation :=
  CreateIndex_ (mkOpCreateIndex [mkIndexField "" "bar" None None IndexFieldSortDESC]
    OpCreateIndexMethodBtree "idx_name" "" "" "foo" false).
Definition CreateIndexOp8 : Operation :=
  CreateIndex_ (mkOpCreateIndex [mkIndexField "" "bar" (Some IndexFieldNullsFIRST) None ""]
    OpCreateIndexMethodBtree "idx_name" "" "" "foo" false).
Definition CreateIndexOp9 : Operation :=
  CreateIndex_ (mkOpCreateIndex [mkIndexField "" "bar" (Some IndexFieldNullsLAST) None ""]
    OpCreateIndexMethodBtree "idx_name" "" "" "foo" false).
Definition CreateIndexOp10 : Operation :=
  CreateIndex_ (mkOpCreateIndex [mkIndexField "" "bar" None (Some (mkIndexFieldOpclass "opclass"
    ["test=test"])) ""] OpCreateIndexMethodBtree "idx_name" "" "" "foo" false).
Definition CreateIndexOp11 : Operation :=
  CreateIndex_ (mkOpCreateIndex [mkIndexField "" "bar" None (Some (mkIndexFieldOpclass "opclass1"
    [])) ""; mkIndexField "" "baz" None (Some (mkIndexFieldOpclass "opclass2" [])) ""]
    OpCreateIndexMethodBtree "idx_name" "" "" "foo" false).
Definition CreateIndexOp12 : Operation :=
  CreateIndex_ (mkOpCreateIndex [mkIndexField "" "bar" None None IndexFieldSortASC]
    OpCreateIndexMethodBtree "idx_name" "" "" "foo" false).
Definition CreateIndexOpWithStorageParam (param : string) : Operation :=
  CreateIndex_ (mkOpCreateIndex [mkIndexField "" "bar" None None ""] OpCreateIndexMethodBtree
    "idx_name" "" param "foo" false).
(** [expect/drop_column.go] *)
Definition DropColumnOp1 : Operation :=
  DropColumn_ (mkOpDropColumn "bar" PlaceHolderSQL "foo").
(** [expect/drop_constraint.go] *)
Definition OpDropConstraintWithTable (table : string) : Operation :=
  DropMultiColumnConstraint_ (mkOpDropMultiColumnConstraint (Some {[PlaceHolderColumnName :=
    PlaceHolderSQL]}) "constraint_foo" table (Some {[PlaceHolderColumnName := PlaceHolderSQL]})).
(** [expect/drop_index.go] *)
Definition DropIndexOp1 : Operation :=
  DropIndex_ (mkOpDropIndex "foo").
Definition DropIndexOp2 : Operation :=
  DropIndex_ (mkOpDropIndex "myschema.foo").
(** [expect/drop_table.go] *)
Definition DropTableOp1 : Operation :=
  DropTable_ (mkOpDropTable "foo").
Definition DropTableOp2 : Operation :=
  DropTable_ (mkOpDropTable "foo.bar").
(** [expect/rename_column.go] *)
Definition RenameColumnOp1 : Operation :=
  RenameColumn_ (mkOpRenameColumn "a" "foo" "b").
(** [expect/rename_constraint.go] *)
Definition RenameConstraintOp1 : Operation :=
  RenameConstraint_ (mkOpRenameConstraint "bar" "foo" "baz").
(** [expect/rename_table.go] *)
Definition RenameTableOp1 : Operation :=
  RenameTable_ (mkOpRenameTable "foo" "bar").
(** [expect/raw_sql.go] *)
Definition RawSQLOp (sql : string) : Operation :=
  RawSQL_ (mkOpRawSQL "" false sql).

(** [CreateIndexOp1WithMethod] panics at a method it does not know. *)
Definition CreateIndexOp1WithMethod (method : string) : outcome error Operation :=
  let '(parsed, err) := ParseCreateIndexMethod method in
  match err with
  | Some _ => Panic
  | None => Ok (CreateIndex_ (mkOpCreateIndex [mkIndexField "" "bar" None None ""] parsed "idx_name" "" ""
                  "foo" false))
  end.

(** ** Trees *)

Definition range (schema name : string) : tree :=
  Tree "RangeVar" [("schemaname", schema); ("relname", name); ("relpersistence", "p"); ("inh", "true")] [].
Definition names (field : string) (l : list string) : string * list tree := (field, str <$> l).
Definition options (l : list string) : string * list tree :=
  ("options", (λ text, Tree "DefElem" [("text", text)] []) <$> l).
Definition null_const : tree := Tree "A_Const" [("isnull", "true")] [].
Definition null_expr : string * list tree := ("rawExpr", [null_const]).

Definition create (attrs : list (string * string)) (more : list (string * list tree)) (elts : list tree) : tree :=
  Tree "CreateStmt" attrs (more ++ [("relation", [range "" "foo"]); ("tableElts", elts)]).
Definition create_in (schema : string) (elts : list tree) : tree :=
  Tree "CreateStmt" [] [("relation", [range schema "foo"]); ("tableElts", elts)].
Definition create_persistence (p : string) (elts : list tree) : tree :=
  Tree "CreateStmt" []
    [("relation", [Tree "RangeVar" [("relname", "foo"); ("relpersistence", p)] []]); ("tableElts", elts)].
Definition col_with (attrs : list (string * string)) (more : list (string * list tree)) (name type : string) : tree :=
  Tree "ColumnDef" (("colname", name) :: attrs) (("typeName", [Tree "TypeName" [("text", type)] []]) :: more).

Definition references_to (table column name match_ onDelete onUpdate : string) : tree :=
  con "foreign" [("conname", name); ("matchtype", match_); ("delAction", onDelete); ("updAction", onUpdate)]
    [names "pkAttrs" [column]; ("pktable", [range "" table])].
Definition references (name match_ onDelete onUpdate : string) : tree :=
  references_to "bar" "b" name match_ onDelete onUpdate.
Definition foreign_key (name : string) (columns : list string) (table : string) (referenced : list string)
    (match_ onDelete onUpdate : string) (setColumns : list string) : tree :=
  con "foreign" [("conname", name); ("matchtype", match_); ("delAction", onDelete); ("updAction", onUpdate)]
    [names "fkAttrs" columns; names "pkAttrs" referenced; ("pktable", [range "" table]);
     names "delSetCols" setColumns].
Definition exclusion (element operator : string) : tree :=
  Tree "List" [] [("items", [Tree "IndexElem" [("text", element)] []; lst [operator]])].

(** The behaviour of a command is [DROP_RESTRICT] unless it says otherwise. *)
Definition cmd_with (attrs : list (string * string)) (type name : string) (def : list tree) : tree :=
  Tree "AlterTableCmd" (attrs ++ [("subtype", type); ("name", name); ("behavior", "restrict")]) [("def", def)].
Definition cmd_opt (attrs : list (string * string)) (type name : string) : tree := cmd_with attrs type name [].
Definition cmd_def (type name : string) (def : tree) : tree := cmd_with [] type name [def].
Definition add (constraint : tree) : tree := cmd_def "add_constraint" "" constraint.
Definition add_column (constraints : list tree) : tree := cmd_def "add_column" "" (col "bar" "int" constraints).
Definition alter_in (schema : string) (command : tree) : tree :=
  Tree "AlterTableStmt" [("objtype", "table")] [("relation", [range schema "foo"]); ("cmds", [command])].
Definition alter (command : tree) : tree := alter_in "" command.

Definition elem (name : string) (attrs : list (string * string)) (more : list (string * list tree)) : tree :=
  Tree "IndexElem" (("name", name) :: attrs) more.
Definition index_on (schema : string) (attrs : list (string * string)) (more : list (string * list tree))
    (params : list tree) : tree :=
  Tree "IndexStmt" (attrs ++ [("idxname", "idx_name"); ("accessMethod", "btree")])
    (more ++ [("relation", [range schema "foo"]); ("indexParams", params)]).
Definition index (attrs : list (string * string)) (more : list (string * list tree)) (params : list tree) : tree :=
  index_on "" attrs more params.

Definition drop_stmt (type behavior : string) (objects : list (list string)) : tree :=
  Tree "DropStmt" [("removeType", type); ("behavior", behavior)] [("objects", lst <$> objects)].
Definition rename (type from to : string) : tree :=
  Tree "RenameStmt" [("renameType", type); ("subname", from); ("newname", to)] [("relation", [range "" "foo"])].

(** ** The tests *)

(** [TestConvertCreateTableStatements] *)
Definition create_table_cases : list (string * tree * Operation) := [
  ("CREATE TABLE foo(a int)",
    create [] [] [col "a" "int" []], CreateTableOp1);
  ("CREATE TABLE schema.foo(a int)",
    create_in "schema" [col "a" "int" []], CreateTableOp17);
  ("CREATE TABLE foo(a int NULL)",
    create [] [] [col "a" "int" [con "null" [] []]], CreateTableOp1);
  ("CREATE TABLE foo(a int NOT NULL)",
    create [] [] [col "a" "int" [con "not_null" [] []]], CreateTableOp2);
  ("CREATE TABLE foo(a int UNIQUE)",
    create [] [] [col "a" "int" [con "unique" [] []]], CreateTableOp5);
  ("CREATE TABLE foo(a int UNIQUE NOT DEFERRABLE)",
    create [] [] [col "a" "int" [con "unique" [] []; con "attr_not_deferrable" [] []]],
    CreateTableOp5);
  ("CREATE TABLE foo(a int UNIQUE INITIALLY IMMEDIATE)",
    create [] [] [col "a" "int" [con "unique" [] []; con "attr_immediate" [] []]], CreateTableOp5);
  ("CREATE TABLE foo(a int PRIMARY KEY)",
    create [] [] [col "a" "int" [con "primary" [] []]], CreateTableOp6);
  ("CREATE TABLE foo(a int PRIMARY KEY NOT DEFERRABLE)",
    create [] [] [col "a" "int" [con "primary" [] []; con "attr_not_deferrable" [] []]],
    CreateTableOp6);
  ("CREATE TABLE foo(a int PRIMARY KEY INITIALLY IMMEDIATE)",
    create [] [] [col "a" "int" [con "primary" [] []; con "attr_immediate" [] []]],
    CreateTableOp6);
  ("CREATE TABLE foo(a int CHECK (a > 0))",
    create [] [] [col "a" "int" [con "check" [] [expr "a > 0"]]], CreateTableOp10);
  ("CREATE TABLE foo(a int CHECK (a > 0) NO INHERIT)",
    create [] [] [col "a" "int" [con "check" [("noInherit", "true")] [expr "a > 0"]]],
    CreateTableOp37);
  ("CREATE TABLE foo(a int CONSTRAINT my_check CHECK (a > 0))",
    create [] [] [col "a" "int" [con "check" [("conname", "my_check")] [expr "a > 0"]]],
    CreateTableOp18);
  ("CREATE TABLE foo(a timestamptz DEFAULT now())",
    create [] [] [col "a" "timestamptz" [con "default" [] [expr "now()"]]], CreateTableOp11);
  ("CREATE TABLE foo(a int DEFAULT NULL)",
    create [] [] [col "a" "int" [con "default" [] [null_expr]]], CreateTableOp20);
  ("CREATE TABLE foo(a int CONSTRAINT my_fk REFERENCES bar(b) MATCH FULL)",
    create [] [] [col "a" "int" [references "my_fk" "f" "a" "a"]], CreateTableOp19);
  ("CREATE TABLE foo(a int REFERENCES bar(b))",
    create [] [] [col "a" "int" [references "" "s" "a" "a"]], CreateTableOp12);
  ("CREATE TABLE foo(a int REFERENCES bar(b) NOT DEFERRABLE)",
    create [] [] [col "a" "int" [references "" "s" "a" "a"; con "attr_not_deferrable" [] []]],
    CreateTableOp12);
  ("CREATE TABLE foo(a int REFERENCES bar(b) ON DELETE NO ACTION)",
    create [] [] [col "a" "int" [references "" "s" "a" "a"]], CreateTableOp12);
  ("CREATE TABLE foo(a int REFERENCES bar(b) ON DELETE NO ACTION NOT DEFERRABLE)",
    create [] [] [col "a" "int" [references "" "s" "a" "a"; con "attr_not_deferrable" [] []]],
    CreateTableOp12);
  ("CREATE TABLE foo(a int REFERENCES bar(b) ON DELETE RESTRICT)",
    create [] [] [col "a" "int" [references "" "s" "r" "a"]], CreateTableOp13);
  ("CREATE TABLE foo(a int REFERENCES bar(b) ON DELETE RESTRICT NOT DEFERRABLE)",
    create [] [] [col "a" "int" [references "" "s" "r" "a"; con "attr_not_deferrable" [] []]],
    CreateTableOp13);
  ("CREATE TABLE foo(a int REFERENCES bar(b) ON DELETE SET NULL)",
    create [] [] [col "a" "int" [references "" "s" "n" "a"]], CreateTableOp14);
  ("CREATE TABLE foo(a int REFERENCES bar(b) ON DELETE SET NULL NOT DEFERRABLE)",
    create [] [] [col "a" "int" [references "" "s" "n" "a"; con "attr_not_deferrable" [] []]],
    CreateTableOp14);
  ("CREATE TABLE foo(a int REFERENCES bar(b) ON DELETE SET DEFAULT)",
    create [] [] [col "a" "int" [references "" "s" "d" "a"]], CreateTableOp15);
  ("CREATE TABLE foo(a int REFERENCES bar(b) ON DELETE SET DEFAULT NOT DEFERRABLE)",
    create [] [] [col "a" "int" [references "" "s" "d" "a"; con "attr_not_deferrable" [] []]],
    CreateTableOp15);
  ("CREATE TABLE foo(a int REFERENCES bar(b) ON DELETE CASCADE)",
    create [] [] [col "a" "int" [references "" "s" "c" "a"]], CreateTableOp16);
  ("CREATE TABLE foo(a int REFERENCES bar(b) ON DELETE CASCADE NOT DEFERRABLE)",
    create [] [] [col "a" "int" [references "" "s" "c" "a"; con "attr_not_deferrable" [] []]],
    CreateTableOp16);
  ("CREATE TABLE foo(a int REFERENCES bar(b) INITIALLY IMMEDIATE)",
    create [] [] [col "a" "int" [references "" "s" "a" "a"; con "attr_immediate" [] []]],
    CreateTableOp12);
  ("CREATE TABLE foo(a int REFERENCES bar(b) ON UPDATE NO ACTION)",
    create [] [] [col "a" "int" [references "" "s" "a" "a"]], CreateTableOp12);
  ("CREATE TABLE foo(a int REFERENCES bar(b) ON UPDATE NO ACTION NOT DEFERRABLE)",
    create [] [] [col "a" "int" [references "" "s" "a" "a"; con "attr_not_deferrable" [] []]],
    CreateTableOp12);
  ("CREATE TABLE foo(a varchar(255))",
    create [] [] [col "a" "varchar(255)" []], CreateTableOp3);
  ("CREATE TABLE foo(a numeric(10, 2))",
    create [] [] [col "a" "numeric(10, 2)" []], CreateTableOp4);
  ("CREATE TABLE foo(a text[])",
    create [] [] [col "a" "text[]" []], CreateTableOp7);
  ("CREATE TABLE foo(a text[5])",
    create [] [] [col "a" "text[5]" []], CreateTableOp8);
  ("CREATE TABLE foo(a text[5][3])",
    create [] [] [col "a" "text[5][3]" []], CreateTableOp9);
  ("CREATE TABLE foo(a serial PRIMARY KEY, b int DEFAULT 100 CHECK (b > 0), c text NOT NULL UNIQUE)",
    create [] [] [col "a" "serial" [con "primary" [] []];
      col "b" "int" [con "default" [] [expr "100"]; con "check" [] [expr "b > 0"]];
      col "c" "text" [con "not_null" [] []; con "unique" [] []]], CreateTableOp21);
  ("CREATE TABLE foo(a serial PRIMARY KEY, b text, c text, UNIQUE (b, c))",
    create [] [] [col "a" "serial" [con "primary" [] []]; col "b" "text" []; col "c" "text" [];
      con "unique" [] [names "keys" ["b"; "c"]]], CreateTableOp22);
  ("CREATE TABLE foo(b text, c text, UNIQUE (b) INCLUDE (c) WITH (fillfactor = 70) USING INDEX TABLESPACE my_tablespace)",
    create [] [] [col "b" "text" []; col "c" "text" []; con "unique" [("indexspace", "my_tablespace")]
      [names "keys" ["b"]; names "including" ["c"]; options ["fillfactor=70"]]], CreateTableOp23);
  ("CREATE TABLE foo(a int, CHECK (a>0))",
    create [] [] [col "a" "int" []; con "check" [] [expr "a > 0"]], CreateTableOp24);
  ("CREATE TABLE foo(b text, c text, CHECK (b=c) NO INHERIT)",
    create [] [] [col "b" "text" []; col "c" "text" [];
      con "check" [("noInherit", "true")] [expr "b = c"]], CreateTableOp25);
  ("CREATE TABLE foo(b text, c text, PRIMARY KEY (b) DEFERRABLE)",
    create [] [] [col "b" "text" []; col "c" "text" [];
      con "primary" [("deferrable", "true")] [names "keys" ["b"]]], CreateTableOp26);
  ("CREATE TABLE foo(b bigint GENERATED ALWAYS AS IDENTITY (START WITH 1 INCREMENT BY 1 MINVALUE 1 MAXVALUE 1000 CYCLE CACHE 1) PRIMARY KEY)",
    create [] [] [col "b" "bigint" [con "identity" [("generatedWhen", "a")]
        [options ["START 1 INCREMENT 1 MINVALUE 1 MAXVALUE 1000 CYCLE CACHE 1 "]]; con "primary" [] []]],
    CreateTableOp27);
  ("CREATE TABLE foo(a text, b text GENERATED ALWAYS AS (upper(a)) STORED)",
    create [] [] [col "a" "text" [];
      col "b" "text" [con "generated" [("generatedWhen", "a")] [expr "upper(a)"]]],
    CreateTableOp28);
  ("CREATE TABLE foo(a int, CONSTRAINT foo_fk FOREIGN KEY (a) REFERENCES bar(b))",
    create [] [] [col "a" "int" [];
      foreign_key "foo_fk" ["a"] "bar" ["b"] "s" "a" "a" []], CreateTableOp29);
  ("CREATE TABLE foo(a int, FOREIGN KEY (a) REFERENCES bar(b) ON DELETE SET NULL ON UPDATE CASCADE)",
    create [] [] [col "a" "int" [];
      foreign_key "" ["a"] "bar" ["b"] "s" "n" "c" []], CreateTableOp30);
  ("CREATE TABLE foo(a int, b int, FOREIGN KEY (a, b) REFERENCES bar(c, d) ON DELETE SET NULL (b))",
    create [] [] [col "a" "int" []; col "b" "int" [];
      foreign_key "" ["a"; "b"] "bar" ["c"; "d"] "s" "n" "a" ["b"]], CreateTableOp31);
  ("CREATE TABLE foo(a int, b int, c int, FOREIGN KEY (a, b, c) REFERENCES bar(d, e, f) ON DELETE SET NULL ON UPDATE CASCADE)",
    create [] [] [col "a" "int" []; col "b" "int" []; col "c" "int" [];
      foreign_key "" ["a"; "b"; "c"] "bar" ["d"; "e"; "f"] "s" "n" "c" []], CreateTableOp32);
  ("CREATE TABLE foo(a int, b int, c int, FOREIGN KEY (a, b, c) REFERENCES bar(d, e, f) MATCH FULL)",
    create [] [] [col "a" "int" []; col "b" "int" []; col "c" "int" [];
      foreign_key "" ["a"; "b"; "c"] "bar" ["d"; "e"; "f"] "f" "a" "a" []], CreateTableOp33);
  ("CREATE TABLE foo(a int REFERENCES bar (b) ON UPDATE RESTRICT)",
    create [] [] [col "a" "int" [references "" "s" "a" "r"]],
    CreateTableOp34 ForeignKeyMatchTypeSIMPLE ForeignKeyActionNOACTION ForeignKeyActionRESTRICT);
  ("CREATE TABLE foo(a int REFERENCES bar (b) ON UPDATE CASCADE)",
    create [] [] [col "a" "int" [references "" "s" "a" "c"]],
    CreateTableOp34 ForeignKeyMatchTypeSIMPLE ForeignKeyActionNOACTION ForeignKeyActionCASCADE);
  ("CREATE TABLE foo(a int REFERENCES bar (b) ON UPDATE SET NULL)",
    create [] [] [col "a" "int" [references "" "s" "a" "n"]],
    CreateTableOp34 ForeignKeyMatchTypeSIMPLE ForeignKeyActionNOACTION ForeignKeyActionSETNULL);
  ("CREATE TABLE foo(a int REFERENCES bar (b) ON UPDATE SET DEFAULT)",
    create [] [] [col "a" "int" [references "" "s" "a" "d"]],
    CreateTableOp34 ForeignKeyMatchTypeSIMPLE ForeignKeyActionNOACTION ForeignKeyActionSETDEFAULT);
  ("CREATE TABLE foo(a int REFERENCES bar (b) MATCH FULL)",
    create [] [] [col "a" "int" [references "" "f" "a" "a"]],
    CreateTableOp34 ForeignKeyMatchTypeFULL ForeignKeyActionNOACTION ForeignKeyActionNOACTION);
  ("CREATE TABLE foo(a int REFERENCES bar (b) ON DELETE CASCADE ON UPDATE RESTRICT)",
    create [] [] [col "a" "int" [references "" "s" "c" "r"]],
    CreateTableOp34 ForeignKeyMatchTypeSIMPLE ForeignKeyActionCASCADE ForeignKeyActionRESTRICT);
  ("CREATE TABLE foo(a int REFERENCES bar (b) ON DELETE SET NULL ON UPDATE CASCADE)",
    create [] [] [col "a" "int" [references "" "s" "n" "c"]],
    CreateTableOp34 ForeignKeyMatchTypeSIMPLE ForeignKeyActionSETNULL ForeignKeyActionCASCADE);
  ("CREATE TABLE foo(a int REFERENCES bar (b) MATCH FULL ON DELETE SET DEFAULT ON UPDATE SET DEFAULT)",
    create [] [] [col "a" "int" [references "" "f" "d" "d"]],
    CreateTableOp34 ForeignKeyMatchTypeFULL ForeignKeyActionSETDEFAULT ForeignKeyActionSETDEFAULT);
  ("CREATE TABLE foo(id integer, s timestamptz, e timestamptz, canceled boolean DEFAULT false, EXCLUDE USING gist (id WITH =, tstzrange(s, e) WITH &&) WHERE (not canceled))",
    create [] [] [col "id" "int" []; col "s" "timestamptz" []; col "e" "timestamptz" [];
      col "canceled" "boolean" [con "default" [] [expr "false"]];
      con "exclusion" [("accessMethod", "gist")] [("whereClause", [Tree "Expr" [("text", "NOT canceled")] []]);
        ("exclusions", [exclusion "id" "="; exclusion "tstzrange(s, e)" "&&"])]], CreateTableOp35);
  ("CREATE TABLE foo(id integer, b text, EXCLUDE USING btree (id WITH =) DEFERRABLE INITIALLY DEFERRED)",
    create [] [] [col "id" "int" []; col "b" "text" [];
      con "exclusion" [("accessMethod", "btree"); ("deferrable", "true"); ("initdeferred", "true")]
        [("exclusions", [exclusion "id" "="])]], CreateTableOp36);
  ("CREATE TABLE IF NOT EXISTS foo(a int)",
    create [("ifNotExists", "true")] [] [col "a" "int" []], CreateTableOp1)
].

(** [TestUnconvertableCreateTableStatements] *)
Definition create_table_raw : list (string * tree) := [
  ("CREATE TEMPORARY TABLE foo(a int)",
    create_persistence "t" [col "a" "int" []]);
  ("CREATE UNLOGGED TABLE foo(a int)",
    create_persistence "u" [col "a" "int" []]);
  ("CREATE TABLE foo(a int) INHERITS (bar)",
    create [] [("inhRelations", [range "" "bar"])] [col "a" "int" []]);
  ("CREATE TABLE foo(a int) PARTITION BY RANGE (a)",
    create [("partspec", "true")] [] [col "a" "int" []]);
  ("CREATE TABLE foo(a int) PARTITION BY LIST (a)",
    create [("partspec", "true")] [] [col "a" "int" []]);
  ("CREATE TABLE foo PARTITION OF bar FOR VALUES FROM (1) to (10)",
    create [] [("inhRelations", [range "" "bar"])] []);
  ("CREATE TABLE foo(a int) USING bar",
    create [("accessMethod", "bar")] [] [col "a" "int" []]);
  ("CREATE TABLE foo(a int) WITH (fillfactor=70)",
    create [] [options ["fillfactor=70"]] [col "a" "int" []]);
  ("CREATE TABLE foo(a int) ON COMMIT DROP",
    create [("oncommit", "true")] [] [col "a" "int" []]);
  ("CREATE TABLE foo(a int) TABLESPACE bar",
    create [("tablespace", "bar")] [] [col "a" "int" []]);
  ("CREATE TABLE foo OF type_bar",
    create [("ofTypename", "true")] [] []);
  ("CREATE TABLE foo(a int, LIKE bar)",
    create [] [] [col "a" "int" []; Tree "TableLikeClause" [] []]);
  ("CREATE TABLE foo(LIKE bar)",
    create [] [] [Tree "TableLikeClause" [] []]);
  ("CREATE TABLE foo(a int STORAGE PLAIN)",
    create [] [] [col_with [("storage", "plain")] [] "a" "int"]);
  ("CREATE TABLE foo(a text COMPRESSION pglz)",
    create [] [] [col_with [("compression", "pglz")] [] "a" "text"]);
  ("CREATE TABLE foo(a text COLLATE en_US)",
    create [] [] [col_with [] [("collClause", [Tree "CollateClause" [] []])] "a" "text"]);
  ("CREATE TABLE foo(a int PRIMARY KEY USING INDEX TABLESPACE bar)",
    create [] [] [col "a" "int" [con "primary" [("indexspace", "bar")] []]]);
  ("CREATE TABLE foo(a int PRIMARY KEY WITH (fillfactor=70))",
    create [] [] [col "a" "int" [con "primary" [] [options ["fillfactor=70"]]]]);
  ("CREATE TABLE foo(a int UNIQUE NULLS NOT DISTINCT)",
    create [] [] [col "a" "int" [con "unique" [("nullsNotDistinct", "true")] []]]);
  ("CREATE TABLE foo(a int UNIQUE WITH (fillfactor=70))",
    create [] [] [col "a" "int" [con "unique" [] [options ["fillfactor=70"]]]]);
  ("CREATE TABLE foo(a int UNIQUE USING INDEX TABLESPACE baz)",
    create [] [] [col "a" "int" [con "unique" [("indexspace", "baz")] []]]);
  ("CREATE TABLE foo(a int CONSTRAINT foo_default DEFAULT 0)",
    create [] [] [col "a" "int" [con "default" [("conname", "foo_default")] [expr "0"]]]);
  ("CREATE TABLE foo(a int CONSTRAINT foo_null NULL)",
    create [] [] [col "a" "int" [con "null" [("conname", "foo_null")] []]]);
  ("CREATE TABLE foo(a int CONSTRAINT foo_notnull NOT NULL)",
    create [] [] [col "a" "int" [con "not_null" [("conname", "foo_notnull")] []]]);
  ("CREATE TABLE foo(a int CONSTRAINT foo_unique UNIQUE)",
    create [] [] [col "a" "int" [con "unique" [("conname", "foo_unique")] []]]);
  ("CREATE TABLE foo(a int CONSTRAINT foo_pk PRIMARY KEY)",
    create [] [] [col "a" "int" [con "primary" [("conname", "foo_pk")] []]]);
  ("CREATE TABLE foo(a int UNIQUE DEFERRABLE)",
    create [] [] [col "a" "int"
      [con "unique" [] []; con "attr_deferrable" [] []]]);
  ("CREATE TABLE foo(a int PRIMARY KEY DEFERRABLE)",
    create [] [] [col "a" "int"
      [con "primary" [] []; con "attr_deferrable" [] []]]);
  ("CREATE TABLE foo(a int REFERENCES bar(b) DEFERRABLE)",
    create [] [] [col "a" "int"
      [references "" "s" "a" "a"; con "attr_deferrable" [] []]]);
  ("CREATE TABLE foo(a int UNIQUE DEFERRABLE INITIALLY IMMEDIATE)",
    create [] [] [col "a" "int"
      [con "unique" [] []; con "attr_deferrable" [] []; con "attr_immediate" [] []]]);
  ("CREATE TABLE foo(a int PRIMARY KEY DEFERRABLE INITIALLY IMMEDIATE)",
    create [] [] [col "a" "int"
      [con "primary" [] []; con "attr_deferrable" [] []; con "attr_immediate" [] []]]);
  ("CREATE TABLE foo(a int REFERENCES bar(b) DEFERRABLE INITIALLY IMMEDIATE)",
    create [] [] [col "a" "int"
      [references "" "s" "a" "a"; con "attr_deferrable" [] []; con "attr_immediate" [] []]]);
  ("CREATE TABLE foo(a int UNIQUE DEFERRABLE INITIALLY DEFERRED)",
    create [] [] [col "a" "int"
      [con "unique" [] []; con "attr_deferrable" [] []; con "attr_deferred" [] []]]);
  ("CREATE TABLE foo(a int PRIMARY KEY DEFERRABLE INITIALLY DEFERRED)",
    create [] [] [col "a" "int"
      [con "primary" [] []; con "attr_deferrable" [] []; con "attr_deferred" [] []]]);
  ("CREATE TABLE foo(a int REFERENCES bar(b) DEFERRABLE INITIALLY DEFERRED)",
    create [] [] [col "a" "int"
      [references "" "s" "a" "a"; con "attr_deferrable" [] []; con "attr_deferred" [] []]])
].

(** [TestConvertAlterTableStatements] *)
Definition alter_table_cases : list (string * tree * Operation) := [
  ("ALTER TABLE foo ALTER COLUMN a SET NOT NULL",
    alter (cmd_opt [] "set_not_null" "a"), AlterColumnOp1);
  ("ALTER TABLE foo ALTER COLUMN a DROP NOT NULL",
    alter (cmd_opt [] "drop_not_null" "a"), AlterColumnOp2);
  ("ALTER TABLE foo ALTER COLUMN a SET DATA TYPE text",
    alter (cmd_def "type" "a" (col "" "text" [])), AlterColumnOp3);
  ("ALTER TABLE foo ALTER COLUMN a TYPE text",
    alter (cmd_def "type" "a" (col "" "text" [])), AlterColumnOp3);
  ("ALTER TABLE foo ALTER COLUMN bar SET DEFAULT 'baz'",
    alter (cmd_def "default" "bar" (Tree "Expr" [("text", "'baz'")] [])), AlterColumnOp5);
  ("ALTER TABLE foo ALTER COLUMN bar SET DEFAULT 123",
    alter (cmd_def "default" "bar" (Tree "Expr" [("text", "123")] [])), AlterColumnOp6);
  ("ALTER TABLE foo ALTER COLUMN bar SET DEFAULT true",
    alter (cmd_def "default" "bar" (Tree "Expr" [("text", "true")] [])), AlterColumnOp9);
  ("ALTER TABLE foo ALTER COLUMN bar SET DEFAULT B'0101'",
    alter (cmd_def "default" "bar" (Tree "Expr" [("text", "b'0101'")] [])), AlterColumnOp10);
  ("ALTER TABLE foo ALTER COLUMN bar SET DEFAULT 123.456",
    alter (cmd_def "default" "bar" (Tree "Expr" [("text", "123.456")] [])), AlterColumnOp8);
  ("ALTER TABLE foo ALTER COLUMN bar DROP DEFAULT",
    alter (cmd_opt [] "default" "bar"), AlterColumnOp7);
  ("ALTER TABLE foo ALTER COLUMN bar SET DEFAULT null",
    alter (cmd_def "default" "bar" null_const), AlterColumnOp7);
  ("ALTER TABLE foo ALTER COLUMN bar SET DEFAULT now()",
    alter (cmd_def "default" "bar" (Tree "Expr" [("text", "now()")] [])), AlterColumnOp11);
  ("ALTER TABLE foo ALTER COLUMN bar SET DEFAULT (first_name || ' ' || last_name)",
    alter (cmd_def "default" "bar"
      (Tree "Expr" [("text", "(first_name || ' ') || last_name")] [])), AlterColumnOp12);
  ("ALTER TABLE foo ADD CONSTRAINT bar UNIQUE (a)",
    alter (add (con "unique" [("conname", "bar")] [names "keys" ["a"]])), CreateConstraintOp1);
  ("ALTER TABLE foo ADD CONSTRAINT bar UNIQUE (a, b)",
    alter (add (con "unique" [("conname", "bar")] [names "keys" ["a"; "b"]])),
    CreateConstraintOp2);
  ("ALTER TABLE foo DROP COLUMN bar",
    alter (cmd_opt [] "drop_column" "bar"), DropColumnOp1);
  ("ALTER TABLE foo DROP COLUMN bar RESTRICT ",
    alter (cmd_opt [] "drop_column" "bar"), DropColumnOp1);
  ("ALTER TABLE foo ADD CONSTRAINT fk_bar_cd FOREIGN KEY (a, b) REFERENCES bar (c, d);",
    alter (add (foreign_key "fk_bar_cd" ["a"; "b"] "bar" ["c"; "d"] "s" "a" "a" [])),
    AddForeignKeyOp1WithParams ForeignKeyMatchTypeSIMPLE ForeignKeyActionNOACTION ForeignKeyActionNOACTION);
  ("ALTER TABLE foo ADD CONSTRAINT fk_bar_cd FOREIGN KEY (a, b) REFERENCES bar (c, d) ON DELETE NO ACTION;",
    alter (add (foreign_key "fk_bar_cd" ["a"; "b"] "bar" ["c"; "d"] "s" "a" "a" [])),
    AddForeignKeyOp1WithParams ForeignKeyMatchTypeSIMPLE ForeignKeyActionNOACTION ForeignKeyActionNOACTION);
  ("ALTER TABLE foo ADD CONSTRAINT fk_bar_cd FOREIGN KEY (a, b) REFERENCES bar (c, d) ON DELETE RESTRICT;",
    alter (add (foreign_key "fk_bar_cd" ["a"; "b"] "bar" ["c"; "d"] "s" "r" "a" [])),
    AddForeignKeyOp1WithParams ForeignKeyMatchTypeSIMPLE ForeignKeyActionRESTRICT ForeignKeyActionNOACTION);
  ("ALTER TABLE foo ADD CONSTRAINT fk_bar_cd FOREIGN KEY (a, b) REFERENCES bar (c, d) ON DELETE SET DEFAULT ;",
    alter (add (foreign_key "fk_bar_cd" ["a"; "b"] "bar" ["c"; "d"] "s" "d" "a" [])),
    AddForeignKeyOp1WithParams ForeignKeyMatchTypeSIMPLE ForeignKeyActionSETDEFAULT ForeignKeyActionNOACTION);
  ("ALTER TABLE foo ADD CONSTRAINT fk_bar_cd FOREIGN KEY (a, b) REFERENCES bar (c, d) ON DELETE SET NULL;",
    alter (add (foreign_key "fk_bar_cd" ["a"; "b"] "bar" ["c"; "d"] "s" "n" "a" [])),
    AddForeignKeyOp1WithParams ForeignKeyMatchTypeSIMPLE ForeignKeyActionSETNULL ForeignKeyActionNOACTION);
  ("ALTER TABLE foo ADD CONSTRAINT fk_bar_cd FOREIGN KEY (a, b) REFERENCES bar (c, d) ON DELETE RESTRICT ON UPDATE SET DEFAULT;",
    alter (add (foreign_key "fk_bar_cd" ["a"; "b"] "bar" ["c"; "d"] "s" "r" "d" [])),
    AddForeignKeyOp1WithParams ForeignKeyMatchTypeSIMPLE ForeignKeyActionRESTRICT ForeignKeyActionSETDEFAULT);
  ("ALTER TABLE foo ADD CONSTRAINT fk_bar_cd FOREIGN KEY (a, b) REFERENCES bar (c, d) ON DELETE SET DEFAULT ON UPDATE RESTRICT;",
    alter (add (foreign_key "fk_bar_cd" ["a"; "b"] "bar" ["c"; "d"] "s" "d" "r" [])),
    AddForeignKeyOp1WithParams ForeignKeyMatchTypeSIMPLE ForeignKeyActionSETDEFAULT ForeignKeyActionRESTRICT);
  ("ALTER TABLE foo ADD CONSTRAINT fk_bar_cd FOREIGN KEY (a, b) REFERENCES bar (c, d) MATCH FULL ON UPDATE SET NULL;",
    alter (add (foreign_key "fk_bar_cd" ["a"; "b"] "bar" ["c"; "d"] "f" "a" "n" [])),
    AddForeignKeyOp1WithParams ForeignKeyMatchTypeFULL ForeignKeyActionNOACTION ForeignKeyActionSETNULL);
  ("ALTER TABLE foo ADD CONSTRAINT fk_bar_c FOREIGN KEY (a) REFERENCES bar (c);",
    alter (add (foreign_key "fk_bar_c" ["a"] "bar" ["c"] "s" "a" "a" [])), AddForeignKeyOp2);
  ("ALTER TABLE schema_a.foo ADD CONSTRAINT fk_bar_c FOREIGN KEY (a) REFERENCES schema_a.bar (c);",
    alter_in "schema_a" (add (con "foreign" [("conname", "fk_bar_c"); ("matchtype", "s"); ("delAction", "a"); ("updAction", "a")]
      [names "fkAttrs" ["a"]; names "pkAttrs" ["c"]; ("pktable", [range "schema_a" "bar"])])),
    AddForeignKeyOp3);
  ("ALTER TABLE foo DROP CONSTRAINT constraint_foo",
    alter (cmd_opt [] "drop_constraint" "constraint_foo"), OpDropConstraintWithTable "foo");
  ("ALTER TABLE schema.foo DROP CONSTRAINT constraint_foo",
    alter_in "schema" (cmd_opt [] "drop_constraint" "constraint_foo"),
    OpDropConstraintWithTable "schema.foo");
  ("ALTER TABLE foo DROP CONSTRAINT IF EXISTS constraint_foo",
    alter (cmd_opt [("missingOk", "true")] "drop_constraint" "constraint_foo"),
    OpDropConstraintWithTable "foo");
  ("ALTER TABLE foo DROP CONSTRAINT IF EXISTS constraint_foo RESTRICT",
    alter (cmd_opt [("missingOk", "true")] "drop_constraint" "constraint_foo"),
    OpDropConstraintWithTable "foo");
  ("ALTER TABLE foo ADD CONSTRAINT bar CHECK (age > 0)",
    alter (add (con "check" [("conname", "bar")] [expr "age > 0"])), CreateConstraintOp3);
  ("ALTER TABLE schema.foo ADD CONSTRAINT bar CHECK (age > 0)",
    alter_in "schema" (add (con "check" [("conname", "bar")] [expr "age > 0"])),
    CreateConstraintOp4);
  ("ALTER TABLE foo ADD CONSTRAINT bar CHECK (age > 0) NO INHERIT",
    alter (add (con "check" [("conname", "bar"); ("noInherit", "true")] [expr "age > 0"])),
    CreateConstraintOp5);
  ("ALTER TABLE foo ADD COLUMN bar int",
    alter (add_column []), AddColumnOp1);
  ("ALTER TABLE foo ADD COLUMN bar int NOT NULL",
    alter (add_column [con "not_null" [] []]), AddColumnOp8);
  ("ALTER TABLE schema.foo ADD COLUMN bar int",
    alter_in "schema" (add_column []), AddColumnOp2);
  ("ALTER TABLE foo ADD COLUMN bar int DEFAULT 123",
    alter (add_column [con "default" [] [expr "123"]]), AddColumnOp1WithDefault (Some "123"));
  ("ALTER TABLE foo ADD COLUMN bar int DEFAULT 'baz'",
    alter (add_column [con "default" [] [expr "'baz'"]]), AddColumnOp1WithDefault (Some "'baz'"));
  ("ALTER TABLE foo ADD COLUMN bar int DEFAULT null",
    alter (add_column [con "default" [] [null_expr]]), AddColumnOp1WithDefault None);
  ("ALTER TABLE foo ADD COLUMN bar int NULL",
    alter (add_column [con "null" [] []]), AddColumnOp3);
  ("ALTER TABLE foo ADD COLUMN bar int UNIQUE",
    alter (add_column [con "unique" [] []]), AddColumnOp4);
  ("ALTER TABLE foo ADD COLUMN bar int UNIQUE NOT DEFERRABLE",
    alter (add_column [con "unique" [] []; con "attr_not_deferrable" [] []]), AddColumnOp4);
  ("ALTER TABLE foo ADD COLUMN bar int UNIQUE INITIALLY IMMEDIATE",
    alter (add_column [con "unique" [] []; con "attr_immediate" [] []]), AddColumnOp4);
  ("ALTER TABLE foo ADD COLUMN bar int PRIMARY KEY",
    alter (add_column [con "primary" [] []]), AddColumnOp5);
  ("ALTER TABLE foo ADD COLUMN bar int CHECK (bar > 0)",
    alter (add_column [con "check" [] [expr "bar > 0"]]), AddColumnOp6);
  ("ALTER TABLE foo ADD COLUMN bar int CONSTRAINT check_bar CHECK (bar > 0)",
    alter (add_column [con "check" [("conname", "check_bar")] [expr "bar > 0"]]), AddColumnOp7);
  ("ALTER TABLE foo ADD COLUMN bar int CONSTRAINT fk_baz REFERENCES baz (bar) MATCH FULL",
    alter (add_column [references_to "baz" "bar" "fk_baz" "f" "a" "a"]),
    AddColumnOp8WithOnDeleteAction ForeignKeyActionNOACTION ForeignKeyActionNOACTION ForeignKeyMatchTypeFULL);
  ("ALTER TABLE foo ADD COLUMN bar int CONSTRAINT fk_baz REFERENCES baz (bar) ON UPDATE NO ACTION",
    alter (add_column [references_to "baz" "bar" "fk_baz" "s" "a" "a"]),
    AddColumnOp8WithOnDeleteAction ForeignKeyActionNOACTION ForeignKeyActionNOACTION ForeignKeyMatchTypeSIMPLE);
  ("ALTER TABLE foo ADD COLUMN bar int CONSTRAINT fk_baz REFERENCES baz (bar) ON DELETE NO ACTION",
    alter (add_column [references_to "baz" "bar" "fk_baz" "s" "a" "a"]),
    AddColumnOp8WithOnDeleteAction ForeignKeyActionNOACTION ForeignKeyActionNOACTION ForeignKeyMatchTypeSIMPLE);
  ("ALTER TABLE foo ADD COLUMN bar int CONSTRAINT fk_baz REFERENCES baz (bar) ON DELETE RESTRICT",
    alter (add_column [references_to "baz" "bar" "fk_baz" "s" "r" "a"]),
    AddColumnOp8WithOnDeleteAction ForeignKeyActionRESTRICT ForeignKeyActionNOACTION ForeignKeyMatchTypeSIMPLE);
  ("ALTER TABLE foo ADD COLUMN bar int CONSTRAINT fk_baz REFERENCES baz (bar) MATCH SIMPLE ON DELETE SET NULL ",
    alter (add_column [references_to "baz" "bar" "fk_baz" "s" "n" "a"]),
    AddColumnOp8WithOnDeleteAction ForeignKeyActionSETNULL ForeignKeyActionNOACTION ForeignKeyMatchTypeSIMPLE);
  ("ALTER TABLE foo ADD COLUMN bar int CONSTRAINT fk_baz REFERENCES baz (bar) ON DELETE SET DEFAULT ON UPDATE NO ACTION",
    alter (add_column [references_to "baz" "bar" "fk_baz" "s" "d" "a"]),
    AddColumnOp8WithOnDeleteAction ForeignKeyActionSETDEFAULT ForeignKeyActionNOACTION ForeignKeyMatchTypeSIMPLE);
  ("ALTER TABLE foo ADD COLUMN bar int CONSTRAINT fk_baz REFERENCES baz (bar) MATCH FULL ON DELETE CASCADE ON UPDATE CASCADE",
    alter (add_column [references_to "baz" "bar" "fk_baz" "f" "c" "c"]),
    AddColumnOp8WithOnDeleteAction ForeignKeyActionCASCADE ForeignKeyActionCASCADE ForeignKeyMatchTypeFULL);
  ("ALTER TABLE foo ADD COLUMN bar int REFERENCES baz (bar) ON UPDATE RESTRICT",
    alter (add_column [references_to "baz" "bar" "" "s" "a" "r"]),
    AddColumnOp9WithOnDeleteActionUnnamed "foo_bar_fkey" ForeignKeyActionNOACTION ForeignKeyActionRESTRICT ForeignKeyMatchTypeSIMPLE);
  ("ALTER TABLE foo ADD COLUMN bar int REFERENCES baz (bar) ON UPDATE CASCADE",
    alter (add_column [references_to "baz" "bar" "" "s" "a" "c"]),
    AddColumnOp9WithOnDeleteActionUnnamed "foo_bar_fkey" ForeignKeyActionNOACTION ForeignKeyActionCASCADE ForeignKeyMatchTypeSIMPLE);
  ("ALTER TABLE foo ADD COLUMN bar int REFERENCES baz (bar) ON UPDATE SET NULL",
    alter (add_column [references_to "baz" "bar" "" "s" "a" "n"]),
    AddColumnOp9WithOnDeleteActionUnnamed "foo_bar_fkey" ForeignKeyActionNOACTION ForeignKeyActionSETNULL ForeignKeyMatchTypeSIMPLE);
  ("ALTER TABLE foo ADD COLUMN bar int REFERENCES baz (bar) ON UPDATE SET DEFAULT",
    alter (add_column [references_to "baz" "bar" "" "s" "a" "d"]),
    AddColumnOp9WithOnDeleteActionUnnamed "foo_bar_fkey" ForeignKeyActionNOACTION ForeignKeyActionSETDEFAULT ForeignKeyMatchTypeSIMPLE);
  ("ALTER TABLE foo ADD CONSTRAINT fk_baz FOREIGN KEY (a, b) REFERENCES bar (c, d) ON UPDATE RESTRICT",
    alter (add (foreign_key "fk_baz" ["a"; "b"] "bar" ["c"; "d"] "s" "a" "r" [])),
    AddConstraintOp10ForeignKey ForeignKeyActionNOACTION ForeignKeyActionRESTRICT ForeignKeyMatchTypeSIMPLE);
  ("ALTER TABLE foo ADD CONSTRAINT fk_baz FOREIGN KEY (a, b) REFERENCES bar (c, d) ON UPDATE CASCADE",
    alter (add (foreign_key "fk_baz" ["a"; "b"] "bar" ["c"; "d"] "s" "a" "c" [])),
    AddConstraintOp10ForeignKey ForeignKeyActionNOACTION ForeignKeyActionCASCADE ForeignKeyMatchTypeSIMPLE);
  ("ALTER TABLE foo ADD CONSTRAINT fk_baz FOREIGN KEY (a, b) REFERENCES bar (c, d) ON UPDATE SET NULL",
    alter (add (foreign_key "fk_baz" ["a"; "b"] "bar" ["c"; "d"] "s" "a" "n" [])),
    AddConstraintOp10ForeignKey ForeignKeyActionNOACTION ForeignKeyActionSETNULL ForeignKeyMatchTypeSIMPLE);
  ("ALTER TABLE foo ADD CONSTRAINT fk_baz FOREIGN KEY (a, b) REFERENCES bar (c, d) ON UPDATE SET DEFAULT",
    alter (add (foreign_key "fk_baz" ["a"; "b"] "bar" ["c"; "d"] "s" "a" "d" [])),
    AddConstraintOp10ForeignKey ForeignKeyActionNOACTION ForeignKeyActionSETDEFAULT ForeignKeyMatchTypeSIMPLE);
  ("ALTER TABLE foo ADD CONSTRAINT fk_baz FOREIGN KEY (a, b) REFERENCES bar (c, d) MATCH FULL",
    alter (add (foreign_key "fk_baz" ["a"; "b"] "bar" ["c"; "d"] "f" "a" "a" [])),
    AddConstraintOp10ForeignKey ForeignKeyActionNOACTION ForeignKeyActionNOACTION ForeignKeyMatchTypeFULL);
  ("ALTER TABLE foo ADD COLUMN bar int GENERATED BY DEFAULT AS IDENTITY ",
    alter (add_column [con "identity" [("generatedWhen", "d")] []]), AddColumnOp9);
  ("ALTER TABLE foo ADD COLUMN bar int GENERATED ALWAYS AS ( 123 ) STORED",
    alter (add_column [con "generated" [("generatedWhen", "a")] [expr "123"]]), AddColumnOp10)
].

(** [TestUnconvertableAlterTableStatements], but for the quoted collation *)
Definition alter_table_raw : list (string * tree) := [
  ("ALTER TABLE foo ADD CONSTRAINT bar UNIQUE NULLS NOT DISTINCT (a)",
    alter (add (con "unique" [("conname", "bar"); ("nullsNotDistinct", "true")] [names "keys" ["a"]])));
  ("ALTER TABLE foo ADD CONSTRAINT bar UNIQUE (a) INCLUDE (b)",
    alter (add (con "unique" [("conname", "bar")] [names "keys" ["a"]; names "including" ["b"]])));
  ("ALTER TABLE foo ADD CONSTRAINT bar UNIQUE (a) WITH (fillfactor=70)",
    alter (add (con "unique" [("conname", "bar")] [names "keys" ["a"]; options ["fillfactor=70"]])));
  ("ALTER TABLE foo ADD CONSTRAINT bar UNIQUE (a) USING INDEX TABLESPACE baz",
    alter (add (con "unique" [("conname", "bar"); ("indexspace", "baz")] [names "keys" ["a"]])));
  ("ALTER TABLE foo ALTER COLUMN a SET DATA TYPE text USING 'foo'",
    alter (cmd_def "type" "a"
      (col_with [] [("rawDefault", [Tree "Expr" [("text", "'foo'")] []])] "" "text")));
  ("ALTER TABLE foo DROP COLUMN bar CASCADE",
    alter (cmd_opt [("behavior", "cascade")] "drop_column" "bar"));
  ("ALTER TABLE foo DROP COLUMN IF EXISTS bar",
    alter (cmd_opt [("missingOk", "true")] "drop_column" "bar"));
  ("ALTER TABLE foo ADD CONSTRAINT fk_bar_cd FOREIGN KEY (a, b) REFERENCES bar (c, d) NOT VALID",
    alter (add (con "foreign" [("conname", "fk_bar_cd"); ("skipValidation", "true")] [])));
  ("ALTER TABLE foo DROP CONSTRAINT bar CASCADE",
    alter (cmd_opt [("behavior", "cascade")] "drop_constraint" "bar"));
  ("ALTER TABLE foo ADD CONSTRAINT bar CHECK (age > 0) NOT VALID",
    alter (add (con "check" [("conname", "bar"); ("skipValidation", "true")] [expr "age > 0"])));
  ("ALTER TABLE foo ADD COLUMN IF NOT EXISTS bar int",
    alter (Tree "AlterTableCmd" [("subtype", "add_column"); ("missingOk", "true")]
      [("def", [col "bar" "int" []])]));
  ("ALTER TABLE foo ADD COLUMN bar int UNIQUE DEFERRABLE",
    alter (add_column [con "unique" [] []; con "attr_deferrable" [] []]));
  ("ALTER TABLE foo ADD COLUMN bar int UNIQUE INITIALLY DEFERRED",
    alter (add_column [con "unique" [] []; con "attr_deferred" [] []]));
  ("ALTER TABLE foo ADD COLUMN bar int COLLATE en_US",
    alter (cmd_def "add_column" ""
      (col_with [] [("collClause", [Tree "CollateClause" [] []])] "bar" "int")));
  ("ALTER TABLE foo ADD COLUMN bar int COMPRESSION pglz",
    alter (cmd_def "add_column" "" (col_with [("compression", "pglz")] [] "bar" "int")))
].

(** [TestConvertCreateIndexStatements], the methods apart *)
Definition create_index_cases : list (string * tree * Operation) := [
  ("CREATE INDEX idx_name ON foo (bar)",
    index [] [] [elem "bar" [] []], CreateIndexOp1);
  ("CREATE INDEX idx_name ON foo (bar ASC)",
    index [] [] [elem "bar" [("ordering", "asc")] []], CreateIndexOp12);
  ("CREATE INDEX idx_name ON foo USING btree (bar)",
    index [] [] [elem "bar" [] []], CreateIndexOp1);
  ("CREATE INDEX CONCURRENTLY idx_name ON foo (bar)",
    index [("concurrent", "true")] [] [elem "bar" [] []], CreateIndexOp1);
  ("CREATE INDEX idx_name ON schema.foo (bar)",
    index_on "schema" [] [] [elem "bar" [] []], CreateIndexOp2);
  ("CREATE INDEX idx_name ON foo (bar, baz)",
    index [] [] [elem "bar" [] []; elem "baz" [] []], CreateIndexOp3);
  ("CREATE UNIQUE INDEX idx_name ON foo (bar)",
    index [("unique", "true")] [] [elem "bar" [] []], CreateIndexOp4);
  ("CREATE INDEX idx_name ON foo (bar) WHERE (foo > 0)",
    index [] [("whereClause", [Tree "Expr" [("text", "foo > 0")] []])] [elem "bar" [] []],
    CreateIndexOp5);
  ("CREATE INDEX idx_name ON foo (bar) WHERE foo > 0",
    index [] [("whereClause", [Tree "Expr" [("text", "foo > 0")] []])] [elem "bar" [] []],
    CreateIndexOp5);
  ("CREATE INDEX idx_name ON foo (bar) WITH (fillfactor = 70)",
    index [] [options ["fillfactor=70"]] [elem "bar" [] []],
    CreateIndexOpWithStorageParam "fillfactor=70");
  ("CREATE INDEX idx_name ON foo (bar) WITH (deduplicate_items = true)",
    index [] [options ["deduplicate_items=true"]] [elem "bar" [] []],
    CreateIndexOpWithStorageParam "deduplicate_items=true");
  ("CREATE INDEX idx_name ON foo (bar) WITH (buffering = ON)",
    index [] [options ["buffering=on"]] [elem "bar" [] []],
    CreateIndexOpWithStorageParam "buffering=on");
  ("CREATE INDEX idx_name ON foo (bar) WITH (buffering = OFF)",
    index [] [options ["buffering=off"]] [elem "bar" [] []],
    CreateIndexOpWithStorageParam "buffering=off");
  ("CREATE INDEX idx_name ON foo (bar) WITH (buffering = AUTO)",
    index [] [options ["buffering=auto"]] [elem "bar" [] []],
    CreateIndexOpWithStorageParam "buffering=auto");
  ("CREATE INDEX idx_name ON foo (bar) WITH (fastupdate = true)",
    index [] [options ["fastupdate=true"]] [elem "bar" [] []],
    CreateIndexOpWithStorageParam "fastupdate=true");
  ("CREATE INDEX idx_name ON foo (bar) WITH (pages_per_range = 100)",
    index [] [options ["pages_per_range=100"]] [elem "bar" [] []],
    CreateIndexOpWithStorageParam "pages_per_range=100");
  ("CREATE INDEX idx_name ON foo (bar) WITH (autosummarize = true)",
    index [] [options ["autosummarize=true"]] [elem "bar" [] []],
    CreateIndexOpWithStorageParam "autosummarize=true");
  ("CREATE INDEX idx_name ON foo (bar) WITH (fillfactor = 70, deduplicate_items = true)",
    index [] [options ["fillfactor=70"; "deduplicate_items=true"]] [elem "bar" [] []],
    CreateIndexOpWithStorageParam "fillfactor=70, deduplicate_items=true");
  ("CREATE INDEX idx_name ON foo (bar COLLATE en_us)",
    index [] [] [elem "bar" [] [names "collation" ["en_us"]]], CreateIndexOp6);
  ("CREATE INDEX idx_name ON foo (bar DESC)",
    index [] [] [elem "bar" [("ordering", "desc")] []], CreateIndexOp7);
  ("CREATE INDEX idx_name ON foo (bar NULLS FIRST)",
    index [] [] [elem "bar" [("nulls", "first")] []], CreateIndexOp8);
  ("CREATE INDEX idx_name ON foo (bar NULLS LAST)",
    index [] [] [elem "bar" [("nulls", "last")] []], CreateIndexOp9);
  ("CREATE INDEX idx_name ON foo (bar opclass (test = test))",
    index [] [] [elem "bar" [] [names "opclass" ["opclass"];
      ("opclassopts", [Tree "DefElem" [("text", "test=test")] []])]], CreateIndexOp10);
  ("CREATE INDEX idx_name ON foo (bar opclass1, baz opclass2)",
    index [] [] [elem "bar" [] [names "opclass" ["opclass1"]];
      elem "baz" [] [names "opclass" ["opclass2"]]], CreateIndexOp11);
  ("CREATE INDEX IF NOT EXISTS idx_name ON foo (bar)",
    index [("ifNotExists", "true")] [] [elem "bar" [] []], CreateIndexOp1)
].

(** [TestUnconvertableCreateIndexStatements] *)
Definition create_index_raw : list (string * tree) := [
  ("CREATE INDEX idx_name ON foo (bar) TABLESPACE baz",
    index [("tableSpace", "baz")] [] [elem "bar" [] []]);
  ("CREATE INDEX idx_name ON foo (bar) INCLUDE (baz)",
    index [] [("including", [elem "baz" [] []])] [elem "bar" [] []]);
  ("CREATE INDEX idx_name ON ONLY foo (bar)",
    Tree "IndexStmt" [("idxname", "idx_name"); ("accessMethod", "btree")]
      [("relation", [Tree "RangeVar" [("relname", "foo")] []]); ("indexParams", [elem "bar" [] []])]);
  ("CREATE INDEX idx_name ON foo(a) NULLS NOT DISTINCT",
    index [("nullsNotDistinct", "true")] [] [elem "a" [] []]);
  ("CREATE INDEX idx_name ON foo(LOWER(a))",
    index [] [] [elem "" [] [("expr", [Tree "Expr" [("text", "lower(a)")] []])]]);
  ("CREATE INDEX idx_name ON foo(a, LOWER(b))",
    index [] [] [elem "a" [] [];
      elem "" [] [("expr", [Tree "Expr" [("text", "lower(b)")] []])]])
].

(** [TestDropIndexStatements], [TestDropTableStatements] and [TestConvertRenameStatements] *)
Definition drop_rename_cases : list (string * tree * Operation) := [
  ("DROP INDEX foo",
    drop_stmt "index" "restrict" [["foo"]], DropIndexOp1);
  ("DROP INDEX myschema.foo",
    drop_stmt "index" "restrict" [["myschema"; "foo"]], DropIndexOp2);
  ("DROP INDEX foo RESTRICT",
    drop_stmt "index" "restrict" [["foo"]], DropIndexOp1);
  ("DROP INDEX IF EXISTS foo",
    drop_stmt "index" "restrict" [["foo"]], DropIndexOp1);
  ("DROP INDEX CONCURRENTLY foo",
    drop_stmt "index" "restrict" [["foo"]], DropIndexOp1);
  ("DROP TABLE foo",
    drop_stmt "table" "restrict" [["foo"]], DropTableOp1);
  ("DROP TABLE foo RESTRICT",
    drop_stmt "table" "restrict" [["foo"]], DropTableOp1);
  ("DROP TABLE IF EXISTS foo",
    drop_stmt "table" "restrict" [["foo"]], DropTableOp1);
  ("DROP TABLE foo.bar",
    drop_stmt "table" "restrict" [["foo"; "bar"]], DropTableOp2);
  ("ALTER TABLE foo RENAME COLUMN a TO b",
    rename "column" "a" "b", RenameColumnOp1);
  ("ALTER TABLE foo RENAME a TO b",
    rename "column" "a" "b", RenameColumnOp1);
  ("ALTER TABLE foo RENAME TO bar",
    rename "table" "" "bar", RenameTableOp1);
  ("ALTER TABLE foo RENAME CONSTRAINT bar TO baz",
    rename "tabconstraint" "bar" "baz", RenameConstraintOp1)
].

(** [TestUnconvertableDropStatements] *)
Definition drop_raw : list (string * tree) := [
  ("DROP INDEX foo CASCADE",
    drop_stmt "index" "cascade" [["foo"]]);
  ("DROP TABLE foo CASCADE",
    drop_stmt "table" "cascade" [["foo"]])
].

(** [CREATE INDEX] with each method the format knows *)
Definition method_cases : list (string * tree) :=
  (λ method, (method, index [("accessMethod", method)] [] [elem "bar" [] []])) <$>
    ["btree"; "brin"; "gin"; "gist"; "hash"; "spgist"].

Definition converted_cases : list (string * tree * Operation) :=
  create_table_cases ++ alter_table_cases ++ create_index_cases ++ drop_rename_cases.
Definition raw_cases : list (string * tree) :=
  create_table_raw ++ alter_table_raw ++ create_index_raw ++ drop_raw.

(** The parser on the texts of the tests, each a single statement *)
Definition tests_parse (sql : string) : outcome error (list (option tree)) :=
  match assoc sql (converted_cases.*1 ++ raw_cases) with
  | Some stmt => Ok [Some stmt]
  | None => Err (Errorf "syntax error" [])
  end.
#[local] Instance tests_query : PgQuery := tree_query_of tests_parse (λ sql, Ok [sql]).

(** The conversion passes the tests of the package: every text becomes the one
    operation expected of it, or stays the raw SQL it is. *)
Lemma conversion_tests :
  Forall (λ '(sql, _, op), Convert sql = Ok [op]) converted_cases ∧
  Forall (λ '(sql, _), Convert sql = Ok [RawSQLOp sql]) raw_cases ∧
  Forall (λ '(method, stmt), ∃ op, CreateIndexOp1WithMethod method = Ok op ∧ convertStmt stmt = value [op])
    method_cases.
Proof.
  split_and!; repeat (apply Forall_cons; split; [first [vm_compute; reflexivity
    | eexists; split; [vm_compute; reflexivity|vm_compute; reflexivity]]|]); constructor.
Qed.
