(* ===== verification/BoundFacts.v ===== *)
(** * BoundFacts: the bound of a train

    [--to] cuts the sequence of migrations by position and closes the cut
    under dependencies.  The recursion of the closure ends, its result is what
    is reachable from the cut, and the train that is left can be started in
    order. *)

From S2P Require Import Prelude.
From S2P Require Import GoStd.
From S2P Require Import Names.
From S2P Require Import Types.
From S2P Require Import Db.
From S2P Require Import LocalSet.
From S2P Require Import Deps.
From S2P Require Import DepsFacts.
From S2P Require Import ResolveFacts.
From S2P Require Import Rewrite.
From S2P Require Import RevertSealed.
From S2P Require Import Migrate.

Section closure.
Context (inRun : gmap string RawMigration).
Implicit Types (B : gset string).

(** [d] is applied by this run and [n] depends on it. *)
Definition needs (n d : string) : Prop :=
  ∃ rm, inRun !! n = Some rm ∧ d ∈ rm.(RawMigration_DependsOn) ∧ is_Some (inRun !! d).

Definition closed_at B n : Prop := ∀ d, needs n d → d ∈ B.

(** What [pull n] makes of [B]: it adds what [n] needs, however indirectly,
    and everything it adds has its own needs met. *)
Record pulled B n B' : Prop := {
  pulled_mono : B ⊆ B';
  pulled_reach x : x ∈ B' → x ∈ B ∨ tc needs n x;
  pulled_closed x : x ∈ B' → x ∈ B ∨ closed_at B' x;
  pulled_self : closed_at B' n;
}.

Lemma closed_at_mono B B' n : B ⊆ B' → closed_at B n → closed_at B' n.
Proof. intros HB Hc d Hd. by apply HB, Hc. Qed.

Lemma pulled_head B n d B' :
  needs n d → pulled ({[d]} ∪ B) d B' →
  B ⊆ B' ∧ d ∈ B' ∧ (∀ x, x ∈ B' → x ∈ B ∨ tc needs n x) ∧
  (∀ x, x ∈ B' → x ∈ B ∨ closed_at B' x).
Proof.
  intros Hnd [Hm Hr Hc Hs]. split_and!; [set_solver|set_solver| |].
  - intros x [Hx|Hx]%Hr; [|right; by eapply tc_l].
    apply elem_of_union in Hx as [->%elem_of_singleton|Hx]; [right; by apply tc_once|by left].
  - intros x [Hx|Hx]%Hc; [|by right].
    apply elem_of_union in Hx as [->%elem_of_singleton|Hx]; [by right|by left].
Qed.

(** One dependency, and the loop over them *)
Definition pull_step (fuel : nat) (bound : gset string) (dep : string) : outcome error (gset string) :=
  if decide (dep ∈ bound) then Ok bound
  else if decide (inRun !! dep = None) then Ok bound
  else pull fuel inRun ({[dep]} ∪ bound) dep.

Lemma pull_loop fuel n :
  (∀ B d, size (dom inRun ∖ B) < fuel → ∃ B', pull fuel inRun B d = Ok B' ∧ pulled B d B') →
  ∀ rm deps B, inRun !! n = Some rm → (∀ d, d ∈ deps → d ∈ RawMigration_DependsOn rm) →
  size (dom inRun ∖ B) < S fuel → ∃ B', foldl_outcome (pull_step fuel) B deps = Ok B' ∧
    B ⊆ B' ∧ (∀ x, x ∈ B' → x ∈ B ∨ tc needs n x) ∧ (∀ x, x ∈ B' → x ∈ B ∨ closed_at B' x) ∧
    (∀ d, d ∈ deps → is_Some (inRun !! d) → d ∈ B').
Proof.
  intros IH rm deps. induction deps as [|d deps IHd]; intros B Hn Hdeps Hf.
  { exists B. split_and!; [done..|by left|by left|]. by intros d ?%elem_of_nil. }
  assert (∃ B1, pull_step fuel B d = Ok B1 ∧ B ⊆ B1 ∧ (is_Some (inRun !! d) → d ∈ B1) ∧
    (∀ x, x ∈ B1 → x ∈ B ∨ tc needs n x) ∧ (∀ x, x ∈ B1 → x ∈ B ∨ closed_at B1 x))
    as (B1 & Hstep & Hm1 & Hd1 & Hr1 & Hc1).
  { unfold pull_step. destruct (decide (d ∈ B)) as [Hd|Hd];
      [|destruct (decide (inRun !! d = None)) as [Hno|Hin]].
    - exists B. split_and!; [done..|by left|by left].
    - exists B. rewrite Hno. split_and!; [done|done|by intros []|by left|by left].
    - apply not_eq_None_Some in Hin.
      destruct (IH ({[d]} ∪ B) d) as (B1 & HB1 & Hp).
      { assert (size (dom inRun ∖ ({[d]} ∪ B)) < size (dom inRun ∖ B)); [|lia].
        apply subset_size. split; [set_solver|]. apply elem_of_dom in Hin. set_solver. }
      apply (pulled_head B n) in Hp as (? & ? & ? & ?); [by exists B1|].
      exists rm. split_and!; [done|apply Hdeps; by left|done]. }
  rewrite (foldl_outcome_cons _ _ _ _ _ Hstep).
  destruct (IHd B1 Hn) as (B' & -> & Hm & Hr & Hc & Hs).
  { intros x Hx. apply Hdeps. by right. }
  { assert (size (dom inRun ∖ B1) ≤ size (dom inRun ∖ B)); [apply subseteq_size; set_solver|lia]. }
  exists B'. split_and!; [done|set_solver|naive_solver| |].
  - intros x [Hx|Hx]%Hc; [|by right]. apply Hc1 in Hx as [Hx|Hx]; [by left|right]. by eapply closed_at_mono.
  - intros x [->|Hx]%elem_of_cons Hx'; [by apply Hm, Hd1|by apply Hs].
Qed.

Lemma pull_pulled fuel B n :
  size (dom inRun ∖ B) < fuel → ∃ B', pull fuel inRun B n = Ok B' ∧ pulled B n B'.
Proof.
  revert B n. induction fuel as [|fuel IH]; intros B n Hf; [lia|]. cbn [pull].
  destruct (inRun !! n) as [rm|] eqn:Hn; cycle 1.
  { exists B. split; [done|]. split; [done|by left|by left|]. intros d (? & ? & _). congruence. }
  destruct (pull_loop fuel n IH rm (RawMigration_DependsOn rm) B Hn (λ _ Hd, Hd) Hf)
    as (B' & HB' & Hm & Hr & Hc & Hs).
  exists B'. split; [exact HB'|]. split; [done..|]. intros d (rm' & Hrm & Hd & Hd').
  assert (rm' = rm) as -> by congruence. by apply Hs.
Qed.

(** ** The closed bound *)

(** [closeBound] adds to the bound exactly what its members need. *)
Lemma closeBound_spec B :
  ∃ B', closeBound inRun B = Ok B' ∧ ∀ x, x ∈ B' ↔ ∃ n, n ∈ B ∧ rtc needs n x.
Proof.
  unfold closeBound.
  assert (∀ l B1, B ⊆ B1 → (∀ n, n ∈ l → n ∈ B) →
    (∀ x, x ∈ B1 → (∃ n, n ∈ B ∧ rtc needs n x)) → (∀ x, x ∈ B1 → x ∉ l → closed_at B1 x) →
    ∃ B', foldl_outcome (pull (S (size inRun)) inRun) B1 l = Ok B' ∧
      B ⊆ B' ∧ (∀ x, x ∈ B' → ∃ n, n ∈ B ∧ rtc needs n x) ∧ (∀ x, x ∈ B' → closed_at B' x)) as Hl.
  { intros l. induction l as [|n l IH]; intros B1 HB Hl Hr Hc; cbn [foldl_outcome].
    { exists B1. split_and!; try done. intros x Hx. apply Hc; [done|]. by intros ?%elem_of_nil. }
    destruct (pull_pulled (S (size inRun)) B1 n) as (B2 & HB2 & [Hm2 Hr2 Hc2 Hs2]).
    { assert (size (dom inRun ∖ B1) ≤ size (dom inRun)) as Hsz by (apply subseteq_size; set_solver).
      rewrite size_dom in Hsz. lia. }
    rewrite HB2. cbn. apply IH; [set_solver|intros; apply Hl; by right| |].
    - intros x [Hx|Hx]%Hr2; [by apply Hr|]. exists n. split; [apply Hl; by left|by apply tc_rtc].
    - intros x Hx Hno. destruct (decide (x = n)) as [->|Hne]; [done|].
      apply Hc2 in Hx as [Hx|Hx]; [|done]. eapply closed_at_mono; [exact Hm2|]. apply Hc; [done|].
      intros [->|Hx']%elem_of_cons; done. }
  destruct (Hl (elements B) B) as (B' & HB' & Hm & Hr & Hc); [done|set_solver| |set_solver|].
  { intros x Hx. exists x. by split. }
  exists B'. split; [exact HB'|]. intros x. split; [apply Hr|]. intros (n & Hn & Hx).
  apply Hm in Hn. clear -Hn Hx Hc. induction Hx as [|x y z Hxy _ IH]; [done|]. by apply IH, (Hc x).
Qed.
End closure.

(** ** The train *)

Lemma startable_filter history excluded l (P : RawMigration → Prop) `{∀ m, Decision (P m)} :
  startable history excluded l →
  (∀ m d m', m ∈ l → P m → d ∈ RawMigration_DependsOn m → m' ∈ l → RawMigration_Name m' = d → P m') →
  startable history excluded (filter P l).
Proof.
  intros Hs Hclosed i m Hi. apply filter_lookup in Hi as (j & Hj & Ht & Hm).
  apply validateDependencies_ok. intros d Hd.
  destruct (proj1 (validateDependencies_ok _ _ _ _) (Hs j m Hj) d Hd) as [Hin|]; [|by right].
  left. apply elem_of_app in Hin as [|Hin]; [apply elem_of_app; by left|]. apply elem_of_app. right.
  apply list_elem_of_fmap in Hin as (m' & -> & Hm'). apply list_elem_of_fmap. exists m'.
  split; [done|]. rewrite Ht. apply list_elem_of_filter. split; [|done].
  apply elem_of_take in Hm' as (k & Hk & _). apply list_elem_of_lookup_2 in Hk, Hj.
  by eapply (Hclosed m).
Qed.

(** The names of what [ResolveMigrations] returns are distinct as soon as one
    of them has a dependency. *)
Lemma Apply_names `{!Dir} history baseline target res m d :
  ResolveMigrations history baseline target = Ok res →
  m ∈ res.(Resolution_Apply) → d ∈ m.(RawMigration_DependsOn) → NoDup (names res.(Resolution_Apply)).
Proof.
  unfold ResolveMigrations. intros (local & _ & Hr)%outcome_bind_ok.
  destruct (head _) in Hr; [done|]. apply outcome_bind_ok in Hr as (sorted & Hs & [= <-]). cbn.
  intros Hm Hd. destruct (TopoSort_sound _ _ _ _ Hs) as [Hp _].
  set (todo := filter _ (Selected local)) in *. destruct (hasDeps todo) eqn:Hh.
  - apply TopoSort_Ok_input in Hs as (Hnd & _); [|done]. unfold names. by rewrite Hp.
  - rewrite Hp in Hm. rewrite (hasDeps_false _ m Hh Hm) in Hd. by apply elem_of_nil in Hd.
Qed.

Lemma ResolveMigrations_order `{!Dir} history baseline target res :
  ResolveMigrations history baseline target = Ok res →
  startable history res.(Resolution_Excluded) res.(Resolution_Apply).
Proof.
  unfold ResolveMigrations. intros (local & _ & Hr)%outcome_bind_ok.
  destruct (head _) in Hr; [done|]. apply outcome_bind_ok in Hr as (sorted & Hs & [= <-]).
  by eapply TopoSort_startable.
Qed.

(** C7. [--to]: the train ends with the bound.  Of the migrations that would
    be applied, those remain that lie at or below the target in the whole
    local sequence, or that one of these depends on, through any number of
    migrations of this run; the order is kept, and every migration of the
    shorter train still finds its dependencies applied when its turn comes. *)
Theorem boundTrain_spec `{!Dir} history baseline target res idx :
  ResolveMigrations history baseline target = Ok res →
  let apply := res.(Resolution_Apply) in
  let inRun := index_by_name (λ _ m, m) apply in
  ∃ train, boundTrain apply res.(Resolution_All) idx = Ok train ∧
    train `sublist_of` apply ∧
    (∀ m, m ∈ train ↔ m ∈ apply ∧ ∃ n, n ∈ names (take (S idx) res.(Resolution_All)) ∧
                                  rtc (needs inRun) n m.(RawMigration_Name)) ∧
    startable history res.(Resolution_Excluded) train.
Proof.
  intros Hres apply inRun.
  destruct (closeBound_spec inRun (list_to_set (names (take (S idx) res.(Resolution_All)))))
    as (B & HB & Hin).
  exists (filter (λ rm, RawMigration_Name rm ∈ B) apply). unfold boundTrain. fold apply inRun.
  rewrite HB. split_and!; [done|apply sublist_filter| |].
  - intros m. rewrite list_elem_of_filter, Hin. split.
    + intros [(n & Hn & Hx) Hm]. split; [done|]. exists n. by rewrite elem_of_list_to_set in Hn.
    + intros [Hm (n & Hn & Hx)]. split; [|done]. exists n. by rewrite elem_of_list_to_set.
  - apply startable_filter; [by eapply ResolveMigrations_order|].
    intros m d m' Hm HPm Hd Hm' <-. apply Hin in HPm as (n & Hn & Hx). apply Hin. exists n.
    split; [done|]. eapply rtc_r; [exact Hx|]. pose proof (Apply_names _ _ _ _ _ _ Hres Hm Hd) as Hnd.
    apply list_elem_of_lookup in Hm as [i Hi]. exists m. split_and!; [|done|].
    + by apply (index_by_name_Some (λ _ m, m) _ i).
    + apply index_by_name_is_Some; [done|]. unfold names. by apply list_elem_of_fmap_2.
Qed.

(** [--to 01_a]: both dependencies are pulled in, past the bound. *)
Lemma boundTrain_spec_witness :
  ∃ res train, @ResolveMigrations sample_dir ["04_d"] (Some "00_base") "app" = Ok res ∧
    boundTrain res.(Resolution_Apply) res.(Resolution_All) 0 = Ok train ∧
    names train = ["02_b"; "01_a"] ∧ startable ["04_d"] res.(Resolution_Excluded) train.
Proof.
  eexists _, _. split; [vm_compute; reflexivity|].
  destruct (@boundTrain_spec sample_dir ["04_d"] (Some "00_base") "app" _ 0 eq_refl)
    as (train & Ht & _ & _ & Hs).
  vm_compute in Ht. injection Ht as <-. split; [vm_compute; reflexivity|].
  split; [reflexivity|]. exact Hs.
Defined.
