(* ===== verification/Commands.v ===== *)
(** * Commands: the commands that move the history without applying a train

    [pgroll revert], [stamp], [materialize], [prune] and [rebaseline]
    ([cmd/revert.go], [stamp.go], [materialize.go], [prune.go],
    [rebaseline.go]) after the connection is set up.  What they print is left
    out; a question to the operator is a call of [Console]. *)

From S2P Require Import Prelude.
From S2P Require Import GoStd.
From S2P Require Import Names.
From S2P Require Import Schema.
From S2P Require Import Types.
From S2P Require Import ErrorText.
From S2P Require Import Db.
From S2P Require Import Backfill.
From S2P Require Import Operations.
From S2P Require Import Migration.
From S2P Require Import Invert.
From S2P Require Import LocalSet.
From S2P Require Import OpsJson.
From S2P Require Import History.
From S2P Require Import State.
From S2P Require Import Lifecycle.
From S2P Require Import Rewrite.
From S2P Require Import Revert.
From S2P Require Import RevertSealed.
From S2P Require Import Plan.
From S2P Require Import Migrate.

(** [DefaultInteractiveConfirm.Show]: the answer; an error counts as no. *)
Class Console (D : Type) := console_confirm : string → D → bool * D.

(** What a run of [revert] that returns no error has done *)
Inductive revertDone :=
  | NothingToRevert
  | Declined
  | Previewed (view : RevertView)
  | WindowReverted (targets : list RevertTarget)
  | RevertResumed (plan : option SealedRevertPlan)
  | SealedReverted (plan : option SealedRevertPlan).

Record revertFlags := mkRevertFlags {
  rf_yes : bool;
  rf_steps : Z;
  rf_to : string;
  rf_expandOnly : bool;
  rf_dryRun : bool;
}.

(** The path of [stamp]: a file, by its base name, or the directory *)
Inductive stampPath := StampFile (base : string) | StampDirectory.

Record stampFlags := mkStampFlags {
  sf_upTo : string;
  sf_type : string;
  sf_materialize : bool;
  sf_yes : bool;
}.

(** The names stamped, and the version schema materialized *)
Record stampDone := mkStampDone { Stamped : list string; Materialized : option string }.

(** The exit code where the command exits by itself *)
Inductive rebaselineDone :=
  | RebaselineReported (r : RebaselineResult)
  | RebaselineExit (code : Z).

Section inputs.
Context `{!Dir}.

(** The directory form of [collectStampInputs] up to [--up-to] *)
Fixpoint collectRaws (target : string) (files : list string) : outcome error (list RawMigration) :=
  match files with
  | [] => Ok []
  | name :: files =>
      match ReadRawMigration name with
      | Err e => Err (ErrorfW "failed to read migration %q: %w" [name] e)
      | o =>
          raw ← o;
          if decide (target ≠ "" ∧ targets_of raw = []) then
            Err (TargetRequiredError name target (bool_decide (is_Some raw.(RawMigration_Targets))))
          else
            raws ← collectRaws target files;
            Ok (if SelectedBy (targets_of raw) target then raw :: raws else raws)
      end
  end.

Definition collectStampInputs (path : stampPath) (upTo target : string) :
    outcome error (list RawMigration) :=
  match path with
  | StampFile base =>
      if decide (upTo ≠ "") then
        Err (Errorf "--up-to is only valid when stamping a directory; %q is a file" [base])
      else
        match ReadRawMigration base with
        | Err e => Err (ErrorfW "failed to read migration %q: %w" [base] e)
        | o =>
            raw ← o;
            if decide (target ≠ "" ∧ SelectedBy (targets_of raw) target = false) then
              Err (ErrorfW "%w: migration %q declares targets %v, which do not include %q"
                     (raw.(RawMigration_Name) :: targets_of raw ++ [target]) ErrWrongTarget)
            else Ok [raw]
        end
  | StampDirectory =>
      if decide (CollectFilesFromDir = []) then Err (Errorf "no migration files found in %q" [])
      else
        raws ← collectRaws target CollectFilesFromDir;
        if decide (upTo = "") then Ok raws
        else
          match position upTo raws with
          | None => Err (Errorf "--up-to %q not found among migration files in %q" [upTo])
          | Some idx => Ok (take (S idx) raws)
          end
  end.
End inputs.

Section Commands.
Context `{!Pq} {D : Type} `{!DB D} `{!StateStore D} `{!Console D} `{!Codec} `{!PqText}.
Context (m : Roll D).

Definition confirm (yes : bool) (question : string) : M D bool :=
  if yes then mret true
  else on_state (λ d, let '(b, d) := console_confirm question d in (Ok b, d)).

(** ** Reverting *)

Definition previewCmd (fl : revertFlags) : M D RevertView :=
  resume ← PendingSealedRevertResume m;
  fail_if resume
    (Errorf "an interrupted revert is pending and cannot be previewed cleanly: %s — re-run `pgroll revert --to <boundary>` to resume it (without --dry-run)" []) ;;
  (if rf_expandOnly fl && negb (String.eqb (rf_to fl) "") then
     r ← try (RevertPlan m (mkRevertOptions 0 (rf_to fl)));
     match r with
     | inl _ => fail (Errorf "--expand-only does not apply: %q is within the in-flight window and reverts losslessly" [rf_to fl])
     | inr _ => mret ()
     end
   else mret ()) ;;
  PreviewRevert m
    (if (0 <? rf_steps fl)%Z then mkRevertOptions (rf_steps fl) "" else mkRevertOptions 0 (rf_to fl)).

(** The version schema to restore is resolved before anything is asked. *)
Definition runWindowRevert (fuel : nat) (targets : list RevertTarget) (yes : bool) (o : revertOptions) :
    M D revertDone :=
  match last targets with
  | None => panic
  | Some oldest =>
      match oldest.(RevertTarget_Parent) with
      | Some parent =>
          wrap_err (ErrorfW "unable to resolve the migration to restore to: %w" [])
            (from_state m (state_GetMigration parent)) ;;
          mret ()
      | None => mret ()
      end ;;
      ok ← confirm yes "Revert %d migration(s)?";
      if (ok : bool) then reverted ← Roll_Revert m fuel o; mret (WindowReverted reverted)
      else mret Declined
  end.

Section sealed.
Context (CreateTriggers : Job → M D ()) (Backfill_Start : string → loc → M D ()).

(** [None]: nothing is pending.  The resumed revert is not told of
    [--expand-only]. *)
Definition maybeResumeSealedRevert (fuel : nat) (to : string) (yes : bool) : M D (option revertDone) :=
  resume ← PendingSealedRevertResume m;
  if negb resume then mret None
  else if decide (to = "") then
    fail (Errorf "%s — re-run with --to <boundary> to resume it (or `pgroll complete` to finish a fully-applied one)" [])
  else
    ok ← confirm yes "Resume the interrupted revert?";
    if (ok : bool) then
      result ← RevertSealed m CreateTriggers Backfill_Start fuel to false;
      mret (Some (RevertResumed result))
    else mret (Some Declined).

(** The window leg, then the inversion leg *)
Definition runSealedRevert (fuel : nat) (to : string) (yes expandOnly : bool) : M D revertDone :=
  windowTargets ← wrap_err (ErrorfW "the in-flight window above %q cannot be reverted: %w" [to])
                    (RevertTargets m);
  plan ←
    match last windowTargets with
    | Some oldest =>
        match oldest.(RevertTarget_Parent) with
        | None => fail (Errorf "migration %q not found beneath the in-flight window" [to])
        | Some parent => PlanRevertSealedBelowWindow m to parent
        end
    | None => PlanRevertSealed m to
    end;
  match plan, windowTargets with
  | None, [] => mret NothingToRevert
  | _, _ =>
      ok ← confirm yes "Revert %d migration(s)?";
      if negb ok then mret Declined
      else
        (if decide (windowTargets = []) then mret [] else Roll_Revert m fuel (mkRevertOptions 0 "")) ;;
        match plan with
        | None => mret (SealedReverted None)
        | Some _ =>
            result ← RevertSealed m CreateTriggers Backfill_Start fuel to expandOnly;
            mret (SealedReverted result)
        end
  end.

Definition windowOr (fuel : nat) (yes : bool) (o : revertOptions) (plan : list RevertTarget) :
    M D revertDone :=
  if decide (plan = []) then mret NothingToRevert else runWindowRevert fuel plan yes o.

Definition revertTo (fuel : nat) (fl : revertFlags) : M D revertDone :=
  let o := mkRevertOptions 0 (rf_to fl) in
  r ← try (RevertPlan m o);
  match r with
  | inl plan =>
      if decide (plan = []) then mret NothingToRevert
      else if rf_expandOnly fl then
        fail (Errorf "--expand-only does not apply: %q is within the in-flight window and reverts losslessly" [rf_to fl])
      else runWindowRevert fuel plan (rf_yes fl) o
  | inr e =>
      if decide (errors_Is e ErrRevertTargetSealed)
      then runSealedRevert fuel (rf_to fl) (rf_yes fl) (rf_expandOnly fl)
      else fail e
  end.

(** A number of steps that is not positive leaves the bare revert. *)
Definition revertCmd (fuel : nat) (fl : revertFlags) : M D revertDone :=
  fail_if (rf_expandOnly fl && String.eqb (rf_to fl) "")
    (Errorf "--expand-only requires --to: it applies to inversion reverts of contracted history" []) ;;
  if rf_dryRun fl then view ← previewCmd fl; mret (Previewed view)
  else
    resumed ← maybeResumeSealedRevert fuel (rf_to fl) (rf_yes fl);
    match resumed with
    | Some done => mret done
    | None =>
        if (0 <? rf_steps fl)%Z then
          let o := mkRevertOptions (rf_steps fl) "" in
          plan ← RevertPlan m o; windowOr fuel (rf_yes fl) o plan
        else if decide (rf_to fl = "") then
          let o := mkRevertOptions 0 "" in
          plan ← RevertPlan m o; windowOr fuel (rf_yes fl) o plan
        else revertTo fuel fl
    end.
End sealed.

(** ** Materializing *)

(** The unapplied migrations replayed on the schema at hand *)
Definition replayUnapplied (migs : list Migration) : M D () :=
  for_each (λ mig : Migration,
    wrap_err (ErrorfW "failed to project migration %q in memory: %w" [mig.(Migration_Name)])
      (virtually (UpdateVirtualSchema mig))) migs.

Definition resolveMaterializeVersion (parsedMigs : list Migration) (override : string) : M D string :=
  if decide (override ≠ "") then mret override
  else
    match last parsedMigs with
    | Some mig => mret (VersionSchemaName mig)
    | None =>
        latest ← wrap_err (ErrorfW "reading latest migration from state: %w" [])
                   (from_state m state_LatestMigration);
        match non_empty latest with
        | Some name => mret name
        | None => fail (Errorf "no version name could be derived: pass --version or --migrations <dir>" [])
        end
    end.

(** [None] when the operator declines *)
Definition materializeCmd `{!Dir} (withMigrations : bool) (override : string) (yes : bool) :
    M D (option string) :=
  active ← wrap_err (ErrorfW "unable to determine active migration period: %w" [])
             (from_state m state_IsActiveMigrationPeriod);
  fail_if active
    (Errorf "a migration is currently in progress on schema %q; run `pgroll rollback` (or wait for the active run to finish) before materializing"
       [Roll_schema m]) ;;
  sc ← wrap_err (ErrorfW "failed to read live schema: %w" []) (from_state m state_ReadSchema);
  use_schema sc ;;
  parsedMigs ←
    (if (withMigrations : bool) then
       rawMigs ← wrap_err (ErrorfW "failed to discover unapplied migrations: %w" [])
                   (Roll_UnappliedMigrations m);
       parsedMigs ← wrap_err (ErrorfW "failed to parse migrations: %w" [])
                      (lift (parseMigrations rawMigs));
       replayUnapplied parsedMigs ;; mret parsedMigs
     else mret []);
  version ← resolveMaterializeVersion parsedMigs override;
  ok ← confirm yes "Materialize version schema %q?";
  if (ok : bool) then
    sc ← gets (λ w, (w_heap w, w_schema w));
    Materialize m version (Some sc) ;; mret (Some version)
  else mret None.

(** ** Stamping *)

Fixpoint classifyStampInputs (raws : list RawMigration) : M D (list string * list string) :=
  match raws with
  | [] => mret ([], [])
  | r :: raws =>
      let name := r.(RawMigration_Name) in
      exists_ ← from_state m (state_MigrationExists name);
      '(toStamp, alreadyStamped) ← classifyStampInputs raws;
      mret (if (exists_ : bool) then (toStamp, name :: alreadyStamped)
            else (name :: toStamp, alreadyStamped))
  end.

(** [raws[len(raws)-1]] of an empty slice is out of range. *)
Definition materializeLeaf (raws : list RawMigration) : M D string :=
  match last raws with
  | None => panic
  | Some raw =>
      leaf ← wrap_err (ErrorfW "failed to parse leaf migration for materialize: %w" [])
               (lift (ParseMigration raw));
      let version := VersionSchemaName leaf in
      sc ← wrap_err (ErrorfW "failed to read live schema for materialize: %w" [])
             (from_state m state_ReadSchema);
      Materialize m version (Some sc) ;; mret version
  end.

(** [None] when the operator declines *)
Definition stampCmd `{!Dir} (path : stampPath) (fl : stampFlags) (target : string) :
    M D (option stampDone) :=
  fail_if (negb (slices_Contains [MigrationTypePgroll; MigrationTypeBaseline; MigrationTypeInferred] (sf_type fl)))
    (Errorf "invalid --type %q: must be one of pgroll, baseline, inferred" [sf_type fl]) ;;
  raws ← lift (collectStampInputs path (sf_upTo fl) target);
  '(toStamp, _) ← classifyStampInputs raws;
  if bool_decide (toStamp = []) && negb (sf_materialize fl) then mret (Some (mkStampDone [] None))
  else
    ok ← confirm (sf_yes fl) "Stamp %d migration(s) as %s and materialize the leaf?";
    if negb ok then mret None
    else
      stamped ← (if decide (toStamp = []) then mret [] else Roll_Stamp m raws (sf_type fl));
      leaf ← (if sf_materialize fl then v ← materializeLeaf raws; mret (Some v) else mret None);
      mret (Some (mkStampDone stamped leaf)).

(** ** Pruning and rebaselining *)

(** [None] when the operator declines *)
Definition pruneCmd (target : string) (names : list string) (yes : bool) :
    M D (option (list PruneTarget)) :=
  refuseTarget target "prune" ;;
  targets ← PruneTargets m names;
  if decide (length targets = 0) then mret (Some [])
  else
    ok ← confirm yes "Prune %d migration(s) from history?";
    if (ok : bool) then pruned ← Roll_Prune m names; mret (Some pruned) else mret None.

(** A refusal exits with code 2. *)
Definition exitOnRefusal (p : M D RebaselineResult) : M D (RebaselineResult + Z) :=
  r ← try p;
  match r with
  | inl res => mret (inl res)
  | inr e => if decide (errors_Is e ErrRebaselineRefused_roll) then mret (inr 2%Z) else fail e
  end.

Definition rebaselineCmd `{!Dir} (check yes : bool) : M D (option rebaselineDone) :=
  r ← exitOnRefusal (Rebaseline m true);
  match r with
  | inr code => mret (Some (RebaselineExit code))
  | inl res =>
      match res.(Rebaseline_Outcome) with
      | RebaselinePending =>
          if (check : bool) then mret (Some (RebaselineExit 3))
          else
            ok ← confirm yes "Convert %q to this database's baseline, hiding all history at or before it?";
            if (ok : bool) then
              r ← exitOnRefusal (Rebaseline m false);
              mret (Some (match r with inl res => RebaselineReported res | inr code => RebaselineExit code end))
            else mret None
      | _ => mret (Some (RebaselineReported res))
      end
  end.

(** ** Reading commands *)

Definition latestVersionLocal `{!Dir} (schema : string) : outcome error string :=
  latestVersion ← LatestVersionLocal (Roll_target m); Ok (schema +:+ "_" +:+ latestVersion).
Definition latestVersionRemote : M D string :=
  latestVersion ← LatestVersionRemote m; mret (Roll_schema m +:+ "_" +:+ latestVersion).
Definition latestVersion `{!Dir} (local : bool) (schema : string) : M D string :=
  if local then lift (latestVersionLocal schema) else latestVersionRemote.
Definition latestMigrationName `{!Dir} (local : bool) : M D string :=
  if local then lift (LatestMigrationNameLocal (Roll_target m)) else LatestMigrationNameRemote m.

Definition validateCmd `{!Dir} (target fileName : string) : M D () :=
  refuseTarget target "validate" ;;
  mig ← lift (ReadMigration fileName);
  Roll_Validate m mig.
End Commands.
