(* ===== verification/Trace.v ===== *)
(** * Trace: the lifecycle's effects as a log

    The effects of a run are recorded by running it on a database that keeps a
    log of them ([traced]): the statements that write, and the calls that move
    a migration through its states.  A crash cuts a run after some event, so a
    property of every prefix of the log is a property of every crash. *)

From S2P Require Import Prelude.
From S2P Require Import GoStd.
From S2P Require Import Names.
From S2P Require Import Schema.
From S2P Require Import Types.
From S2P Require Import Db.
From S2P Require Import WorldFacts.
From S2P Require Import SqlWriter.
From S2P Require Import Actions.
From S2P Require Import Duplicate.
From S2P Require Import Coordinator.
From S2P Require Import Backfill.
From S2P Require Import OpsBase.
From S2P Require Import Operations.
From S2P Require Import Preconditions.
From S2P Require Import Migration.
From S2P Require Import OpsFacts.
From S2P Require Import Invert.
From S2P Require Import LocalSet.
From S2P Require Import Deps.
From S2P Require Import History.
From S2P Require Import State.
From S2P Require Import Lifecycle.
From S2P Require Import LifecycleInv.

(** ** The log *)

Inductive event :=
  | EExec (sql : string)
  | ETransaction (sqls : list string)
  | EStarted (name : string)
  | EQueue (names : list string)
  | ESealed
  | ECleared (name : string)
  | ECompleted (name : string)
  | ERolledBack (name : string)
  | EDeleted (name : string)
  | EPruned (names : list string)
  | ETombstones (names : list string).

Definition is_write (e : event) : bool :=
  match e with EExec _ | ETransaction _ => true | _ => false end.

Record traced (D : Type) := mkTraced { tr_db : D; tr_log : list event }.
Arguments mkTraced {D} _ _.
Arguments tr_db {D} _.
Arguments tr_log {D} _.

Section traced.
Context {D : Type} `{!DB D} `{!StateStore D}.

(** The call [f], followed by the event [ev] of its result *)
Definition logged {A} (f : D → outcome error A * D) (ev : outcome error A → list event)
    (t : traced D) : outcome error A * traced D :=
  let '(r, d) := f (tr_db t) in (r, mkTraced d (tr_log t ++ ev r)).
Definition on_ok {A} (e : A → event) (r : outcome error A) : list event :=
  match r with Ok a => [e a] | _ => [] end.
Definition silently {A} (f : state_call D A) : state_call (traced D) A :=
  λ s, logged (f s) (λ _, []).

#[export] Instance traced_DB : DB (traced D) := {|
  ExecContext sql := logged (ExecContext sql) (λ _, [EExec sql]);
  QueryContext sql args := logged (QueryContext sql args) (λ _, []);
  WithRetryableTransaction sqls := logged (WithRetryableTransaction sqls) (λ _, [ETransaction sqls]);
  is_fake := is_fake;
  RetryBudget t := RetryBudget (tr_db t);
  expired t := let '(b, d) := expired (tr_db t) in (b, mkTraced d (tr_log t));
|}.

#[export] Instance traced_State : StateStore (traced D) := {|
  state_HasExistingSchemaWithoutHistory := silently state_HasExistingSchemaWithoutHistory;
  state_IsActiveMigrationPeriod := silently state_IsActiveMigrationPeriod;
  state_Start mig := λ s, logged (state_Start mig s) (on_ok (λ _, EStarted mig.(Migration_Name)));
  state_GetActiveMigration := silently state_GetActiveMigration;
  state_PreviousMigration := silently state_PreviousMigration;
  state_LatestMigration := silently state_LatestMigration;
  state_GetMigration name := silently (state_GetMigration name);
  state_ReadSchema := silently state_ReadSchema;
  state_SchemaAfterMigration name := silently (state_SchemaAfterMigration name);
  state_DeferredCompletes := λ s,
    logged (state_DeferredCompletes s) (on_ok (λ l, EQueue (Migration_Name <$> l)));
  state_HasSealedDeferred := silently state_HasSealedDeferred;
  state_MarkCompleteDeferred name := silently (state_MarkCompleteDeferred name);
  state_ClearCompleteDeferred name := λ s,
    logged (state_ClearCompleteDeferred name s) (on_ok (λ _, ECleared name));
  state_MarkSealed := λ s, logged (state_MarkSealed s) (on_ok (λ _, ESealed));
  state_RefreshResultingSchema name := silently (state_RefreshResultingSchema name);
  state_Complete name := λ s, logged (state_Complete name s) (on_ok (λ _, ECompleted name));
  state_Rollback name := λ s, logged (state_Rollback name s) (on_ok (λ _, ERolledBack name));
  state_SchemaHistory := silently state_SchemaHistory;
  state_SchemaHistoryWithInferred := silently state_SchemaHistoryWithInferred;
  state_CreateBaseline name := silently (state_CreateBaseline name);
  state_LatestBaseline := silently state_LatestBaseline;
  state_LatestVersion := silently state_LatestVersion;
  state_PreviousVersion := silently state_PreviousVersion;
  state_MigrationExists name := silently (state_MigrationExists name);
  state_UnsealedMigrations := silently state_UnsealedMigrations;
  state_DeleteMigration name := λ s,
    logged (state_DeleteMigration name s) (on_ok (λ _, EDeleted name));
  state_PruneRows names := silently (state_PruneRows names);
  state_Prune names := λ s, logged (state_Prune names s) (on_ok (λ _, EPruned names));
  state_Stamp mig sc parent ty := silently (state_Stamp mig sc parent ty);
  state_ConvertMigrationToBaseline name dry := silently (state_ConvertMigrationToBaseline name dry);
  state_RecordRevertedMigrations ts := λ s,
    logged (state_RecordRevertedMigrations ts s) (on_ok (λ _, ETombstones (Tombstone_Name <$> ts)));
  state_RevertedMigrations := silently state_RevertedMigrations;
  state_ClearRevertedMigrations names := silently (state_ClearRevertedMigrations names);
|}.
End traced.

Create HintDb lifecycle discriminated.

(** ** Reasoning about the log *)

Definition log {D} (w : World (traced D)) : list event := tr_log (w_db w).

(** [K] of the log as an invariant of worlds *)
Definition logs {D} (K : list event → Prop) (w : World (traced D)) : Prop := K (log w).

(** Every event of [W] comes after an event of [G]. *)
Definition ordered (W G : event → Prop) (l : list event) : Prop :=
  ∀ pre e post, l = pre ++ e :: post → W e → ∃ g, g ∈ pre ∧ G g.

Definition without (W : event → Prop) (l : list event) : Prop := ∀ e, e ∈ l → ¬ W e.
Definition unlocked (W G : event → Prop) (l : list event) : Prop :=
  ordered W G l ∧ ∃ g, g ∈ l ∧ G g.

Lemma without_ordered W G l : without W l → ordered W G l.
Proof.
  intros Hl pre e post -> HW. destruct (Hl e); [|done]. apply elem_of_app. right. left.
Qed.
Lemma ordered_snoc W G l e :
  ordered W G l → (W e → ∃ g, g ∈ l ∧ G g) → ordered W G (l ++ [e]).
Proof.
  intros Hl He pre e' post Heq HW. destruct post as [|e2 post] using rev_ind.
  - apply app_inj_tail in Heq as [<- <-]. auto.
  - rewrite app_comm_cons, app_assoc in Heq. apply app_inj_tail in Heq as [-> _]. by eapply Hl.
Qed.
Lemma ordered_app W G l l' :
  ordered W G l → (∃ g, g ∈ l ∧ G g) → ordered W G (l ++ l').
Proof.
  intros Hl Hg. induction l' as [|e l' IH] using rev_ind; [by rewrite app_nil_r|].
  rewrite app_assoc. apply ordered_snoc; [done|]. intros _. destruct Hg as (g & Hin & HG).
  exists g. split; [|done]. apply elem_of_app. by left.
Qed.
Lemma unlocked_app W G l l' : unlocked W G l → unlocked W G (l ++ l').
Proof.
  intros [Ho (g & Hin & HG)]. split; [apply ordered_app; eauto|]. exists g.
  split; [|done]. apply elem_of_app. by left.
Qed.
Lemma without_app W l l' : without W l → without W l' → without W (l ++ l').
Proof. intros H1 H2 e [?|?]%elem_of_app; eauto. Qed.
Lemma unlock W G l g : ordered W G l → ¬ W g → G g → unlocked W G (l ++ [g]).
Proof.
  intros Hl HW HG. split; [by apply ordered_snoc|]. exists g. split; [|done].
  apply elem_of_app. right. left.
Qed.

(** ** What keeps a property of the log

    [Writable K]: statements keep [K]; [Growing K]: every event does. *)

Class Writable (K : list event → Prop) : Prop :=
  writable l e : is_write e = true → K l → K (l ++ [e]).
Class Growing (K : list event → Prop) : Prop :=
  growing l l' : K l → K (l ++ l').
#[export] Instance growing_writable K `{HK : !Growing K} : Writable K.
Proof. intros l e _. apply HK. Qed.
#[export] Hint Extern 1 (Writable _) => apply _ : pgroll.
#[export] Hint Extern 1 (Growing _) => apply _ : pgroll.

#[export] Instance unlocked_growing W G : Growing (unlocked W G).
Proof. intros l l'. apply unlocked_app. Qed.

#[export] Instance logs_db {D} K : DbInv (logs (D := D) K).
Proof. intros w w' Hw. unfold logs, log. by rewrite Hw. Qed.
#[export] Instance logs_schema_inv {D} K : SchemaInv (logs (D := D) K).
Proof. apply (db_schema_inv (λ t : traced D, K (tr_log t))). Qed.
#[export] Hint Resolve logs_schema_inv : pgroll.

Section silent.
Context `{!Pq} {D : Type} `{!DB D} `{!StateStore D} (m : Roll (traced D)).
Context (K : list event → Prop).

(** Calls that only read add nothing to the log. *)
Lemma pres_silent {A} (f : state_call D A) : pres (logs K) (from_state m (silently f)).
Proof.
  intros w Hw. unfold from_state, on_state, silently, logged.
  destruct (f (Roll_schema m) (tr_db (w_db w))) as [r d]. cbn. unfold logs, log in *. cbn.
  by rewrite app_nil_r.
Qed.
Lemma pres_traced_query sql args : pres (logs K) (query sql args : M (traced D) _).
Proof.
  intros w Hw. unfold query. cbn. unfold logged.
  destruct (QueryContext sql args (tr_db (w_db w))) as [r d]. unfold logs, log in *. cbn.
  by rewrite app_nil_r.
Qed.
Hint Resolve pres_traced_query : pgroll.
Lemma pres_hasVersionSchema_logs live : pres (logs K) (hasVersionSchema m live).
Proof. apply pres_hasVersionSchema, pres_traced_query. Qed.
Lemma pres_latestMigration : pres (logs K) (latestMigration m).
Proof. apply pres_wrap_err, pres_silent. Qed.
Lemma pres_loadLatest n : pres (logs K) (loadLatest m n).
Proof. apply pres_wrap_err, (pres_silent (state_GetMigration n)). Qed.
Hint Resolve pres_hasVersionSchema_logs : pgroll.
Lemma pres_checkContraction force live queued :
  pres (logs K) (checkContraction m force live queued).
Proof.
  unfold checkContraction. apply pres_bind; [apply (pres_silent state_HasSealedDeferred)|].
  pres_steps.
Qed.
Lemma pres_checkPreconditions ps s : pres (logs K) (ValidateDBPreconditions ps s : M (traced D) _).
Proof.
  unfold ValidateDBPreconditions, validateDBPrecondition, validateFunctionExists,
    validateTypeExists, matchFunction, enumValues. pres_steps.
Qed.
End silent.
#[export] Hint Resolve pres_traced_query pres_hasVersionSchema_logs pres_latestMigration pres_loadLatest
  pres_checkContraction pres_checkPreconditions : pgroll.

Lemma pres_logged {D A} `{!DB D} (m : Roll (traced D)) K (f : state_call (traced D) A)
    (g : state_call D A) ev :
  (∀ s t, f s t = logged (g s) ev t) → (∀ l r, K l → K (l ++ ev r)) →
  pres (logs K) (from_state m f).
Proof.
  intros Hf HK w Hw. unfold from_state, on_state. rewrite Hf. unfold logged.
  destruct (g (Roll_schema m) (tr_db (w_db w))) as [r d]. by apply HK.
Qed.

(** A call that logs its success, in a run that has to end in [S] *)
Lemma leads_logged {D A} `{!DB D} (m : Roll (traced D)) (S I : World (traced D) → Prop)
    (f : state_call D A) (e : A → event) (Q : A → World (traced D) → Prop) :
  (∀ w w', I w → log w' = log w → S w') →
  (∀ a w w', I w → log w' = log w ++ [e a] → Q a w') →
  leads S I (from_state m (λ s, logged (f s) (on_ok e))) Q.
Proof.
  intros HS HQ w Hw. unfold from_state, on_state, logged.
  destruct (f (Roll_schema m) (tr_db (w_db w))) as [[a|e'| |] d]; cbn;
    [by apply (HQ a w)|..]; apply (HS w); [done| |done| |done|]; unfold log; cbn;
    by rewrite app_nil_r.
Qed.

(** The steps that execute statements *)
Section writes.
Context `{!Pq} {D : Type} `{!DB D} `{!StateStore D} (m : Roll (traced D)).
Context (K : list event → Prop) {HK : Writable K}.

#[export] Instance logs_inv : StoreInv (logs (D := D) K).
Proof.
  apply (db_inv (λ t : traced D, K (tr_log t))).
  - intros sql t Ht. cbn. unfold logged. destruct (ExecContext sql (tr_db t)). by apply HK.
  - intros sql args t Ht. cbn. unfold logged. destruct (QueryContext sql args (tr_db t)).
    cbn. by rewrite app_nil_r.
  - intros sqls t Ht. cbn. unfold logged. destruct (WithRetryableTransaction sqls (tr_db t)).
    by apply HK.
  - intros t Ht. cbn. by destruct (expired (tr_db t)).
Qed.
Hint Resolve logs_inv : pgroll.

Ltac read_schema := apply (pres_silent m K state_ReadSchema).

Lemma pres_applyDeferredComplete fuel dm : pres (logs K) (applyDeferredComplete m fuel dm).
Proof. unfold applyDeferredComplete. pres_steps. read_schema. Qed.
Lemma pres_dropStaleSchemas : pres (logs K) (dropStaleSchemas m).
Proof. unfold dropStaleSchemas, dropOldVersionSchemas. pres_steps. Qed.
End writes.
#[export] Hint Resolve logs_inv pres_applyDeferredComplete pres_dropStaleSchemas : pgroll.

(** The caller's programs (hooks, the backfill's methods) may do anything but
    take events back. *)
Definition appends {D} (f : M (traced D) ()) : Prop := ∀ w, ∃ ev, log (f w).2 = log w ++ ev.
Definition hook_appends {D} (h : option (M (traced D) ())) : Prop :=
  match h with Some f => appends f | None => True end.

Section closed.
Context `{!Pq} {D : Type} `{!DB D} `{!StateStore D} (m : Roll (traced D)).
Context (K : list event → Prop) {HK : Growing K}.

Ltac state_call f :=
  eapply (pres_logged m K _ f); [reflexivity|intros; by apply HK].
Ltac lifecycle_steps :=
  repeat first
    [ progress pres_steps
    | apply (pres_silent m K)
    | eapply (pres_logged m K); [reflexivity|intros; by apply HK]
    | apply pres_with_defer ].

Lemma pres_appends f : appends f → pres (logs K) (f : M (traced D) ()).
Proof. intros Hf w Hw. destruct (Hf w) as [ev Hev]. unfold logs. rewrite Hev. by apply HK. Qed.
Lemma pres_run_hook h f : hook_appends h → pres (logs (D := D) K) (run_hook h f).
Proof.
  intros Hh. unfold run_hook. destruct h as [p|]; [|apply pres_ret].
  by apply pres_wrap_err, pres_appends.
Qed.
Lemma pres_deferred_hook h : hook_appends h → pres (logs (D := D) K) (deferred_hook h).
Proof.
  intros Hh. unfold deferred_hook. destruct h as [p|]; [|apply pres_ret].
  apply pres_bind; [|intros; apply pres_ret]. by apply pres_try, pres_appends.
Qed.

Lemma pres_clearCompleteDeferred dm : pres (logs K) (clearCompleteDeferred m dm).
Proof. unfold clearCompleteDeferred. lifecycle_steps. Qed.
Hint Resolve pres_clearCompleteDeferred : pgroll.
Lemma pres_drain fuel dm : pres (logs K) (drainDeferredMigration m fuel dm).
Proof. unfold drainDeferredMigration. lifecycle_steps. Qed.
#[export] Instance logs_read : ReadInv m (logs (D := D) K).
Proof.
  split; try apply _; intros; first
    [apply (pres_silent m K) | eapply (pres_logged m K); [reflexivity|intros; by apply HK]].
Qed.
Hint Resolve logs_read : pgroll.
Lemma pres_completeDDL fuel mig o b : pres (logs K) (completeDDL m fuel mig o b).
Proof. unfold completeDDL. lifecycle_steps. Qed.
Hint Resolve pres_drain pres_completeDDL : pgroll.
Lemma pres_contractSealed fuel live init last_ :
  pres (logs K) (contractSealed m fuel live init last_).
Proof. unfold contractSealed, dropOldVersionSchemas. lifecycle_steps. Qed.
Lemma pres_drainSealed fuel mig queued b : pres (logs K) (drainSealed m fuel mig queued b).
Proof. unfold drainSealed. lifecycle_steps. Qed.
Lemma pres_completeActive fuel mig o b :
  hook_appends (BeforeCompleteDDL m) → hook_appends (AfterCompleteDDL m) →
  pres (logs K) (completeActive m fuel mig o b).
Proof.
  intros Hb Ha. pose proof (λ f, pres_run_hook _ f Hb). pose proof (pres_deferred_hook _ Ha).
  unfold completeActive, readSchemaWithDeferred. lifecycle_steps; auto.
Qed.
End closed.

