(* ===== verification/MemState.v ===== *)
(** * MemState: a database in memory

    A catalog ([Catalog.v]) and the version schemas under the store of
    [History.v]: enough of PostgreSQL to run the lifecycle on concrete
    migrations. *)

From S2P Require Import Prelude.
From S2P Require Import GoStd.
From S2P Require Import Names.
From S2P Require Import Schema.
From S2P Require Import Types.
From S2P Require Import Db.
From S2P Require Import SqlWriter.
From S2P Require Import Actions.
From S2P Require Import Catalog.
From S2P Require Import Backfill.
From S2P Require Import OpsBase.
From S2P Require Import Operations.
From S2P Require Import Migration.
From S2P Require Import Invert.
From S2P Require Import LocalSet.
From S2P Require Import OpsJson.
From S2P Require Import History.
From S2P Require Import HistorySpec.
From S2P Require Import State.
From S2P Require Import Lifecycle.

(** [mem_read] is what [read_schema] returns for a catalog. *)
Record mem := mkMem {
  mem_catalog : PgCatalog;
  mem_schemas : list string;
  mem_read : PgCatalog → snapshot;
}.

Definition set_mem_schemas (f : list string → list string) (d : mem) : mem :=
  mkMem d.(mem_catalog) (f d.(mem_schemas)) d.(mem_read).

Definition mem_schema_statement (prefix sql : string) : option string :=
  rest ← pg_expect prefix sql; '(n, _) ← pg_ident rest; Some n.

(** SQL's LIKE: [%] stands for any string, [_] for any one character. *)
Fixpoint sql_like (p s : string) : bool :=
  match p with
  | "" => String.eqb s ""
  | String "%" p =>
      (fix any (s : string) : bool :=
         sql_like p s || match s with String _ s => any s | "" => false end) s
  | String "_" p => match s with String _ s => sql_like p s | "" => false end
  | String "\" (String c p) | String c p =>
      match s with String c' s => Ascii.eqb c c' && sql_like p s | "" => false end
  end.

#[export] Instance mem_DB : DB mem := {|
  ExecContext sql d :=
    match mem_schema_statement "DROP SCHEMA IF EXISTS " sql,
          mem_schema_statement "CREATE SCHEMA IF NOT EXISTS " sql with
    | Some n, _ => (Ok (), set_mem_schemas (filter (λ s, s ≠ n)) d)
    | _, Some n => (Ok (), set_mem_schemas (λ l, filter (λ s, s ≠ n) l ++ [n]) d)
    | _, _ =>
        let '(r, c) := ExecContext sql d.(mem_catalog) in
        (r, mkMem c d.(mem_schemas) d.(mem_read))
    end;
  QueryContext sql args d :=
    if HasPrefix sql "SELECT schema_name" then
      let pattern := default "" (head args) in
      (Ok (Some (mkRows ((λ s, [VString s]) <$>
         filter (λ s, sql_like pattern s = true) d.(mem_schemas)) None)), d)
    else ((QueryContext sql args d.(mem_catalog)).1, d);
  WithRetryableTransaction _ d := (Ok (), d);
  is_fake := false;
  RetryBudget _ := 0%Z;
  expired d := (true, d);
|}.

#[export] Instance mem_Catalogue : Catalogue mem := {|
  catalogue_name_le := String.leb;
  catalogue_read_schema _ d := Ok (mem_read d (mem_catalog d));
  catalogue_schemata d := mem_schemas d;
|}.

(** A decoder for directories whose migrations have no operations *)
Definition no_operations_json : OperationJson := {|
  json_syntax _ := None;
  json_objects _ := Some [];
  json_decode op _ := Ok op;
  json_encode _ := Ok "{}";
|}.

(** The store: migrations are kept as they are; the text of the operations is
    the name. *)
#[export] Instance mem_Json : Json Migration := {|
  json_Marshal m := Ok m;
  json_MarshalRaw m := Ok (mkMigration (RawMigration_Name m) (RawMigration_VersionSchema m) []
    (RawMigration_DependsOn m) (RawMigration_Preconditions m) (RawMigration_Irreversible m)
    (RawMigration_Baseline m) (targets_of m) (RawMigration_RevertOf m));
  json_Unmarshal m := Ok m;
  json_UnmarshalRaw m := Ok (mkRawMigration (Migration_Name m) (Migration_VersionSchema m) (Migration_Name m)
    (Migration_DependsOn m) (Migration_Preconditions m) (Migration_Irreversible m)
    (Migration_Baseline m) (Some (Migration_Targets m)) (Migration_RevertOf m));
  json_version_schema m :=
    if decide (Migration_VersionSchema m = "") then None else Some (Migration_VersionSchema m);
  json_operation_count m := length (Migration_Operations m);
|}.
Abbreviation mem_store := (Store Migration mem).

(** ** A deployment: one table and a schema reader *)

(** The reader: one table [users] with the columns of the catalog *)
Definition mem_users (c : PgCatalog) : snapshot :=
  ({[1%positive := mkTable "1" "users" ""
       (list_to_map ((λ tc : string * string,
          (tc.2, Some (mkColumn tc.2 "int" None true false "" [] false "int" ""))) <$>
          elements (pg_columns c)))
       ∅ ["id"] ∅ ∅ ∅ ∅ false false]},
   mkSchema "public" {["users" := 1%positive]} "" ∅).

Definition mem_roll {D} : Roll D :=
  mkRoll D "public" false "" false false 15 None None None None.

Definition rename_migration (name from to : string) : Migration :=
  mkMigration name "" [RenameColumn_ (mkOpRenameColumn from "users" to)] [] [] false false [] "".

Fixpoint mem_entries (t : Z) (migs : list (Migration * status)) : list (entry Migration) :=
  match migs with
  | [] => []
  | (m, s) :: migs =>
      mkEntry m.(Migration_Name) m t None MigrationTypePgroll s :: mem_entries (t + 1) migs
  end.
(** A database and its history *)
Definition mem_of (d : mem) (migs : list (Migration * status)) : mem_store :=
  mkStore d {["public" := rows_of (mem_entries 0 migs)]} ∅ Z.of_nat (length migs).

(** Two applied migrations whose completions are queued *)
Definition mem_db : mem :=
  mkMem (mkPgCatalog {["users"]} {[("users", "id"); ("users", "a")]} ∅ ∅)
    ["public_01"; "public_02_ab"; "public_03_bc"] mem_users.
Definition mem_queue : list (Migration * status) :=
  [(rename_migration "02_ab" "a" "b", Deferred); (rename_migration "03_bc" "b" "c", Deferred)].
Definition mem_deployment : mem_store := mem_of mem_db mem_queue.

(** The entries are a history when only the last can be active. *)
Lemma mem_entries_in t migs e :
  e ∈ mem_entries t migs →
  (t ≤ e_time e < t + Z.of_nat (length migs))%Z ∧ e_type e = MigrationTypePgroll ∧
  (Migration_Name (e_body e), e_status e) ∈ prod_map Migration_Name id <$> migs.
Proof.
  revert t. induction migs as [|[mig s] migs IH]; intros t; cbn; [by intros ?%elem_of_nil|].
  intros [->|(H1 & H2 & H3)%IH]%elem_of_cons; split_and!; cbn; try lia; try done;
    [left|by right].
Qed.
Lemma mem_entries_names t migs : e_names (mem_entries t migs) = Migration_Name <$> migs.*1.
Proof.
  revert t. induction migs as [|[mig s] migs IH]; intros t; [done|].
  unfold e_names in *. cbn. by rewrite IH.
Qed.
Lemma mem_entries_wf migs :
  NoDup (Migration_Name <$> migs.*1) →
  (∀ pre e post, mem_entries 0 migs = pre ++ e :: post → e_status e = Active → post = []) →
  history_wf Z.of_nat (length migs) (mem_entries 0 migs).
Proof.
  intros Hn Ha. split; [by rewrite mem_entries_names| | |done| |].
  - clear. generalize 0%Z. induction migs as [|[mig s] migs IH]; intros t; cbn; constructor; [apply IH|].
    apply Forall_fmap, Forall_forall. intros e He%mem_entries_in. cbn. lia.
  - intros e t He%mem_entries_in Ht. lia.
  - intros e (_ & -> & _)%mem_entries_in. left.
  - by intros e (_ & -> & _)%mem_entries_in.
Qed.
