(* ===== verification/LifecycleFacts.v ===== *)
(** * LifecycleFacts: the order of the lifecycle's effects

    What the log of a run shows of completion and contraction, and runs on the
    database in memory. *)

From S2P Require Import Prelude.
From S2P Require Import GoStd.
From S2P Require Import Names.
From S2P Require Import Schema.
From S2P Require Import Types.
From S2P Require Import Db.
From S2P Require Import WorldFacts.
From S2P Require Import SqlWriter.
From S2P Require Import Actions.
From S2P Require Import Duplicate.
From S2P Require Import Coordinator.
From S2P Require Import Backfill.
From S2P Require Import OpsBase.
From S2P Require Import Operations.
From S2P Require Import Preconditions.
From S2P Require Import Migration.
From S2P Require Import OpsFacts.
From S2P Require Import Invert.
From S2P Require Import LocalSet.
From S2P Require Import Deps.
From S2P Require Import History.
From S2P Require Import HistorySpec.
From S2P Require Import State.
From S2P Require Import Lifecycle.
From S2P Require Import LifecycleInv.
From S2P Require Import Trace.
From S2P Require Import Catalog.
From S2P Require Import MemState.

(** ** Sealed before contracted *)

(** What a completion retires before it drains the queue: the schemas the
    catalog lists under the pattern, but the one of the active migration *)
Definition retired `{!Pq} {D} `{!DB D} `{!StateStore D} (m : Roll D) (w : World D) : list string :=
  match from_state m state_GetActiveMigration w with
  | (Ok mig, w1) =>
      match versionSchemaNames m w1 with
      | (Ok names, _) =>
          filter (λ s, s ∉ [VersionedSchemaName (Roll_schema m) (VersionSchemaName mig)]) names
      | _ => []
      end
  | _ => []
  end.

(** A write other than the drop of one of [schemas] *)
Definition contracts `{!Pq} (schemas : list string) (e : event) : Prop :=
  is_write e = true ∧ ∀ s, s ∈ schemas → e ≠ EExec (dropSchemaSQL s).

Section sealing.
Context `{!Pq} {D : Type} `{!DB D} `{!StateStore D} (m : Roll (traced D)).
Context (W G : event → Prop) (HW : ∀ e, W e → is_write e = true).

Let S : World (traced D) → Prop := logs (ordered W G).
Let before : World (traced D) → Prop := logs (without W).
Let after : World (traced D) → Prop := logs (unlocked W G).

Lemma before_S w : before w → S w.
Proof. apply without_ordered. Qed.
Lemma after_S w : after w → S w.
Proof. by intros [? _]. Qed.
Lemma before_silent w w' : before w → log w' = log w → S w'.
Proof. unfold S, logs. intros Hw ->. by apply before_S. Qed.
Lemma HnW e : is_write e = false → ¬ W e.
Proof. intros He ?%HW. congruence. Qed.

Lemma leads_MarkSealed : G ESealed → leads S before (from_state m state_MarkSealed) (λ _, after).
Proof.
  intros Hg. apply leads_logged; [apply before_silent|].
  intros _ w w' Hw Hl. unfold after, logs. rewrite Hl.
  apply unlock; [by apply without_ordered|by apply HnW|done].
Qed.
Lemma leads_Queue :
  leads S before (from_state m state_DeferredCompletes)
    (λ l w, before w ∧ (G (EQueue (Migration_Name <$> l)) → after w)).
Proof.
  apply leads_logged; [apply before_silent|].
  intros l w w' Hw Hl. unfold before, after, logs. rewrite Hl.
  split; [|intros Hg; apply unlock; [by apply without_ordered|by apply HnW|done]].
  apply without_app; [done|]. intros e He. apply list_elem_of_singleton in He as ->. by apply HnW.
Qed.
Lemma leads_before {A} (p : M (traced D) A) : pres before p → leads S before p (λ _, before).
Proof. intros Hp. by apply leads_pres, before_S. Qed.
Lemma leads_after {A} (p : M (traced D) A) : pres after p → leads S after p (λ _, after).
Proof. intros Hp. by apply leads_pres, after_S. Qed.

End sealing.

Section theorems.
Context `{!Pq} {D : Type} `{!DB D} `{!StateStore D}.

Lemma log_exec sql (w : World (traced D)) : log (exec sql w).2 = log w ++ [EExec sql].
Proof.
  unfold exec. cbn. unfold logged. by destruct (ExecContext sql (tr_db (w_db w))) as [r d].
Qed.

Lemma contracts_write schemas e : contracts schemas e → is_write e = true.
Proof. by intros [? _]. Qed.

(** The drops of a list of schemas are the only writes before the drain. *)
Lemma pres_drops (schemas : list string) (f : string → error → error) :
  pres (logs (without (contracts schemas)))
    (for_each (λ s, wrap_err (f s) (exec (dropSchemaSQL s))) schemas : M (traced D) ()).
Proof.
  apply pres_for_each_in. intros s Hs. apply pres_wrap_err. intros w Hw. unfold logs. rewrite log_exec.
  apply without_app; [done|]. intros e He [_ Hne].
  apply list_elem_of_singleton in He as ->. by apply (Hne s).
Qed.

Lemma versionSchemaNames_log (m : Roll (traced D)) w : log (versionSchemaNames m w).2 = log w.
Proof.
  by apply (pres_queryNames (logs (λ l, l = log w)) (pres_traced_query (λ l, l = log w))).
Qed.

(** The cleanup of a completion, from the world [GetActiveMigration] leaves *)
Lemma cleanup_retires (m : Roll (traced D)) w w1 mig :
  log w = [] → from_state m state_GetActiveMigration w = (Ok mig, w1) →
  logs (without (contracts (retired m w)))
    (DropVersionSchemasExcept m [VersionSchemaName mig] w1).2.
Proof.
  intros Hw Hg.
  assert (log w1 = []) as H1.
  { pose proof (pres_silent m (λ l, l = []) state_GetActiveMigration w Hw) as Hp.
    change (from_state m (silently state_GetActiveMigration))
      with (from_state m (state_GetActiveMigration (D := traced D))) in Hp. by rewrite Hg in Hp. }
  unfold retired. rewrite Hg. unfold DropVersionSchemasExcept, mbind, prog_bind.
  pose proof (versionSchemaNames_log m w1) as Hl. rewrite H1 in Hl.
  destruct (versionSchemaNames m w1) as [[names|e| |] w2]; cbn [snd] in Hl |- *;
    [|unfold logs; rewrite Hl; by intros e' ?%elem_of_nil..].
  apply pres_drops. unfold logs. rewrite Hl. by intros e' ?%elem_of_nil.
Qed.

Lemma leads_drainQueue (m : Roll (traced D)) fuel mig schemas :
  let G e := e = ESealed ∨ e = EQueue [] in
  leads (logs (ordered (contracts schemas) G)) (logs (without (contracts schemas)))
    (drainQueue m fuel mig) (λ _, logs (unlocked (contracts schemas) G)).
Proof.
  intros G. set (W := contracts schemas). pose proof (contracts_write schemas) as HW.
  unfold drainQueue. eapply leads_bind.
  { apply leads_wrap_err, (leads_Queue m W G HW). }
  intros queued. destruct (decide (queued = [])) as [->|Hq]; cbn beta.
  { apply leads_ret. intros w [_ Hw]. apply Hw. by right. }
  eapply leads_weaken with (I' := logs (without W));
    [|by intros w [? _]|intros a w Hw; exact Hw].
  eapply leads_bind.
  { apply (leads_MarkSealed m W G HW). by left. }
  intros ?. apply (leads_after W G), (pres_drainSealed m (unlocked W G)).
Qed.

Lemma FinishContraction_ordered (m : Roll (traced D)) w fuel force :
  log w = [] →
  ordered (λ e, is_write e = true) (λ e, e = ESealed) (log (FinishContraction m fuel force w).2).
Proof.
  intros Hw. set (W e := is_write e = true). set (G e := e = ESealed).
  apply (leads_end (logs (ordered W G)) (logs (without W)) _
           (λ _, logs (unlocked W G))); [|by intros ? ? [? _]|unfold logs; rewrite Hw; by intros e ?%elem_of_nil].
  unfold FinishContraction. eapply leads_bind.
  { apply leads_wrap_err, (leads_Queue m W G (λ _ h, h)). }
  intros queued. eapply leads_weaken with (I' := logs (without W));
    [|by intros ? [? _]|intros a ? Hx; exact Hx].
  destruct (last queued) as [last_|].
  + eapply leads_bind; [apply leads_before, (pres_latestMigration m (without W))|].
    intros [name|]; [|intros w0 Hw0; by apply without_ordered].
    eapply leads_bind; [apply leads_before, (pres_loadLatest m (without W))|]. intros live.
    eapply leads_bind; [apply leads_before, (pres_checkContraction m (without W))|]. intros ?.
    eapply leads_bind; [by apply (leads_MarkSealed m W G (λ _ h, h))|]. intros ?.
    apply (leads_after W G), (pres_contractSealed m (unlocked W G)).
  + eapply leads_bind; [by apply (leads_MarkSealed m W G (λ _ h, h))|]. intros ?.
    apply (leads_after W G). apply pres_bind; [|intros; apply pres_ret].
    apply (pres_dropStaleSchemas m (unlocked W G)).
Qed.

(** From the drain on *)
Lemma leads_drained (m : Roll (traced D)) fuel o mig schemas :
  hook_appends (BeforeCompleteDDL m) → hook_appends (AfterCompleteDDL m) →
  let G e := e = ESealed ∨ e = EQueue [] in
  leads (logs (ordered (contracts schemas) G)) (logs (without (contracts schemas)))
    (b ← drainQueue m fuel mig; completeActive m fuel mig o b)
    (λ _, logs (ordered (contracts schemas) G)).
Proof.
  intros Hb Ha G. eapply leads_bind; [apply leads_drainQueue|]. intros b.
  eapply leads_weaken; [|by intros ? Hx; exact Hx|].
  + apply (leads_after (contracts schemas) G),
      (pres_completeActive m (unlocked (contracts schemas) G)); done.
  + by intros ? ? [? _].
Qed.

Lemma Complete_ordered (m : Roll (traced D)) w fuel o :
  log w = [] → hook_appends (BeforeCompleteDDL m) → hook_appends (AfterCompleteDDL m) →
  co_skipSchemaDrop o = false → co_deferComplete o = false →
  ordered (contracts (if Roll_disableVersionSchemas m then [] else retired m w))
    (λ e, e = ESealed ∨ e = EQueue []) (log (Roll_Complete m fuel o w).2).
Proof.
  intros Hw Hb Ha Ho Hd. match goal with |- ordered (contracts ?l) _ _ => set (schemas := l) end.
  set (G e := e = ESealed ∨ e = EQueue []).
  apply (leads_end (logs (ordered (contracts schemas) G)) (λ w0, w0 = w) _
           (λ _, logs (ordered (contracts schemas) G))); [|done|done].
  unfold Roll_Complete. rewrite Ho, Hd. cbn [negb andb].
  assert (logs (without (contracts schemas)) w) as Hw0.
  { unfold logs. rewrite Hw. by intros e ?%elem_of_nil. }
  eapply leads_bind with (R := λ mig w1, from_state m state_GetActiveMigration w = (Ok mig, w1) ∧
    logs (without (contracts schemas)) w1).
  { intros w0 ->. pose proof (pres_silent m (without (contracts schemas)) state_GetActiveMigration w Hw0) as Hp.
    change (from_state m (silently state_GetActiveMigration))
      with (from_state m (state_GetActiveMigration (D := traced D))) in Hp.
    unfold wrap_err. destruct (from_state m state_GetActiveMigration w) as [[mig|e| |] w1];
      [done|by apply without_ordered..]. }
  intros mig. eapply leads_bind; [|intros ?; by apply leads_drained].
  subst schemas. destruct (Roll_disableVersionSchemas m); cbn [negb].
  { apply leads_ret. by intros ? [_ ?]. }
  intros w1 [Hg _]. pose proof (cleanup_retires m w w1 mig Hw Hg) as Hc.
  unfold wrap_err. destruct (DropVersionSchemasExcept m [VersionSchemaName mig] w1) as [[[]|e| |] w2];
    [done|by apply without_ordered..].
Qed.

Lemma Complete_deferred (m : Roll (traced D)) w fuel o :
  log w = [] → co_deferComplete o = true →
  without (λ e, is_write e = true) (log (Roll_Complete m fuel o w).2).
Proof.
  intros Hw Ho. unfold Roll_Complete. rewrite Ho.
  set (W e := is_write e = true).
  assert (pres (logs (without W))
    (mig ← wrap_err (ErrorfW "unable to get active migration: %w" [])
            (from_state m state_GetActiveMigration);
     wrap_err (ErrorfW "unable to mark migration as complete-deferred: %w" [])
       (from_state m (state_MarkCompleteDeferred mig.(Migration_Name))))) as Hp.
  { apply pres_bind; [apply pres_wrap_err, (pres_silent m (without W) state_GetActiveMigration)|].
    intros mig. apply pres_wrap_err, (pres_silent m (without W) (state_MarkCompleteDeferred _)). }
  apply Hp. unfold logs. rewrite Hw. by intros e ?%elem_of_nil.
Qed.

(** C8. No queued completion is contracted before the deployment is sealed.
    In every run of [FinishContraction], crashed or not, no statement at all is
    executed before the deployment is marked sealed.  In every run of a
    [Complete] that cleans up and is not deferred, the only statements before
    that mark are drops of [retired] schemas, those the catalog lists under the
    pattern of this schema's version schemas, the active migration's own
    excepted; unless the run has found the queue of completions empty, in which
    case what follows is the active migration's own completion alone.  And a
    deferred [Complete] executes no statement. *)
Theorem sealed_before_contraction (m : Roll (traced D)) (w : World (traced D)) :
  log w = [] → hook_appends (BeforeCompleteDDL m) → hook_appends (AfterCompleteDDL m) →
  (∀ fuel force,
     ordered (λ e, is_write e = true) (λ e, e = ESealed) (log (FinishContraction m fuel force w).2)) ∧
  (∀ fuel o, co_skipSchemaDrop o = false → co_deferComplete o = false →
     ordered (contracts (if Roll_disableVersionSchemas m then [] else retired m w))
       (λ e, e = ESealed ∨ e = EQueue []) (log (Roll_Complete m fuel o w).2)) ∧
  (∀ fuel o, co_deferComplete o = true →
     without (λ e, is_write e = true) (log (Roll_Complete m fuel o w).2)).
Proof.
  intros Hw Hb Ha. split_and!; intros.
  - by apply FinishContraction_ordered.
  - by apply Complete_ordered.
  - by apply Complete_deferred.
Qed.
End theorems.

(** ** Runs on a database in memory *)

Definition mem_world (d : mem_store) : World (traced mem_store) := mkWorld New ∅ (mkTraced d []) 0.

(** The contraction of two queued renames: sealed first, then both drained *)
Lemma sealed_before_contraction_witness :
  let w' := (FinishContraction mem_roll 1 false (mem_world mem_deployment)).2 in
  log w' = [EQueue ["02_ab"; "03_bc"]; ESealed;
    EExec (dropSchemaSQL "public_01"); EExec (dropSchemaSQL "public_02_ab");
    EExec (renameColumnSQL "users" "a" "b"); ECleared "02_ab";
    EExec (renameColumnSQL "users" "b" "c"); ECleared "03_bc"; ESealed] ∧
  ordered (λ e, is_write e = true) (λ e, e = ESealed) (log w').
Proof.
  split; [vm_compute; reflexivity|].
  exact (proj1 (sealed_before_contraction mem_roll (mem_world mem_deployment) eq_refl I I) 1 false).
Defined.

(** Two renames of one column in one migration complete once; interrupted
    between their statements and the mark in the history, the completion fails
    at every later attempt: the first rename finds neither its source nor its
    target. *)
Definition chained_renames : Migration :=
  mkMigration "04_abc" "" [RenameColumn_ (mkOpRenameColumn "a" "users" "b");
    RenameColumn_ (mkOpRenameColumn "b" "users" "c")] [] [] false false [] "".
Definition chained_deployment : mem_store :=
  mem_of (mkMem (mem_catalog mem_db) ["public_04_abc"] mem_users) [(chained_renames, Active)].

Lemma chained_renames_wedge :
  let o := mkCompleteOptions false false in
  let w := mem_world chained_deployment in
  let w1 := (applyDeferredComplete mem_roll 1 chained_renames w).2 in
  (Roll_Complete mem_roll 1 o w).1 = Ok () ∧
  (applyDeferredComplete mem_roll 1 chained_renames w).1 = Ok () ∧
  is_ok (Roll_Complete mem_roll 1 o w1).1 = false ∧
  (Roll_Complete mem_roll 1 o (Roll_Complete mem_roll 1 o w1).2).1 =
    (Roll_Complete mem_roll 1 o w1).1.
Proof. vm_compute. done. Qed.

(** When the rename was done before the interruption, collecting its actions
    again leaves a nil column under the new name, and the next operation on
    that column dereferences it. *)
Definition rename_then_alter : Migration :=
  mkMigration "05_ab" "" [RenameColumn_ (mkOpRenameColumn "a" "users" "b");
    AlterColumn_ (mkOpAlterColumn None "b" Unspecified Unspecified "b" None None "users"
                    (Some "bigint") None "b")] [] [] false false [] "".

Lemma rerun_rename_panics :
  let d := mem_of (mkMem (mkPgCatalog {["users"]} {[("users", "id"); ("users", "b")]} ∅ ∅)
             ["public_05_ab"] mem_users) [(rename_then_alter, Active)] in
  (Roll_Complete mem_roll 1 (mkCompleteOptions false false) (mem_world d)).1 = Panic.
Proof. vm_compute. reflexivity. Qed.

(** The pattern of [DropVersionSchemasExcept] is [schema_%], in which the
    underscore matches any character: a schema that is none of pgroll's is
    dropped with its contents. *)
Lemma cleanup_drops_unrelated_schema :
  let d := mem_of (mkMem (mem_catalog mem_db) ["public_03_bc"; "publicity"] mem_users) mem_queue in
  EExec (dropSchemaSQL "publicity") ∈ log (FinishContraction mem_roll 1 false (mem_world d)).2 ∧
  HasPrefix "publicity" "public_" = false.
Proof.
  split; [|reflexivity]. apply list_elem_of_In. vm_compute. auto.
Qed.
