(* ===== verification/HistoryLogic.v ===== *)
(** * HistoryLogic: programs over the store, by the history they leave

    [hist es]: the store's table of the roll's schema represents [es].
    Statements keep it; a call of the state store moves it as [run_spec]
    says. *)

From S2P Require Import Prelude.
From S2P Require Import GoStd.
From S2P Require Import Schema.
From S2P Require Import Types.
From S2P Require Import Db.
From S2P Require Import WorldFacts.
From S2P Require Import Operations.
From S2P Require Import Migration.
From S2P Require Import Invert.
From S2P Require Import LocalSet.
From S2P Require Import History.
From S2P Require Import HistorySpec.
From S2P Require Import HistoryFacts.
From S2P Require Import HistoryRefine.
From S2P Require Import State.
From S2P Require Import Lifecycle.
From S2P Require Import LifecycleInv.

Section logic.
Context `{!Pq} {J C : Type} `{!Json J} `{!Catalogue C} `{!DB C}.
Context (m : Roll (Store J C)).
Implicit Types (es : list (entry J)) (S : World (Store J C) → Prop).

Definition hist es (w : World (Store J C)) : Prop :=
  increasing (st_clock (w_db w)) ∧ represents (Roll_schema m) (w_db w) es.

#[export] Instance hist_inv es : StoreInv (hist es).
Proof.
  apply (db_inv (λ st : Store J C,
    increasing (st_clock st) ∧ represents (Roll_schema m) st es)).
  - intros sql st Hst. cbn. unfold on_db. destruct (ExecContext sql (st_db st)). exact Hst.
  - intros sql args st Hst. cbn. unfold on_db. destruct (QueryContext sql args (st_db st)). exact Hst.
  - intros sqls st Hst. cbn. unfold on_db. destruct (WithRetryableTransaction sqls (st_db st)). exact Hst.
  - intros st Hst. cbn. destruct (expired (st_db st)). exact Hst.
Qed.

(** A call, by its meaning; the tombstones and the catalog stay. *)
Lemma call_result_full {A} (c : call J A) es w :
  hist es w → call_ok c es → ∃ rs now w',
    from_state m (λ s, run s c) w =
      ((run_spec (catalogue_name_le (C := C)) rs now (Roll_schema m) c es).1, w') ∧
    hist (run_spec (catalogue_name_le (C := C)) rs now (Roll_schema m) c es).2 w' ∧
    st_reverted (w_db w') = st_reverted (w_db w) ∧ st_db (w_db w') = st_db (w_db w).
Proof.
  intros [Hc Hr] Hok. unfold from_state, on_state.
  pose proof (run_refines (Roll_schema m) c (w_db w) es Hc Hr Hok) as Hs.
  exists (catalogue_read_schema (Roll_schema m) (st_db (w_db w))),
    (st_clock (w_db w) (st_ticks (w_db w))).
  destruct (run (Roll_schema m) c (w_db w)) as [o st'].
  destruct Hs as (Ho & Hr' & Hd & Hck & Hv & _). cbn [fst snd] in *. exists (set_w_db st' w).
  split; [by rewrite Ho|]. split; [split; [cbn; by rewrite Hck|done]|done].
Qed.
Lemma call_result {A} (c : call J A) es w :
  hist es w → call_ok c es → ∃ rs now w',
    from_state m (λ s, run s c) w =
      ((run_spec (catalogue_name_le (C := C)) rs now (Roll_schema m) c es).1, w') ∧
    hist (run_spec (catalogue_name_le (C := C)) rs now (Roll_schema m) c es).2 w'.
Proof.
  intros Hw Hok. destruct (call_result_full c es w Hw Hok) as (rs & now & w' & ? & ? & _).
  by exists rs, now, w'.
Qed.
Lemma leads_call {A} (c : call J A) es S (Q : A → World (Store J C) → Prop) :
  call_ok c es →
  (∀ rs now w',
     match run_spec (catalogue_name_le (C := C)) rs now (Roll_schema m) c es with
     | (Ok a, es') => hist es' w' → Q a w'
     | (_, es') => hist es' w' → S w'
     end) →
  leads S (hist es) (from_state m (λ s, run s c)) Q.
Proof.
  intros Hok HQ w Hw. destruct (call_result c es w Hw Hok) as (rs & now & w' & -> & Hw').
  specialize (HQ rs now w'). destruct (run_spec _ _ _ _ c es) as [[a|e| |] es']; by apply HQ.
Qed.

(** A call that only reads *)
Lemma leads_read {A} (c : call J A) es S (Q : A → World (Store J C) → Prop) :
  call_ok c es → (∀ rs now, (run_spec (catalogue_name_le (C := C)) rs now (Roll_schema m) c es).2 = es) →
  (∀ w, hist es w → S w) →
  (∀ rs now w a, (run_spec (catalogue_name_le (C := C)) rs now (Roll_schema m) c es).1 = Ok a →
     hist es w → Q a w) →
  leads S (hist es) (from_state m (λ s, run s c)) Q.
Proof.
  intros Hok Hq HS HQ. apply leads_call; [done|]. intros rs now w.
  specialize (Hq rs now). specialize (HQ rs now w).
  destruct (run_spec _ _ _ _ c es) as [[a|e| |] es']; cbn in *; subst es'; auto.
Qed.
Lemma pres_read {A} (c : call J A) es :
  call_ok c es → (∀ rs now, (run_spec (catalogue_name_le (C := C)) rs now (Roll_schema m) c es).2 = es) →
  pres (hist es) (from_state m (λ s, run s c)).
Proof.
  intros Hok Hq w Hw.
  pose proof (leads_read c es (hist es) (λ _, hist es) Hok Hq) as Hl.
  specialize (Hl ltac:(done) ltac:(done) w Hw).
  by destruct (from_state m (λ s, run s c) w) as [[]?].
Qed.
Lemma leads_ReadSchema es S (Q : snapshot → World (Store J C) → Prop) :
  (∀ w, hist es w → S w) → (∀ w a, hist es w → Q a w) →
  leads S (hist es) (from_state m state_ReadSchema) Q.
Proof.
  intros HS HQ w Hw. unfold from_state, on_state. cbn. unfold State_ReadSchema.
  destruct (catalogue_read_schema _ _); [apply HQ|apply HS..]; exact Hw.
Qed.

Lemma pres_of_leads {A} (I : World (Store J C) → Prop) (p : M (Store J C) A) :
  leads I I p (λ _, I) → pres I p.
Proof. intros Hp w Hw. specialize (Hp w Hw). by destruct (p w) as [[]?]. Qed.
#[export] Instance hist_db es : DbInv (hist es).
Proof. intros w w' Hw. unfold hist. by rewrite Hw. Qed.
#[export] Instance hist_read es : ReadInv m (hist es).
Proof.
  split; try apply _.
  - by apply pres_of_leads, leads_ReadSchema.
  - intros n. apply (pres_read (CSchemaAfterMigration n) es); [done|].
    intros rs now. cbn. rewrite get_bind. by destruct (find_entry _ _).
  - by apply (pres_read CDeferredCompletes es).
  - by apply (pres_read CHasSealedDeferred es).
  - by apply (pres_read CLatestMigration es).
  - intros n. apply (pres_read (CGetMigration n) es); [done|].
    intros rs now. cbn. rewrite get_bind. by destruct (find_entry _ _).
Qed.

(** ** The history and the tombstones *)

Definition hist_with (T : gmap string (gmap string string)) es w : Prop :=
  hist es w ∧ st_reverted (w_db w) = T.

Lemma leads_call_with {A} (c : call J A) T es S (Q : A → World (Store J C) → Prop) :
  call_ok c es →
  (∀ rs now w',
     match run_spec (catalogue_name_le (C := C)) rs now (Roll_schema m) c es with
     | (Ok a, es') => hist_with T es' w' → Q a w'
     | (_, es') => hist_with T es' w' → S w'
     end) →
  leads S (hist_with T es) (from_state m (λ s, run s c)) Q.
Proof.
  intros Hok HQ w [Hw HT].
  destruct (call_result_full c es w Hw Hok) as (rs & now & w' & -> & Hw' & HT' & _).
  specialize (HQ rs now w'). unfold hist_with in HQ. rewrite HT', HT in HQ.
  destruct (run_spec _ _ _ _ c es) as [[a|e| |] es']; by apply HQ.
Qed.
Lemma leads_read_with {A} (c : call J A) T es S (R : A → Prop) :
  call_ok c es → (∀ rs now, (run_spec (catalogue_name_le (C := C)) rs now (Roll_schema m) c es).2 = es) →
  (∀ w, hist_with T es w → S w) →
  (∀ rs now a, (run_spec (catalogue_name_le (C := C)) rs now (Roll_schema m) c es).1 = Ok a → R a) →
  leads S (hist_with T es) (from_state m (λ s, run s c)) (λ a w, hist_with T es w ∧ R a).
Proof.
  intros Hok Hq HS HQ. apply leads_call_with; [done|]. intros rs now w.
  specialize (Hq rs now). specialize (HQ rs now).
  destruct (run_spec _ _ _ _ c es) as [[a|e| |] es']; cbn in *; subst es'; auto.
Qed.

#[export] Instance hist_with_inv T es : StoreInv (hist_with T es).
Proof.
  apply (db_inv (λ st : Store J C,
    (increasing (st_clock st) ∧ represents (Roll_schema m) st es) ∧ st_reverted st = T)).
  - intros sql st Hst. cbn. unfold on_db. destruct (ExecContext sql (st_db st)). exact Hst.
  - intros sql args st Hst. cbn. unfold on_db. destruct (QueryContext sql args (st_db st)). exact Hst.
  - intros sqls st Hst. cbn. unfold on_db. destruct (WithRetryableTransaction sqls (st_db st)). exact Hst.
  - intros st Hst. cbn. destruct (expired (st_db st)). exact Hst.
Qed.
Lemma pres_read_with {A} (c : call J A) T es :
  call_ok c es → (∀ rs now, (run_spec (catalogue_name_le (C := C)) rs now (Roll_schema m) c es).2 = es) →
  pres (hist_with T es) (from_state m (λ s, run s c)).
Proof.
  intros Hok Hq. apply pres_of_leads. eapply leads_weaken;
    [by apply (leads_read_with c T es (hist_with T es) (λ _, True))|done|]. by intros a w [? _].
Qed.
#[export] Instance hist_with_read T es : ReadInv m (hist_with T es).
Proof.
  split.
  - apply _.
  - intros w w' Hw. unfold hist_with, hist. by rewrite Hw.
  - intros w [Hw HT]. unfold from_state, on_state. cbn. unfold State_ReadSchema.
    by destruct (catalogue_read_schema (Roll_schema m) (st_db (w_db w))).
  - intros n. apply (pres_read_with (CSchemaAfterMigration n) T es); [done|].
    intros rs now. cbn. rewrite get_bind. by destruct (find_entry _ _).
  - by apply (pres_read_with CDeferredCompletes T es).
  - by apply (pres_read_with CHasSealedDeferred T es).
  - by apply (pres_read_with CLatestMigration T es).
  - intros n. apply (pres_read_with (CGetMigration n) T es); [done|].
    intros rs now. cbn. rewrite get_bind. by destruct (find_entry _ _).
Qed.

(** ** The history and the catalog *)

Definition hist_at (db : C) es w : Prop := hist es w ∧ st_db (w_db w) = db.

Lemma leads_read_at {A} (c : call J A) db es S (R : A → Prop) :
  call_ok c es → (∀ rs now, (run_spec (catalogue_name_le (C := C)) rs now (Roll_schema m) c es).2 = es) →
  (∀ w, hist_at db es w → S w) →
  (∀ rs now a, (run_spec (catalogue_name_le (C := C)) rs now (Roll_schema m) c es).1 = Ok a → R a) →
  leads S (hist_at db es) (from_state m (λ s, run s c)) (λ a w, hist_at db es w ∧ R a).
Proof.
  intros Hok Hq HS HQ w [Hw HC].
  destruct (call_result_full c es w Hw Hok) as (rs & now & w' & -> & Hw' & _ & HC').
  specialize (Hq rs now). specialize (HQ rs now).
  assert (hist_at db es w') as Hat by (split; [by rewrite Hq in Hw'|congruence]).
  destruct (run_spec _ _ _ _ c es) as [[a|e| |] es']; cbn in *; [split; [done|by apply HQ]|auto..].
Qed.
Lemma leads_ReadSchema_at db es S :
  (∀ w, hist_at db es w → S w) →
  leads S (hist_at db es) (from_state m state_ReadSchema)
    (λ sc w, hist_at db es w ∧ catalogue_read_schema (Roll_schema m) db = Ok sc).
Proof.
  intros HS w Hw. pose proof Hw as [Hh HC]. unfold from_state, on_state. cbn. unfold State_ReadSchema.
  rewrite HC. destruct (catalogue_read_schema _ db); [done|by apply HS..].
Qed.
End logic.
#[export] Hint Resolve hist_inv hist_read : pgroll.
