(* ===== verification/ReadOnly.v ===== *)
(** * ReadOnly: properties that reading keeps

    What a query and the reading methods of the state store keep, the
    planners keep.  [PlanFacts] uses it for the history, [CommandFacts] for
    the whole store. *)

From S2P Require Import Prelude.
From S2P Require Import GoStd.
From S2P Require Import Schema.
From S2P Require Import Types.
From S2P Require Import ErrorText.
From S2P Require Import Db.
From S2P Require Import WorldFacts.
From S2P Require Import Operations.
From S2P Require Import Migration.
From S2P Require Import LocalSet.
From S2P Require Import OpsJson.
From S2P Require Import History.
From S2P Require Import HistorySpec.
From S2P Require Import State.
From S2P Require Import Lifecycle.
From S2P Require Import LifecycleInv.
From S2P Require Import Rewrite.
From S2P Require Import Revert.
From S2P Require Import RevertSealed.
From S2P Require Import Plan.
From S2P Require Import HistoryLogic.

Class ReadOnly {D} `{!DB D} `{!StateStore D} (m : Roll D) (I : World D → Prop) : Prop := {
  ro_db :: DbInv I;
  ro_query sql args : pres I (query sql args : M D _);
  ro_IsActive : pres I (from_state m state_IsActiveMigrationPeriod);
  ro_GetActive : pres I (from_state m state_GetActiveMigration);
  ro_Latest : pres I (from_state m state_LatestMigration);
  ro_LatestVersion : pres I (from_state m state_LatestVersion);
  ro_GetMigration n : pres I (from_state m (state_GetMigration n));
  ro_ReadSchema : pres I (from_state m state_ReadSchema);
  ro_SchemaAfter n : pres I (from_state m (state_SchemaAfterMigration n));
  ro_Deferred : pres I (from_state m state_DeferredCompletes);
  ro_HasSealed : pres I (from_state m state_HasSealedDeferred);
  ro_History : pres I (from_state m state_SchemaHistory);
  ro_HistoryInferred : pres I (from_state m state_SchemaHistoryWithInferred);
  ro_Baseline : pres I (from_state m state_LatestBaseline);
  ro_Unsealed : pres I (from_state m state_UnsealedMigrations);
  ro_Exists n : pres I (from_state m (state_MigrationExists n));
  ro_PruneRows ns : pres I (from_state m (state_PruneRows ns));
  ro_DryConvert n : pres I (from_state m (state_ConvertMigrationToBaseline n true));
}.
#[export] Hint Resolve ro_query ro_IsActive ro_GetActive ro_Latest ro_LatestVersion ro_GetMigration
  ro_ReadSchema ro_SchemaAfter ro_Deferred ro_HasSealed ro_History ro_HistoryInferred ro_Baseline
  ro_Unsealed ro_Exists ro_PruneRows ro_DryConvert : pgroll.

(** Reading leaves the store as it is. *)
Section store.
Context {J C : Type} `{!Json J} `{!Catalogue C} `{!DB C} (m : Roll (Store J C)).
Context (I : World (Store J C) → Prop) {HI : DbInv I}.
Context (Hquery : ∀ sql args, pres I (query sql args : M (Store J C) _)).

Lemma quiet_read {A} (f : state_call (Store J C) A) :
  (∀ s st, pres (eq st) (f s)) → pres I (from_state m f).
Proof.
  intros Hf. apply pres_same_db; [done|]. intros w. unfold from_state, on_state.
  pose proof (Hf (Roll_schema m) (w_db w) (w_db w) eq_refl) as Hd. by destruct (f _ (w_db w)).
Qed.
Lemma quiet_read_rows st s : pres (eq st) (read_rows (J := J) (C := C) s).
Proof. apply pres_gets. Qed.
Lemma quiet_ReadSchema st s : pres (eq st) (State_ReadSchema (J := J) (C := C) s).
Proof. by intros st' <-. Qed.
Lemma quiet_refuse_names st ns msg : pres (eq st) (refuse_names ns msg : prog (Store J C) error ()).
Proof. unfold refuse_names. pres_steps. Qed.
Hint Resolve quiet_read_rows quiet_ReadSchema quiet_refuse_names : pgroll.

Lemma store_readonly : ReadOnly m I.
Proof.
  split; [done|done|..]; intros; apply quiet_read; intros; cbn.
  - unfold State_IsActiveMigrationPeriod. pres_steps.
  - unfold State_GetActiveMigration. pres_steps.
  - unfold State_LatestMigration. pres_steps.
  - unfold State_LatestVersion. pres_steps.
  - unfold State_GetMigration. pres_steps.
  - pres_steps.
  - unfold State_SchemaAfterMigration. pres_steps.
  - unfold State_DeferredCompletes. pres_steps.
  - unfold State_HasSealedDeferred. pres_steps.
  - unfold State_SchemaHistory, schemaHistory. pres_steps.
  - unfold State_SchemaHistoryWithInferred, schemaHistory. pres_steps.
  - unfold State_LatestBaseline. pres_steps.
  - unfold State_UnsealedMigrations. pres_steps.
  - unfold State_MigrationExists. pres_steps.
  - unfold State_PruneRows. pres_steps.
  - unfold State_ConvertMigrationToBaseline. pres_steps.
Qed.
End store.

(** ** The planners *)

Section planners.
Context `{!Pq} {D : Type} `{!DB D} `{!StateStore D} `{!Codec} `{!PqText} (m : Roll D) (I : World D → Prop).
Context {HI : ReadOnly m I}.
Hint Extern 0 (ReadOnly _ _) => exact HI : pgroll.

Lemma ro_RevertTargets : pres I (RevertTargets m).
Proof. unfold RevertTargets. pres_steps. Qed.
Lemma ro_planSealedTo to ts : pres I (planSealedTo m to ts).
Proof. unfold planSealedTo. pres_steps. Qed.
Hint Resolve ro_RevertTargets ro_planSealedTo : pgroll.
Lemma ro_RevertPlan o : pres I (RevertPlan m o).
Proof. unfold RevertPlan. pres_steps. Qed.
Lemma ro_planSealedSegment to through : pres I (planSealedSegment m to through).
Proof. unfold planSealedSegment. pres_steps. Qed.
Hint Resolve ro_RevertPlan ro_planSealedSegment : pgroll.
Lemma ro_PlanRevertSealed to : pres I (PlanRevertSealed m to).
Proof. unfold PlanRevertSealed. pres_steps. Qed.
Lemma ro_PlanBelow to through : pres I (PlanRevertSealedBelowWindow m to through).
Proof. unfold PlanRevertSealedBelowWindow. pres_steps. Qed.
Lemma ro_Pending : pres I (PendingSealedRevertResume m).
Proof. unfold PendingSealedRevertResume. pres_steps. Qed.
Hint Resolve ro_PlanRevertSealed ro_PlanBelow : pgroll.
Lemma ro_windowView plan boundary : pres I (windowView m plan boundary).
Proof. unfold windowView. pres_steps. Qed.
Lemma ro_composed to byName : pres I (composedRevertView m to byName).
Proof. unfold composedRevertView, versionSchemasByName. pres_steps. Qed.
Hint Resolve ro_windowView ro_composed : pgroll.
Lemma ro_previewRevertTo to byName : pres I (previewRevertTo m to byName).
Proof. unfold previewRevertTo. pres_steps. Qed.
Hint Resolve ro_previewRevertTo : pgroll.
Lemma ro_fillRevertLeg to l byName : pres I (fillRevertLeg m to l byName).
Proof. unfold fillRevertLeg. pres_steps. Qed.
Hint Resolve ro_fillRevertLeg : pgroll.
Lemma ro_convergeLeg b shared l byName : pres I (convergeLeg m b shared l byName).
Proof. unfold convergeLeg. pres_steps. Qed.
Lemma ro_Roll_Status : pres I (Roll_Status m).
Proof. unfold Roll_Status. pres_steps. Qed.
Hint Resolve ro_convergeLeg ro_Roll_Status : pgroll.
Lemma ro_PreviewRevert o : pres I (PreviewRevert m o).
Proof. unfold PreviewRevert. pres_steps. Qed.
Lemma ro_Plan `{!Dir} to : pres I (Plan m to).
Proof. unfold Plan. pres_steps. Qed.
Lemma ro_resolve `{!Dir} : pres I (Roll_ResolveMigrations m).
Proof. unfold Roll_ResolveMigrations. pres_steps. Qed.
Lemma ro_PruneTargets ns : pres I (PruneTargets m ns).
Proof. unfold PruneTargets. pres_steps. Qed.
Lemma ro_Rebaseline `{!Dir} : pres I (Rebaseline m true).
Proof. unfold Rebaseline. pres_steps. Qed.
End planners.
#[export] Hint Resolve ro_RevertTargets ro_RevertPlan ro_PlanRevertSealed ro_PlanBelow ro_Pending
  ro_convergeLeg ro_Roll_Status ro_PreviewRevert ro_Plan ro_resolve ro_PruneTargets ro_Rebaseline : pgroll.
