(* ===== verification/RewriteFacts.v ===== *)
(** * RewriteFacts: what recording, pruning and anchoring leave behind

    The effect of [Roll.Stamp], [Roll.Prune] and [Roll.Rebaseline] on the
    history, over the store of [History.v]. *)

From S2P Require Import Prelude.
From S2P Require Import GoStd.
From S2P Require Import Names.
From S2P Require Import Schema.
From S2P Require Import Types.
From S2P Require Import Db.
From S2P Require Import WorldFacts.
From S2P Require Import Operations.
From S2P Require Import Migration.
From S2P Require Import Invert.
From S2P Require Import LocalSet.
From S2P Require Import OpsJson.
From S2P Require Import Deps.
From S2P Require Import History.
From S2P Require Import HistorySpec.
From S2P Require Import HistoryFacts.
From S2P Require Import HistoryRefine.
From S2P Require Import State.
From S2P Require Import Lifecycle.
From S2P Require Import Rewrite.
From S2P Require Import MemState.
From S2P Require Import Samples.
From S2P Require Import HistoryLogic.

Section stamp.
Context `{!Pq} {J C : Type} `{!Json J} `{!Catalogue C} `{!DB C} `{!Codec}.
Context (m : Roll (Store J C)).
Implicit Types (es new : list (entry J)) (migs todo : list RawMigration).

Definition unrecorded es migs : list RawMigration :=
  filter (λ raw, RawMigration_Name raw ∉ e_names es) migs.

(** The type of the row of [raw] *)
Definition stamp_type (ty : string) (raw : RawMigration) : string :=
  let ty := if raw.(RawMigration_Baseline) then MigrationTypeBaseline else ty in
  if decide (ty = "") then MigrationTypePgroll else ty.
Definition stamped (ty : string) (raw : RawMigration) (e : entry J) : Prop :=
  e_name e = raw.(RawMigration_Name) ∧ json_MarshalRaw raw = Ok (e_body e) ∧
  e_type e = stamp_type ty raw ∧ e_status e = Sealed.

Lemma active_snoc_sealed es e : e_status e = Sealed → active (es ++ [e]) = active es.
Proof.
  intros He. apply bool_decide_ext. rewrite filter_app, filter_cons, decide_False by congruence.
  by rewrite app_nil_r.
Qed.
Lemma top_snoc es e : top (es ++ [e]) = Some (e_name e).
Proof. unfold top. by rewrite last_snoc. Qed.

Lemma leads_stamp raw s parent ty es S (Q : () → World (Store J C) → Prop) :
  active es = false → parent = None ∨ parent = top es →
  (∀ w, hist m es w → S w) →
  (∀ e w, stamped ty raw e → e_schema e = s → hist m (es ++ [e]) w → Q () w) →
  leads S (hist m es)
    (from_state m (state_Stamp raw s parent
       (if raw.(RawMigration_Baseline) then MigrationTypeBaseline else ty))) Q.
Proof.
  intros Ha Hp HS HQ w Hw. unfold from_state, on_state. cbn.
  destruct (json_MarshalRaw raw) as [body|e| |] eqn:Hbody; [|by apply HS..].
  pose proof (leads_call m (CStamp raw.(RawMigration_Name) body s parent
    (if raw.(RawMigration_Baseline) then MigrationTypeBaseline else ty)) es S Q) as Hl.
  specialize (Hl (conj Ha Hp)). refine (Hl _ w Hw).
  intros rs now w'. cbn [run_spec]. unfold wrap_err, push.
  change (if decide _ then MigrationTypePgroll else _) with (stamp_type ty raw).
  repeat (destruct (decide _); [apply HS|]). apply HQ; [|done]. by split_and!.
Qed.

Lemma leads_stampTodo db es migs :
  leads (hist m es) (hist_at m db es) (stampTodo m migs)
    (λ todo w, hist_at m db es w ∧ todo = unrecorded es migs).
Proof.
  induction migs as [|raw migs IH]; [by apply leads_ret|]. cbn [stampTodo].
  eapply (leads_bind_read _ _ _ _ (λ b, b = bool_decide (RawMigration_Name raw ∈ e_names es))).
  { apply leads_wrap_err.
    apply (leads_read_at m (CMigrationExists raw.(RawMigration_Name)) db es); [done|done|by intros ? []|].
    by intros rs now a [= <-]. }
  intros b ->. unfold unrecorded. rewrite filter_cons.
  case_bool_decide as Hin; [rewrite decide_False by tauto; apply IH|rewrite decide_True by done].
  eapply leads_bind; [apply leads_pres; [apply pres_wrap_err, pres_lift|by intros ? []]|]. intros ?.
  eapply leads_bind; [exact IH|]. intros rest. apply leads_ret. intros w [Hw ->]. by split.
Qed.

Lemma leads_stampEach sc ty todo : ∀ es parent,
  active es = false → parent = None ∨ parent = top es →
  leads (λ w, ∃ k new, Forall2 (stamped ty) (take k todo) new ∧ hist m (es ++ new) w)
    (hist m es) (stampEach m sc ty parent todo)
    (λ ns w, ns = names todo ∧ ∃ new, Forall2 (stamped ty) todo new ∧
       omap e_schema new = (if decide (todo = []) then [] else [sc]) ∧
       (todo ≠ [] → e_schema <$> last new = Some (Some sc)) ∧ hist m (es ++ new) w).
Proof.
  induction todo as [|raw todo IH]; intros es parent Ha Hp.
  { apply leads_ret. intros w Hw. split; [done|]. exists []. rewrite app_nil_r.
    by split_and!. }
  cbn [stampEach]. eapply leads_bind with (R := λ _ w, ∃ e, stamped ty raw e ∧
    e_schema e = (if decide (todo = []) then Some sc else None) ∧ hist m (es ++ [e]) w).
  { apply leads_stamp; [done|done| |].
    - intros w Hw. exists 0, []. rewrite app_nil_r. by split; [constructor|].
    - intros e w He Hs Hw. by exists e. }
  intros _ w (e & He & Hs & Hw). pose proof He as (Hn & Hb & Hy & Hst).
  assert (leads (λ w, ∃ k new, Forall2 (stamped ty) (take k (raw :: todo)) new ∧ hist m (es ++ new) w)
    (hist m (es ++ [e])) (rest ← stampEach m sc ty (Some (RawMigration_Name raw)) todo;
      mret (RawMigration_Name raw :: rest))
    (λ ns w, ns = names (raw :: todo) ∧ ∃ new, Forall2 (stamped ty) (raw :: todo) new ∧
       omap e_schema new = (if decide (raw :: todo = []) then [] else [sc]) ∧
       (raw :: todo ≠ [] → e_schema <$> last new = Some (Some sc)) ∧ hist m (es ++ new) w)) as Hl.
  2:{ by apply Hl. }
  eapply leads_bind.
  { specialize (IH (es ++ [e]) (Some (RawMigration_Name raw))). eapply leads_outside;
      [apply IH|].
    - by rewrite active_snoc_sealed.
    - right. by rewrite top_snoc, Hn.
    - intros w' (k & new & Hnew & Hw'). exists (S k), (e :: new). rewrite <-app_assoc in Hw'.
      split; [by constructor|done]. }
  intros rest. apply leads_ret. intros w' (-> & new & Hnew & Ho & Hl & Hw').
  split; [done|]. exists (e :: new). rewrite <-app_assoc in Hw'.
  split_and!; [by constructor| | |done].
  - cbn. rewrite Hs, Ho. by destruct todo.
  - intros _. destruct todo as [|raw' todo].
    + apply Forall2_nil_inv_l in Hnew as ->. cbn. by rewrite Hs.
    + rewrite last_cons. destruct (last new) as [x|] eqn:Hx; [by apply Hl|].
      apply last_None in Hx as ->. by apply Forall2_nil_inv_r in Hnew.
Qed.
End stamp.

Section roll_stamp.
Context `{!Pq} {J C : Type} `{!Json J} `{!Catalogue C} `{!DB C} `{!Codec}.
Context (m : Roll (Store J C)).
Implicit Types (es new : list (entry J)) (migs todo : list RawMigration).

Definition partly_stamped es migs ty (w : World (Store J C)) : Prop :=
  ∃ k new, Forall2 (stamped ty) (take k (unrecorded es migs)) new ∧ hist m (es ++ new) w.

Lemma none_stamped es migs ty w : hist m es w → partly_stamped es migs ty w.
Proof. intros Hw. exists 0, []. rewrite app_nil_r. by split; [constructor|]. Qed.

(** What [Roll.Stamp] leaves of the history [es] on success: the live schema is
    the one the catalog of [w] gives. *)
Definition stamps es migs ty (w : World (Store J C)) (ns : list string) (w' : World (Store J C)) : Prop :=
  ns = names (unrecorded es migs) ∧ ∃ new,
    Forall2 (stamped ty) (unrecorded es migs) new ∧ hist m (es ++ new) w' ∧
    (new ≠ [] → active es = false ∧ ∃ sc,
       catalogue_read_schema (Roll_schema m) (st_db (w_db w)) = Ok sc ∧
       omap e_schema new = [sc] ∧ e_schema <$> last new = Some (Some sc)).

(** C14. [Roll.Stamp] records what is not recorded yet: on success the history
    has grown by one sealed entry per unrecorded migration, in the order given
    and returned, with its own body and type (a marked file is a baseline
    whatever the caller asks); the last, and only the last, carries a resulting
    schema, which is the live one: what [ReadSchema] gives on the database the
    call found.  It refuses while a migration is active, and on an error no
    more than a prefix of those entries has been added. *)
Theorem Roll_Stamp_spec es migs ty w :
  hist m es w →
  match Roll_Stamp m migs ty w with
  | (Ok ns, w') => stamps es migs ty w ns w'
  | (_, w') => partly_stamped es migs ty w'
  end.
Proof.
  intros Hw0. set (db := st_db (w_db w)).
  enough (leads (partly_stamped es migs ty) (hist_at m db es) (Roll_Stamp m migs ty)
    (stamps es migs ty w)) as Hl by by apply (Hl w).
  assert (∀ w, hist_at m db es w → partly_stamped es migs ty w) as Hnone
    by (intros ? []; by apply none_stamped).
  assert (leads (E := error) (partly_stamped es migs ty) (hist_at m db es) (mret []) (λ ns w',
    unrecorded es migs = [] → stamps es migs ty w ns w')) as Hnil.
  { apply leads_ret. intros w' [Hw' _] Hu. split; [by rewrite Hu|]. exists [].
    rewrite Hu, app_nil_r. by split_and!. }
  unfold Roll_Stamp. destruct (decide (migs = [])) as [->|_].
  { eapply leads_weaken; [apply Hnil|done|]. intros ns w' Hs. by apply Hs. }
  eapply (leads_bind_read _ _ _ _ (λ a, a = active es)).
  { apply leads_wrap_err, (leads_read_at m CIsActive); try done. by intros rs now a [= <-]. }
  intros a ->. eapply (leads_bind_read _ _ _ _ (λ _, active es = false)).
  { intros w' Hw'. unfold fail_if. destruct (active es); [by apply Hnone|done]. }
  intros [] Ha. eapply (leads_bind_read _ _ _ _ (λ todo, todo = unrecorded es migs)).
  { eapply leads_outside; [apply leads_stampTodo|]. by apply none_stamped. }
  intros todo ->. destruct (decide (unrecorded es migs = [])) as [Hu|Hu].
  { eapply leads_weaken; [apply Hnil|done|]. intros ns w' Hs. by apply Hs. }
  eapply (leads_bind_read _ _ _ _ (λ first, first = top es)).
  { apply leads_wrap_err, (leads_read_at m CLatestMigration); try done. by intros rs now a [= <-]. }
  intros first ->. eapply leads_bind_read; [by apply leads_wrap_err, leads_ReadSchema_at|].
  intros sc Hsc. eapply (leads_bind _ _ _ _ (λ _, hist_at m db es)).
  { apply leads_pres; [apply pres_wrap_err, pres_lift|done]. }
  intros txt. eapply leads_weaken; [eapply leads_outside; [apply (leads_stampEach m sc ty _ es)|]| |].
  - done.
  - unfold non_empty. destruct (top es) as [[]|]; auto.
  - intros w' (k & new & Hw'). by exists k, new.
  - by intros ? [].
  - intros ns w' (-> & new & Hn & Ho & Hl & Hw'). split; [done|]. exists new. split_and!; try done.
    intros _. split; [done|]. exists sc. rewrite decide_False in Ho by done. auto.
Qed.
End roll_stamp.

(** ** Pruning *)

Section prune.
Context `{!Pq} {J C : Type} `{!Json J} `{!Catalogue C} `{!DB C} `{!Codec}.
Context (m : Roll (Store J C)).
Implicit Types (es : list (entry J)) (ns : list string).

Definition target_of (e : entry J) : PruneTarget :=
  mkPruneTarget (e_name e) (is_done (e_status e)) (e_type e)
    (default (e_name e) (json_version_schema (e_body e))) (json_operation_count (e_body e)).

Lemma leads_PruneRows es ns S (Q : list PruneTarget → World (Store J C) → Prop) :
  (∀ w, hist m es w → Q (target_of <$> filter (λ e, e_name e ∈ ns) es) w) →
  leads S (hist m es) (from_state m (state_PruneRows ns)) Q.
Proof.
  intros HQ w Hw. pose proof Hw as [_ [Ht Hwf]]. unfold from_state, on_state. cbn.
  unfold State_PruneRows, read_rows, gets, mbind, prog_bind, mret, prog_ret. rewrite Ht.
  destruct (filter_rows_of (λ r, row_name r ∈ ns) (λ e, e_name e ∈ ns) es) as (pes & Hr & Hn); [done|].
  rewrite by_created_at_in_order by (apply in_order_sub, rows_of_in_order, Hwf).
  rewrite Hr, <-list_fmap_compose. specialize (HQ w Hw).
  rewrite <-Hn, <-list_fmap_compose in HQ. destruct w. exact HQ.
Qed.

(** A loop of tests that succeeds has passed them all. *)
Lemma leads_tests {A} (f : A → bool) (err : A → error) l (I S : World (Store J C) → Prop) :
  (∀ w, I w → S w) →
  leads S I (for_each (λ x, fail_if (f x) (err x)) l) (λ _ w, I w ∧ Forall (λ x, f x = false) l).
Proof.
  intros HS. induction l as [|x l IH]; [by apply leads_ret|]. cbn [for_each].
  eapply (leads_bind_read _ _ _ _ (λ _, f x = false)).
  { intros w Hw. unfold fail_if. destruct (f x); [by apply HS|done]. }
  intros ? Hx. eapply leads_weaken; [exact IH|done|]. intros ? w [Hw Hl]. split; [done|]. by constructor.
Qed.

Lemma filter_names_in es ns :
  filter (λ e, e_name e ∉ e_names (filter (λ e, e_name e ∈ ns) es)) es = filter (λ e, e_name e ∉ ns) es.
Proof.
  apply filter_ext_in. intros e He. split; intros Hn Hin; apply Hn.
  - apply list_elem_of_fmap. exists e. split; [done|]. by apply list_elem_of_filter.
  - apply list_elem_of_fmap in Hin as (e' & -> & [Hin _]%list_elem_of_filter). done.
Qed.
Lemma names_in es ns :
  filter (λ e, e_name e ∈ e_names (filter (λ e, e_name e ∈ ns) es)) es = filter (λ e, e_name e ∈ ns) es.
Proof.
  apply filter_ext_in. intros e He. split; intros Hin.
  - apply list_elem_of_fmap in Hin as (e' & -> & [Hin _]%list_elem_of_filter). done.
  - apply list_elem_of_fmap. exists e. split; [done|]. by apply list_elem_of_filter.
Qed.

Lemma leads_PruneTargets es ns :
  leads (hist m es) (hist m es) (PruneTargets m ns)
    (λ targets w, hist m es w ∧ targets = target_of <$> filter (λ e, e_name e ∈ ns) es ∧
       (∀ n, n ∈ ns → n ∈ e_names es) ∧
       (ns ≠ [] → active es = false) ∧
       (∀ e, e ∈ es → e_name e ∈ ns → e_type e ≠ MigrationTypeBaseline)).
Proof.
  unfold PruneTargets. destruct (decide (ns = [])) as [->|Hns].
  { apply leads_ret. intros w Hw. split_and!; [done| |by intros ? ?%elem_of_nil|done|by intros ? _ ?%elem_of_nil].
    rewrite (proj2 (filter_nil_iff (λ e, e_name e ∈ []) es)); [done|]. by intros ? _ ?%elem_of_nil. }
  eapply (leads_bind_read _ _ _ _ (λ a, a = active es)).
  { apply leads_wrap_err, (leads_read m CIsActive es); try done.
    intros rs now w a [= <-] Hw. by split. }
  intros a ->. eapply (leads_bind_read _ _ _ _ (λ _, active es = false)).
  { intros w Hw. unfold fail_if. by destruct (active es). }
  intros [] Ha. eapply (leads_bind_read _ _ _ _ (λ ts, ts = target_of <$> filter (λ e, e_name e ∈ ns) es)).
  { apply leads_wrap_err, leads_PruneRows. intros w Hw. by split. }
  intros ts ->. eapply leads_bind_read; [by apply leads_tests|]. intros [] Hall.
  eapply (leads_bind_read _ _ _ _ (λ _, ∀ e, e ∈ es → e_name e ∈ ns → e_type e ≠ MigrationTypeBaseline)).
  { intros w Hw. remember (filter (λ e, e_name e ∈ ns) es) as fs eqn:Hfs.
    assert (leads (hist m es) (hist m es) (for_each (λ t,
      fail_if (String.eqb t.(PruneTarget_MigrationType) MigrationTypeBaseline)
        (Errorf "prune: refusing to prune baseline migration %q" [t.(PruneTarget_Name)]) ;;
      fail_if (negb t.(PruneTarget_Done))
        (Errorf "prune: migration %q is in progress; use `pgroll rollback`" [t.(PruneTarget_Name)]))
      (target_of <$> fs)) (λ _ w, hist m es w ∧ ∀ e, e ∈ fs → e_type e ≠ MigrationTypeBaseline)) as Hl.
    { clear Hall w Hw Hfs. induction fs as [|e fs IH]; [apply leads_ret; intros w Hw; split; [done|]; by intros ? ?%elem_of_nil|].
      cbn [fmap list_fmap for_each].
      eapply (leads_bind_read _ _ _ _ (λ _, e_type e ≠ MigrationTypeBaseline)).
      { intros w Hw. unfold mbind, prog_bind, fail_if. cbn.
        destruct (String.eqb_spec (e_type e) MigrationTypeBaseline); cbn; [done|]. by destruct (negb _). }
      intros [] He. eapply leads_weaken; [exact IH|done|]. intros [] w [Hw Hfs]. split; [done|].
      intros e' [->|He']%elem_of_cons; [done|by apply Hfs]. }
    specialize (Hl w Hw). destruct (for_each _ _ w) as [[]?]; try done. destruct Hl as [Hl1 Hl2].
    split; [done|]. intros e He Hn. apply Hl2. rewrite Hfs. by apply list_elem_of_filter. }
  intros [] Hb. apply leads_ret. intros w Hw. split_and!; try done.
  intros n Hn. rewrite Forall_forall in Hall. specialize (Hall n Hn).
  apply negb_false_iff in Hall. unfold slices_Contains in Hall. apply bool_decide_eq_true in Hall.
  rewrite <-list_fmap_compose in Hall. apply list_elem_of_fmap in Hall as (e & -> & [_ He]%list_elem_of_filter).
  by apply list_elem_of_fmap_2.
Qed.

(** C15. [Roll.Prune] removes exactly the named migrations, and relinks what is
    left: it succeeds only when nothing is active, every name is recorded and
    none is a baseline; on any error the history is untouched, so the command
    can be run again. *)
Theorem Roll_Prune_spec es ns w :
  hist m es w →
  match Roll_Prune m ns w with
  | (Ok targets, w') =>
      hist m (filter (λ e, e_name e ∉ ns) es) w' ∧
      PruneTarget_Name <$> targets = e_names (filter (λ e, e_name e ∈ ns) es) ∧
      (∀ n, n ∈ ns → n ∈ e_names es) ∧ (ns ≠ [] → active es = false) ∧
      (∀ e, e ∈ es → e_name e ∈ ns → e_type e ≠ MigrationTypeBaseline)
  | (_, w') => hist m es w'
  end.
Proof.
  revert w. change (leads (hist m es) (hist m es) (Roll_Prune m ns) (λ targets w',
    hist m (filter (λ e, e_name e ∉ ns) es) w' ∧
      PruneTarget_Name <$> targets = e_names (filter (λ e, e_name e ∈ ns) es) ∧
      (∀ n, n ∈ ns → n ∈ e_names es) ∧ (ns ≠ [] → active es = false) ∧
      (∀ e, e ∈ es → e_name e ∈ ns → e_type e ≠ MigrationTypeBaseline))).
  unfold Roll_Prune. eapply leads_bind_read.
  { eapply leads_weaken; [apply leads_PruneTargets|done|]. intros ts w [Hw HP].
    split; [exact Hw|exact HP]. }
  intros ts (-> & Hin & Ha & Hb). set (fs := filter (λ e, e_name e ∈ ns) es).
  destruct (decide (target_of <$> fs = [])) as [Hn|Hn].
  { apply fmap_nil_inv in Hn. apply leads_ret. intros w Hw. rewrite Hn. split_and!; try done.
    rewrite filter_all; [done|]. intros e He Hne. by apply (proj1 (filter_nil_iff _ es) Hn e). }
  eapply (leads_bind _ _ _ _ (λ _, hist m es)).
  { apply leads_pres; [|done]. destruct (Roll_disableVersionSchemas m); [apply pres_ret|].
    apply pres_for_each. intros t. apply pres_wrap_err, inv_exec. }
  intros ?. eapply (leads_bind _ _ _ _ (λ _, hist m (filter (λ e, e_name e ∉ ns) es))).
  - apply (leads_call m (CPrune (PruneTarget_Name <$> (target_of <$> fs))) es); [done|].
    intros rs now w. cbn [run_spec]. rewrite get_bind.
    replace (PruneTarget_Name <$> (target_of <$> fs)) with (e_names fs) by (by rewrite <-list_fmap_compose).
    destruct (decide (e_names fs = [])) as [He|He].
    { destruct Hn. apply fmap_nil_inv in He. by rewrite He. }
    unfold fs. rewrite names_in. rewrite (length_fmap e_name _ : length (e_names _) = _), Nat.eqb_refl.
    unfold fail_if, modify, mbind, prog_bind, mret, prog_ret. cbn [negb]. by rewrite filter_names_in.
  - intros ?. apply leads_ret. intros w Hw. split_and!; try done. by rewrite <-list_fmap_compose.
Qed.
End prune.

(** ** A concrete database *)

#[local] Instance sample_codec : Codec := {|
  codec_json := no_operations_json;
  MarshalRaw _ := Ok ();
  MarshalSchema _ := Ok "{}";
  sha256_json m := Ok m.(Migration_Name);
|}.
Definition two_applied : list (Migration * status) :=
  [(rename_migration "02_ab" "a" "b", Sealed); (rename_migration "03_bc" "b" "c", Applied)].
Definition two_world : World mem_store := mkWorld New ∅ (mem_of mem_db two_applied) 0.
Lemma two_hist : hist (C := mem) mem_roll (mem_entries 0 two_applied) two_world.
Proof.
  split; [intros i j; cbn; lia|]. split; [reflexivity|]. apply (mem_entries_wf two_applied); [decide_goal|].
  intros [|x1 [|x2 [|x3 pre]]] x post Heq; by simplify_eq/=.
Qed.

(** Of three migrations, one is recorded already and one is a baseline. *)
Definition to_stamp : list RawMigration :=
  [mkRawMigration "02_ab" "" "[]" [] [] false false None "";
   mkRawMigration "04_d" "" "[]" [] [] true true None "";
   mkRawMigration "05_e" "" "[]" [] [] false false None ""].
Lemma Roll_Stamp_spec_witness :
  (Roll_Stamp mem_roll to_stamp "pgroll" two_world).1 = Ok ["04_d"; "05_e"] ∧
  stamps (C := mem) mem_roll (mem_entries 0 two_applied) to_stamp "pgroll" two_world ["04_d"; "05_e"]
    (Roll_Stamp mem_roll to_stamp "pgroll" two_world).2.
Proof.
  assert ((Roll_Stamp mem_roll to_stamp "pgroll" two_world).1 = Ok ["04_d"; "05_e"]) as Hok
    by (vm_compute; reflexivity).
  split; [exact Hok|].
  pose proof (Roll_Stamp_spec (C := mem) mem_roll (mem_entries 0 two_applied) to_stamp "pgroll" two_world
    two_hist) as Hs.
  destruct (Roll_Stamp _ _ _ _) as [r w']. cbn [fst] in Hok. subst r. exact Hs.
Defined.

Lemma Roll_Prune_spec_witness :
  is_ok (Roll_Prune mem_roll ["02_ab"] two_world).1 = true ∧
  hist (C := mem) mem_roll (filter (λ e, e_name e ∉ ["02_ab"]) (mem_entries 0 two_applied))
    (Roll_Prune mem_roll ["02_ab"] two_world).2.
Proof.
  split; [vm_compute; reflexivity|].
  pose proof (Roll_Prune_spec (C := mem) mem_roll (mem_entries 0 two_applied) ["02_ab"] two_world
    two_hist) as Hs.
  assert (is_ok (Roll_Prune mem_roll ["02_ab"] two_world).1 = true) as Hok
    by (vm_compute; reflexivity).
  destruct (Roll_Prune _ _ _) as [[ts| | |] w']; try discriminate Hok.
  exact (proj1 Hs).
Defined.
