(* ===== verification/RunHistory.v ===== *)
(** * RunHistory: what the lifecycle leaves in the history

    [Start], [Complete] and [Rollback] of [execute.go] and the contraction,
    by the history before and after, on every outcome.  [hsome Φ]: the store
    holds some history with the property [Φ]. *)

From S2P Require Import Prelude.
From S2P Require Import GoStd.
From S2P Require Import Names.
From S2P Require Import Schema.
From S2P Require Import Types.
From S2P Require Import Db.
From S2P Require Import WorldFacts.
From S2P Require Import Actions.
From S2P Require Import Catalog.
From S2P Require Import Coordinator.
From S2P Require Import Backfill.
From S2P Require Import OpsBase.
From S2P Require Import Operations.
From S2P Require Import Migration.
From S2P Require Import OpsFacts.
From S2P Require Import Invert.
From S2P Require Import LocalSet.
From S2P Require Import OpsJson.
From S2P Require Import Deps.
From S2P Require Import History.
From S2P Require Import HistorySpec.
From S2P Require Import HistoryFacts.
From S2P Require Import HistoryRefine.
From S2P Require Import State.
From S2P Require Import Lifecycle.
From S2P Require Import LifecycleInv.
From S2P Require Import HistoryLogic.
From S2P Require Import RewriteFacts.
From S2P Require Import MemState.

Section history.
Context `{!Pq} {J C : Type} `{!Json J} `{!Catalogue C} `{!DB C}.
Context (m : Roll (Store J C)).
Implicit Types (es : list (entry J)) (new : Migration) (Φ Ψ : list (entry J) → Prop).

Definition hsome Φ (w : World (Store J C)) : Prop := ∃ es, hist m es w ∧ Φ es.

Lemma hsome_mono Φ Ψ w : (∀ es, Φ es → Ψ es) → hsome Φ w → hsome Ψ w.
Proof. intros Hm (es & Hw & He). exists es. auto. Qed.
Lemma hsome_hist es w : hist m es w ↔ hsome (eq es) w.
Proof. split; [by exists es|]. by intros (es' & Hw & <-). Qed.
Lemma pres_hsome {A} Φ (p : M (Store J C) A) :
  (∀ es, Φ es → pres (hist m es) p) → pres (hsome Φ) p.
Proof. intros Hp w (es & Hw & He). exists es. split; [|done]. by apply (Hp es He w). Qed.

#[export] Instance hsome_store Φ : StoreInv (hsome Φ).
Proof.
  split; [split|..].
  1: by intros w (es & Hw & He); exists es; split; [apply (inv_uuid w Hw)|].
  all: intros; apply pres_hsome; intros; first [by apply inv_update_table | apply inv_set_column_deleted
    | apply inv_RemoveTable | apply inv_UnRemoveTable | apply inv_RenameTable | apply inv_add_table
    | apply inv_exec | apply inv_query | apply inv_transaction | apply inv_deadline]; apply _.
Qed.
#[export] Instance hsome_db Φ : DbInv (hsome Φ).
Proof. intros w w' Hw (es & Hh & He). exists es. split; [by eapply db_only|done]. Qed.
#[export] Instance hsome_read Φ : ReadInv m (hsome Φ).
Proof.
  split; try apply _; intros; apply pres_hsome; intros; first [apply read_ReadSchema
    | apply read_SchemaAfterMigration | apply read_DeferredCompletes | apply read_HasSealedDeferred
    | apply read_LatestMigration | apply read_GetMigration]; apply _.
Qed.

Definition wf_history es : Prop := ∃ clock t, history_wf clock t es.
Lemma hist_wf es w : hist m es w → wf_history es.
Proof. intros [_ [_ Hwf]]. by eexists _, _. Qed.

(** A call of the state store, by its meaning on the histories at hand *)
Lemma leads_hcall {A} (c : call J A) Σ Φ (Ψ : A → list (entry J) → Prop) :
  (∀ es, Φ es → call_ok c es) →
  (∀ rs now es, wf_history es → Φ es →
     match run_spec (catalogue_name_le (C := C)) rs now (Roll_schema m) c es with
     | (Ok a, es') => Ψ a es'
     | (_, es') => Σ es'
     end) →
  leads (hsome Σ) (hsome Φ) (from_state m (λ s, run s c)) (λ a, hsome (Ψ a)).
Proof.
  intros Hok Hc w (es & Hw & He). pose proof (hist_wf es w Hw) as Hwf.
  apply (leads_call m c es (hsome Σ) (λ a, hsome (Ψ a)) (Hok es He)); [|done].
  intros rs now w'. specialize (Hc rs now es Hwf He).
  destruct (run_spec _ _ _ _ c es) as [[a|e| |] es']; by exists es'.
Qed.
Lemma leads_hpres {A} Σ Φ (p : M (Store J C) A) :
  pres (hsome Φ) p → (∀ es, Φ es → Σ es) → leads (hsome Σ) (hsome Φ) p (λ _, hsome Φ).
Proof. intros Hp HS. apply leads_pres; [done|]. intros w. by apply hsome_mono. Qed.
(** The invariant of what is left on a failure is a matter of the last step. *)
Lemma leads_hmono {A} Σ Φ (p : M (Store J C) A) (Ψ Ψ' : A → list (entry J) → Prop) :
  leads (hsome Σ) (hsome Φ) p (λ a, hsome (Ψ a)) → (∀ a es, Ψ a es → Ψ' a es) →
  leads (hsome Σ) (hsome Φ) p (λ a, hsome (Ψ' a)).
Proof. intros Hp HS. eapply leads_weaken; [done..|]. intros a w. apply hsome_mono, HS. Qed.

Hint Resolve hsome_store hsome_read : pgroll.

(** ** Starting and rolling back *)

(** The entry a start of [mig] adds *)
Definition pushed (mig : Migration) (e : entry J) : Prop :=
  e_name e = Migration_Name mig ∧ json_Marshal mig = Ok (e_body e) ∧ e_type e = MigrationTypePgroll.
(** [new] lies on top of [es], with the status [st]. *)
Definition on_top es new (st : status) (x : list (entry J)) : Prop :=
  ∃ e, x = es ++ [e] ∧ pushed new e ∧ e_status e = st.
Definition tried es new x : Prop := x = es ∨ on_top es new Active x.

Lemma on_top_names es new st x : on_top es new st x → e_names x = e_names es ++ [Migration_Name new].
Proof. intros (e & -> & [<- _] & _). unfold e_names. by rewrite fmap_app. Qed.

(** The hooks leave the history alone, and so do the two methods of the backfill. *)
Class QuietHooks : Prop := quiet_hooks h f es :
  h ∈ [BeforeStartDDL m; AfterStartDDL m; BeforeCompleteDDL m; AfterCompleteDDL m] → h = Some f →
  pres (hist m es) f.
Context (CreateTriggers : Job → M (Store J C) ()) (Backfill_Start : string → loc → M (Store J C) ()).
Class QuietBackfill : Prop := {
  quiet_triggers job es : pres (hist m es) (CreateTriggers job);
  quiet_backfill s l es : pres (hist m es) (Backfill_Start s l);
}.
Context `{!QuietHooks} `{!QuietBackfill}.

Lemma hsome_run_hook h wrap Φ :
  h ∈ [BeforeStartDDL m; AfterStartDDL m; BeforeCompleteDDL m; AfterCompleteDDL m] →
  pres (hsome Φ) (run_hook h wrap).
Proof.
  intros Hh. unfold run_hook. destruct h as [f|] eqn:Heq; [|apply pres_ret].
  apply pres_wrap_err, pres_hsome. intros es _. by eapply quiet_hooks.
Qed.
Lemma hsome_deferred_hook h Φ :
  h ∈ [BeforeStartDDL m; AfterStartDDL m; BeforeCompleteDDL m; AfterCompleteDDL m] →
  pres (hsome Φ) (deferred_hook h).
Proof.
  intros Hh. unfold deferred_hook. destruct h as [f|] eqn:Heq; [|apply pres_ret].
  apply pres_bind; [|intros; apply pres_ret]. apply pres_try, pres_hsome. intros es _. by eapply quiet_hooks.
Qed.
Lemma leads_with_defer {A} Σ Φ (p : M (Store J C) A) f (Ψ : A → list (entry J) → Prop) :
  (∀ Φ, pres (hsome Φ) f) → (∀ a es, Ψ a es → Σ es) →
  leads (hsome Σ) (hsome Φ) p (λ a, hsome (Ψ a)) →
  leads (hsome Σ) (hsome Φ) (with_defer p f) (λ a, hsome (Ψ a)).
Proof.
  intros Hf HS Hp w Hw. specialize (Hp w Hw). unfold with_defer. destruct (p w) as [r w1].
  assert (∀ Ξ, hsome Ξ w1 → hsome Ξ (f w1).2) as Hk by (intros Ξ Hx; by apply (Hf Ξ)).
  destruct (f w1) as [[] w2]; cbn in Hk; destruct r; eauto using hsome_mono.
Qed.

Lemma pres_rollbackPhase fuel mig parent Φ : pres (hsome Φ) (rollbackExpandPhase m fuel mig parent).
Proof. apply pres_rollbackExpandPhase, _. Qed.

Lemma get_active_on_top es new x rs now :
  on_top es new Active x →
  match run_spec (catalogue_name_le (C := C)) rs now (Roll_schema m) CGetActive x with
  | (Ok mig, x') => x' = x ∧ Migration_Name mig = Migration_Name new
  | (_, x') => x' = x
  end.
Proof.
  intros (e & -> & [<- _] & He). cbn [run_spec]. rewrite get_bind, last_snoc, decide_True by done.
  unfold lift, decode. by destruct (json_Unmarshal (e_body e)).
Qed.

Lemma leads_GetActive es new Σ :
  (∀ x, on_top es new Active x → Σ x) →
  leads (hsome Σ) (hsome (on_top es new Active)) (from_state m state_GetActiveMigration)
    (λ mig, hsome (λ x, on_top es new Active x ∧ Migration_Name mig = Migration_Name new)).
Proof.
  intros HS. apply (leads_hcall CGetActive); [done|]. intros rs now x _ Hx.
  pose proof (get_active_on_top es new x rs now Hx) as Ha.
  destruct (run_spec _ _ _ _ CGetActive x) as [[mig|e| |] x']; [by destruct Ha as [-> ->]|..]; subst x'; auto.
Qed.

Lemma leads_Rollback es new fuel :
  leads (hsome (tried es new)) (hsome (on_top es new Active)) (Roll_Rollback m fuel) (λ _, hsome (eq es)).
Proof.
  unfold Roll_Rollback. eapply leads_bind; [apply leads_wrap_err, (leads_GetActive es new); by right|].
  intros mig. eapply leads_bind with (R := λ _, hsome (λ x, on_top es new Active x ∧ Migration_Name mig = Migration_Name new)).
  { apply leads_wrap_err, leads_hpres; [|by right; firstorder].
    apply pres_hsome. intros x _. by apply (pres_read m CPreviousMigration). }
  intros prev. eapply leads_bind.
  { apply leads_hpres; [apply pres_rollbackPhase|by right; firstorder]. }
  intros []. apply leads_wrap_err, (leads_hcall (CRollback _)); [done|].
  intros rs now x _ [(e & -> & [<- _] & He) ->]. cbn [run_spec]. rewrite get_bind.
  rewrite decide_False.
  - unfold pop. rewrite top_snoc, decide_True, length_app, take_app_length' by (cbn; lia || done). done.
  - rewrite filter_app, filter_cons, decide_True by (by split). by destruct (filter _ es).
Qed.

Lemma leads_after_rollback {A} es new fuel ok ko (Ψ : A → list (entry J) → Prop) :
  leads (hsome (tried es new)) (hsome (on_top es new Active)) (after_rollback m fuel ok ko)
    (λ a, hsome (Ψ a)).
Proof.
  intros w Hw. pose proof (leads_Rollback es new fuel w Hw) as Hr. unfold after_rollback, try, mbind, prog_bind.
  destruct (Roll_Rollback m fuel w) as [[]?]; cbn; try exact Hr.
  eapply hsome_mono; [|exact Hr]. by left.
Qed.

Lemma pres_addTriggers I ts : ∀ job, pres I (addTriggers job ts : M (Store J C) _).
Proof.
  assert (∀ t job, pres I (addTrigger job t : M (Store J C) _)) as Hone.
  { intros t job. unfold addTrigger, columns_of. pres_steps. }
  induction ts as [|t ts IH]; intros job; cbn [addTriggers]; [apply pres_ret|].
  apply pres_bind; [apply Hone|exact IH].
Qed.
Lemma pres_AddTask I job t : pres I (AddTask job t : M (Store J C) _).
Proof. apply pres_addTriggers. Qed.
Hint Resolve pres_AddTask : pgroll.

Lemma leads_startOperation es new fuel mig job op :
  leads (hsome (tried es new)) (hsome (on_top es new Active)) (startOperation m fuel mig job op)
    (λ _, hsome (on_top es new Active)).
Proof.
  assert (∀ {A} (p : M (Store J C) A), pres (hsome (on_top es new Active)) p →
    leads (hsome (tried es new)) (hsome (on_top es new Active)) p (λ _, hsome (on_top es new Active))) as Hq.
  { intros A p Hp. apply leads_hpres; [done|by right]. }
  unfold startOperation. eapply leads_bind; [apply Hq; by pres_steps|]. intros [so|]; [|apply Hq, pres_ret].
  eapply leads_bind; [apply Hq; by pres_steps|]. intros [[]|e]; [|apply leads_after_rollback].
  apply Hq. pres_steps.
Qed.
Lemma leads_startOperations es new fuel mig ops : ∀ job,
  leads (hsome (tried es new)) (hsome (on_top es new Active)) (startOperations m fuel mig job ops)
    (λ _, hsome (on_top es new Active)).
Proof.
  induction ops as [|op ops IH]; intros job; cbn [startOperations]; [by apply leads_ret|].
  eapply leads_bind; [apply leads_startOperation|]. intros job'. apply IH.
Qed.

Lemma leads_startDDL es fuel mig o :
  leads (hsome (tried es mig)) (hsome (eq es)) (startDDLOperations m fuel mig o)
    (λ _, hsome (on_top es mig Active)).
Proof.
  unfold startDDLOperations. eapply leads_bind.
  { apply leads_hpres; [|by left]. apply pres_hsome. intros x _. by apply (pres_read m CIsActive). }
  intros act. eapply leads_bind; [apply leads_hpres; [by pres_steps|by left]|]. intros [].
  eapply leads_bind with (R := λ _, hsome (on_top es mig Active)).
  { apply leads_wrap_err, (leads_hcall (CStart mig)); [done|]. intros rs now x _ <-. cbn [run_spec].
    unfold wrap_err, lift, mbind, prog_bind. destruct (json_Marshal mig) as [body|e| |] eqn:Hbody; cbn; try by left.
    unfold push. repeat (destruct (decide _); [by left|]).
    eexists. split; [done|]. by split_and!. }
  intros []. eapply leads_bind.
  { apply leads_hpres; [|by right]. apply hsome_run_hook. by left. }
  intros []. apply leads_with_defer.
  { intros Φ. apply hsome_deferred_hook. right. left. }
  { by right. }
  eapply leads_bind; [apply leads_hpres; [by pres_steps|by right]|]. intros [].
  eapply leads_bind; [apply leads_hpres; [by pres_steps|by right]|]. intros [].
  eapply leads_bind; [apply leads_startOperations|]. intros job.
  apply leads_hpres; [|by right]. pres_steps.
Qed.

Lemma leads_performBackfills es new fuel job :
  leads (hsome (tried es new)) (hsome (on_top es new Active))
    (performBackfills m CreateTriggers Backfill_Start fuel job) (λ _, hsome (on_top es new Active)).
Proof.
  set (I := hsome (on_top es new Active)).
  assert (∀ {A} (p : M (Store J C) A), pres I p → leads (hsome (tried es new)) I p (λ _, I)) as Hq.
  { intros A p Hp. apply leads_hpres; [done|by right]. }
  unfold performBackfills. eapply leads_bind.
  { apply Hq, pres_try, pres_hsome. intros x _. apply quiet_triggers. }
  intros ?. generalize (Job_Tables job). intros tables. induction tables as [|l ls IH]; [by apply leads_ret|].
  cbn [for_each]. eapply leads_bind with (R := λ _, I); [|intros []; exact IH].
  eapply leads_bind; [apply Hq; subst I; by pres_steps|]. intros t. eapply leads_bind.
  { apply Hq, pres_try, pres_hsome. intros x _. apply quiet_backfill. }
  intros [[]|e]; [by apply leads_ret|]. apply leads_after_rollback.
Qed.

Lemma reads_HasExisting Φ : pres (hsome Φ) (from_state m state_HasExistingSchemaWithoutHistory).
Proof.
  apply pres_hsome. intros es _ w Hw. unfold from_state, on_state. cbn.
  unfold State_HasExistingSchemaWithoutHistory, read_rows, State_ReadSchema, wrap_err, mbind, prog_bind. cbn.
  destruct (decide _); [exact Hw|]. by destruct (catalogue_read_schema _ _).
Qed.

(** A start pushes the migration, and takes it off again or leaves it active
    when it fails. *)
Lemma leads_Start es fuel mig o :
  leads (hsome (tried es mig)) (hsome (eq es))
    (Roll_Start m CreateTriggers Backfill_Start fuel mig o)
    (λ _, hsome (on_top es mig Active)).
Proof.
  assert (∀ {A} (p : M (Store J C) A), pres (hsome (eq es)) p →
    leads (hsome (tried es mig)) (hsome (eq es)) p (λ _, hsome (eq es))) as Hq.
  { intros A p Hp. apply leads_hpres; [done|by left]. }
  unfold Roll_Start. eapply leads_bind; [apply Hq; by destruct (checkTarget m mig); pres_steps|]. intros [].
  eapply leads_bind.
  { apply Hq, pres_wrap_err, reads_HasExisting. }
  intros ex. eapply leads_bind; [apply Hq; by pres_steps|]. intros [].
  eapply leads_bind.
  { apply Hq. unfold Roll_Validate. destruct (Roll_skipValidation m); [apply pres_ret|].
    apply pres_bind; [|intros []; by pres_steps]. destruct (Roll_requireReversible m); [|apply pres_ret].
    by destruct (ValidateReversibility mig); pres_steps. }
  intros []. eapply leads_bind.
  { apply Hq. unfold Roll_validateDependencies. destruct (decide _); [apply pres_ret|].
    apply pres_bind; [|intros; by pres_steps]. apply pres_wrap_err, pres_hsome. intros x _.
    by apply (pres_read m (CSchemaHistory true)). }
  intros []. eapply leads_bind; [apply leads_startDDL|]. intros job. apply leads_performBackfills.
Qed.

(** ** Completing *)

(** [e'] is the entry [e] some calls later. *)
Definition later (e e' : entry J) : Prop :=
  e_name e' = e_name e ∧ e_body e' = e_body e ∧ e_type e' = e_type e ∧
  (is_sealed (e_status e) = true → is_sealed (e_status e') = true).
#[export] Instance later_preorder : PreOrder later.
Proof.
  split; [done|]. intros e1 e2 e3 (Hn & Hb & Ht & Hs) (Hn' & Hb' & Ht' & Hs').
  split_and!; [by rewrite Hn'|by rewrite Hb'|by rewrite Ht'|auto].
Qed.
Definition evolves : list (entry J) → list (entry J) → Prop := Forall2 later.
#[export] Instance evolves_preorder : PreOrder evolves.
Proof. apply _. Qed.

Lemma evolves_names es x : evolves es x → e_names x = e_names es.
Proof.
  unfold e_names. induction 1 as [|e e' es x (Hn & _) _ IH]; [done|]. cbn. by rewrite Hn, IH.
Qed.
Lemma evolves_fmap f es x : (∀ e, later e (f e)) → evolves es x → evolves es (f <$> x).
Proof.
  intros Hf Hx. transitivity x; [done|]. clear Hx. induction x as [|e x IH]; [constructor|]. by constructor.
Qed.
Lemma evolves_change P `{!∀ e, Decision (P e)} f es x :
  (∀ e, P e → later e (f e)) → evolves es x → evolves es (change P f x).
Proof. intros Hf. apply evolves_fmap. intros e. destruct (decide (P e)); [by apply Hf|done]. Qed.

(** Only the migrations [queue] names still wait for their completion. *)
Definition waiting es (queue : list string) x : Prop :=
  evolves es x ∧ ∀ e, e ∈ x → is_deferred (e_status e) = true → e_name e ∈ queue.

Lemma waiting_evolves es q x : waiting es q x → evolves es x. Proof. by intros [? _]. Qed.
Lemma waiting_fmap es q q' f x :
  (∀ e, later e (f e)) →
  (∀ e, is_deferred (e_status (f e)) = true → e_name e ∈ q' ∨ is_deferred (e_status e) = true ∧ (e_name e ∈ q → e_name e ∈ q')) →
  waiting es q x → waiting es q' (f <$> x).
Proof.
  intros Hl Hf [He Hq]. split; [by apply evolves_fmap|].
  intros e' (e & -> & Hin)%list_elem_of_fmap Hd. destruct (Hl e) as (-> & _).
  destruct (Hf e Hd) as [|[Hd' Hi]]; auto.
Qed.

Lemma deferred_seal s : is_deferred (seal s) = is_deferred s. Proof. by destruct s. Qed.
Lemma later_seal e : later e (set_e_status (seal (e_status e)) e).
Proof. split_and!; [done..|]. cbn. by destruct (e_status e). Qed.
Lemma later_clear e : later e (set_e_status (clear_deferred (e_status e)) e).
Proof. split_and!; [done..|]. cbn. by destruct (e_status e). Qed.
Lemma later_schema sc e : later e (set_e_schema sc e). Proof. done. Qed.

Lemma waiting_seal es q x :
  waiting es q x → waiting es q ((λ e, set_e_status (seal (e_status e)) e) <$> x).
Proof.
  apply waiting_fmap; [apply later_seal|]. intros e. cbn. rewrite deferred_seal. auto.
Qed.
Lemma waiting_schema es q sc P `{!∀ e, Decision (P e)} x :
  waiting es q x → waiting es q (change P (set_e_schema sc) x).
Proof. apply waiting_fmap; intros e; destruct (decide (P e)); try done; cbn; auto. Qed.
Lemma waiting_clear es n q x :
  waiting es (n :: q) x →
  waiting es q (change (λ e, e_name e = n) (λ e, set_e_status (clear_deferred (e_status e)) e) x).
Proof.
  apply waiting_fmap; intros e; destruct (decide (e_name e = n)) as [He|He]; try done.
  - apply later_clear.
  - cbn. by destruct (e_status e).
  - intros Hd. right. split; [done|]. by intros [|]%elem_of_cons.
Qed.

Lemma map_decode_names w (l : list (entry J)) migs :
  map_outcome (λ e, decode (w e) e) l = Ok migs → Migration_Name <$> migs = e_names l.
Proof.
  intros Hm%map_outcome_ok. unfold e_names. induction Hm as [|e mig l migs Hd _ IH]; [done|].
  cbn. rewrite IH. f_equal. unfold decode in Hd.
  destruct (json_Unmarshal (e_body e)); cbn in Hd; try done. by injection Hd as <-.
Qed.

Lemma leads_quiet {A} es q (p : M (Store J C) A) :
  pres (hsome (waiting es q)) p →
  leads (hsome (evolves es)) (hsome (waiting es q)) p (λ _, hsome (waiting es q)).
Proof. intros Hp. apply leads_hpres; [done|apply waiting_evolves]. Qed.

Lemma leads_DeferredCompletes es :
  leads (hsome (evolves es)) (hsome (evolves es)) (from_state m state_DeferredCompletes)
    (λ migs, hsome (waiting es (Migration_Name <$> migs))).
Proof.
  apply (leads_hcall CDeferredCompletes); [done|]. intros rs now x _ Hx. cbn [run_spec]. rewrite get_bind.
  unfold lift. destruct (map_outcome _ _) as [migs|e| |] eqn:Hm; try done. split; [done|].
  intros e He Hd. rewrite (map_decode_names _ _ _ Hm). unfold e_names.
  apply list_elem_of_fmap_2, list_elem_of_filter. by split.
Qed.
Lemma leads_hist_MarkSealed es q :
  leads (hsome (evolves es)) (hsome (waiting es q)) (from_state m state_MarkSealed)
    (λ _, hsome (λ x, waiting es q x ∧ ∀ e, e ∈ x → e_status e ≠ Active → is_sealed (e_status e) = true)).
Proof.
  apply (leads_hcall CMarkSealed); [done|]. intros rs now x _ Hx. cbn [run_spec]. rewrite get_bind. cbn.
  split; [by apply waiting_seal|]. intros e' (e & -> & _)%list_elem_of_fmap. cbn. by destruct (e_status e).
Qed.
Lemma leads_sealing es q :
  leads (hsome (evolves es)) (hsome (waiting es q)) (from_state m state_MarkSealed)
    (λ _, hsome (waiting es q)).
Proof. eapply leads_hmono; [apply leads_hist_MarkSealed|]. by intros ? x [? _]. Qed.

Lemma hsome_applyDeferredComplete fuel dm Φ : pres (hsome Φ) (applyDeferredComplete m fuel dm).
Proof. unfold applyDeferredComplete. pres_steps. Qed.
Hint Resolve hsome_applyDeferredComplete : pgroll.
Lemma leads_clear es dm q :
  leads (hsome (evolves es)) (hsome (waiting es (Migration_Name dm :: q))) (clearCompleteDeferred m dm)
    (λ _, hsome (waiting es q)).
Proof.
  apply leads_wrap_err, (leads_hcall (CClearCompleteDeferred _)); [done|].
  intros rs now x _ Hx. by apply waiting_clear.
Qed.
Lemma leads_drain es fuel migs q :
  leads (hsome (evolves es)) (hsome (waiting es ((Migration_Name <$> migs) ++ q)))
    (for_each (drainDeferredMigration m fuel) migs) (λ _, hsome (waiting es q)).
Proof.
  induction migs as [|dm migs IH]; cbn [for_each]; [by apply leads_ret|].
  eapply leads_bind with (R := λ _, hsome (waiting es ((Migration_Name <$> migs) ++ q)));
    [|intros []; exact IH]. unfold drainDeferredMigration.
  eapply leads_bind; [apply leads_quiet, hsome_applyDeferredComplete|]. intros []. apply leads_clear.
Qed.

Lemma leads_hist_drainQueue es fuel mig :
  leads (hsome (evolves es)) (hsome (evolves es)) (drainQueue m fuel mig) (λ _, hsome (waiting es [])).
Proof.
  unfold drainQueue. eapply leads_bind; [apply leads_wrap_err, leads_DeferredCompletes|].
  intros queued. destruct (decide (queued = [])) as [->|_]; [by apply leads_ret|].
  eapply leads_bind; [apply leads_sealing|]. intros ?. unfold drainSealed.
  eapply leads_bind; [apply leads_quiet; by pres_steps|]. intros [].
  eapply leads_bind; [rewrite <-(app_nil_r (Migration_Name <$> queued)); apply leads_drain|].
  intros []. by apply leads_ret.
Qed.

(** The statuses of a history that has been contracted *)
Definition contracted es x : Prop := evolves es x ∧ Forall (λ e, e_status e = Sealed ∨ e_status e = Active) x.
Definition all_sealed es x : Prop := evolves es x ∧ Forall (λ e, e_status e = Sealed) x.

Lemma wf_one_active x e1 e2 :
  wf_history x → e1 ∈ x → e2 ∈ x → e_status e1 = Active → e_status e2 = Active → e1 = e2.
Proof.
  intros (ck & t & Hwf) Hi1 Hi2 Ha1 Ha2.
  apply list_elem_of_split in Hi1 as (pre & post & ->).
  pose proof (wf_active _ _ _ Hwf pre e1 post eq_refl Ha1) as ->.
  apply elem_of_app in Hi2 as [Hi2|Hi2%list_elem_of_singleton]; [|done].
  apply list_elem_of_split in Hi2 as (p1 & p2 & ->).
  pose proof (wf_active _ _ _ Hwf p1 e2 (p2 ++ [e1])) as Hn. rewrite <-app_assoc in Hn.
  specialize (Hn eq_refl Ha2). by destruct p2.
Qed.

Lemma leads_Complete_row es n :
  leads (hsome (evolves es)) (hsome (waiting es [])) (from_state m (state_Complete n))
    (λ _, hsome (λ x, waiting es [] x ∧ ∀ e, e ∈ x → e_status e ≠ Active)).
Proof.
  apply (leads_hcall (CComplete n)); [done|]. intros rs now x Hwf Hx. cbn [run_spec]. unfold change_one.
  destruct (decide _) as [|Hne]; [by apply waiting_evolves in Hx|].
  destruct rs as [sc|e| |]; try by apply waiting_evolves in Hx.
  assert (∃ e0, e0 ∈ x ∧ is_active_entry n e0) as (e0 & He0 & Hn0 & Ha0).
  { destruct (filter (is_active_entry n) x) as [|e0 l] eqn:Hf; [done|]. exists e0.
    assert (e0 ∈ filter (is_active_entry n) x) as [? ?]%list_elem_of_filter by (rewrite Hf; left). done. }
  split.
  - revert Hx. unfold change. apply waiting_fmap; intros e; destruct (decide (is_active_entry n e)) as [[_ Ha]|]; try done.
    + split_and!; [done..|]. by rewrite Ha.
    + auto.
  - intros e' (e & -> & He)%list_elem_of_fmap. destruct (decide (is_active_entry n e)) as [|Hno]; [done|].
    intros Ha. apply Hno. by rewrite (wf_one_active x e e0 Hwf He He0 Ha Ha0).
Qed.

Lemma sealed_of es x :
  waiting es [] x → (∀ e, e ∈ x → e_status e ≠ Active → is_sealed (e_status e) = true) → contracted es x.
Proof.
  intros [He Hq] Hs. split; [done|]. apply Forall_forall. intros e Hin.
  specialize (Hq e Hin). specialize (Hs e Hin). destruct (e_status e); auto; cbn in *;
    try (by exfalso; apply (not_elem_of_nil (e_name e)), Hq); by discriminate Hs.
Qed.
Lemma leads_contracted es :
  leads (hsome (evolves es)) (hsome (waiting es [])) (from_state m state_MarkSealed)
    (λ _, hsome (contracted es)).
Proof. eapply leads_hmono; [apply leads_hist_MarkSealed|]. intros ? x [Hx Hs]. by apply sealed_of. Qed.
Lemma leads_all_sealed es :
  leads (hsome (evolves es)) (hsome (λ x, waiting es [] x ∧ ∀ e, e ∈ x → e_status e ≠ Active))
    (from_state m state_MarkSealed) (λ _, hsome (all_sealed es)).
Proof.
  apply (leads_hcall CMarkSealed); [done|]. intros rs now x _ [Hx Ha]. cbn [run_spec]. rewrite get_bind. cbn.
  pose proof (waiting_seal es [] x Hx) as [He Hq]. split; [done|]. apply Forall_forall.
  intros e' Hin. specialize (Hq e' Hin). apply list_elem_of_fmap in Hin as (e & -> & Hin).
  specialize (Ha e Hin). cbn in *. destruct (e_status e); try done;
    by exfalso; apply (not_elem_of_nil (e_name e)), Hq.
Qed.

Lemma reads_GetActive_some Φ : pres (hsome Φ) (from_state m state_GetActiveMigration).
Proof.
  apply pres_hsome. intros es _. apply (pres_read m CGetActive); [done|].
  intros rs now. cbn [run_spec]. rewrite get_bind. destruct (last es); [|done]. by destruct (decide _).
Qed.
Hint Resolve reads_GetActive_some : pgroll.

Lemma leads_completeActive_full es fuel mig need :
  leads (hsome (evolves es)) (hsome (waiting es []))
    (completeActive m fuel mig (mkCompleteOptions false false) need) (λ _, hsome (all_sealed es)).
Proof.
  unfold completeActive. eapply leads_bind; [apply leads_quiet; by pres_steps|]. intros [].
  eapply leads_bind; [apply leads_quiet; by pres_steps|]. intros [].
  eapply leads_bind; [apply leads_quiet, hsome_run_hook; do 2 right; left|]. intros [].
  apply leads_with_defer.
  { intros Φ. apply hsome_deferred_hook. do 3 right. left. } { by intros ? x [? _]. }
  unfold completeDDL. eapply leads_bind; [apply leads_quiet; by pres_steps|]. intros [].
  eapply leads_bind; [apply leads_quiet; by pres_steps|]. intros [].
  eapply leads_bind; [apply leads_wrap_err, leads_Complete_row|]. intros []. cbn [co_skipSchemaDrop negb].
  eapply leads_bind; [apply leads_all_sealed|]. intros ?. by apply leads_ret.
Qed.
Lemma leads_Complete_full es fuel :
  leads (hsome (evolves es)) (hsome (evolves es))
    (Roll_Complete m fuel (mkCompleteOptions false false)) (λ _, hsome (all_sealed es)).
Proof.
  assert (∀ {A} (p : M (Store J C) A), pres (hsome (evolves es)) p →
    leads (hsome (evolves es)) (hsome (evolves es)) p (λ _, hsome (evolves es))) as Hq.
  { intros A p Hp. by apply leads_hpres. }
  unfold Roll_Complete. eapply leads_bind; [apply Hq; by pres_steps|]. intros mig.
  cbn [co_deferComplete co_skipSchemaDrop negb andb].
  eapply leads_bind; [apply Hq; by pres_steps|]. intros [].
  eapply leads_bind; [apply leads_hist_drainQueue|]. intros need. apply leads_completeActive_full.
Qed.

Lemma leads_closeWindow es :
  leads (hsome (evolves es)) (hsome (waiting es [])) (closeWindow m) (λ _, hsome (contracted es)).
Proof.
  unfold closeWindow. eapply leads_bind; [apply leads_contracted|]. intros ?.
  apply leads_hpres; [|by intros x [? _]].
  apply pres_bind; [|intros; apply pres_ret]. unfold dropStaleSchemas, latestMigration, loadLatest, hasVersionSchema,
    dropOldVersionSchemas, ExistingVersionSchemas, versionSchemaNames. pres_steps.
Qed.
Lemma leads_RefreshSchema es n q :
  leads (hsome (evolves es)) (hsome (waiting es q)) (from_state m (state_RefreshResultingSchema n))
    (λ _, hsome (waiting es q)).
Proof.
  apply (leads_hcall (CRefreshResultingSchema n)); [done|]. intros rs now x _ Hx. cbn [run_spec].
  unfold change_one. destruct (decide _); [by apply waiting_evolves in Hx|].
  destruct rs; try by apply waiting_evolves in Hx. by apply waiting_schema.
Qed.
Lemma leads_contractSealed es fuel live init last_ :
  leads (hsome (evolves es)) (hsome (waiting es ((Migration_Name <$> init) ++ [Migration_Name last_])))
    (contractSealed m fuel live init last_) (λ _, hsome (contracted es)).
Proof.
  unfold contractSealed, dropOldVersionSchemas. eapply leads_bind; [apply leads_quiet; by pres_steps|]. intros [].
  eapply leads_bind; [apply leads_drain|]. intros [].
  eapply leads_bind; [apply leads_quiet; by pres_steps|]. intros [].
  eapply leads_bind; [apply leads_wrap_err, leads_RefreshSchema|]. intros [].
  eapply leads_bind; [apply leads_quiet; by pres_steps|]. intros [].
  eapply leads_bind; [apply leads_clear|]. intros [].
  eapply leads_bind; [apply leads_contracted|]. intros ?. by apply leads_ret.
Qed.
Lemma leads_FinishContraction es fuel force :
  leads (hsome (evolves es)) (hsome (evolves es)) (FinishContraction m fuel force)
    (λ _, hsome (contracted es)).
Proof.
  unfold FinishContraction. eapply leads_bind; [apply leads_wrap_err, leads_DeferredCompletes|].
  intros queued. destruct (last queued) as [last_|] eqn:Hl.
  2: { apply last_None in Hl as ->. apply leads_closeWindow. }
  apply last_Some in Hl as [init ->].
  replace (take (length (init ++ [last_]) - 1) (init ++ [last_])) with init
    by (rewrite length_app, take_app_length'; [done|cbn; lia]).
  eapply leads_bind; [apply leads_quiet; unfold latestMigration; by pres_steps|]. intros [name|].
  2: { intros w Hw. eapply hsome_mono; [apply waiting_evolves|exact Hw]. }
  eapply leads_bind; [apply leads_quiet; unfold loadLatest; by pres_steps|]. intros live.
  eapply leads_bind.
  { apply leads_quiet. unfold checkContraction, hasVersionSchema, ExistingVersionSchemas, versionSchemaNames.
    by pres_steps. }
  intros []. unfold contract. eapply leads_bind; [apply leads_sealing|]. intros ?.
  rewrite fmap_app. apply leads_contractSealed.
Qed.

(** ** Completing one migration of a train *)

Lemma on_top_change es new rs x st err :
  wf_history x → on_top es new Active x →
  match change_one rs (is_active_entry (Migration_Name new)) (λ sc e, set_e_schema sc (set_e_status st e)) err x with
  | (Ok _, x') => on_top es new st x'
  | (_, x') => on_top es new Active x' ∨ on_top es new st x'
  end.
Proof.
  intros Hwf Hx. pose proof Hx as (e & -> & Hpush & He). pose proof Hpush as [<- _]. unfold change_one.
  destruct (decide _) as [|_]; [by left|]. destruct rs as [sc|err'| |]; try by left.
  exists (set_e_schema sc (set_e_status st e)). split; [|done].
  unfold change. rewrite fmap_app. cbn [fmap list_fmap].
  rewrite (decide_True (P := is_active_entry (e_name e) e)) by done. f_equal.
  rewrite <-(list_fmap_id es) at 2. apply list_fmap_ext. intros i e' Hi.
  rewrite decide_False; [done|]. intros [_ Ha].
  assert (e' = e) as ->.
  { apply (wf_one_active (es ++ [e])); try done; apply elem_of_app; [left|right; left].
    by eapply list_elem_of_lookup_2. }
  destruct Hwf as (ck & t & Hwf). apply list_elem_of_lookup_2 in Hi.
  pose proof (wf_names _ _ _ Hwf) as Hnd. unfold e_names in Hnd. rewrite fmap_app in Hnd.
  apply NoDup_app in Hnd as (_ & Hd & _). apply (Hd (e_name e)); [by apply list_elem_of_fmap_2|left].
Qed.
Lemma leads_Complete_inline es new fuel :
  leads (hsome (λ x, on_top es new Active x ∨ on_top es new Applied x)) (hsome (on_top es new Active))
    (Roll_Complete m fuel (mkCompleteOptions true false)) (λ _, hsome (on_top es new Applied)).
Proof.
  assert (∀ {A} Φ (p : M (Store J C) A), (∀ x, Φ x → on_top es new Active x) → pres (hsome Φ) p →
    leads (hsome (λ x, on_top es new Active x ∨ on_top es new Applied x)) (hsome Φ) p (λ _, hsome Φ)) as Hq.
  { intros A Φ p HΦ Hp. apply leads_hpres; [done|]. intros x Hx. left. by apply HΦ. }
  unfold Roll_Complete. eapply leads_bind; [apply leads_wrap_err, (leads_GetActive es new); by left|].
  intros mig. set (Φ := λ x, on_top es new Active x ∧ Migration_Name mig = Migration_Name new).
  cbn [co_deferComplete co_skipSchemaDrop negb andb].
  eapply leads_bind with (R := λ _, hsome Φ); [by apply leads_ret|]. intros [].
  eapply leads_bind with (R := λ _, hsome Φ); [by apply leads_ret|]. intros need.
  assert (∀ x, Φ x → on_top es new Active x) as HΦ by (by intros x [? _]).
  unfold completeActive. eapply leads_bind; [apply (Hq _ Φ); [done|by pres_steps]|]. intros [].
  eapply leads_bind; [apply (Hq _ Φ); [done|by pres_steps]|]. intros [].
  eapply leads_bind; [apply (Hq _ Φ); [done|apply hsome_run_hook; do 2 right; left]|]. intros [].
  apply leads_with_defer.
  { intros Ξ. apply hsome_deferred_hook. do 3 right. left. } { auto. }
  unfold completeDDL. eapply leads_bind; [apply (Hq _ Φ); [done|by pres_steps]|]. intros [].
  cbn [co_skipSchemaDrop negb andb]. eapply leads_bind with (R := λ _, hsome Φ); [by apply leads_ret|]. intros [].
  eapply leads_bind with (R := λ _, hsome (on_top es new Applied)); [|intros []; by apply leads_ret].
  apply leads_wrap_err, (leads_hcall (CComplete _)); [done|]. intros rs now x Hwf [Hx ->].
  by apply on_top_change.
Qed.

Lemma leads_Complete_deferred es new fuel :
  leads (hsome (λ x, on_top es new Active x ∨ on_top es new Deferred x)) (hsome (on_top es new Active))
    (Roll_Complete m fuel (mkCompleteOptions false true)) (λ _, hsome (on_top es new Deferred)).
Proof.
  unfold Roll_Complete. eapply leads_bind; [apply leads_wrap_err, (leads_GetActive es new); by left|].
  intros mig. cbn [co_deferComplete].
  apply leads_wrap_err, (leads_hcall (CMarkCompleteDeferred _)); [done|]. intros rs now x Hwf [Hx ->].
  by apply on_top_change.
Qed.

(** C9. Completing contracts everything.  After [Roll.Complete] every
    migration of the history is sealed, its own completion and every one that
    was queued included; after [FinishContraction] every one that is not
    active.  Whatever happens, neither adds or removes a migration, and no
    migration is unsealed. *)
Theorem completion_contracts fuel force es w :
  hist m es w →
  match Roll_Complete m fuel (mkCompleteOptions false false) w with
  | (Ok _, w') => hsome (all_sealed es) w'
  | (_, w') => hsome (evolves es) w'
  end ∧
  match FinishContraction m fuel force w with
  | (Ok _, w') => hsome (contracted es) w'
  | (_, w') => hsome (evolves es) w'
  end.
Proof.
  intros Hw. assert (hsome (evolves es) w) as Hs by (by exists es).
  split; [apply (leads_Complete_full es fuel w Hs)|apply (leads_FinishContraction es fuel force w Hs)].
Qed.
End history.

(** ** A concrete deployment: a queued completion under the active migration *)

Definition expanded_migs : list (Migration * status) :=
  [(rename_migration "02_ab" "a" "b", Deferred); (rename_migration "03_bc" "b" "c", Active)].
Definition expanded_world : World mem_store := mkWorld New ∅ (mem_of mem_db expanded_migs) 0.
Lemma expanded_hist : hist (C := mem) mem_roll (mem_entries 0 expanded_migs) expanded_world.
Proof.
  split; [intros i j; cbn; lia|]. split; [reflexivity|]. apply (mem_entries_wf expanded_migs); [decide_goal|].
  intros [|x1 [|x2 [|x3 pre]]] x post Heq; by simplify_eq/=.
Qed.
#[export] Instance mem_roll_quiet : QuietHooks (J := Migration) (C := mem) mem_roll.
Proof. intros h f es Hh ->. by repeat apply elem_of_cons in Hh as [[=]|Hh]; apply not_elem_of_nil in Hh. Qed.

Lemma completion_contracts_witness :
  is_ok (Roll_Complete mem_roll 10 (mkCompleteOptions false false) expanded_world).1 = true ∧
  is_ok (FinishContraction mem_roll 10 true expanded_world).1 = true ∧
  hsome (C := mem) mem_roll (all_sealed (mem_entries 0 expanded_migs))
    (Roll_Complete mem_roll 10 (mkCompleteOptions false false) expanded_world).2.
Proof.
  assert (is_ok (Roll_Complete mem_roll 10 (mkCompleteOptions false false) expanded_world).1 = true) as Hok
    by (vm_compute; reflexivity).
  split; [exact Hok|]. split; [vm_compute; reflexivity|].
  pose proof (completion_contracts (C := mem) mem_roll 10 true _ _ expanded_hist) as [Hc _].
  destruct (Roll_Complete _ _ _ _) as [[[]|e| |] w']; try discriminate Hok. exact Hc.
Defined.
