(* ===== verification/RebaselineFacts.v ===== *)
(** * RebaselineFacts: raising the baseline

    Converting an applied migration into a baseline hides the history up to
    it; the local files up to its name are hidden with it, so that resolution
    goes on with what it had left, as long as nothing past the anchor depends
    on what it hides. *)

From S2P Require Import Prelude.
From S2P Require Import GoStd.
From S2P Require Import Names.
From S2P Require Import Schema.
From S2P Require Import Types.
From S2P Require Import Db.
From S2P Require Import WorldFacts.
From S2P Require Import Operations.
From S2P Require Import Migration.
From S2P Require Import Invert.
From S2P Require Import LocalSet.
From S2P Require Import Deps.
From S2P Require Import DepsFacts.
From S2P Require Import ResolveFacts.
From S2P Require Import History.
From S2P Require Import HistorySpec.
From S2P Require Import HistoryFacts.
From S2P Require Import HistoryRefine.
From S2P Require Import State.
From S2P Require Import Lifecycle.
From S2P Require Import Rewrite.
From S2P Require Import MemState.
From S2P Require Import HistoryLogic.

(** ** Resolution with a higher baseline *)

Definition past (name n : string) : Prop := String.leb n name = false.
#[export] Instance past_dec name n : Decision (past name n).
Proof. unfold past. apply _. Defined.
Definition above (name : string) (mig : RawMigration) : Prop := past name mig.(RawMigration_Name).
#[export] Instance above_dec name mig : Decision (above name mig).
Proof. unfold above. apply _. Defined.

Lemma leb_trans a b c : String.leb a b = true → String.leb b c = true → String.leb a c = true.
Proof.
  intros H1%Is_true_true H2%Is_true_true. apply Is_true_true.
  change (String.le a c). etransitivity; [exact H1|exact H2].
Qed.
Lemma leb_refl s : String.leb s s = true.
Proof. apply Is_true_true. change (String.le s s). reflexivity. Qed.
Lemma past_lower b name n : String.leb b name = true → past name n → past b n.
Proof.
  unfold past. intros Hb Hn. destruct (String.leb n b) eqn:Hnb; [|done].
  by rewrite (leb_trans n b name) in Hn.
Qed.
Lemma leb_empty s : String.leb "" s = true.
Proof. by destruct s. Qed.


Section raise.
Context `{!Dir}.

Lemma readLocalSet_raise b name target (applied applied' : gset string) files all exc :
  String.leb b name = true →
  (∀ n, past name n → n ∈ applied ↔ n ∈ applied') →
  readLocalSet b target applied files = Ok (all, exc) →
  ∃ exc', readLocalSet name target applied' files = Ok (filter (above name) all, exc').
Proof.
  intros Hb Ha. revert all exc. induction files as [|f files IH]; intros all exc; cbn [readLocalSet].
  { intros [= <- <-]. by eexists. }
  destruct (String.leb (MigrationNameFromFile f) b) eqn:Hf.
  { rewrite (leb_trans _ b name) by done. apply IH. }
  intros (mig & Hmig & Hr)%outcome_bind_ok.
  destruct (_ && _) eqn:Hc in Hr; [done|].
  apply outcome_bind_ok in Hr as ([all' exc'] & Hrec & [= <- <-]).
  destruct (IH _ _ Hrec) as [exc2 IH2].
  pose proof (ReadRawMigration_name f mig (proj1 (read_raw_ok _ _ _) Hmig)) as Hn.
  rewrite filter_cons.
  destruct (String.leb (MigrationNameFromFile f) name) eqn:Hfn.
  { rewrite decide_False by (unfold above, past; by rewrite Hn, Hfn). rewrite IH2. by eexists. }
  assert (past name mig.(RawMigration_Name)) as Hp by (unfold past; by rewrite Hn).
  rewrite decide_True by done. rewrite Hmig. cbn [mbind outcome_bind].
  rewrite (bool_decide_ext (_ ∉ applied') (mig.(RawMigration_Name) ∉ applied)) by (by rewrite Ha).
  rewrite Hc, IH2. by eexists.
Qed.

(** The sort still succeeds without what lies at or below the name. *)
Lemma TopoSort_raise (history history' exc exc' : gset string) name unapplied sorted :
  (∀ n, n ∈ history' ↔ n ∈ history ∧ past name n) → (∀ n, n ∈ exc' ↔ n ∈ exc ∧ past name n) →
  (∀ mig d, mig ∈ sorted → above name mig → d ∈ mig.(RawMigration_DependsOn) → past name d) →
  TopoSortMigrations unapplied history exc = Ok sorted →
  ∃ l, TopoSortMigrations (filter (above name) unapplied) history' exc' = Ok l.
Proof.
  intros Hh He Hdeps Hs. destruct (TopoSort_sound _ _ _ _ Hs) as [Hp Ho].
  destruct (hasDeps (filter (above name) unapplied)) eqn:Hd; [|unfold TopoSortMigrations; rewrite Hd; by eexists].
  assert (hasDeps unapplied = true) as Hd'.
  { unfold hasDeps in *. apply existsb_exists in Hd as (mig & Hm & Hmd). apply existsb_exists.
    exists mig. split; [|done]. apply list_elem_of_In. apply list_elem_of_In in Hm.
    by apply list_elem_of_filter in Hm as [_ ?]. }
  destruct (TopoSort_Ok_input _ _ _ _ Hd' Hs) as (Hnd & Hne & Hkn).
  apply (TopoSort_total _ _ _ (filter (above name) sorted)).
  - unfold names in *. eapply sublist_NoDup; [exact Hnd|]. apply fmap_sublist, sublist_filter.
  - intros Hin. apply Hne. unfold names in *. apply list_elem_of_fmap in Hin as (mig & -> & Hm).
    apply list_elem_of_fmap_2. by apply list_elem_of_filter in Hm as [_ ?].
  - intros mig d [Ha Hm]%list_elem_of_filter Hdd.
    assert (past name d) as Hpd by (apply (Hdeps mig); [by rewrite Hp|done|done]).
    destruct (Hkn mig d Hm Hdd) as [Hin|[Hin|Hin]]; [left|right; left; by apply Hh|right; right; by apply He].
    unfold names in *. apply list_elem_of_fmap in Hin as (mig' & -> & Hm').
    apply list_elem_of_fmap_2. by apply list_elem_of_filter.
  - by apply filter_Permutation.
  - apply ordered_filter; [|done]. unfold above. by intros ? ? _ _ ->.
Qed.

Lemma Resolve_raise history b history' name target res :
  String.leb (default "" b) name = true →
  (∀ n, n ∈ history' ↔ n ∈ history ∧ past name n) →
  (∀ mig d, mig ∈ res.(Resolution_Apply) → above name mig → d ∈ mig.(RawMigration_DependsOn) → past name d) →
  ResolveMigrations history b target = Ok res →
  ∃ res', ResolveMigrations history' (Some name) target = Ok res' ∧
    res'.(Resolution_All) = filter (above name) res.(Resolution_All) ∧
    res'.(Resolution_Apply) ≡ₚ filter (above name) res.(Resolution_Apply).
Proof.
  intros Hb Hh Hdeps. unfold ResolveMigrations.
  intros (local & Hl & Hr)%outcome_bind_ok. destruct (head _) eqn:Hmiss in Hr; [done|].
  apply outcome_bind_ok in Hr as (sorted & Hs & [= <-]). cbn [Resolution_Apply Resolution_All] in *.
  unfold resolveLocalSet in Hl. apply outcome_bind_ok in Hl as ([all exc] & Hrd & [= <-]).
  cbn [All Selected Excluded] in *.
  destruct (readLocalSet_raise _ name target (list_to_set history) (list_to_set history') _ _ _ Hb
    ltac:(intros n Hn; rewrite !elem_of_list_to_set, Hh; tauto) Hrd) as [exc' Hrd'].
  destruct (readLocalSet_spec _ _ _ _ _ _ Hrd) as (_ & Hexc & _).
  destruct (readLocalSet_spec _ _ _ _ _ _ Hrd') as (_ & Hexc' & _).
  assert (∀ n, n ∈ exc' ↔ n ∈ exc ∧ past name n) as He.
  { intros n. rewrite Hexc, Hexc'. split.
    - intros (mig & [Ha Hm]%list_elem_of_filter & <- & Hsel). split; [by exists mig|done].
    - intros [(mig & Hm & <- & Hsel) Hp]. exists mig. split_and!; [|done|done].
      by apply list_elem_of_filter. }
  unfold resolveLocalSet. change (default "" (Some name)) with name. rewrite Hrd'. cbn [mbind outcome_bind All Selected Excluded].
  destruct (head (filter (λ n, n ∉ (list_to_set (names (filter (above name) all)) : gset string))
    (elements (list_to_set history' : gset string)))) as [n|] eqn:Hmiss'.
  { exfalso. apply head_Some_elem_of in Hmiss' as [Hn Hnh]%list_elem_of_filter.
    rewrite elem_of_elements, elem_of_list_to_set, Hh in Hnh. destruct Hnh as [Hnh Hp].
    apply head_None in Hmiss. apply (proj1 (filter_nil_iff _ _) Hmiss n).
    - apply elem_of_elements. by apply elem_of_list_to_set.
    - rewrite elem_of_list_to_set in Hn |- *. intros Hin. apply Hn. unfold names in *.
      apply list_elem_of_fmap in Hin as (mig & -> & Hm). apply list_elem_of_fmap_2.
      by apply list_elem_of_filter. }
  set (unapplied := filter (λ mig, RawMigration_Name mig ∉ (list_to_set history : gset string))
    (if decide (target = "") then all else filter (λ mig, RawMigration_Name mig ∉ exc) all)) in *.
  assert (filter (λ mig, RawMigration_Name mig ∉ (list_to_set history' : gset string))
    (if decide (target = "") then filter (above name) all
     else filter (λ mig, RawMigration_Name mig ∉ exc') (filter (above name) all)) =
    filter (above name) unapplied) as Hun.
  { unfold unapplied. destruct (decide (target = "")); rewrite !list_filter_filter;
      apply filter_ext_in; intros mig _; rewrite !elem_of_list_to_set, Hh, ?He; unfold above; tauto. }
  rewrite Hun. destruct (TopoSort_sound _ _ _ _ Hs) as [Hp Ho].
  destruct (TopoSort_raise (list_to_set history) (list_to_set history') exc exc' name unapplied sorted)
    as [l Hlast]; [intros n; by rewrite !elem_of_list_to_set|done..|].
  rewrite Hlast. eexists. split; [done|]. cbn. split; [done|].
  destruct (TopoSort_sound _ _ _ _ Hlast) as [Hpl _]. etransitivity; [exact Hpl|].
  symmetry. by apply filter_Permutation.
Qed.
End raise.

(** ** The histories before and after a conversion *)

Section conversion.
Context {J : Type}.
Implicit Types (e a : entry J) (es pre post : list (entry J)).

(** The names [SchemaHistory] returns and the name of the latest baseline *)
Definition visible es : list string := e_names (filter (not_excluded true) (since_baseline es)).
Definition baseline_of es : option string :=
  e_name <$> last (filter (λ e, e_type e = MigrationTypeBaseline) es).

Definition converted (le : string → string → bool) (name : string) es es' : Prop :=
  ∃ pre a post, es = pre ++ a :: post ∧
    es' = pre ++ set_e_type MigrationTypeBaseline a :: post ∧
    e_name a = name ∧ e_type a ≠ MigrationTypeInferred ∧
    (∀ e, e ∈ post → e_type e ≠ MigrationTypeBaseline) ∧
    (∀ e, e ∈ pre → e_type e ≠ MigrationTypeInferred → le (e_name e) name = true) ∧
    (∀ e, e ∈ post → e_type e ≠ MigrationTypeInferred → le (e_name e) name = false).

Lemma refuse_names_ok {W} (ns : list string) format (w w' : W) :
  refuse_names ns format w = (Ok (), w') → ns = [] ∧ w' = w.
Proof. unfold refuse_names, fail_if. case_bool_decide; cbn; [by intros [= <-]|done]. Qed.
Lemma sort_names_nil le ns : sort_names le ns = [] → ns = [].
Proof.
  intros Hs. assert (ns ≡ₚ []) as Hp; [|by apply Permutation_nil_r in Hp].
  rewrite <-Hs. symmetry. apply merge_sort_Permutation.
Qed.
Lemma e_names_nil P `{!∀ e, Decision (P e)} es :
  e_names (filter P es) = [] → ∀ e, e ∈ es → ¬ P e.
Proof. intros Hn%fmap_nil_inv e He. by apply (proj1 (filter_nil_iff P es) Hn). Qed.

Lemma change_anchor name f pre a post :
  NoDup (e_names (pre ++ a :: post)) → e_name a = name →
  change (λ e, e_name e = name) f (pre ++ a :: post) = pre ++ f a :: post.
Proof.
  intros Hn <-. unfold e_names in Hn. rewrite fmap_app in Hn.
  apply NoDup_app in Hn as (_ & Hn1 & Hn2). cbn in Hn2. apply NoDup_cons in Hn2 as [Hn2 _].
  assert (∀ l, (∀ e, e ∈ l → e_name e ≠ e_name a) → change (λ e, e_name e = e_name a) f l = l) as Hl.
  { intros l Hl. unfold change. rewrite <-(list_fmap_id l) at 2. apply list_fmap_ext.
    intros i e He. rewrite decide_False; [done|]. apply Hl. by eapply list_elem_of_lookup_2. }
  unfold change. rewrite fmap_app. cbn. rewrite decide_True by done. f_equal; [|f_equal].
  - apply Hl. intros e He Heq. apply (Hn1 (e_name e)); [by apply list_elem_of_fmap_2|].
    rewrite Heq. left.
  - apply Hl. intros e He Heq. apply Hn2. rewrite <-Heq. by apply list_elem_of_fmap_2.
Qed.

Lemma convert_ok le name schema es r es' :
  NoDup (e_names es) → convert le name false schema es = (Ok r, es') →
  AlreadyBaseline r = false → converted le name es es'.
Proof.
  intros Hn. unfold convert. rewrite get_bind.
  destruct (list_find _ es) as [[i a]|] eqn:Hf; [|done].
  apply list_find_Some in Hf as (Hi & Ha & _).
  destruct (decide _) as [|Hb]; [by intros [= <- _]|].
  intros ([] & w1 & Haud & Hrest)%bind_ok _.
  apply bind_ok in Hrest as ([] & w2 & [= <-] & [= _ <-]).
  unfold audit in Haud. pose proof (take_drop_middle _ _ _ Hi) as Hes.
  apply bind_ok in Haud as ([] & ? & [Hinf ->]%fail_if_ok & Haud).
  apply bind_ok in Haud as ([] & ? & [_ ->]%fail_if_ok & Haud).
  apply bind_ok in Haud as ([] & ? & [_ ->]%fail_if_ok & Haud).
  apply bind_ok in Haud as ([] & ? & [_ ->]%refuse_names_ok & Haud).
  apply bind_ok in Haud as ([] & ? & [Hbase ->]%refuse_names_ok & Haud).
  apply bind_ok in Haud as ([] & ? & [Hlow%sort_names_nil ->]%refuse_names_ok & Haud).
  apply refuse_names_ok in Haud as [Hhigh%sort_names_nil ->].
  exists (take i es), a, (drop (S i) es). rewrite Hes. split_and!; try done.
  - rewrite <-Hes at 1. apply change_anchor; [by rewrite Hes|done].
  - by apply bool_decide_eq_false in Hinf.
  - by eapply e_names_nil.
  - intros e He Hinfe. destruct (le (e_name e) name) eqn:Hle; [done|].
    exfalso. apply (e_names_nil _ _ Hlow e He). by rewrite Ha.
  - intros e He Hinfe. destruct (le (e_name e) name) eqn:Hle; [|done].
    exfalso. apply (e_names_nil _ _ Hhigh e He). by rewrite Ha.
Qed.

Lemma since_baseline_app es post :
  (∀ e, e ∈ post → e_type e ≠ MigrationTypeBaseline) →
  since_baseline (es ++ post) = since_baseline es ++ post.
Proof.
  induction post as [|e post IH] using rev_ind; intros Hp; [by rewrite !app_nil_r|].
  rewrite app_assoc, since_baseline_snoc, decide_False, IH, app_assoc; [done| |].
  - intros e' He'. apply Hp, elem_of_app. by left.
  - apply Hp, elem_of_app. right. left.
Qed.

Lemma converted_visible le name es es' :
  converted le name es es' → (∀ n1 n2, le n1 n2 = String.leb n1 n2) →
  (∀ n, n ∈ visible es' ↔ n ∈ visible es ∧ past name n) ∧
  since_baseline es' `suffix_of` since_baseline es ∧
  baseline_of es' = Some name ∧ String.leb (default "" (baseline_of es)) name = true.
Proof.
  intros (pre & a & post & -> & -> & Ha & Hinf & Hbase & Hlow & Hhigh) Hle.
  assert (since_baseline (pre ++ set_e_type MigrationTypeBaseline a :: post) = post) as Hs'.
  { rewrite cons_middle, app_assoc, since_baseline_app by done.
    by rewrite since_baseline_snoc, decide_True. }
  destruct (since_baseline_suffix (pre ++ [a])) as [pre0 Hpre].
  assert (since_baseline (pre ++ a :: post) = since_baseline (pre ++ [a]) ++ post) as Hs.
  { by rewrite cons_middle, app_assoc, since_baseline_app. }
  split_and!.
  - intros n. unfold visible. rewrite Hs', Hs, filter_app. unfold e_names. rewrite fmap_app, elem_of_app.
    split.
    + intros Hn. split; [by right|].
      apply list_elem_of_fmap in Hn as (e & -> & [Hy He]%list_elem_of_filter).
      unfold past. rewrite <-Hle. apply Hhigh; [done|by apply Hy].
    + intros [[Hn|Hn] Hp]; [|done]. exfalso.
      apply list_elem_of_fmap in Hn as (e & -> & [Hy He]%list_elem_of_filter).
      assert (e ∈ pre ++ [a]) as Hpa by (rewrite Hpre; apply elem_of_app; by right).
      unfold past in Hp. rewrite <-Hle in Hp.
      apply elem_of_app in Hpa as [Hpa| ->%list_elem_of_singleton].
      * rewrite Hlow in Hp; [done|done|by apply Hy].
      * rewrite Hle, Ha in Hp. pose proof (leb_refl name). congruence.
  - rewrite Hs', Hs. by exists (since_baseline (pre ++ [a])).
  - unfold baseline_of. rewrite filter_app, filter_cons, decide_True by done.
    rewrite (proj2 (filter_nil_iff _ post) Hbase). rewrite last_snoc. cbn. by rewrite Ha.
  - unfold baseline_of. rewrite filter_app, filter_cons.
    rewrite (proj2 (filter_nil_iff _ post) Hbase).
    destruct (decide (e_type a = MigrationTypeBaseline)).
    + rewrite last_snoc. cbn. rewrite Ha. pose proof (leb_refl name). congruence.
    + rewrite app_nil_r. destruct (last (filter _ pre)) as [b|] eqn:Hb; [|apply leb_empty].
      cbn. apply last_Some in Hb as [l Hb].
      assert (b ∈ filter (λ e, e_type e = MigrationTypeBaseline) pre) as [Hy Hin']%list_elem_of_filter
        by (rewrite Hb; apply elem_of_app; right; left).
      rewrite <-Hle. apply Hlow; [done|]. by rewrite Hy.
Qed.
End conversion.

Section rebaseline.
Context `{!Pq} {J C : Type} `{!Json J} `{!Catalogue C} `{!DB C} `{!Codec} `{!Dir}.
Context (m : Roll (Store J C)).
Implicit Types (es : list (entry J)).

Definition decodable es : Prop :=
  Forall (λ e, is_ok (json_UnmarshalRaw (e_body e)) = true)
    (filter (not_excluded true) (since_baseline es)).

Lemma decoded_names es raws :
  map_outcome (λ e, set_RawMigration_Name (e_name e) <$> json_UnmarshalRaw (e_body e)) es = Ok raws →
  names raws = e_names es ∧ Forall (λ e, is_ok (json_UnmarshalRaw (e_body e)) = true) es.
Proof.
  intros Hr%map_outcome_ok. induction Hr as [|e raw es raws He _ [IH1 IH2]]; [done|].
  destruct (json_UnmarshalRaw (e_body e)) eqn:Hj; try discriminate He. injection He as <-.
  split; [unfold names in *; cbn; by rewrite IH1|]. constructor; [by rewrite Hj|done].
Qed.
Lemma decodes es :
  Forall (λ e, is_ok (json_UnmarshalRaw (e_body e)) = true) es →
  ∃ raws, map_outcome (λ e, set_RawMigration_Name (e_name e) <$> json_UnmarshalRaw (e_body e)) es = Ok raws.
Proof.
  induction 1 as [|e es He _ [raws IH]]; [by exists []|].
  destruct (json_UnmarshalRaw (e_body e)) as [raw| | |] eqn:Hj; try done.
  exists (set_RawMigration_Name (e_name e) raw :: raws). cbn. by rewrite Hj, IH.
Qed.

(** Resolution reads the visible names and the latest baseline. *)
Lemma resolve_hist es w :
  hist m es w →
  (∀ res, (Roll_ResolveMigrations m w).1 = Ok res →
     decodable es ∧ ResolveMigrations (visible es) (baseline_of es) (Roll_target m) = Ok res) ∧
  (decodable es →
     (Roll_ResolveMigrations m w).1 = ResolveMigrations (visible es) (baseline_of es) (Roll_target m)).
Proof.
  intros Hw. unfold Roll_ResolveMigrations, decodable, visible.
  destruct (call_result m (CSchemaHistory true) es w Hw I) as (rs & now & w1 & Hc1 & Hw1).
  change (from_state m (λ s, run s (CSchemaHistory true)) w)
    with (from_state m state_SchemaHistory w) in Hc1. cbn [run_spec] in Hc1, Hw1.
  rewrite get_bind in Hc1, Hw1. unfold lift in Hc1, Hw1. cbn [fst snd] in Hc1, Hw1.
  destruct (call_result m CLatestBaseline es w1 Hw1 I) as (rs2 & now2 & w2 & Hc2 & Hw2).
  change (from_state m (λ s, run s CLatestBaseline) w1)
    with (from_state m state_LatestBaseline w1) in Hc2. cbn [run_spec gets fst] in Hc2.
  unfold mbind, prog_bind, wrap_err. rewrite Hc1.
  set (vs := filter (not_excluded true) (since_baseline es)) in *.
  split.
  - intros res. destruct (map_outcome _ vs) as [raws|e| |] eqn:Hv; try done.
    rewrite Hc2. unfold lift. cbn. destruct (decoded_names _ _ Hv) as [-> Hd].
    intros Hres. split; [done|]. rewrite <-Hres. unfold baseline_of. by destruct (last _).
  - intros Hd. destruct (decodes vs Hd) as [raws Hv]. rewrite Hv, Hc2.
    destruct (decoded_names _ _ Hv) as [-> _]. unfold lift, baseline_of. by destruct (last _).
Qed.

Lemma decodable_suffix es es' :
  since_baseline es' `suffix_of` since_baseline es → decodable es → decodable es'.
Proof. intros [l Hl]. unfold decodable. rewrite Hl, filter_app. by intros [_ ?]%Forall_app. Qed.

(** C13. A rebaseline loses nothing that is left to do: when the anchor's row
    has been converted, resolution succeeds on the same directory with the
    same target and selects the same migrations as before, but for those whose
    names sort at or below the anchor.  This supposes that the database
    compares names as the program does, and that no migration past the anchor
    depends on one it hides. *)
Theorem rebaseline_keeps_resolution es w name r w' res :
  (∀ n1 n2, catalogue_name_le (C := C) n1 n2 = String.leb n1 n2) →
  hist m es w →
  from_state m (state_ConvertMigrationToBaseline name false) w = (Ok r, w') →
  AlreadyBaseline r = false →
  (Roll_ResolveMigrations m w).1 = Ok res →
  (∀ mig d, mig ∈ res.(Resolution_Apply) → above name mig →
     d ∈ mig.(RawMigration_DependsOn) → past name d) →
  ∃ res', (Roll_ResolveMigrations m w').1 = Ok res' ∧
    res'.(Resolution_All) = filter (above name) res.(Resolution_All) ∧
    res'.(Resolution_Apply) ≡ₚ filter (above name) res.(Resolution_Apply).
Proof.
  intros Hle Hw Hconv Hal Hres Hdeps.
  destruct (call_result m (CConvert name false) es w Hw I) as (rs & now & w1 & Hc & Hw1).
  change (from_state m (λ s, run s (CConvert name false)) w)
    with (from_state m (state_ConvertMigrationToBaseline name false) w) in Hc.
  rewrite Hconv in Hc. cbn [run_spec] in Hc, Hw1.
  destruct (convert _ name false _ es) as [o es'] eqn:Hce. injection Hc as <- <-.
  pose proof Hw as [_ [_ Hwf]].
  apply convert_ok in Hce; [|apply Hwf|done].
  destruct (converted_visible _ _ _ _ Hce Hle) as (Hv & Hsuf & Hb & Hlow).
  destruct (proj1 (resolve_hist es w Hw) res Hres) as [Hd Hr].
  destruct (Resolve_raise _ _ (visible es') name (Roll_target m) res Hlow Hv Hdeps Hr)
    as (res' & Hr' & Hall & Happ).
  exists res'. split; [|done].
  rewrite (proj2 (resolve_hist es' w' Hw1)); [by rewrite Hb|by eapply decodable_suffix].
Qed.
End rebaseline.

(** ** A directory and its database *)

Definition raw_depending (deps : list string) : RawMigration :=
  mkRawMigration "" "" "[]" deps [] false false None "".
(** Four files; the last depends on the third. *)
Definition rebase_dir : Dir := {|
  dir_entries := ["01_a.json"; "02_b.json"; "03_c.json"; "04_d.json"];
  dir_decode f := Ok (raw_depending (if decide (f = "04_d.json") then ["03_c"] else []));
|}.
Definition plain_migration (name : string) : Migration :=
  mkMigration name "" [] [] [] false false [] "".
(** The first two have been applied and contracted. *)
Definition rebase_store : mem_store :=
  mem_of mem_db [(plain_migration "01_a", Sealed); (plain_migration "02_b", Sealed)].
Definition rebase_world : World mem_store := mkWorld New ∅ rebase_store 0.
Definition mem_history (migs : list (Migration * status)) : list (entry Migration) :=
  mem_entries 0 migs.

Lemma rebase_hist :
  hist (C := mem) mem_roll
    (mem_entries 0 [(plain_migration "01_a", Sealed); (plain_migration "02_b", Sealed)])
    rebase_world.
Proof.
  split; [intros i j; cbn; lia|]. split; [reflexivity|]. apply (mem_entries_wf [_; _]); [decide_goal|].
  intros [|x1 [|x2 [|x3 pre]]] x post Heq; by simplify_eq/=.
Qed.

#[local] Existing Instance rebase_dir.

Lemma rebaseline_keeps_resolution_witness :
  let conv := from_state mem_roll (state_ConvertMigrationToBaseline "02_b" false) rebase_world in
  ∃ res res',
    (Roll_ResolveMigrations mem_roll rebase_world).1 = Ok res ∧
    names res.(Resolution_All) = ["01_a"; "02_b"; "03_c"; "04_d"] ∧
    (Roll_ResolveMigrations mem_roll conv.2).1 = Ok res' ∧
    res'.(Resolution_All) = filter (above "02_b") res.(Resolution_All) ∧
    res'.(Resolution_Apply) ≡ₚ filter (above "02_b") res.(Resolution_Apply).
Proof.
  intros conv. eexists. edestruct (rebaseline_keeps_resolution mem_roll
    (mem_entries 0 [(plain_migration "01_a", Sealed); (plain_migration "02_b", Sealed)])
    rebase_world "02_b" (mkConvertToBaselineResult false true) conv.2) as (res' & H1 & H2 & H3).
  - done.
  - apply rebase_hist.
  - vm_compute. reflexivity.
  - done.
  - vm_compute. reflexivity.
  - cbn [Resolution_Apply]. intros mig d Hm _ Hd.
    repeat (apply elem_of_cons in Hm as [->|Hm]; [cbn in Hd; repeat (apply elem_of_cons in Hd as [->|Hd]; [reflexivity|]); by apply elem_of_nil in Hd|]).
    by apply elem_of_nil in Hm.
  - exists res'. split_and!; [vm_compute; reflexivity|reflexivity|exact H1|exact H2|exact H3].
Defined.

(** The audits look at the rows only, not at the directory.  An unapplied file
    that sorts below the anchor is pending before the conversion and hidden by
    it. *)
Definition flat_dir : Dir := {|
  dir_entries := dir_entries (Dir := rebase_dir);
  dir_decode _ := Ok (raw_depending []);
|}.
Definition rebase_gap : World mem_store :=
  mkWorld New ∅ (mem_of mem_db [(plain_migration "01_a", Sealed);
                                (plain_migration "03_c", Sealed)]) 0.
Lemma rebaseline_hides_pending :
  let conv := from_state mem_roll (state_ConvertMigrationToBaseline "03_c" false) rebase_gap in
  let pending w := match (@Roll_ResolveMigrations _ _ mem_roll flat_dir w).1 with
                   | Ok res => Some (names res.(Resolution_Apply)) | _ => None end in
  pending rebase_gap = Some ["02_b"; "04_d"] ∧ is_ok conv.1 = true ∧
  pending conv.2 = Some ["04_d"].
Proof. vm_compute. split_and!; reflexivity. Qed.

(** A dependency on the anchor itself, or on what lies below it, is satisfied
    before the conversion and unknown after it. *)
Lemma rebaseline_breaks_dependency :
  let w := mkWorld New ∅ (mem_of mem_db [(plain_migration "01_a", Sealed);
             (plain_migration "02_b", Sealed); (plain_migration "03_c", Sealed)]) 0 in
  let conv := from_state mem_roll (state_ConvertMigrationToBaseline "03_c" false) w in
  is_ok (Roll_ResolveMigrations mem_roll w).1 = true ∧ is_ok conv.1 = true ∧
  ∃ e, (Roll_ResolveMigrations mem_roll conv.2).1 = Err e ∧ errors_Is e ErrMismatchedMigration.
Proof.
  split; [vm_compute; reflexivity|]. split; [vm_compute; reflexivity|].
  eexists. split; [vm_compute; reflexivity|]. cbn. tauto.
Qed.
