(* ===== verification/CheckFacts.v ===== *)
(** * CheckFacts: what a clean check is worth

    A directory in which [CheckMigrationsDir] finds no error resolves on every
    database without a baseline whose history it covers, without a target or,
    when the check required targets, with any target, and in an order in which
    no migration starts without a dependency. *)

From S2P Require Import Prelude.
From S2P Require Import GoStd.
From S2P Require Import Types.
From S2P Require Import Operations.
From S2P Require Import Migration.
From S2P Require Import LocalSet.
From S2P Require Import OpsJson.
From S2P Require Import Deps.
From S2P Require Import DepsFacts.
From S2P Require Import ResolveFacts.
From S2P Require Import MemState.
From S2P Require Import Rewrite.
From S2P Require Import Check.

Implicit Types (r result : CheckResult) (parsed : list parsedMig).

(** [f] adds no error only when [P]. *)
Definition silent (f : CheckResult → CheckResult) (P : Prop) : Prop :=
  ∀ r, Errors (f r) = [] → Errors r = [] ∧ P.

Lemma addError_silent file msg : silent (addError file msg) False.
Proof. intros r. cbn. by intros [_ ?]%app_nil. Qed.
Lemma silent_weaken f (P Q : Prop) : silent f P → (P → Q) → silent f Q.
Proof. intros Hf HP r [? ?]%Hf. auto. Qed.
Lemma silent_foldl {A} (g : CheckResult → A → CheckResult) (P : A → Prop) l :
  (∀ x, silent (λ r, g r x) (P x)) → silent (λ r, foldl g r l) (Forall P l).
Proof.
  intros Hg. induction l as [|x l IH]; intros r; cbn; [by split|].
  intros [[Hr Hx]%Hg Hl]%IH. split; [done|by constructor].
Qed.
Lemma same_errors f : (∀ r, Errors (f r) = Errors r) → silent f True.
Proof. intros Hf r. by rewrite Hf. Qed.

Lemma silent_if (c : bool) (f : CheckResult → CheckResult) (P : Prop) :
  silent f P → silent (λ r, if c then r else f r) (c = false → P).
Proof. intros Hf r. destruct c; [by split|]. by intros [? ?]%Hf. Qed.

(** ** The phases *)

Lemma checkTargetEntries_silent file ts : ∀ seen, silent (checkTargetEntries file seen ts) True.
Proof.
  induction ts as [|t ts IH]; intros seen r; [by split|]. cbn [checkTargetEntries].
  destruct (String.eqb _ _); [by intros [[_ []]%addError_silent _]%IH|].
  intros [Hr _]%IH. case_decide; [by apply addError_silent in Hr as [_ []]|done].
Qed.
Lemma checkTargets_silent file raw required :
  silent (checkTargets file raw required) (required = true → targets_of raw ≠ []).
Proof.
  intros r. unfold checkTargets, targets_of.
  destruct (RawMigration_Targets raw) as [[|t ts]|]; cbn [default from_option].
  - by intros [_ []]%addError_silent.
  - intros [Hr _]%checkTargetEntries_silent. by split.
  - destruct required; [by intros [_ []]%addError_silent|by split].
Qed.

Definition fileRead `{!Dir} (required : bool) (file : string) (p : parsedMig) : Prop :=
  p.1 = file ∧ ReadRawMigration file = Ok p.2 ∧ (required = true → targets_of p.2 ≠ []).

Lemma parseFiles_silent `{!Dir} required files : ∀ r r' parsed,
  parseFiles required files r = Ok (r', parsed) → Errors r' = [] →
  Errors r = [] ∧ Forall2 (fileRead required) files parsed.
Proof.
  induction files as [|file files IH]; intros r r' parsed; cbn [parseFiles].
  { intros [= <- <-] Hr. split; [done|constructor]. }
  destruct (ReadRawMigration file) as [raw|e| |] eqn:Hread;
    [|intros Hp Hr; by destruct (IH _ _ _ Hp Hr) as [[_ []]%addError_silent _]|done..].
  destruct (emptyOperations raw).
  { intros Hp Hr. by destruct (IH _ _ _ Hp Hr) as [[_ []]%addError_silent _]. }
  intros ([r1 parsed'] & Hp & [= <- <-])%outcome_bind_ok Hr.
  destruct (IH _ _ _ Hp Hr) as [[Hlen Ht]%checkTargets_silent H2].
  destruct (63 <? _)%nat; [by apply addError_silent in Hlen as [_ []]|]. split; [done|]. by constructor.
Qed.

Lemma each_dependency_silent parsed f (P : parsedMig → string → Prop) :
  (∀ p dep, silent (f p dep) (P p dep)) →
  silent (each_dependency parsed f)
    (∀ p dep, p ∈ parsed → dep ∈ p.2.(RawMigration_DependsOn) → P p dep).
Proof.
  intros Hf. eapply silent_weaken.
  { apply silent_foldl with (P := λ p, Forall (P p) p.2.(RawMigration_DependsOn)).
    intros p. apply silent_foldl. intros dep. apply Hf. }
  cbn beta. rewrite Forall_forall. intros Hall p dep Hp Hdep. specialize (Hall p Hp).
  rewrite Forall_forall in Hall. by apply Hall.
Qed.

Lemma checkKnown_silent parsed :
  silent (checkKnown parsed)
    (∀ p dep, p ∈ parsed → dep ∈ p.2.(RawMigration_DependsOn) → dep ∈ names (snd <$> parsed)).
Proof.
  eapply silent_weaken.
  { apply (each_dependency_silent parsed _ (λ _ dep,
      dep ∈ (list_to_set (RawMigration_Name ∘ snd <$> parsed) : gset string))).
    intros p dep r. case_decide; [by split|by intros [_ []]%addError_silent]. }
  intros Hk p dep Hp Hd. specialize (Hk p dep Hp Hd). rewrite elem_of_list_to_set in Hk.
  unfold names. by rewrite <-list_fmap_compose.
Qed.

Lemma checkCoverage_silent parsed :
  silent (checkCoverage parsed)
    (∀ p dep depRaw, p ∈ parsed → dep ∈ p.2.(RawMigration_DependsOn) →
       rawByName parsed !! dep = Some depRaw → targets_of depRaw ≠ [] →
       ∀ t, t ∈ targets_of p.2 → t ∈ targets_of depRaw).
Proof.
  eapply silent_weaken.
  { apply (each_dependency_silent (filter (λ p, targets_of p.2 ≠ []) parsed) _ (λ p dep,
      ∀ depRaw, rawByName parsed !! dep = Some depRaw → targets_of depRaw ≠ [] →
        uncoveredBy p.2 depRaw = [])).
    intros p dep r. destruct (rawByName parsed !! dep) as [depRaw|]; [|by split].
    destruct (decide (targets_of depRaw = [])); [split; [done|]; congruence|].
    cbv zeta. destruct (decide (uncoveredBy p.2 depRaw = [])); [|by intros [_ []]%addError_silent].
    split; [done|]. by intros ? [= <-]. }
  intros Hc p dep depRaw Hp Hd Hr Hne t Ht.
  assert (uncoveredBy p.2 depRaw = []) as Hu.
  { apply (Hc p dep); [|done..]. apply list_elem_of_filter. split; [|done].
    intros He. rewrite He in Ht. by apply elem_of_nil in Ht. }
  unfold uncoveredBy in Hu. rewrite filter_nil_iff in Hu.
  apply slices_Contains_true. destruct (slices_Contains (targets_of depRaw) t) eqn:Hs; [done|].
  by destruct (Hu t Ht).
Qed.

Lemma checkVariants_silent parsed : silent (checkVariants parsed) True.
Proof.
  eapply silent_weaken; [apply silent_foldl with (P := λ _, True)|done].
  intros kv. apply same_errors. intros r. by destruct (_ <? _)%nat.
Qed.
Lemma checkRawSQL_silent `{!OperationJson} parsed : silent (checkRawSQL parsed) True.
Proof.
  eapply silent_weaken; [apply silent_foldl with (P := λ _, True)|done].
  intros p. apply same_errors. intros r. destruct (negb _); [done|]. by destruct (hasRawSQLOps _).
Qed.
Lemma checkReversibility_silent `{!Codec} parsed : ∀ r r',
  checkReversibility parsed r = Ok r' → Errors r' = [] →
  Errors r = [] ∧ Forall (λ p, ∃ mig, ParseMigration p.2 = Ok mig ∧ ValidateReversibility mig = None) parsed.
Proof.
  induction parsed as [|p parsed IH]; intros r r'; cbn; [by intros [= <-]|].
  intros Hp Hr. destruct (ParseMigration p.2) as [mig|e| |] eqn:Hm; [|..]; try done.
  - destruct (ValidateReversibility mig) eqn:Hv.
    + by destruct (IH _ _ Hp Hr) as [[_ []]%addError_silent _].
    + destruct (IH _ _ Hp Hr) as [? ?]. split; [done|]. constructor; [by exists mig|done].
  - by destruct (IH _ _ Hp Hr) as [[_ []]%addError_silent _].
Qed.

Lemma checkCycles_silent parsed r r' :
  checkCycles parsed r = Ok r' → Errors r' = [] →
  Errors r = [] ∧ ∃ l, TopoSortMigrations (snd <$> parsed) ∅ ∅ = Ok l.
Proof.
  unfold checkCycles. destruct (TopoSortMigrations _ _ _) as [l|e| |]; try done.
  - intros [= <-] ?. split; [done|]. by exists l.
  - intros [= <-]. by intros [_ []]%addError_silent.
Qed.

(** ** The baseline marker *)

(** The rules of a marked file *)
Definition marker_ok (files : list string) (p : parsedMig) : Prop :=
  p.2.(RawMigration_Baseline) = true →
  (∀ first, head files = Some first → p.1 = first) ∧ p.2.(RawMigration_Irreversible) = true.
Definition marked_files parsed : list string :=
  (filter (λ p, p.2.(RawMigration_Baseline) = true) parsed).*1.

Lemma checkMarker_spec files p r marked :
  let '(r', marked') := checkMarker files p (r, marked) in
  marked' = marked ++ marked_files [p] ∧ (Errors r' = [] → Errors r = [] ∧ marker_ok files p).
Proof.
  destruct p as [file raw]. unfold checkMarker, marked_files, marker_ok. rewrite filter_cons, filter_nil.
  cbn [fst snd]. destruct (RawMigration_Baseline raw); cbn [negb].
  2:{ rewrite decide_False by done. rewrite app_nil_r. split; [done|].
      by destruct (Contains _ _). }
  rewrite decide_True by done. split; [done|]. intros Hr. destruct (RawMigration_Irreversible raw) eqn:Hirr.
  2:{ by apply addError_silent in Hr as [_ []]. }
  destruct files as [|first files]; [by split|]. destruct (String.eqb_spec file first) as [->|].
  - split; [done|]. intros _. split; [|done]. by intros ? [= ->].
  - by apply addError_silent in Hr as [_ []].
Qed.
Lemma checkMarkers_spec files parsed : ∀ r marked,
  let '(r', marked') := foldl (λ acc p, checkMarker files p acc) (r, marked) parsed in
  marked' = marked ++ marked_files parsed ∧
  (Errors r' = [] → Errors r = [] ∧ Forall (marker_ok files) parsed).
Proof.
  induction parsed as [|p parsed IH]; intros r marked; cbn [foldl]; [by rewrite app_nil_r|].
  pose proof (checkMarker_spec files p r marked) as Hp.
  destruct (checkMarker files p (r, marked)) as [r1 marked1]. destruct Hp as [-> Hp].
  specialize (IH r1 (marked ++ marked_files [p])). destruct (foldl _ _ _) as [r' marked'].
  destruct IH as [-> IH]. split.
  - rewrite <-app_assoc. f_equal. unfold marked_files. rewrite (filter_app _ [p] parsed : filter _ (p :: parsed) = _).
    by rewrite fmap_app.
  - intros [[? ?]%Hp ?]%IH. split; [done|by constructor].
Qed.
Lemma checkBaselineMarker_silent files parsed :
  silent (checkBaselineMarker files parsed) (Forall (marker_ok files) parsed ∧ length (marked_files parsed) ≤ 1).
Proof.
  intros r. unfold checkBaselineMarker. pose proof (checkMarkers_spec files parsed r []) as Hm.
  destruct (foldl _ _ _) as [r' marked']. destruct Hm as [-> Hm]. cbn [app].
  destruct (Nat.ltb_spec 1 (length (marked_files parsed))); [by intros [_ []]%addError_silent|].
  intros [? ?]%Hm. auto.
Qed.

(** ** A clean directory *)

Section clean.
Context `{!Dir} `{!Codec}.

Record clean (required : bool) (parsed : list parsedMig) : Prop := {
  clean_read : Forall2 (fileRead required) CollectFilesFromDir parsed;
  clean_cover : ∀ p dep depRaw, p ∈ parsed → dep ∈ p.2.(RawMigration_DependsOn) →
    rawByName parsed !! dep = Some depRaw → targets_of depRaw ≠ [] →
    ∀ t, t ∈ targets_of p.2 → t ∈ targets_of depRaw;
  clean_known : ∀ p dep, p ∈ parsed → dep ∈ p.2.(RawMigration_DependsOn) →
    dep ∈ names (snd <$> parsed);
  clean_order : ∃ l, TopoSortMigrations (snd <$> parsed) ∅ ∅ = Ok l;
  clean_reversible : Forall (λ p, ∃ mig, ParseMigration p.2 = Ok mig ∧ ValidateReversibility mig = None) parsed;
  clean_marker : Forall (marker_ok CollectFilesFromDir) parsed ∧ length (marked_files parsed) ≤ 1;
}.

Lemma HasErrors_false r : HasErrors r = false → Errors r = [].
Proof. unfold HasErrors. by destruct (Errors r). Qed.

Lemma check_clean required r :
  CheckMigrationsDir required = Ok r → HasErrors r = false → ∃ parsed, clean required parsed.
Proof.
  unfold CheckMigrationsDir. case_decide as Hf.
  { intros _ _. exists []. split; try by intros ? ? ? ?%elem_of_nil.
    - rewrite Hf. constructor.
    - by intros ? ? ?%elem_of_nil.
    - by exists [].
    - constructor.
    - split; [constructor|cbn; lia]. }
  intros ([r1 parsed] & Hp & Hr)%outcome_bind_ok He%HasErrors_false. cbv zeta in Hr.
  apply outcome_bind_ok in Hr as (r2 & Hcyc & Hr).
  apply outcome_bind_ok in Hr as (r3 & Hrev & [= <-]).
  apply checkBaselineMarker_silent in He as [He Hmark].
  destruct (checkReversibility_silent _ _ _ Hrev He) as [[Hr2 _]%checkRawSQL_silent Hrevs].
  destruct (checkCycles_silent _ _ _ Hcyc Hr2) as [[[[Hr1 Hknown]%checkKnown_silent Hcover]%checkCoverage_silent _]%checkVariants_silent Htopo].
  destruct (parseFiles_silent _ _ _ _ _ Hp Hr1) as [_ Hread].
  by exists parsed.
Qed.

Context (required : bool) (parsed : list parsedMig) (Hclean : clean required parsed).
Notation migs := (snd <$> parsed).

Lemma clean_names : names migs = MigrationNameFromFile <$> CollectFilesFromDir.
Proof.
  pose proof (clean_read _ _ Hclean) as Hread. unfold names. clear Hclean.
  induction Hread as [|f p fs ps (_ & Hp & _) _ IH]; [done|].
  by rewrite !fmap_cons, IH, (ReadRawMigration_name _ _ Hp).
Qed.
Lemma clean_targets m : required = true → m ∈ migs → targets_of m ≠ [].
Proof.
  intros Hr (p & -> & Hp)%list_elem_of_fmap. apply list_elem_of_lookup in Hp as [i Hi].
  destruct (Forall2_lookup_r _ _ _ _ _ (clean_read _ _ Hclean) Hi) as (f & _ & _ & _ & Ht). auto.
Qed.

(** Reading the local set of a clean directory does not fail. *)
Lemma clean_readLocalSet target applied :
  target = "" ∨ required = true → ∀ files parsed',
  Forall2 (fileRead required) files parsed' → "" ∉ MigrationNameFromFile <$> files →
  ∃ excluded, readLocalSet "" target applied files = Ok (snd <$> parsed', excluded).
Proof.
  intros Ht files parsed'. clear Hclean parsed.
  induction 1 as [|f p files parsed' (Hf & Hp & Hreq) _ IH]; intros Hne; [by eexists|].
  rewrite fmap_cons, not_elem_of_cons in Hne. destruct Hne as [Hne Hrest].
  destruct (IH Hrest) as [excluded He]. cbn [readLocalSet].
  assert (String.leb (MigrationNameFromFile f) "" = false) as -> by (by destruct (MigrationNameFromFile f)).
  rewrite (proj2 (read_raw_ok _ f p.2)) by done. cbn [mbind outcome_bind].
  assert (negb (bool_decide (target = "")) && bool_decide (RawMigration_Name p.2 ∉ applied)
    && bool_decide (targets_of p.2 = []) = false) as ->.
  { destruct Ht as [->|Hr]; [done|]. rewrite (bool_decide_eq_false_2 (targets_of p.2 = [])) by auto.
    apply andb_false_r. }
  rewrite He. cbn. by eexists.
Qed.

Lemma rawByName_lookup p :
  NoDup (names migs) → p ∈ parsed → rawByName parsed !! p.2.(RawMigration_Name) = Some p.2.
Proof.
  clear Hclean. unfold rawByName. induction parsed as [|p' ps IH] using rev_ind; intros Hn Hp; [by apply elem_of_nil in Hp|].
  unfold names in Hn. rewrite !fmap_app in Hn. apply NoDup_app in Hn as (Hn & Hd & _).
  rewrite foldl_app. cbn. apply elem_of_app in Hp as [Hp|Hp%list_elem_of_singleton].
  - rewrite lookup_insert_ne; [by apply IH|]. intros Heq.
    apply (Hd p'.2.(RawMigration_Name)); [|left]. rewrite Heq. by do 2 apply list_elem_of_fmap_2.
  - subst. by rewrite lookup_insert_eq.
Qed.

(** A dependency of a selected migration is selected. *)
Lemma clean_selected target m md :
  target = "" ∨ required = true → NoDup (names migs) → m ∈ migs → md ∈ migs →
  md.(RawMigration_Name) ∈ m.(RawMigration_DependsOn) →
  SelectedBy (targets_of m) target = true → SelectedBy (targets_of md) target = true.
Proof.
  intros Ht Hn Hm Hmd Hd. unfold SelectedBy. destruct (decide (target = "")) as [|Hne]; [done|].
  destruct Ht as [|Hreq]; [done|]. rewrite !slices_Contains_true.
  pose proof (clean_targets md Hreq Hmd) as Hmt.
  apply list_elem_of_fmap in Hm as (p & -> & Hp). apply list_elem_of_fmap in Hmd as (pd & -> & Hpd).
  apply (clean_cover _ _ Hclean p pd.2.(RawMigration_Name) pd.2 Hp Hd); [|done].
  by apply rawByName_lookup.
Qed.

(** What a run considers, of a clean directory *)
Definition chosen (history : list string) (target : string) (m : RawMigration) : Prop :=
  m.(RawMigration_Name) ∉ history ∧ SelectedBy (targets_of m) target = true.
#[export] Instance chosen_dec history target m : Decision (chosen history target m).
Proof. unfold chosen. apply _. Defined.

Lemma clean_sort history target excluded :
  target = "" ∨ required = true →
  (∀ m, m ∈ migs → SelectedBy (targets_of m) target = false → m.(RawMigration_Name) ∈ excluded) →
  ∃ sorted, TopoSortMigrations (filter (chosen history target) migs) (list_to_set history) excluded = Ok sorted ∧
    startable history ∅ sorted.
Proof.
  intros Ht Hexc. destruct (clean_order _ _ Hclean) as [l Hl].
  set (todo := filter (chosen history target) migs).
  destruct (hasDeps todo) eqn:Hdeps.
  2:{ exists todo. unfold TopoSortMigrations. rewrite Hdeps. split; [done|]. intros i m Hi.
      rewrite (hasDeps_false _ m Hdeps) by (by eapply list_elem_of_lookup_2).
      apply validateDependencies_ok. by intros ? ?%elem_of_nil. }
  assert (hasDeps migs = true) as Hall.
  { unfold hasDeps in *. apply existsb_exists in Hdeps as (m & Hm & Hd). apply existsb_exists.
    exists m. split; [|done]. apply list_elem_of_In, list_elem_of_filter in Hm as [_ Hm].
    by apply list_elem_of_In. }
  destruct (TopoSort_Ok_input _ _ _ _ Hall Hl) as (Hn & Hne & _).
  destruct (TopoSort_sound _ _ _ _ Hl) as [Hp Ho].
  assert (∀ m d, m ∈ todo → d ∈ m.(RawMigration_DependsOn) → d ∈ names todo ∨ d ∈ history) as Hdep.
  { intros m d [[_ Hs] Hm]%list_elem_of_filter Hd.
    destruct (decide (d ∈ history)) as [|Hno]; [by right|]. left.
    assert (d ∈ names migs) as Hdm.
    { apply list_elem_of_fmap in Hm as (p & -> & Hp'). by apply (clean_known _ _ Hclean p). }
    apply list_elem_of_fmap in Hdm as (md & -> & Hmd). apply list_elem_of_fmap_2, list_elem_of_filter.
    split; [split; [done|]|done]. exact (clean_selected target m md Ht Hn Hm Hmd Hd Hs). }
  assert (NoDup (names l)) as Hnl by (by rewrite (names_perm _ _ Hp)).
  destruct (TopoSort_total todo (list_to_set history) excluded (filter (chosen history target) l)) as [sorted Hs].
  - eapply sublist_NoDup; [exact Hn|]. apply fmap_sublist, filter_sublist.
  - intros Hin. apply Hne. apply list_elem_of_fmap in Hin as (m & -> & [_ Hm]%list_elem_of_filter).
    by apply list_elem_of_fmap_2.
  - intros m d Hm Hd. unfold known. rewrite elem_of_list_to_set. destruct (Hdep m d Hm Hd); auto.
  - unfold todo. by rewrite Hp.
  - apply ordered_filter; [|done]. intros m m' Hm Hm' Heq. by rewrite (names_inj l m m').
  - exists sorted. split; [done|]. destruct (TopoSort_sound _ _ _ _ Hs) as [Hps Hos].
    intros i m Hi. apply validateDependencies_ok. intros d Hd. left. apply elem_of_app.
    assert (m ∈ todo) as Hm by (rewrite <-Hps; by eapply list_elem_of_lookup_2).
    destruct (Hdep m d Hm Hd) as [Hin|]; [|by left]. right.
    eapply Hos; [done|done|]. by rewrite (names_perm _ _ Hps).
Qed.
End clean.

Section checked.
Context `{!Dir} `{!Codec}.

(** The migrations a run selects of a clean directory *)
Lemma selected_chosen history target (all : list RawMigration) (excluded : gset string) :
  NoDup (names all) →
  (∀ n, n ∈ excluded ↔ ∃ m, m ∈ all ∧ m.(RawMigration_Name) = n ∧ SelectedBy (targets_of m) target = false) →
  filter (λ m, RawMigration_Name m ∉ (list_to_set history : gset string))
    (if decide (target = "") then all else filter (λ m, RawMigration_Name m ∉ excluded) all) =
  filter (chosen history target) all.
Proof.
  intros Hn Hexc. destruct (decide (target = "")) as [->|Hne].
  - apply filter_ext_in. intros m _. unfold chosen. rewrite elem_of_list_to_set, SelectedBy_no_target. naive_solver.
  - rewrite list_filter_filter. apply filter_ext_in. intros m Hm. unfold chosen.
    rewrite elem_of_list_to_set. apply and_iff_compat_l. rewrite Hexc. split.
    + intros Hno. destruct (SelectedBy (targets_of m) target) eqn:Hs; [done|]. destruct Hno. by exists m.
    + intros Hs (m' & Hm' & Heq & Hs'). rewrite (names_inj all m m') in Hs by done. congruence.
Qed.

(** C21. A directory that passes [CheckMigrationsDir] is resolved by
    [ResolveMigrations] on every database whose history it covers, without a
    target, or with any target when the check required targets: the result is
    every unapplied migration the target selects, all of them reversible or
    marked, in an order in which each one finds its dependencies applied,
    none of them assumed because the target excludes it. *)
Theorem checked_directory_resolves required target history r :
  CheckMigrationsDir required = Ok r → HasErrors r = false →
  target = "" ∨ required = true →
  NoDup ("" :: (MigrationNameFromFile <$> CollectFilesFromDir)) →
  (∀ n, n ∈ history → n ∈ MigrationNameFromFile <$> CollectFilesFromDir) →
  ∃ res, ResolveMigrations history None target = Ok res ∧
    (∀ m, m ∈ res.(Resolution_Apply) ↔
       (∃ file, file ∈ CollectFilesFromDir ∧ ReadRawMigration file = Ok m) ∧ chosen history target m) ∧
    startable history ∅ res.(Resolution_Apply) ∧
    (∀ m, m ∈ res.(Resolution_Apply) →
       ∃ mig, ParseMigration m = Ok mig ∧ ValidateReversibility mig = None).
Proof.
  intros Hr He Ht [Hne Hnd]%NoDup_cons Hhist. destruct (check_clean _ _ Hr He) as [parsed Hclean].
  destruct (clean_readLocalSet required target (list_to_set history) Ht _ _ (clean_read _ _ Hclean) Hne)
    as [excluded Hread].
  destruct (readLocalSet_spec _ _ _ _ _ _ Hread) as (_ & Hexc & _).
  destruct (clean_sort _ _ Hclean history target excluded Ht) as (sorted & Hs & Hstart).
  { intros m Hm Hns. apply Hexc. by exists m. }
  pose proof (clean_names _ _ Hclean) as Hnames. rewrite <-Hnames in Hnd.
  unfold ResolveMigrations, resolveLocalSet. cbn [default from_option]. rewrite Hread.
  cbn [mbind outcome_bind All Selected Excluded]. rewrite selected_chosen by done.
  rewrite (proj2 (filter_nil_iff _ _)).
  2:{ intros n Hn Hno. apply Hno. rewrite elem_of_list_to_set, Hnames. apply Hhist.
      by rewrite elem_of_elements, elem_of_list_to_set in Hn. }
  cbn [head]. rewrite Hs. cbn [mbind outcome_bind]. eexists. split; [done|]. cbn [Resolution_Apply].
  destruct (TopoSort_sound _ _ _ _ Hs) as [Hp _].
  assert (∀ m, m ∈ sorted ↔ m ∈ snd <$> parsed ∧ chosen history target m) as Hin.
  { intros m. rewrite (elem_of_Permutation_proper m _ _ Hp), list_elem_of_filter. tauto. }
  split_and!; [|done|].
  - intros m. rewrite Hin. apply and_iff_compat_r. split.
    + intros ([f p] & -> & Hpp)%list_elem_of_fmap. apply list_elem_of_lookup in Hpp as [i Hi].
      destruct (Forall2_lookup_r _ _ _ _ _ (clean_read _ _ Hclean) Hi) as (file & Hf & _ & Hp' & _).
      exists file. split; [by eapply list_elem_of_lookup_2|done].
    + intros (file & [i Hi]%list_elem_of_lookup & Hf).
      destruct (Forall2_lookup_l _ _ _ _ _ (clean_read _ _ Hclean) Hi) as (p & Hi' & _ & Hp' & _).
      apply list_elem_of_fmap. exists p. split; [congruence|by eapply list_elem_of_lookup_2].
  - intros m [[p [-> Hpp]]%list_elem_of_fmap _]%Hin. pose proof (clean_reversible _ _ Hclean) as Hrev.
    rewrite Forall_forall in Hrev. by apply Hrev.
Qed.

Definition is_marked (p : parsedMig) : Prop := p.2.(RawMigration_Baseline) = true.

Lemma findBaseline_clean required files ps :
  Forall2 (fileRead required) files ps → ∀ acc,
  length (filter is_marked ps) + (match acc with Some _ => 1 | None => 0 end) ≤ 1 →
  findBaseline acc files = Ok (match filter is_marked ps with p :: _ => Some p | [] => acc end).
Proof.
  induction 1 as [|f p files ps (<- & Hp & _) _ IH]; intros acc Hlen; [done|]. cbn [findBaseline].
  rewrite (proj2 (read_raw_ok _ _ _) Hp). cbn [mbind outcome_bind]. rewrite filter_cons in Hlen |- *.
  destruct (decide (is_marked p)) as [Hb|Hb].
  - rewrite Hb. cbn [negb length] in *. destruct acc; [lia|].
    rewrite IH by (cbn; lia). destruct (filter is_marked ps); [by destruct p|cbn in Hlen; lia].
  - apply not_true_is_false in Hb. rewrite Hb. by apply IH.
Qed.

(** The baseline marker: in a directory that passes
    [CheckMigrationsDir], [FindBaselineMigration] finds the marked migration,
    the first of the directory and irreversible, and it fails only when no
    file is marked. *)
Theorem checked_baseline required r :
  CheckMigrationsDir required = Ok r → HasErrors r = false →
  match FindBaselineMigration with
  | Ok raw => raw.(RawMigration_Baseline) = true ∧ raw.(RawMigration_Irreversible) = true ∧
      ∃ file, head CollectFilesFromDir = Some file ∧ ReadRawMigration file = Ok raw
  | Err _ => ∀ file raw, file ∈ CollectFilesFromDir → ReadRawMigration file = Ok raw →
      raw.(RawMigration_Baseline) = false
  | _ => False
  end.
Proof.
  intros Hr He. destruct (check_clean _ _ Hr He) as [parsed Hclean].
  destruct (clean_marker _ _ Hclean) as [Hmark Hone].
  assert (length (filter is_marked parsed) ≤ 1) as Hlen.
  { unfold marked_files in Hone. by rewrite length_fmap in Hone. }
  pose proof (clean_read _ _ Hclean) as Hread. unfold FindBaselineMigration.
  rewrite (findBaseline_clean _ _ _ Hread) by (cbn; lia). cbn [mbind outcome_bind].
  destruct (filter is_marked parsed) as [|[file raw] ps] eqn:Hf.
  - intros file raw [i Hi]%list_elem_of_lookup Hraw.
    destruct (Forall2_lookup_l _ _ _ _ _ Hread Hi) as (p & Hi' & _ & Hp & _).
    rewrite filter_nil_iff in Hf. specialize (Hf p (list_elem_of_lookup_2 _ _ _ Hi')).
    assert (raw = p.2) as -> by congruence. unfold is_marked in Hf. by destruct (RawMigration_Baseline p.2).
  - assert ((file, raw) ∈ filter is_marked parsed) as [Hm Hin]%list_elem_of_filter by (rewrite Hf; left).
    rewrite Forall_forall in Hmark. destruct (Hmark _ Hin Hm) as [Hfirst Hirr].
    apply list_elem_of_lookup in Hin as [i Hi].
    destruct (Forall2_lookup_r _ _ _ _ _ Hread Hi) as (file' & Hi' & Heq & Hp & _). cbn in Heq. subst file'.
    destruct CollectFilesFromDir as [|first files] eqn:Hfiles; [done|].
    cbn in Hfirst. rewrite (Hfirst first) in * by done. rewrite decide_True by done.
    split_and!; [done..|]. by exists first.
Qed.
End checked.

(** ** A concrete directory: a baseline, and two migrations of two targets *)

Definition check_files : list (string * RawMigration) :=
  [("01_base.json", mkRawMigration "" "" "[{}]" [] [] true true (Some ["app"; "etl"]) "");
   ("02_a.json", mkRawMigration "" "" "[{}]" ["01_base"] [] false false (Some ["etl"; "app"]) "");
   ("03_b.json", mkRawMigration "" "" "[{}]" ["02_a"; "01_base"] [] false false (Some ["etl"]) "")].
#[local] Instance check_dir : Dir := {|
  dir_entries := check_files.*1;
  dir_decode f := default (Err (Errorf "open %s: file does not exist" [f]))
    ((λ p, Ok p.2) <$> List.find (λ p, String.eqb p.1 f) check_files);
|}.
#[local] Instance check_codec : Codec := {|
  codec_json := no_operations_json;
  MarshalRaw _ := Ok ();
  MarshalSchema _ := Ok "{}";
  sha256_json mig := Ok mig.(Migration_Name);
|}.

Lemma check_passes : CheckMigrationsDir true = Ok (mkCheckResult [] []).
Proof. vm_compute. reflexivity. Qed.

Lemma check_file_names :
  MigrationNameFromFile <$> CollectFilesFromDir = ["01_base"; "02_a"; "03_b"].
Proof. vm_compute. reflexivity. Qed.

Lemma checked_directory_resolves_witness :
  CheckMigrationsDir true = Ok (mkCheckResult [] []) ∧
  ∃ res, ResolveMigrations ["01_base"] None "etl" = Ok res ∧ startable ["01_base"] ∅ res.(Resolution_Apply).
Proof.
  split; [apply check_passes|].
  destruct (checked_directory_resolves true "etl" ["01_base"] _ check_passes eq_refl) as (res & Hres & _ & Hs & _).
  - by right.
  - rewrite check_file_names. decide_goal.
  - intros n Hn%list_elem_of_singleton. subst. rewrite check_file_names. left.
  - exact (ex_intro _ res (conj Hres Hs)).
Defined.

Lemma checked_baseline_witness :
  match FindBaselineMigration with
  | Ok raw => raw.(RawMigration_Name) = "01_base" ∧ raw.(RawMigration_Irreversible) = true
  | _ => False
  end.
Proof.
  pose proof (checked_baseline true _ check_passes eq_refl) as Hb.
  assert (FindBaselineMigration = Ok (mkRawMigration "01_base" "" "[{}]" [] [] true true (Some ["app"; "etl"]) ""))
    as Hf by (vm_compute; reflexivity).
  rewrite Hf in Hb |- *. split; [done|]. by destruct Hb as (_ & ? & _).
Defined.

(** ** The order against a base revision *)

Section ordering.
Context (git_lines added : string).
(** A revision with these files, all without targets *)
#[local] Instance order_git : Git := {|
  git_merge_base _ := Ok "deadbeef";
  git_ls_tree _ _ := Ok git_lines;
  git_added _ _ := Ok added;
  git_show _ _ _ := Ok "";
  yaml_targets _ := Ok [];
|}.
Definition order_issues : outcome error (list string) :=
  outcome_fmap _ _ (λ r, Issue_File <$> Errors r) (CheckBaseOrdering "migrations" "main").
End ordering.

(** A new file that sorts after every file of the base is reported, and one
    that sorts before them all is not. *)
Lemma base_ordering_inverted :
  order_issues "migrations/02_a.json" "migrations/03_new.json" = Ok ["03_new.json"] ∧
  order_issues "migrations/02_a.json" "migrations/01_new.json" = Ok [].
Proof. by vm_compute. Qed.
