(* ===== verification/RevertFacts.v ===== *)
(** * RevertFacts: the revert peels the history from its end

    The revertible window is the part of the history above its last sealed
    entry, and reverting removes the planned entries from the end, one at a
    time, whatever happens. *)

From S2P Require Import Prelude.
From S2P Require Import GoStd.
From S2P Require Import Names.
From S2P Require Import Schema.
From S2P Require Import Types.
From S2P Require Import Db.
From S2P Require Import WorldFacts.
From S2P Require Import OpsBase.
From S2P Require Import Catalog.
From S2P Require Import OpsTable.
From S2P Require Import OpsConstraint.
From S2P Require Import Operations.
From S2P Require Import Migration.
From S2P Require Import OpsFacts.
From S2P Require Import Invert.
From S2P Require Import LocalSet.
From S2P Require Import ResolveFacts.
From S2P Require Import History.
From S2P Require Import HistorySpec.
From S2P Require Import HistoryFacts.
From S2P Require Import HistoryRefine.
From S2P Require Import State.
From S2P Require Import Lifecycle.
From S2P Require Import LifecycleInv.
From S2P Require Import Revert.
From S2P Require Import HistoryLogic.
From S2P Require Import RewriteFacts.
From S2P Require Import MemState.
From S2P Require Import Samples.

Lemma Forall_one {A} (P : A → Prop) x : Forall P [x] → P x.
Proof. by intros [? _]%Forall_cons. Qed.

(** ** The window *)

Section window.
Context {J : Type} `{!Json J}.
Implicit Types (e : entry J) (es low win : list (entry J)) (pe : option string * entry J).

Definition unsealed e : Prop := is_sealed (e_status e) = false.
#[export] Instance unsealed_dec e : Decision (unsealed e).
Proof. unfold unsealed. apply _. Defined.

(** [t] is the target the walk makes of the entry. *)
Definition targets_entry (t : RevertTarget) pe : Prop :=
  ∃ r, to_record pe = Ok r ∧ e_type pe.2 ≠ MigrationTypeBaseline ∧
    ∃ s, revertState r = Ok s ∧ t = revertTarget r s.

Lemma to_record_ok pe r :
  to_record pe = Ok r →
  rec_Name r = e_name pe.2 ∧ rec_Parent r = pe.1 ∧ rec_MigrationType r = e_type pe.2 ∧
  rec_Done r = is_done (e_status pe.2) ∧ rec_CompleteDeferred r = is_deferred (e_status pe.2) ∧
  (rec_Migration r).(Migration_Name) = e_name pe.2.
Proof.
  unfold to_record, decode. intros (mig & Hm & [= <-])%outcome_bind_ok. cbn.
  split_and!; try done. destruct (json_Unmarshal (e_body pe.2)); cbn in Hm; try done.
  by injection Hm as <-.
Qed.
Lemma targets_entry_name t pe :
  targets_entry t pe →
  RevertTarget_Name t = e_name pe.2 ∧ RevertTarget_Parent t = pe.1 ∧
  (RevertTarget_migration t).(Migration_Name) = e_name pe.2.
Proof. intros (r & Hr & _ & s & _ & ->). by apply to_record_ok in Hr as (? & ? & _ & _ & _ & ?). Qed.
Lemma targets_names ts pes : Forall2 targets_entry ts pes → RevertTarget_Name <$> ts = e_name <$> pes.*2.
Proof.
  induction 1 as [|t pe ts pes H _ IH]; [done|]. cbn. apply targets_entry_name in H as [-> _].
  by rewrite IH.
Qed.

Lemma recordsByName_lookup (records : list MigrationRecord) n r :
  NoDup (rec_Name <$> records) → recordsByName records !! n = Some r ↔ r ∈ records ∧ rec_Name r = n.
Proof.
  unfold recordsByName. induction records as [|r' records IH] using rev_ind; intros Hn.
  { cbn. rewrite lookup_empty. split; [done|by intros [?%elem_of_nil _]]. }
  rewrite fmap_app in Hn. apply NoDup_app in Hn as (Hn & Hd & _).
  rewrite foldl_app. cbn. rewrite lookup_insert_Some, IH, elem_of_app, list_elem_of_singleton by done.
  split; [intros [[<- ->]|[_ [? ?]]]; auto|]. intros [[Hr| ->] <-]; [|by left].
  right. split; [|done]. intros Heq. apply (Hd (rec_Name r)); [by apply list_elem_of_fmap_2|].
  rewrite <-Heq. left.
Qed.

Lemma with_parents_in p es pe : pe ∈ with_parents p es → pe.2 ∈ es.
Proof. intros Hpe. rewrite <-(with_parents_snd p es). by apply list_elem_of_fmap_2. Qed.

(** The records [UnsealedMigrations] returns for [es] *)
Definition records_of es (records : list MigrationRecord) : Prop :=
  Forall2 (λ pe r, to_record pe = Ok r)
    (reverse (filter (λ pe, is_sealed (e_status pe.2) = false) (with_parents None es))) records.

Section walk.
Context (clock : nat → Z) (ticks : nat) (es : list (entry J)) (Hwf : history_wf clock ticks es).
Context (records : list MigrationRecord) (Hrecords : records_of es records).

Lemma records_names : rec_Name <$> records = reverse (e_names (filter unsealed es)).
Proof.
  transitivity (e_name <$> (reverse (filter (λ pe, unsealed pe.2) (with_parents None es))).*2).
  - assert (∀ pes, Forall2 (λ pe r, to_record pe = Ok r) pes records →
      rec_Name <$> records = e_name <$> pes.*2) as Hall.
    { clear Hrecords. induction 1 as [|pe r pes rs H _ IH]; [done|]. apply to_record_ok in H as [H _].
      by rewrite !fmap_cons, H, IH. }
    exact (Hall _ Hrecords).
  - rewrite fmap_reverse, filter_snd, with_parents_snd. by rewrite fmap_reverse.
Qed.
Lemma records_NoDup : NoDup (rec_Name <$> records).
Proof.
  rewrite records_names, reverse_Permutation. unfold e_names.
  eapply sublist_NoDup; [apply (wf_names _ _ _ Hwf)|]. apply fmap_sublist, sublist_filter.
Qed.
Lemma byName_entry pe :
  pe ∈ with_parents None es → unsealed pe.2 →
  ∃ r, recordsByName records !! e_name pe.2 = Some r ∧ to_record pe = Ok r.
Proof.
  intros Hpe Hu.
  assert (pe ∈ reverse (filter (λ pe, is_sealed (e_status pe.2) = false) (with_parents None es))) as Hin.
  { apply elem_of_reverse, list_elem_of_filter. by split. }
  apply list_elem_of_lookup in Hin as [i Hi].
  destruct (Forall2_lookup_l _ _ _ _ _ Hrecords Hi) as (r & Hr & Hok). exists r. split; [|done].
  apply recordsByName_lookup; [apply records_NoDup|]. split; [by eapply list_elem_of_lookup_2|].
  by apply to_record_ok in Hok as [-> _].
Qed.
Lemma byName_sealed e : e ∈ es → ¬ unsealed e → recordsByName records !! e_name e = None.
Proof.
  intros He Hs. destruct (recordsByName records !! e_name e) as [r|] eqn:Hr; [|done]. exfalso.
  apply recordsByName_lookup in Hr as [Hr Hn]; [|apply records_NoDup].
  apply (list_elem_of_fmap_2 rec_Name) in Hr. rewrite records_names, elem_of_reverse in Hr.
  apply list_elem_of_fmap in Hr as (e' & Heq & [Hu He']%list_elem_of_filter).
  rewrite Hn in Heq. rewrite (names_inj_entry es e e' (wf_names _ _ _ Hwf) He He' Heq) in Hs.
  by apply Hs.
Qed.

Lemma revertState_cases r : (∃ s, revertState r = Ok s) ∨ (∃ err, revertState r = Err err).
Proof.
  unfold revertState. destruct (decide _); [by right; eexists|].
  destruct (Migration_Irreversible _); [by right; eexists|].
  destruct (negb _); [by left; eexists|]. destruct (rec_CompleteDeferred r); [by left; eexists|].
  destruct (CompleteMustBeDeferred _); [right|left]; by eexists.
Qed.

(** The window and what lies below it *)
Definition splits low win : Prop :=
  Forall unsealed win ∧ match last low with Some e => ¬ unsealed e | None => True end.

Definition revertible pe : Prop := ∃ t, targets_entry t pe.

Lemma parents_from_top low win :
  with_parents None (low ++ win) = with_parents None low ++ with_parents (top low) win.
Proof. rewrite with_parents_app. unfold top. by destruct (last low). Qed.

(** One step of the walk: the target of the entry, or an error when it has none *)
Lemma walk_step p x fuel :
  (p, x) ∈ with_parents None es → unsealed x →
  (∃ t, targets_entry t (p, x) ∧ revertWalk (S fuel) (recordsByName records) (e_name x) =
     match p with
     | None => Ok ([t], 1)
     | Some q =>
         match recordsByName records !! q with
         | None => Ok ([t], 1)
         | Some _ => '(ts, visited) ← revertWalk fuel (recordsByName records) q; Ok (t :: ts, S visited)
         end
     end) ∨
  (∃ err, revertWalk (S fuel) (recordsByName records) (e_name x) = Err err) ∧ ¬ revertible (p, x).
Proof.
  intros Hx Hu. destruct (byName_entry _ Hx Hu) as (r & Hr & Hok). cbn [snd] in Hr.
  destruct (to_record_ok _ _ Hok) as (_ & Hp & Hy & _). cbn in Hp, Hy.
  assert (e_type x ≠ MigrationTypeBaseline) as Hnb.
  { intros Hb. apply (wf_baselines _ _ _ Hwf) in Hb; [unfold unsealed in Hu; congruence|].
    by eapply with_parents_in in Hx. }
  cbn [revertWalk]. rewrite Hr, Hy, decide_False by done.
  destruct (revertState_cases r) as [[s Hs]|[err Hs]]; rewrite Hs; cbn [mbind outcome_bind].
  - left. exists (revertTarget r s). split; [exists r; by eauto|]. by rewrite Hp.
  - right. split; [by eexists|]. intros (t & r' & Hr' & _ & s & Hs' & _). congruence.
Qed.

Lemma walk_spec low win : ∀ post x fuel,
  es = low ++ (win ++ [x]) ++ post → splits low (win ++ [x]) → length win < fuel →
  (∃ ts, revertWalk fuel (recordsByName records) (e_name x) = Ok (ts, S (length win)) ∧
     Forall2 targets_entry ts (reverse (with_parents (top low) (win ++ [x])))) ∨
  ((∃ err, revertWalk fuel (recordsByName records) (e_name x) = Err err) ∧
   ¬ Forall revertible (with_parents (top low) (win ++ [x]))).
Proof.
  induction win as [|y win IH] using rev_ind; intros post x fuel Hes [Hu Hl] Hf;
    (destruct fuel as [|fuel]; [cbn in Hf; lia|]).
  - cbn [app] in *. apply Forall_one in Hu.
    destruct (walk_step (top low) x fuel) as [(t & Ht & ->)|[Herr Hno]]; [|done|left|right].
    { rewrite Hes, parents_from_top. cbn. apply elem_of_app. right. left. }
    + exists [t]. split; [|by repeat constructor]. unfold top.
      destruct (last low) as [z|] eqn:Hz; [|done]. cbn. rewrite byName_sealed; [done| |done].
      rewrite Hes. apply last_Some in Hz as [l ->]. rewrite !elem_of_app. left. right. left.
    + split; [done|]. intros [? _]%Forall_cons. by apply Hno.
  - rewrite length_app in Hf. cbn in Hf. apply Forall_app in Hu as [Hu Hux%Forall_one].
    assert (with_parents (top low) ((win ++ [y]) ++ [x]) =
      with_parents (top low) (win ++ [y]) ++ [(Some (e_name y), x)]) as Hwp
      by (by rewrite with_parents_app, last_snoc).
    assert (∃ ry, recordsByName records !! e_name y = Some ry) as [ry Hry].
    { destruct (byName_entry (top (low ++ win), y)) as (ry & Hry & _).
      - rewrite Hes, <-!app_assoc, app_assoc, parents_from_top. cbn. apply elem_of_app. right. left.
      - by apply Forall_app in Hu as [_ Hu%Forall_one].
      - by exists ry. }
    rewrite Hwp. destruct (walk_step (Some (e_name y)) x fuel) as [(t & Ht & ->)|[Herr Hno]]; [|done| |].
    { rewrite Hes, parents_from_top, with_parents_app, Hwp. apply elem_of_app. right.
      apply elem_of_app. left. apply elem_of_app. right. left. }
    2:{ right. split; [done|]. intros [_ ?%Forall_one]%Forall_app. by apply Hno. }
    rewrite Hry. destruct (IH ([x] ++ post) y fuel) as [(ts & -> & H2)|[[err ->] Hno]].
    { rewrite Hes. by rewrite <-!app_assoc. } { by split. } { lia. }
    + left. exists (t :: ts). rewrite reverse_app. cbn. split; [|by constructor].
      rewrite length_app. do 3 f_equal. cbn. lia.
    + right. split; [by eexists|]. intros [Hall _]%Forall_app. by apply Hno.
Qed.

Lemma split_window : ∃ low win, es = low ++ win ∧ splits low win.
Proof.
  clear. induction es as [|e es' (low & win & -> & Hu & Hl)] using rev_ind; [by exists [], []|].
  destruct (decide (unsealed e)).
  - exists low, (win ++ [e]). rewrite app_assoc. split; [done|]. split; [|done].
    apply Forall_app. by split; [|constructor].
  - exists ((low ++ win) ++ [e]), []. rewrite app_nil_r. split; [done|]. split; [done|].
    by rewrite last_snoc.
Qed.

Lemma filter_window low win :
  splits low win → length (filter unsealed (low ++ win)) = length (filter unsealed low) + length win.
Proof.
  intros [Hu _]. rewrite filter_app, length_app. f_equal.
  induction Hu as [|e l He _ IH]; [done|]. rewrite filter_cons, decide_True by done. cbn. by rewrite IH.
Qed.
Lemma none_unsealed low : length (filter unsealed low) = 0 ↔ Forall (λ e, ¬ unsealed e) low.
Proof.
  rewrite length_zero_iff_nil, filter_nil_iff, Forall_forall. naive_solver.
Qed.
Lemma records_length : length records = length (filter unsealed es).
Proof.
  rewrite <-(length_fmap rec_Name), records_names, length_reverse. unfold e_names.
  by rewrite length_fmap.
Qed.

Lemma revertWindow_spec low win :
  es = low ++ win → splits low win → records ≠ [] →
  match revertWindow records (top es) with
  | Ok ts => Forall (λ e, ¬ unsealed e) low ∧ Forall2 targets_entry ts (reverse (with_parents (top low) win))
  | Err _ => ¬ (Forall (λ e, ¬ unsealed e) low ∧ Forall revertible (with_parents (top low) win))
  | _ => False
  end.
Proof.
  intros Hes Hs Hne. pose proof records_length as Hlen.
  assert (length records = length (filter unsealed low) + length win) as Hcount.
  { by rewrite Hlen, Hes, filter_window. }
  unfold revertWindow. destruct win as [|x win _] using rev_ind.
  - rewrite app_nil_r in Hes. subst low.
    assert (¬ Forall (λ e, ¬ unsealed e) es) as Hsome.
    { rewrite <-none_unsealed, <-Hlen. by destruct records. }
    destruct Hs as [_ Hl]. unfold top. destruct (last es) as [z|] eqn:Hz; cbn; [|by intros [? _]].
    rewrite byName_sealed; [by intros [? _]| |done].
    apply last_Some in Hz as [l ->]. apply elem_of_app. right. left.
  - rewrite length_app in Hcount. cbn in Hcount.
    replace (top es) with (Some (e_name x)) by (unfold top; by rewrite Hes, app_assoc, last_snoc).
    destruct (byName_entry (top (low ++ win), x)) as (r & Hr & _).
    { rewrite Hes, app_assoc, parents_from_top. apply elem_of_app. right. left. }
    { destruct Hs as [[_ Hs%Forall_one]%Forall_app _]. done. }
    cbn [snd] in Hr. rewrite Hr.
    destruct (walk_spec low win [] x (length records)) as [(ts & Hts & H2)|[[err Herr] Hno]].
    { by rewrite app_nil_r. } { done. } { lia. }
    + rewrite Hts. cbn [mbind outcome_bind]. destruct (Nat.eqb_spec (S (length win)) (length records)).
      * split; [|done]. apply none_unsealed. lia.
      * intros [Hall%none_unsealed _]. lia.
    + rewrite Herr. cbn. by intros [_ ?].
Qed.
End walk.

(** Every unsealed body reads. *)
Definition bodies_read es : Prop :=
  ∀ e, e ∈ es → unsealed e → ∃ mig, json_Unmarshal (e_body e) = Ok mig.
Lemma unsealed_records es :
  bodies_read es → ∃ records, map_outcome to_record
    (reverse (filter (λ pe, is_sealed (e_status pe.2) = false) (with_parents None es))) = Ok records ∧
    records_of es records.
Proof.
  intros Hread. unfold records_of.
  assert (∀ pes, (∀ pe, pe ∈ pes → pe.2 ∈ es ∧ unsealed pe.2) →
    ∃ rs, map_outcome to_record pes = Ok rs ∧ Forall2 (λ pe r, to_record pe = Ok r) pes rs) as Hall.
  { induction pes as [|pe pes IH]; intros Hpes; [by exists []|].
    destruct (Hread pe.2) as [mig Hm]; [apply Hpes; left..|].
    destruct IH as (rs & Hrs & H2); [intros; apply Hpes; by right|].
    cbn [map_outcome]. unfold to_record at 1, decode. rewrite Hm. cbn. rewrite Hrs. cbn.
    eexists. split; [done|]. constructor; [|done]. unfold to_record, decode. by rewrite Hm. }
  apply Hall. intros pe [Hu Hin]%elem_of_reverse%list_elem_of_filter. split; [|done].
  by apply with_parents_in in Hin.
Qed.
End window.

(** ** The plan *)

Section plan.
Context `{!Pq} {J C : Type} `{!Json J} `{!Catalogue C} `{!DB C}.
Context (m : Roll (Store J C)).
Implicit Types (es low win : list (entry J)) (ts : list RevertTarget).

Definition window_of es ts low win : Prop :=
  es = low ++ win ∧ Forall unsealed win ∧
  Forall2 targets_entry ts (reverse (with_parents (top low) win)).

Lemma hist_of_wf es w : hist m es w → ∃ clock t, history_wf clock t es.
Proof. intros [_ [_ Hwf]]. by eexists _, _. Qed.
Lemma window_empty es : window_of es [] es [].
Proof. split_and!; [by rewrite app_nil_r|done|constructor]. Qed.

Lemma leads_RevertTargets es :
  leads (hist m es) (hist m es) (RevertTargets m)
    (λ ts w, hist m es w ∧ ∃ low win, window_of es ts low win ∧ Forall (λ e, ¬ unsealed e) low).
Proof.
  unfold RevertTargets.
  eapply (leads_bind_read _ _ _ _ (records_of es)).
  { apply (leads_read m CUnsealed es); try done. intros rs now w a Ha Hw. split; [done|].
    by apply map_outcome_ok. }
  intros records Hrecords. destruct (decide (records = [])) as [->|Hne].
  - apply leads_ret. intros w Hw. split; [done|]. exists es, []. split; [apply window_empty|].
    apply none_unsealed. symmetry. destruct (hist_of_wf es w Hw) as (ck & t & Hwf).
    exact (records_length es [] Hrecords).
  - eapply (leads_bind_read _ _ _ _ (λ latest, latest = top es)).
    { apply leads_wrap_err, (leads_read m CLatestMigration es); try done.
      intros rs now w a [= <-] Hw. by split. }
    intros latest -> w Hw. destruct (hist_of_wf es w Hw) as (ck & t & Hwf).
    destruct (split_window es) as (low & win & Hes & Hs).
    pose proof (revertWindow_spec ck t es Hwf records Hrecords low win Hes Hs Hne) as Hwin.
    unfold lift. destruct (revertWindow records (top es)); try done.
    destruct Hwin as [Hlow H2]. destruct Hs as [Hu _]. split; [done|]. exists low, win. by split.
Qed.

(** The revert window: [Roll.RevertTargets] succeeds exactly when the
    unsealed migrations are the ones above the last sealed entry, and each of
    them can be walked back; it then lists them newest first, with the parent
    recorded for each.  It reads only. *)
Lemma RevertTargets_spec es low win w :
  hist m es w → bodies_read es → es = low ++ win → splits low win →
  match RevertTargets m w with
  | (Ok ts, w') => hist m es w' ∧ Forall (λ e, ¬ unsealed e) low ∧
      Forall2 targets_entry ts (reverse (with_parents (top low) win))
  | (Err _, w') => hist m es w' ∧
      ¬ (Forall (λ e, ¬ unsealed e) low ∧ Forall revertible (with_parents (top low) win))
  | _ => False
  end.
Proof.
  intros Hw Hread Hes Hs. destruct (hist_of_wf es w Hw) as (ck & t & Hwf).
  unfold RevertTargets, mbind, prog_bind.
  destruct (unsealed_records es Hread) as (records & Hr & Hrecords).
  destruct (call_result m CUnsealed es w Hw I) as (rs & now & w1 & Hcall & Hw1).
  assert (run_spec (catalogue_name_le (C := C)) rs now (Roll_schema m) CUnsealed es =
    (Ok records, es)) as Hrun.
  { cbn [run_spec]. rewrite get_bind. exact (f_equal (λ o, (o, es)) Hr). }
  rewrite Hrun in Hcall, Hw1. cbn [fst snd] in Hcall, Hw1.
  assert (from_state m state_UnsealedMigrations w = (Ok records, w1)) as -> by exact Hcall.
  destruct (decide (records = [])) as [->|Hne].
  - pose proof (records_length es [] Hrecords) as Hlen. cbn in Hlen.
    rewrite Hes, filter_window in Hlen by done. destruct win; [|cbn in Hlen; lia].
    split; [done|]. split; [apply none_unsealed; lia|constructor].
  - destruct (call_result m CLatestMigration es w1 Hw1 I) as (rs2 & now2 & w2 & Hcall2 & Hw2).
    cbn [run run_spec] in Hcall2, Hw2. unfold wrap_err.
    assert (from_state m state_LatestMigration w1 = (Ok (top es), w2)) as -> by exact Hcall2.
    pose proof (revertWindow_spec ck t es Hwf records Hrecords low win Hes Hs Hne) as Hwin.
    unfold lift. destruct (revertWindow records (top es)); try done; by destruct Hwin.
Qed.

Lemma take_window es ts low win k :
  window_of es ts low win → ∃ a b, win = a ++ b ∧ length b = min k (length win) ∧
    window_of es (take k ts) (low ++ a) b.
Proof.
  intros (Hes & Hu & H2). exists (take (length win - k) win), (drop (length win - k) win).
  rewrite take_drop, length_drop. split_and!; [done|lia|].
  assert (reverse (with_parents (top (low ++ take (length win - k) win)) (drop (length win - k) win)) =
    take k (reverse (with_parents (top low) win))) as Ht.
  { rewrite take_reverse, with_parents_length. f_equal. set (n := length win - k).
    transitivity (drop n (with_parents (top low) (take n win ++ drop n win))); [|by rewrite take_drop].
    rewrite with_parents_app, drop_app_length'.
    - unfold top. rewrite last_app. by destruct (last (take n win)).
    - rewrite with_parents_length, length_take. subst n. lia. }
  unfold window_of. rewrite Ht. split_and!.
  - by rewrite <-app_assoc, take_drop.
  - by apply Forall_drop.
  - by apply Forall2_take.
Qed.

(** A planned revert of [win] respects the caller's bounds. *)
Definition bounded (o : revertOptions) low win : Prop :=
  (ro_to o ≠ "" → top low = Some (ro_to o)) ∧
  ((0 < ro_steps o)%Z → length win ≤ Z.to_nat (ro_steps o)) ∧
  (ro_to o = "" → (0 < ro_steps o)%Z ∧ length win = Z.to_nat (ro_steps o) ∨
                  Forall (λ e, ¬ unsealed e) low).

Lemma targetsAbove_take to ts above :
  targetsAbove to ts = Some above → ∃ k t, above = take k ts ∧ ts !! k = Some t ∧ RevertTarget_Name t = to.
Proof.
  revert above. induction ts as [|t ts IH]; intros above; cbn; [done|].
  destruct (decide _) as [Ht|_]; [intros [= <-]; by exists 0, t|].
  intros (above' & Ha & [= ->])%fmap_Some. destruct (IH _ Ha) as (k & t' & -> & ? & ?).
  by exists (S k), t'.
Qed.

(** The entry below a window of [k] targets is the one of the next target. *)
Lemma window_below es ts low win k t :
  window_of es ts low win → ts !! k = Some t →
  ∃ a e b, win = a ++ e :: b ∧ length b = k ∧ e_name e = RevertTarget_Name t.
Proof.
  intros (_ & _ & H2) Ht. destruct (Forall2_lookup_l _ _ _ _ _ H2 Ht) as (pe & Hpe & Ht').
  apply targets_entry_name in Ht' as (-> & _).
  assert (reverse win !! k = Some pe.2) as Hk.
  { rewrite <-(with_parents_snd (top low) win), <-fmap_reverse, list_lookup_fmap.
    by rewrite Hpe. }
  apply list_elem_of_split_length in Hk as (b & a & Hwin & ->).
  exists (reverse a), pe.2, (reverse b). split_and!; [|by rewrite length_reverse|done].
  apply (f_equal reverse) in Hwin. rewrite reverse_involutive in Hwin. rewrite Hwin.
  by rewrite reverse_app, reverse_cons, <-app_assoc.
Qed.

Lemma last_parent low win ts es :
  window_of es ts low win → win ≠ [] → (t ← last ts; RevertTarget_Parent t) = top low.
Proof.
  intros (_ & _ & H2) Hne. destruct win as [|e win]; [done|]. cbn [with_parents] in H2.
  rewrite reverse_cons in H2. apply Forall2_app_inv_r in H2 as (ts1 & ts2 & _ & H2 & ->).
  apply Forall2_cons_inv_r in H2 as (t & l & Ht & Hl & ->). apply Forall2_nil_inv_r in Hl as ->.
  rewrite last_snoc. cbn. by apply targets_entry_name in Ht as (_ & -> & _).
Qed.

Lemma leads_planSealedTo es ts low win to :
  window_of es ts low win →
  leads (hist m es) (hist m es) (planSealedTo m to ts)
    (λ ts' w, hist m es w ∧ ∃ low' win', window_of es ts' low' win' ∧ top low' = Some to).
Proof.
  intros Hw. unfold planSealedTo. destruct (decide _) as [Hb|Hb].
  - apply leads_ret. intros w ?. split; [done|]. exists low, win. split; [done|].
    destruct win as [|e win]; [|by rewrite <-Hb; symmetry; eapply last_parent].
    destruct Hw as (_ & _ & H2). apply Forall2_nil_inv_r in H2 as ->. done.
  - eapply (leads_bind_read _ _ _ _ (λ latest, latest = top es)).
    { apply leads_wrap_err, (leads_read m CLatestMigration es); try done.
      intros rs now w a [= <-] ?. by split. }
    intros latest ->. destruct (decide (top es = Some to)).
    + apply leads_ret. intros w ?. split; [done|]. exists es, []. split; [apply window_empty|done].
    + eapply (leads_bind_read _ _ _ _ (λ _, True)).
      { apply (leads_read m (CMigrationExists to) es); try done. }
      intros ex _ w ?. by destruct ex.
Qed.

Lemma leads_RevertPlan o es :
  leads (hist m es) (hist m es) (RevertPlan m o)
    (λ ts w, hist m es w ∧ ∃ low win, window_of es ts low win ∧ bounded o low win).
Proof.
  unfold RevertPlan.
  eapply (leads_bind_read _ _ _ _ (λ _, (0 < ro_steps o)%Z → ro_to o = "")).
  { intros w Hw. unfold fail_if. destruct (Z.ltb_spec 0 (ro_steps o)); cbn; [|split; [done|lia]].
    by case_bool_decide. }
  intros _ Hexcl. eapply (leads_bind_read _ _ _ _ (λ _, True)); [intros w Hw; unfold fail_if; by destruct (_ <? _)%Z|].
  intros _ _. eapply leads_bind; [apply leads_RevertTargets|]. intros ts w [Hw (low & win & Hwin & Hlow)].
  destruct (Z.ltb_spec 0 (ro_steps o)) as [Hpos|Hpos].
  { split; [done|]. destruct (take_window es ts low win (Z.to_nat (ro_steps o)) Hwin)
      as (a & b & -> & Hlen & Hb). exists (low ++ a), b. split; [done|].
    rewrite length_app in Hlen. split_and!; [by rewrite Hexcl|lia|]. intros _.
    destruct (decide (length b = Z.to_nat (ro_steps o))); [by left|]. right.
    destruct a; [by rewrite app_nil_r|]. cbn in Hlen. lia. }
  destruct (decide (ro_to o = "")) as [Hto|Hto].
  { split; [done|]. exists low, win. split; [done|]. split_and!; [done|lia|by right]. }
  destruct (targetsAbove (ro_to o) ts) as [above|] eqn:Ha.
  - split; [done|]. apply targetsAbove_take in Ha as (k & t & -> & Ht & Hn).
    destruct (window_below _ _ _ _ _ _ Hwin Ht) as (a & e & b & -> & Hk & He).
    destruct (take_window es ts low _ k Hwin) as (a' & b' & Heq & Hlen & Hb).
    assert (a ++ [e] = a' ∧ b = b') as [<- <-].
    { apply app_inj_2; [|by rewrite <-Heq, <-app_assoc].
      rewrite Hlen, length_app. cbn. lia. }
    exists (low ++ a ++ [e]), b. split; [done|]. split_and!; [|lia|done].
    intros _. by rewrite app_assoc, top_snoc, He, Hn.
  - pose proof (leads_planSealedTo es ts low win (ro_to o) Hwin w Hw) as Hp.
    destruct (planSealedTo m (ro_to o) ts w) as [[ts'|e| |] w']; try done.
    destruct Hp as [? (low' & win' & Hw' & Ht)]. split; [done|]. exists low', win'.
    split; [done|]. split_and!; [done|lia|done].
Qed.
End plan.

(** ** The walk *)

Section revert_walk.
Context `{!Pq} {D : Type} `{!DB D} `{!StateStore D} (m : Roll D).
Context (I : World D → Prop) {HI : ReadInv m I}.
Hint Extern 0 (ReadInv _ _) => exact HI : pgroll.

Lemma pres_RollbackCompleted op rollback :
  RollbackCompleted (D := D) op = Some rollback → pres I rollback.
Proof.
  destruct op; try done; intros [= <-];
    unfold CreateConstraint_RollbackCompleted, RenameConstraint_RollbackCompleted; pres_steps.
Qed.
Lemma pres_rollbackCompletedOperations fuel mig :
  pres I (rollbackCompletedOperations fuel mig : M D _).
Proof.
  apply pres_for_each. intros op. apply pres_bind; [|intros acts; apply pres_wrap_err; pres_steps].
  apply pres_wrap_err. destruct (RollbackCompleted op) as [rollback|] eqn:Hop; [|pres_steps].
  by apply pres_RollbackCompleted in Hop.
Qed.
Hint Resolve pres_rollbackCompletedOperations : pgroll.

(** What [revertMigration] does before the record is removed *)
Lemma pres_undo fuel t :
  pres I (match RevertTarget_State t with
    | RevertStateApplied =>
        dropVersionSchema m (RevertTarget_migration t) ;;
        wrap_err (ErrorfW "unable to read schema: %w" []) (readSchemaWithDeferred m) ;;
        on_schema (set_Schema_MigrationScope (MigrationScopeFor (RevertTarget_migration t).(Migration_Name))) ;;
        rollbackCompletedOperations fuel (RevertTarget_migration t)
    | _ => rollbackExpandPhase m fuel (RevertTarget_migration t) (RevertTarget_Parent t)
    end).
Proof. destruct (RevertTarget_State t); pres_steps. Qed.
Lemma pres_ensureLeafVersionSchema : pres I (ensureLeafVersionSchema m).
Proof. unfold ensureLeafVersionSchema. pres_steps. Qed.
End revert_walk.

(** ** The revert *)

Section revert.
Context `{!Pq} {J C : Type} `{!Json J} `{!Catalogue C} `{!DB C}.
Context (m : Roll (Store J C)).
Implicit Types (es low win : list (entry J)) (ts : list RevertTarget).

Lemma leads_revertMigration fuel t es e p :
  targets_entry t (p, e) →
  leads (hist m (es ++ [e])) (hist m (es ++ [e])) (revertMigration m fuel t) (λ _, hist m es).
Proof.
  intros (_ & _ & Hn)%targets_entry_name. cbn in Hn. unfold revertMigration.
  eapply leads_bind; [apply leads_pres; [apply pres_undo, hist_read|done]|]. intros [].
  apply leads_wrap_err. rewrite Hn. apply (leads_call m (CDeleteMigration (e_name e)) (es ++ [e])); [done|].
  intros rs now w. cbn [run_spec]. unfold pop.
  rewrite top_snoc, decide_True, length_app, take_app_length' by (cbn; lia || done). done.
Qed.

(** Part of a window is gone. *)
Definition peeled es w : Prop := ∃ low win, es = low ++ win ∧ Forall unsealed win ∧ hist m low w.
Lemma none_peeled es w : hist m es w → peeled es w.
Proof. intros Hw. exists es, []. by rewrite app_nil_r. Qed.

(** The newest of the entries [win] are gone. *)
Definition walked low win w : Prop := ∃ a b, win = a ++ b ∧ hist m (low ++ a) w.
Lemma walked_peeled low win w : Forall unsealed win → walked low win w → peeled (low ++ win) w.
Proof.
  intros Hu (a & b & -> & Hw). exists (low ++ a), b. rewrite <-app_assoc.
  split_and!; [done| |done]. by apply Forall_app in Hu as [_ ?].
Qed.

Lemma leads_revertAll fuel ts : ∀ es low win,
  window_of es ts low win →
  leads (walked low win) (hist m es) (revertAll m fuel ts) (λ _, hist m low).
Proof.
  induction ts as [|t ts IH]; intros es low win (-> & Hu & H2).
  { apply Forall2_nil_inv_l in H2. apply (f_equal length) in H2.
    rewrite length_reverse, with_parents_length in H2. apply length_zero_iff_nil in H2 as ->.
    rewrite app_nil_r. by apply leads_ret. }
  destruct win as [|e win _] using rev_ind; [by apply Forall2_length in H2|].
  rewrite with_parents_app, reverse_app in H2. apply Forall2_cons in H2 as [Ht H2].
  apply Forall_app in Hu as [Hu He]. rewrite app_assoc. unfold revertAll. cbn [for_each].
  eapply leads_bind.
  { apply leads_wrap_err. eapply leads_outside; [by eapply leads_revertMigration|].
    intros w Hw. exists (win ++ [e]), []. by rewrite app_nil_r, app_assoc. }
  intros []. eapply leads_outside; [by apply (IH (low ++ win) low win)|].
  intros w (a & b & -> & Hw). exists a, (b ++ [e]). by rewrite app_assoc.
Qed.

(** What a revert leaves on success *)
Definition taken_off (o : revertOptions) es ts w : Prop := ∃ low win,
  es = low ++ win ∧ Forall unsealed win ∧ hist m low w ∧
  RevertTarget_Name <$> ts = reverse (e_names win) ∧ bounded o low win.
Lemma leads_Roll_Revert fuel o es :
  leads (peeled es) (hist m es) (Roll_Revert m fuel o) (taken_off o es).
Proof.
  unfold Roll_Revert. eapply leads_bind.
  { eapply leads_outside; [apply leads_RevertPlan|]. apply none_peeled. }
  intros ts w [Hw (low & win & Hwin & Hb)]. revert w Hw.
  change (leads (peeled es) (hist m es) (revertAll m fuel ts ;;
    (if decide (ts = []) then mret ()
     else wrap_err (ErrorfW "unable to materialize version schema for the new leaf: %w" [])
       (ensureLeafVersionSchema m)) ;; mret ts) (taken_off o es)).
  destruct Hwin as (Hes & Hu & H2). eapply leads_bind.
  { eapply leads_outside; [by apply (leads_revertAll fuel ts es low win)|]. rewrite Hes.
    intros w. by apply walked_peeled. }
  intros [].
  eapply leads_bind with (R := λ _, hist m low).
  { eapply leads_outside; [apply leads_pres; [|done]|].
    - destruct (decide _); [apply pres_ret|apply pres_wrap_err, pres_ensureLeafVersionSchema, hist_read].
    - intros w Hw. by exists low, win. }
  intros []. apply leads_ret. intros w Hw. exists low, win. split_and!; try done.
  rewrite (targets_names _ _ H2), fmap_reverse, with_parents_snd. unfold e_names. by rewrite fmap_reverse.
Qed.

(** C17. [Roll.Revert] takes entries off the top of the history, newest first,
    and only unsealed ones: on success what is left is the history below the
    reverted window, which ends at the target given, is no longer than the
    steps given, and without a bound leaves nothing unsealed; on any failure,
    whatever the statements of the database did, some of the window's newest
    entries are gone and the rest of the history is as it was, so the command
    can be run again. *)
Theorem Roll_Revert_spec fuel o es w :
  hist m es w →
  match Roll_Revert m fuel o w with
  | (Ok ts, w') => taken_off o es ts w'
  | (_, w') => peeled es w'
  end.
Proof. apply leads_Roll_Revert. Qed.
End revert.

(** ** A concrete deployment: two deferred renames above a sealed one *)

Definition three_mem : mem :=
  mkMem (mkPgCatalog {["users"]} {[("users", "id"); ("users", "b")]} ∅ ∅)
    ["public_02_ab"; "public_03_bc"; "public_04_cd"] mem_users.
Definition three_migs : list (Migration * status) :=
  [(rename_migration "02_ab" "a" "b", Sealed); (rename_migration "03_bc" "b" "c", Deferred);
   (rename_migration "04_cd" "c" "d", Deferred)].
Definition three_es : list (entry Migration) :=
  change (λ e, e_type e = MigrationTypePgroll) (set_e_schema (mem_users (mem_catalog three_mem)))
    (mem_entries 0 three_migs).
Definition three_world : World mem_store :=
  mkWorld New ∅ (mkStore three_mem {["public" := rows_of three_es]} ∅ Z.of_nat 3) 0.
Lemma three_hist : hist (C := mem) mem_roll three_es three_world.
Proof.
  split; [intros i j; cbn; lia|]. split; [reflexivity|]. apply wf_change; try done; [by left|].
  apply (mem_entries_wf three_migs); [decide_goal|].
  intros [|x1 [|x2 [|x3 [|x4 pre]]]] x post Heq; by simplify_eq/=.
Qed.

Lemma RevertTargets_spec_witness :
  is_ok (RevertTargets mem_roll three_world).1 = true ∧
  match RevertTargets mem_roll three_world with
  | (Ok ts, w') => Forall2 targets_entry ts
      (reverse (with_parents (top (take 1 three_es)) (drop 1 three_es)))
  | _ => True
  end.
Proof.
  split; [vm_compute; reflexivity|].
  pose proof (RevertTargets_spec (C := mem) mem_roll three_es (take 1 three_es) (drop 1 three_es)
    three_world three_hist) as Hs.
  destruct (RevertTargets _ _) as [[ts| | |] w']; [|done..].
  refine (proj2 (proj2 (Hs _ eq_refl _))).
  - intros e _ _. by eexists.
  - split; [by repeat constructor|done].
Defined.

Lemma Roll_Revert_spec_witness :
  is_ok (Roll_Revert mem_roll 10 (mkRevertOptions 0 "03_bc") three_world).1 = true ∧
  match Roll_Revert mem_roll 10 (mkRevertOptions 0 "03_bc") three_world with
  | (Ok ts, w') => ∃ low win, three_es = low ++ win ∧ hist (C := mem) mem_roll low w' ∧
      top low = Some "03_bc" ∧ RevertTarget_Name <$> ts = reverse (e_names win)
  | _ => True
  end.
Proof.
  split; [vm_compute; reflexivity|].
  pose proof (Roll_Revert_spec (C := mem) mem_roll 10 (mkRevertOptions 0 "03_bc") three_es
    three_world three_hist) as Hs.
  destruct (Roll_Revert _ _ _ _) as [[ts| | |] w']; [|done..].
  destruct Hs as (low & win & Hes & _ & Hw & Hn & Hb & _). exists low, win. split_and!; try done.
  by apply Hb.
Defined.
