(* ===== verification/RevertSealedFacts.v ===== *)
(** * RevertSealedFacts: an interrupted sealed revert is finished

    The history a sealed revert leaves before its pruning determines the
    boundary, and finishing it removes the segment and its inverses, with the
    tombstones in place first. *)

From S2P Require Import Prelude.
From S2P Require Import GoStd.
From S2P Require Import Names.
From S2P Require Import Schema.
From S2P Require Import Types.
From S2P Require Import Db.
From S2P Require Import WorldFacts.
From S2P Require Import Catalog.
From S2P Require Import OpsBase.
From S2P Require Import Operations.
From S2P Require Import Migration.
From S2P Require Import Invert.
From S2P Require Import LocalSet.
From S2P Require Import OpsJson.
From S2P Require Import History.
From S2P Require Import HistorySpec.
From S2P Require Import HistoryFacts.
From S2P Require Import HistoryRefine.
From S2P Require Import State.
From S2P Require Import Lifecycle.
From S2P Require Import LifecycleInv.
From S2P Require Import Rewrite.
From S2P Require Import Revert.
From S2P Require Import RevertSealed.
From S2P Require Import HistoryLogic.
From S2P Require Import RewriteFacts.
From S2P Require Import RebaselineFacts.
From S2P Require Import RevertFacts.
From S2P Require Import MemState.
From S2P Require Import Samples.

Section rows.
Context {J : Type} `{!Json J} `{!Codec}.
Implicit Types (e b : entry J) (es low fwd invs : list (entry J)) (migs : list Migration).

(** The row of an entry, and the migration both readings of it give *)
Definition row_reads e (raw : RawMigration) : Prop :=
  set_RawMigration_Name (e_name e) <$> json_UnmarshalRaw (e_body e) = Ok raw.
Definition reads e (mig : Migration) : Prop :=
  set_Migration_Name (e_name e) <$> json_Unmarshal (e_body e) = Ok mig ∧
  ∀ raw, row_reads e raw → ParseMigration raw = Ok mig.

(** What a row parses to, under the name of its entry *)
Definition parses (raw : RawMigration) (mig : Migration) : Prop :=
  ParseMigration raw = Ok mig ∧ RawMigration_Name raw = Migration_Name mig.

Lemma reads_name e mig : reads e mig → Migration_Name mig = e_name e.
Proof. intros [Hr _]. destruct (json_Unmarshal (e_body e)); try discriminate Hr. by injection Hr as <-. Qed.
Lemma row_reads_name e raw : row_reads e raw → RawMigration_Name raw = e_name e.
Proof.
  unfold row_reads. intros Hr. destruct (json_UnmarshalRaw (e_body e)); try discriminate Hr.
  by injection Hr as <-.
Qed.
Lemma rows_parse es raws migs :
  Forall2 row_reads es raws → Forall2 reads es migs → Forall2 parses raws migs.
Proof.
  intros Hr. revert migs. induction Hr as [|e raw es raws He _ IH]; intros migs Hm.
  { apply Forall2_nil_inv_l in Hm as ->. constructor. }
  apply Forall2_cons_inv_l in Hm as (mig & migs' & Hmig & Hm & ->). constructor; [|by apply IH].
  split; [by apply Hmig|]. by rewrite (reads_name _ _ Hmig), (row_reads_name _ _ He).
Qed.
Lemma reads_names es migs : Forall2 reads es migs → Migration_Name <$> migs = e_names es.
Proof. unfold e_names. induction 1 as [|e mig es migs Hr _ IH]; [done|]. cbn. by rewrite (reads_name _ _ Hr), IH. Qed.

Lemma parse_row_ok raw mig : parses raw mig → parse_row raw = Ok mig.
Proof. unfold parse_row. by intros [-> _]. Qed.

Lemma findBoundary_inverses raws migs : ∀ R l,
  Forall2 parses raws migs → Forall (λ m, Migration_RevertOf m ≠ "") migs →
  findBoundary R (raws ++ l) = findBoundary (list_to_set (reverse (Migration_RevertOf <$> migs)) ∪ R) l.
Proof.
  revert migs. induction raws as [|raw raws IH]; intros migs R l H2 Hm.
  { apply Forall2_nil_inv_l in H2 as ->. cbn [app fmap list_fmap]. f_equal. symmetry. apply (left_id_L ∅ (∪)). }
  apply Forall2_cons_inv_l in H2 as (mig & migs' & Hp & H2 & ->). apply Forall_cons in Hm as [Hmig Hm].
  cbn [app findBoundary]. rewrite (parse_row_ok _ _ Hp). cbn [mbind outcome_bind].
  rewrite decide_True by done. rewrite (IH migs' _ l H2 Hm). f_equal. apply set_eq. intros x. cbn [fmap list_fmap].
  rewrite !elem_of_union, !elem_of_list_to_set, !elem_of_reverse, elem_of_cons, elem_of_singleton. tauto.
Qed.
Lemma findBoundary_targets raws migs R l :
  Forall2 parses raws migs → Forall (λ m, Migration_RevertOf m = "" ∧ Migration_Name m ∈ R) migs →
  findBoundary R (raws ++ l) = findBoundary R l.
Proof.
  induction 1 as [|raw mig raws migs Hp _ IH]; intros Hm; [done|].
  apply Forall_cons in Hm as [[Hr Hn] Hm]. cbn [app findBoundary]. rewrite (parse_row_ok _ _ Hp).
  cbn [mbind outcome_bind]. rewrite decide_False by tauto. rewrite decide_True by done. by apply IH.
Qed.
Lemma inversesAbove_app to raws migs l :
  Forall2 parses raws migs → Forall (λ m, Migration_Name m ≠ to) migs →
  inversesAbove to (raws ++ l) =
    (rest ← inversesAbove to l; Ok (filter (λ m, Migration_RevertOf m ≠ "") migs ++ rest)).
Proof.
  induction 1 as [|raw mig raws migs Hp _ IH]; intros Hm; [cbn [app]; by destruct (inversesAbove to l)|].
  apply Forall_cons in Hm as [Hn Hm]. cbn [app inversesAbove].
  rewrite decide_False by (by destruct Hp as [_ ->]). rewrite (parse_row_ok _ _ Hp).
  cbn [mbind outcome_bind]. rewrite IH by done. rewrite filter_cons.
  destruct (inversesAbove to l); cbn; try done. by destruct (decide _).
Qed.
End rows.

(** ** The interrupted history *)

Section interrupted.
Context {J : Type} `{!Json J} `{!Codec}.
Implicit Types (e b : entry J) (es low fwd invs : list (entry J)).

(** Above the boundary [b], the segment [fwd] and, above it, the inverses of
    its migrations, newest first.  The boundary is a baseline or a migration
    that is not an inverse. *)
Record interrupted low b fwd invs (fmigs imigs : list Migration) : Prop := {
  int_fwd : Forall2 reads fwd fmigs;
  int_invs : Forall2 reads invs imigs;
  int_some : invs ≠ [];
  int_fmigs : Forall (λ m, Migration_RevertOf m = "") fmigs;
  int_imigs : Migration_RevertOf <$> imigs = reverse (e_names fwd);
  int_names : "" ∉ e_names (b :: fwd);
  int_types : Forall (λ e, e_type e ≠ MigrationTypeBaseline) (fwd ++ invs);
  int_boundary : e_type b = MigrationTypeBaseline ∨
    e_type b ≠ MigrationTypeBaseline ∧ ∃ mig, reads b mig ∧ Migration_RevertOf mig = "";
}.

Section facts.
Context (clock : nat → Z) (ticks : nat) (low : list (entry J)) (b : entry J).
Context (fwd invs : list (entry J)) (fmigs imigs : list Migration).
Context (Hi : interrupted low b fwd invs fmigs imigs).
Context (Hwf : history_wf clock ticks ((low ++ [b]) ++ fwd ++ invs)).

Lemma above_since : since_baseline ((low ++ [b]) ++ fwd ++ invs) =
  (if decide (e_type b = MigrationTypeBaseline) then [] else since_baseline low ++ [b]) ++ fwd ++ invs.
Proof.
  rewrite since_baseline_app by (apply Forall_forall, (int_types _ _ _ _ _ _ Hi)).
  by rewrite since_baseline_snoc.
Qed.
Lemma inverses_not_empty : Forall (λ m, Migration_RevertOf m ≠ "") imigs.
Proof.
  apply (proj1 (Forall_fmap Migration_RevertOf (λ n, n ≠ "") _)). rewrite (int_imigs _ _ _ _ _ _ Hi).
  apply Forall_forall. intros n Hn ->. rewrite elem_of_reverse in Hn.
  apply (int_names _ _ _ _ _ _ Hi). unfold e_names in *. rewrite fmap_cons, elem_of_cons. by right.
Qed.
Lemma targets_in : Forall (λ m, Migration_RevertOf m = "" ∧ Migration_Name m ∈ e_names fwd) fmigs.
Proof.
  apply Forall_and. split; [apply (int_fmigs _ _ _ _ _ _ Hi)|].
  apply (proj1 (Forall_fmap Migration_Name (λ n, n ∈ e_names fwd) _)).
  rewrite (reads_names _ _ (int_fwd _ _ _ _ _ _ Hi)). rewrite Forall_forall. auto.
Qed.
Lemma names_split : NoDup (e_names (low ++ [b]) ++ e_names fwd ++ e_names invs).
Proof. unfold e_names. rewrite <-!fmap_app. apply (wf_names _ _ _ Hwf). Qed.
Lemma boundary_fresh : e_name b ∉ e_names fwd ++ e_names invs.
Proof.
  pose proof names_split as [_ [Hd _]]%NoDup_app. apply Hd. unfold e_names.
  rewrite fmap_app. apply elem_of_app. right. left.
Qed.

(** The rows of the history, newest first, by their parts *)
Lemma rows_split raws :
  Forall2 row_reads (since_baseline ((low ++ [b]) ++ fwd ++ invs)) raws →
  ∃ ri rf rest, reverse raws = reverse ri ++ reverse rf ++ rest ∧
    Forall2 parses (reverse ri) (reverse imigs) ∧ Forall2 parses (reverse rf) (reverse fmigs) ∧
    (e_type b = MigrationTypeBaseline ∧ rest = [] ∨
     e_type b ≠ MigrationTypeBaseline ∧ ∃ raw mig rest', rest = raw :: rest' ∧ parses raw mig ∧
       Migration_Name mig = e_name b ∧ Migration_RevertOf mig = "").
Proof.
  rewrite above_since. intros H2. apply Forall2_app_inv_l in H2 as (rp & r & Hp & H2 & ->).
  apply Forall2_app_inv_l in H2 as (rf & ri & Hf & Hr & ->).
  exists ri, rf, (reverse rp). split_and!.
  - by rewrite !reverse_app, <-app_assoc.
  - apply Forall2_reverse. eapply rows_parse; [done|]. apply (int_invs _ _ _ _ _ _ Hi).
  - apply Forall2_reverse. eapply rows_parse; [done|]. apply (int_fwd _ _ _ _ _ _ Hi).
  - destruct (int_boundary _ _ _ _ _ _ Hi) as [Hb|[Hb (mig & Hm & He)]].
    + left. split; [done|]. rewrite decide_True in Hp by done. by apply Forall2_nil_inv_l in Hp as ->.
    + right. split; [done|]. rewrite decide_False in Hp by done.
      apply Forall2_app_inv_l in Hp as (r1 & r2 & _ & Hp & ->).
      apply Forall2_cons_inv_l in Hp as (raw & r2' & Hraw & Hp & ->).
      apply Forall2_nil_inv_l in Hp as ->. exists raw, mig, (reverse r1). split_and!; try done.
      * by rewrite reverse_app.
      * split; [by apply Hm|]. by rewrite (row_reads_name _ _ Hraw), (reads_name _ _ Hm).
      * by apply reads_name.
Qed.

Lemma findBoundary_spec raws :
  Forall2 row_reads (since_baseline ((low ++ [b]) ++ fwd ++ invs)) raws →
  findBoundary ∅ (reverse raws) =
    Ok (if decide (e_type b = MigrationTypeBaseline) then "" else e_name b).
Proof.
  intros (ri & rf & rest & -> & Hri & Hrf & Hrest)%rows_split.
  rewrite (findBoundary_inverses _ (reverse imigs)) by (done || apply Forall_reverse, inverses_not_empty).
  assert (∀ n, n ∈ list_to_set (C := gset string) (reverse (Migration_RevertOf <$> reverse imigs)) ∪ ∅ ↔
    n ∈ e_names fwd) as Hset.
  { intros n. rewrite fmap_reverse, reverse_involutive, (int_imigs _ _ _ _ _ _ Hi).
    rewrite elem_of_union, elem_of_list_to_set, elem_of_reverse.
    split; [by intros [?|?%elem_of_empty]|by left]. }
  rewrite (findBoundary_targets _ (reverse fmigs)); [|done|].
  2:{ apply Forall_reverse. eapply Forall_impl; [apply targets_in|]. intros mig [? Hn].
      split; [done|]. by apply Hset. }
  destruct Hrest as [[Hb ->]|[Hb (raw & mig & rest' & -> & Hp & Hn & He)]].
  - by rewrite decide_True.
  - rewrite decide_False by done. cbn [findBoundary]. rewrite (parse_row_ok _ _ Hp).
    cbn [mbind outcome_bind]. rewrite decide_False by tauto. rewrite decide_False; [by rewrite Hn|].
    rewrite Hset, Hn. intros Hin. apply boundary_fresh, elem_of_app. by left.
Qed.

Lemma inversesAbove_spec raws :
  Forall2 row_reads (since_baseline ((low ++ [b]) ++ fwd ++ invs)) raws →
  inversesAbove (e_name b) (reverse raws) = Ok (reverse imigs).
Proof.
  intros (ri & rf & rest & -> & Hri & Hrf & Hrest)%rows_split. pose proof boundary_fresh as Hfresh.
  rewrite elem_of_app in Hfresh.
  assert (inversesAbove (e_name b) rest = Ok []) as Hr.
  { destruct Hrest as [[_ ->]|[_ (raw & mig & rest' & -> & [_ Hp] & Hn & _)]]; [done|].
    cbn. by rewrite decide_True by (by rewrite Hp, Hn). }
  rewrite (inversesAbove_app _ _ (reverse imigs)), (inversesAbove_app _ _ (reverse fmigs)); try done.
  - rewrite Hr. cbn [mbind outcome_bind]. rewrite (proj2 (filter_nil_iff _ (reverse fmigs))).
    + rewrite !app_nil_r. f_equal. apply filter_all. intros mig Hm. rewrite elem_of_reverse in Hm.
      pose proof inverses_not_empty as Hne. rewrite Forall_forall in Hne. by apply Hne.
    + intros mig Hm Hne. rewrite elem_of_reverse in Hm. pose proof (int_fmigs _ _ _ _ _ _ Hi) as Hf.
      rewrite Forall_forall in Hf. by apply Hne, Hf.
  - apply Forall_reverse, (proj1 (Forall_fmap Migration_Name (λ n, n ≠ e_name b) _)).
    rewrite (reads_names _ _ (int_fwd _ _ _ _ _ _ Hi)). apply Forall_forall. intros n Hn ->. tauto.
  - apply Forall_reverse, (proj1 (Forall_fmap Migration_Name (λ n, n ≠ e_name b) _)).
    rewrite (reads_names _ _ (int_invs _ _ _ _ _ _ Hi)). apply Forall_forall. intros n Hn ->. tauto.
Qed.
End facts.
End interrupted.

(** ** Finishing *)

Lemma find_entry_in {J} (es : list (entry J)) e :
  NoDup (e_names es) → e ∈ es → find_entry (e_name e) es = Some e.
Proof.
  intros Hn He. unfold find_entry.
  destruct (filter (λ e', e_name e' = e_name e) es) as [|e' l] eqn:Hf.
  - exfalso. rewrite filter_nil_iff in Hf. by apply (Hf e).
  - assert (e' ∈ e' :: l) as Hin by left. rewrite <-Hf in Hin.
    apply list_elem_of_filter in Hin as [Hne He']. cbn. f_equal. by apply (names_inj_entry es).
Qed.

Section finish.
Context `{!Pq} {J C : Type} `{!Json J} `{!Catalogue C} `{!DB C} `{!Codec}.
Context (m : Roll (Store J C)).
Implicit Types (e b : entry J) (es low fwd invs : list (entry J)) (T : gmap string (gmap string string)).

(** The tombstones of the migrations are in [T]. *)
Definition buried T (migs : list Migration) : Prop :=
  ∀ mig, mig ∈ migs → ∃ h, ContentHash mig = Ok h ∧
    default ∅ (T !! Roll_schema m) !! Migration_Name mig = Some h.

Definition record_tombstones (ts : list Tombstone) T : gmap string (gmap string string) :=
  foldl (λ T t, <[Roll_schema m := <[Tombstone_Name t := Tombstone_ContentHash t]>
                                     (default ∅ (T !! Roll_schema m))]> T) T ts.

Lemma record_run ts : ∀ (st : Store J C),
  State_RecordRevertedMigrations ts (Roll_schema m) st =
    (Ok (), mkStore (st_db st) (st_migrations st) (record_tombstones ts (st_reverted st))
              (st_clock st) (st_ticks st)).
Proof.
  unfold State_RecordRevertedMigrations. induction ts as [|t ts IH]; intros st; [by destruct st|].
  cbn [for_each]. unfold mbind, prog_bind, set_tombstones at 1, modify. by rewrite IH.
Qed.
Lemma record_lookup ts : ∀ T n,
  default ∅ (record_tombstones ts T !! Roll_schema m) !! n =
    foldl (λ M t, <[Tombstone_Name t := Tombstone_ContentHash t]> M) (default ∅ (T !! Roll_schema m)) ts !! n.
Proof.
  induction ts as [|t ts IH]; intros T n; [done|]. cbn [record_tombstones foldl].
  unfold record_tombstones in IH. rewrite IH. by rewrite lookup_insert_eq.
Qed.
Lemma insert_all_fresh ts n : ∀ M : gmap string string,
  n ∉ Tombstone_Name <$> ts →
  foldl (λ M t, <[Tombstone_Name t := Tombstone_ContentHash t]> M) M ts !! n = M !! n.
Proof.
  induction ts as [|t ts IH]; intros M Hn; [done|]. rewrite fmap_cons, not_elem_of_cons in Hn.
  destruct Hn as [Hn Hts]. cbn [foldl]. rewrite IH by done. by rewrite lookup_insert_ne.
Qed.
Lemma record_buried ts migs T :
  NoDup (Migration_Name <$> migs) →
  Forall2 (λ mig t, Tombstone_Name t = Migration_Name mig ∧ ContentHash mig = Ok (Tombstone_ContentHash t))
    migs ts → buried (record_tombstones ts T) migs.
Proof.
  intros Hn H2 mig Hm. setoid_rewrite record_lookup. generalize (default ∅ (T !! Roll_schema m)) as M.
  revert Hn mig Hm. induction H2 as [|mig0 t migs ts [Ht Hh] H2 IH];
    intros Hn mig Hm M; [by apply elem_of_nil in Hm|].
  rewrite fmap_cons, NoDup_cons in Hn. destruct Hn as [Hfresh Hn]. cbn [foldl].
  apply elem_of_cons in Hm as [->|Hm]; [|by apply IH].
  exists (Tombstone_ContentHash t). split; [done|]. rewrite insert_all_fresh, Ht.
  - by rewrite lookup_insert_eq.
  - replace (Tombstone_Name <$> ts) with (Migration_Name <$> migs); [done|].
    clear -H2. induction H2 as [|mig1 t1 migs ts [Ht _] _ IH]; [done|]. by rewrite !fmap_cons, Ht, IH.
Qed.

Lemma decode_reads wrap e mig : reads e mig → decode wrap e = Ok mig.
Proof. unfold decode. intros [Hr _]. by destruct (json_Unmarshal (e_body e)). Qed.

(** [GetMigration] of an entry *)
Lemma leads_GetMigration T es e mig S (Q : Migration → Prop) :
  NoDup (e_names es) → e ∈ es → reads e mig → Q mig → (∀ w, hist_with m T es w → S w) →
  leads S (hist_with m T es) (from_state m (state_GetMigration (e_name e)))
    (λ a w, hist_with m T es w ∧ Q a).
Proof.
  intros Hn He Hr HQ HS. apply (leads_read_with m (CGetMigration (e_name e)) T es S Q); [done| |done|].
  - intros rs now. cbn. rewrite get_bind. by destruct (find_entry _ _).
  - intros rs now a. cbn [run_spec]. rewrite get_bind, (find_entry_in es e Hn He). cbn.
    rewrite (decode_reads _ _ _ Hr). by intros [= <-].
Qed.

Lemma leads_tombstoneOf T es e mig :
  NoDup (e_names es) → e ∈ es → reads e mig →
  leads (hist_with m T es) (hist_with m T es) (tombstoneOf m (e_name e))
    (λ t w, hist_with m T es w ∧ Tombstone_Name t = e_name e ∧ ContentHash mig = Ok (Tombstone_ContentHash t)).
Proof.
  intros Hn He Hr. unfold tombstoneOf.
  eapply (leads_bind_read _ _ _ _ (λ a, a = mig)).
  { apply leads_wrap_err. by apply (leads_GetMigration T es e mig). }
  intros ? ->. eapply (leads_bind_read _ _ _ _ (λ h, ContentHash mig = Ok h)).
  { intros w Hw. unfold lift. by destruct (ContentHash mig). }
  intros h Hh. apply leads_ret. by intros w Hw.
Qed.

(** The segment is gone, its tombstones are there. *)
Definition finished low (fmigs : list Migration) (w : World (Store J C)) : Prop :=
  ∃ T, hist_with m T low w ∧ buried T fmigs.
(** Before the pruning nothing of the history has changed. *)
Definition unfinished es (w : World (Store J C)) : Prop := ∃ T, hist_with m T es w.

Lemma prune_segment low fwd invs (ns : list string) :
  NoDup (e_names (low ++ fwd ++ invs)) → ns ≡ₚ e_names (fwd ++ invs) →
  filter (λ e, e_name e ∈ ns) (low ++ fwd ++ invs) = fwd ++ invs ∧
  filter (λ e, e_name e ∉ ns) (low ++ fwd ++ invs) = low.
Proof.
  intros Hn Hns. unfold e_names in Hn. rewrite fmap_app in Hn. apply NoDup_app in Hn as (_ & Hd & _).
  assert (∀ e, e ∈ low → e_name e ∉ ns) as Hlow.
  { intros e He. rewrite Hns. by apply Hd, list_elem_of_fmap_2. }
  assert (∀ e, e ∈ fwd ++ invs → e_name e ∈ ns) as Hup.
  { intros e He. rewrite Hns. by apply list_elem_of_fmap_2. }
  rewrite !(filter_app _ low). split.
  - rewrite (proj2 (filter_nil_iff _ low)), (filter_all _ (fwd ++ invs)); [done|apply Hup|apply Hlow].
  - rewrite (filter_all _ low), (proj2 (filter_nil_iff _ (fwd ++ invs))); [by rewrite app_nil_r| |apply Hlow].
    intros e He Hne. by apply Hne, Hup.
Qed.

Lemma leads_tombstones T es fwd fmigs :
  NoDup (e_names es) → (∀ e, e ∈ fwd → e ∈ es) → NoDup (Migration_Name <$> fmigs) →
  Forall2 reads fwd fmigs →
  leads (hist_with m T es) (hist_with m T es) (map_each (tombstoneOf m) (e_names fwd))
    (λ ts w, hist_with m T es w ∧ Forall2 (λ mig t, Tombstone_Name t = Migration_Name mig ∧
       ContentHash mig = Ok (Tombstone_ContentHash t)) fmigs ts).
Proof.
  intros Hn Hin Hnf Hr. eapply leads_weaken; [|intros w Hw; exact Hw|].
  - apply (leads_map_each _ _ _ (λ n t, ∃ mig, mig ∈ fmigs ∧ Migration_Name mig = n ∧
      Tombstone_Name t = n ∧ ContentHash mig = Ok (Tombstone_ContentHash t))).
    intros n (e & -> & He)%list_elem_of_fmap. pose proof (Hin e He) as Hes.
    apply list_elem_of_lookup in He as [i Hi].
    destruct (Forall2_lookup_l _ _ _ _ _ Hr Hi) as (mig & Hm & Hmig).
    eapply leads_weaken; [apply (leads_tombstoneOf T es e mig Hn Hes Hmig)|done|].
    intros t w (Hw & Hnt & Hh). split; [done|]. exists mig. split_and!; try done.
    + by apply list_elem_of_lookup_2 in Hm.
    + by apply reads_name.
  - intros ts w [Hw H2]. split; [done|]. revert H2. rewrite <-(reads_names _ _ Hr). clear -Hnf.
    intros H2. apply Forall2_fmap_l in H2. apply Forall2_same_length_lookup.
    split; [by eapply Forall2_length|]. intros i mig t Hi Ht.
    destruct (Forall2_lookup_lr _ _ _ _ _ _ H2 Hi Ht) as (mig' & Hin & Heq & Hnt & Hh).
    apply list_elem_of_lookup in Hin as [j Hj].
    assert (i = j) as ->.
    { eapply NoDup_lookup; [exact Hnf|by rewrite list_lookup_fmap, Hi|].
      by rewrite list_lookup_fmap, Hj; cbn; rewrite Heq. }
    rewrite Hj in Hi. by injection Hi as <-.
Qed.

Lemma leads_pruneSealedRevert T low fwd invs (ts : list (entry J)) fmigs plan :
  NoDup (e_names (low ++ fwd ++ invs)) → fwd ++ invs ≠ [] → ts ≡ₚ fwd → Forall2 reads ts fmigs →
  Plan_Targets plan = e_names ts → (Migration_Name <$> Plan_Inverses plan) ≡ₚ e_names invs →
  leads (λ w, unfinished (low ++ fwd ++ invs) w ∨ finished low fmigs w)
    (hist_with m T (low ++ fwd ++ invs)) (pruneSealedRevert m plan) (λ _, finished low fmigs).
Proof.
  intros Hn Hne Hts Hr Ht Hinv. unfold pruneSealedRevert. rewrite Ht.
  set (es := low ++ fwd ++ invs) in *.
  assert (NoDup (Migration_Name <$> fmigs)) as Hnf.
  { rewrite (reads_names _ _ Hr). unfold es, e_names in Hn. rewrite !fmap_app in Hn.
    apply NoDup_app in Hn as (_ & _ & Hn). apply NoDup_app in Hn as (Hn & _ & _). unfold e_names. by rewrite Hts. }
  eapply leads_bind_read.
  { eapply leads_outside; [apply (leads_tombstones T es ts fmigs)|]; try done.
    - intros e He. rewrite Hts in He. apply elem_of_app. right. apply elem_of_app. by left.
    - intros w Hw. left. by exists T. }
  intros stones Hstones. eapply (leads_bind _ _ _ _ (λ _ w, ∃ T', hist_with m T' es w ∧ buried T' fmigs)).
  { intros w [Hw HT]. unfold from_state, on_state. cbn. rewrite record_run. cbn.
    exists (record_tombstones stones (st_reverted (w_db w))). split; [by split|]. by apply record_buried. }
  intros [] w0 (T' & Hw0 & Hb). revert w0 Hw0.
  change (leads (λ w, unfinished es w ∨ finished low fmigs w) (hist_with m T' es)
    (wrap_err (ErrorfW "unable to prune reverted history: %w" [])
      (from_state m (state_Prune (e_names ts ++ (Migration_Name <$> Plan_Inverses plan)))) ;;
     wrap_err (ErrorfW "unable to materialize the boundary's version schema: %w" [])
      (ensureLeafVersionSchema m)) (λ _, finished low fmigs)).
  eapply (leads_bind _ _ _ _ (λ _, hist_with m T' low)).
  - set (ns := e_names ts ++ (Migration_Name <$> Plan_Inverses plan)).
    assert (ns ≡ₚ e_names (fwd ++ invs)) as Hns.
    { unfold ns. rewrite Hinv. unfold e_names. by rewrite fmap_app, Hts. }
    destruct (prune_segment low fwd invs ns Hn Hns) as [Hin Hout].
    apply leads_wrap_err, (leads_call_with m (CPrune ns)); [done|]. intros rs now w.
    cbn [run_spec]. rewrite get_bind. rewrite decide_False.
    2:{ intros ->. apply Permutation_nil_l in Hns. symmetry in Hns. unfold e_names in Hns.
        by apply fmap_nil_inv in Hns. }
    fold es in Hin, Hout. rewrite Hin.
    assert (length (fwd ++ invs) = length ns) as Hlen.
    { rewrite Hns. unfold e_names. by rewrite length_fmap. }
    rewrite Hlen, Nat.eqb_refl. unfold fail_if, modify, mbind, prog_bind, mret, prog_ret.
    cbn [negb]. rewrite Hout. done.
  - intros []. eapply leads_weaken; [eapply leads_outside; [apply leads_pres|]|intros w Hw; exact Hw|].
    + apply pres_wrap_err, pres_ensureLeafVersionSchema, hist_with_read.
    + intros w Hw. exact Hw.
    + intros w Hw. right. by exists T'.
    + intros [] w Hw. by exists T'.
Qed.

Section finishing.
Context (low : list (entry J)) (b : entry J) (fwd invs : list (entry J)) (fmigs imigs : list Migration).
Context (Hi : interrupted low b fwd invs fmigs imigs).
Notation below := (low ++ [b]).
Notation es := (below ++ fwd ++ invs).
Context (Hn : NoDup (e_names es)) (clock : nat → Z) (ticks : nat) (Hwf : history_wf clock ticks es).
Notation reached := (λ w, unfinished es w ∨ finished below fmigs w).

Lemma still T w : hist_with m T es w → reached w.
Proof. intros Hw. left. by exists T. Qed.

Lemma leads_inverseLeaf T :
  leads reached (hist_with m T es) (inverseLeaf m) (λ leaf w, hist_with m T es w ∧ leaf ≠ None).
Proof.
  pose proof (int_invs _ _ _ _ _ _ Hi) as Hr. pose proof (int_some _ _ _ _ _ _ Hi) as Hne.
  destruct (exists_last Hne) as (invs' & e & Hlast).
  rewrite Hlast in Hr. apply Forall2_app_inv_l in Hr as (im & im' & _ & Hr & Him).
  apply Forall2_cons_inv_l in Hr as (mig & ? & Hmig & _ & ->).
  assert (Migration_RevertOf mig ≠ "") as Hinv.
  { pose proof (inverses_not_empty _ _ _ _ _ _ Hi) as Ha. rewrite Him in Ha.
    apply Forall_app in Ha as [_ Ha]. by apply Forall_cons in Ha as [? _]. }
  unfold inverseLeaf. eapply (leads_bind_read _ _ _ _ (λ l, l = Some (e_name e))).
  { apply (leads_read_with m CLatestMigration T); try done; [apply still|].
    intros rs now a [= <-]. by rewrite Hlast, !app_assoc, top_snoc. }
  intros ? ->. eapply (leads_bind_read _ _ _ _ (λ a, Migration_RevertOf a ≠ "")).
  { apply (leads_GetMigration T _ e mig); try done; [|apply still].
    rewrite Hlast, !app_assoc. apply elem_of_app. right. left. }
  intros leaf Hleaf. apply leads_ret. intros w Hw. by rewrite decide_False.
Qed.

(** The rows the loops walk *)
Lemma leads_rows T :
  leads reached (hist_with m T es) (from_state m state_SchemaHistoryWithInferred)
    (λ raws w, hist_with m T es w ∧ Forall2 row_reads (since_baseline es) raws).
Proof.
  apply (leads_read_with m (CSchemaHistory false) T); try done; [apply still|].
  intros rs now a Ha. cbn [run_spec] in Ha. rewrite get_bind in Ha. unfold lift in Ha. cbn [fst] in Ha.
  rewrite (filter_all (not_excluded false)) in Ha by done. by apply map_outcome_ok in Ha.
Qed.

Definition finished_plan (p : option SealedRevertPlan) : Prop :=
  ∃ plan, p = Some plan ∧ Plan_Boundary plan = e_name b ∧ Plan_Targets plan = e_names fwd ∧
    Plan_Inverses plan = reverse imigs.

Lemma leads_finishSealedRevert T :
  leads reached (hist_with m T es) (finishSealedRevert m (e_name b))
    (λ p w, finished_plan p ∧ finished below fmigs w).
Proof.
  unfold finishSealedRevert. eapply leads_bind_read; [apply leads_inverseLeaf|].
  intros [leaf|] Hleaf; [|done]. eapply leads_bind_read; [apply leads_rows|]. intros raws Hraws.
  eapply (leads_bind_read _ _ _ _ (λ l, l = reverse imigs)).
  { intros w Hw. unfold lift. by rewrite (inversesAbove_spec _ _ _ _ _ _ _ _ Hi Hwf raws Hraws). }
  intros ? ->. assert (imigs ≠ []) as Hne.
  { intros Him. pose proof (int_invs _ _ _ _ _ _ Hi) as Hr. rewrite Him in Hr.
    apply Forall2_nil_inv_r in Hr. by apply (int_some _ _ _ _ _ _ Hi). }
  rewrite decide_False by (intros Hr; apply Hne, (inj reverse); by rewrite Hr).
  eapply leads_bind.
  { apply leads_pres; [apply pres_try, (pres_read_with m (CGetMigration (e_name b)))|apply still]; [done|].
    intros rs now. cbn. rewrite get_bind. by destruct (find_entry _ _). }
  intros boundary. cbn beta. set (plan := mkSealedRevertPlan _ _ _ _).
  assert (Plan_Targets plan = e_names fwd) as Ht.
  { cbn. by rewrite fmap_reverse, (int_imigs _ _ _ _ _ _ Hi), reverse_involutive. }
  eapply leads_bind.
  { apply (leads_pruneSealedRevert T below fwd invs fwd fmigs plan); try done.
    - intros [_ Hinv]%app_nil. by apply (int_some _ _ _ _ _ _ Hi).
    - apply (int_fwd _ _ _ _ _ _ Hi).
    - cbn. by rewrite fmap_reverse, reverse_Permutation, (reads_names _ _ (int_invs _ _ _ _ _ _ Hi)). }
  intros []. apply leads_ret. intros w Hw. split; [|done]. by exists plan.
Qed.

Lemma leads_FinishPending T :
  leads reached (hist_with m T es) (FinishPendingSealedRevert m)
    (λ p w, finished_plan p ∧ finished below fmigs w).
Proof.
  unfold FinishPendingSealedRevert. eapply leads_bind_read; [apply leads_inverseLeaf|].
  intros [leaf|] Hleaf; [|done]. eapply leads_bind_read; [apply leads_rows|]. intros raws Hraws.
  eapply (leads_bind_read _ _ _ _ (λ n, n = if decide (e_type b = MigrationTypeBaseline) then "" else e_name b)).
  { intros w Hw. unfold lift. by rewrite (findBoundary_spec _ _ _ _ _ _ _ _ Hi Hwf raws Hraws). }
  intros ? ->. eapply (leads_bind_read _ _ _ _ (λ n, n = e_name b)); [|intros ? ->; apply leads_finishSealedRevert].
  assert (e_name b ≠ "") as Hb.
  { intros He. apply (int_names _ _ _ _ _ _ Hi). unfold e_names. rewrite fmap_cons, He. left. }
  destruct (decide (e_type b = MigrationTypeBaseline)) as [Hbase|Hbase].
  2:{ rewrite decide_False by done. by apply leads_ret. }
  rewrite decide_True by done.
  eapply (leads_bind_read _ _ _ _ (λ o, fst <$> o = Some (e_name b))).
  { apply (leads_read_with m CLatestBaseline T); try done; [apply still|].
    intros rs now a. cbn [run_spec]. intros [= <-].
    rewrite (filter_app _ below), (proj2 (filter_nil_iff _ (fwd ++ invs))), app_nil_r.
    - rewrite filter_app, filter_cons, decide_True, filter_nil by done. by rewrite last_snoc.
    - apply Forall_forall, (int_types _ _ _ _ _ _ Hi). }
  intros [o|] Ho; [|done]. injection Ho as Ho. by apply leads_ret.
Qed.
End finishing.

(** [Roll.FinishPendingSealedRevert] finishes the sealed revert that was
    interrupted: of the history it leaves (the boundary, the segment, the
    inverses of the segment newest first) it recovers the boundary, the
    targets and the inverses, and on success nothing is left above the
    boundary.  The tombstones come first: whatever fails, either the history is untouched
    or it has been pruned and every migration of the segment has a tombstone
    with the hash of its content. *)
Lemma FinishPendingSealedRevert_spec T low b fwd invs fmigs imigs w :
  interrupted low b fwd invs fmigs imigs →
  hist_with m T ((low ++ [b]) ++ fwd ++ invs) w →
  match FinishPendingSealedRevert m w with
  | (Ok p, w') => finished_plan b fwd imigs p ∧ finished (low ++ [b]) fmigs w'
  | (_, w') => unfinished ((low ++ [b]) ++ fwd ++ invs) w' ∨ finished (low ++ [b]) fmigs w'
  end.
Proof.
  intros Hi Hw. pose proof Hw as [[_ [_ Hwf]] _].
  apply (leads_FinishPending low b fwd invs fmigs imigs Hi (wf_names _ _ _ Hwf) _ _ Hwf T w Hw).
Qed.
End finish.

(** ** A concrete deployment: one migration and its inverse above the boundary *)

Definition known_migrations : list Migration :=
  [rename_migration "02_ab" "a" "b"; rename_migration "03_bc" "b" "c";
   mkMigration "03_bc_revert" "" [RenameColumn_ (mkOpRenameColumn "c" "users" "b")] [] [] false false []
     "03_bc"].
(** The encoded operations of a migration are its name. *)
Definition known_operations (migs : list Migration) (text : string) : option (list Operation) :=
  Migration_Operations <$> List.find (λ mig, String.eqb (Migration_Name mig) text) migs.
Definition known_json (migs : list Migration) : OperationJson := {|
  json_syntax _ := None;
  json_objects text := (λ ops : list Operation, (λ op, {[OperationName op := text]}) <$> ops) <$> known_operations migs text;
  json_decode op text := default (Err (Errorf "unknown %q" [text]))
    (Ok <$> (known_operations migs text ≫= List.find (λ op', String.eqb (OperationName op') (OperationName op))));
  json_encode _ := Ok "{}";
|}.
Definition codec_of (migs : list Migration) : Codec := {|
  codec_json := known_json migs;
  MarshalRaw _ := Ok ();
  MarshalSchema _ := Ok "{}";
  sha256_json mig := Ok (String.append "sha256 " (Migration_Name mig));
|}.
#[local] Instance known_codec : Codec := codec_of known_migrations.
Definition undone_migs : list (Migration * status) := (λ mig, (mig, Sealed)) <$> known_migrations.
Definition undone_es : list (entry Migration) := mem_entries 0 undone_migs.
Definition undone_mem : mem :=
  mkMem (mkPgCatalog {["users"]} {[("users", "id"); ("users", "b")]} ∅ ∅)
    ["public_03_bc_revert"] mem_users.
Definition undone_world : World mem_store := mkWorld New ∅ (mem_of undone_mem undone_migs) 0.

Lemma undone_hist : hist_with (C := mem) mem_roll ∅ undone_es undone_world.
Proof.
  split; [|done]. split; [intros i j; cbn; lia|]. split; [reflexivity|].
  apply (mem_entries_wf undone_migs); [decide_goal|].
  intros [|x1 [|x2 [|x3 [|x4 pre]]]] x post Heq; by simplify_eq/=.
Qed.
Definition undone_entry (i : nat) : entry Migration :=
  nth i undone_es (mkEntry "" (rename_migration "" "" "") 0 None "" Active).
Lemma undone_interrupted :
  interrupted [] (undone_entry 0) [undone_entry 1] [undone_entry 2]
    [nth 1 known_migrations (rename_migration "" "" "")]
    [nth 2 known_migrations (rename_migration "" "" "")].
Proof.
  assert (∀ i, (i < 3)%nat → reads (undone_entry i) (nth i known_migrations (rename_migration "" "" ""))) as Hr.
  { intros [|[|[|i]]] Hi; try lia; (split; [reflexivity|]); intros raw [= <-]; reflexivity. }
  split; try done.
  - constructor; [by apply Hr; lia|done].
  - constructor; [by apply Hr; lia|done].
  - by repeat constructor.
  - decide_goal.
  - by repeat constructor.
  - right. split; [done|]. eexists. split; [apply (Hr 0); lia|done].
Qed.

Lemma FinishPendingSealedRevert_spec_witness :
  is_ok (FinishPendingSealedRevert mem_roll undone_world).1 = true ∧
  match FinishPendingSealedRevert mem_roll undone_world with
  | (Ok (Some plan), w') => Plan_Boundary plan = "02_ab" ∧ Plan_Targets plan = ["03_bc"] ∧
      finished mem_roll [undone_entry 0] [rename_migration "03_bc" "b" "c"] w'
  | _ => True
  end.
Proof.
  split; [vm_compute; reflexivity|].
  pose proof (FinishPendingSealedRevert_spec (C := mem) mem_roll ∅ [] (undone_entry 0) [undone_entry 1]
    [undone_entry 2] _ _ undone_world undone_interrupted undone_hist) as Hs.
  destruct (FinishPendingSealedRevert _ _) as [[[plan|]| | |] w']; try done.
  destruct Hs as [(plan' & [= <-] & Hb & Ht & _) Hf]. by split_and!.
Defined.

(** Resuming with another bound: the plan that is returned names the bound
    given, here a migration that does not exist, while the history ends at
    the boundary of the interrupted run. *)
Lemma finish_reports_any_boundary :
  match finishSealedRevert mem_roll "99_missing" undone_world with
  | (Ok (Some plan), w') => Plan_Boundary plan = "99_missing" ∧
      (row_name <$> table "public" (w_db w')) = ["02_ab"]
  | _ => False
  end.
Proof. vm_compute. by split. Qed.
