(* ===== verification/PlanFacts.v ===== *)
(** * PlanFacts: a plan is a truthful preview

    [Plan] reads only, its forward leg without [--to] is what
    [ResolveMigrations] would apply, and a previewed revert is the one that is
    run. *)

From S2P Require Import Prelude.
From S2P Require Import GoStd.
From S2P Require Import Schema.
From S2P Require Import Types.
From S2P Require Import ErrorText.
From S2P Require Import Db.
From S2P Require Import WorldFacts.
From S2P Require Import Catalog.
From S2P Require Import Operations.
From S2P Require Import Migration.
From S2P Require Import Invert.
From S2P Require Import LocalSet.
From S2P Require Import OpsJson.
From S2P Require Import Deps.
From S2P Require Import DepsFacts.
From S2P Require Import ResolveFacts.
From S2P Require Import History.
From S2P Require Import HistorySpec.
From S2P Require Import HistoryFacts.
From S2P Require Import HistoryRefine.
From S2P Require Import State.
From S2P Require Import Lifecycle.
From S2P Require Import LifecycleInv.
From S2P Require Import Rewrite.
From S2P Require Import Revert.
From S2P Require Import RevertSealed.
From S2P Require Import Plan.
From S2P Require Import HistoryLogic.
From S2P Require Import ReadOnly.
From S2P Require Import RewriteFacts.
From S2P Require Import RebaselineFacts.
From S2P Require Import RevertFacts.
From S2P Require Import MemState.
From S2P Require Import Samples.

Section plan.
Context `{!Pq} {J C : Type} `{!Json J} `{!Catalogue C} `{!DB C} `{!Codec} `{!PqText}.
Context (m : Roll (Store J C)).
Implicit Types (es : list (entry J)).

#[local] Instance hist_readonly es : ReadOnly m (hist m es).
Proof. apply store_readonly; [apply _|apply inv_query]. Qed.
Hint Resolve hist_readonly : pgroll.

(** ** The forward leg *)

(** What resolution would apply, whatever order the two took their readings in *)
Definition forward `{!Dir} es (apply : list string) : Prop :=
  ∀ r, ResolveMigrations (visible es) (baseline_of es) (Roll_target m) = Ok r →
    apply = names r.(Resolution_Apply).

Lemma inSync_applied d l apply revert blocked st targeted :
  inSync d l apply revert blocked st targeted = true →
  apply = 0 ∧ revert = 0 ∧ blocked = 0 ∧ (targeted = false → d = l).
Proof.
  unfold inSync. destruct st; try done.
  destruct apply, revert, blocked; cbn; try done. destruct targeted; [done|].
  destruct d as [d|], l as [l|]; try done. intros ->%String.eqb_eq. done.
Qed.

(** What a plan says of a directory and a history *)
Definition planned `{!Dir} es (o_to : string) (res : PlanResult) : Prop :=
  Plan_DBLatest res = top es ∧
  if decide (o_to = "") then
    forward es (Apply_Migrations (Plan_Apply res)) ∧
    (Plan_InSync res = true → Apply_Migrations (Plan_Apply res) = [] ∧
       Revert_Count (Plan_Revert res) = 0 ∧ Blocked_Count (Plan_Blocked res) = 0 ∧
       (Roll_target m = "" → Plan_LocalLatest res = top es))
  else
    (o_to ∈ visible es ∨ baseline_of es = Some o_to) ∧
    Apply_Migrations (Plan_Apply res) = [] ∧
    (Plan_InSync res = true → Revert_Count (Plan_Revert res) = 0 ∧ Blocked_Count (Plan_Blocked res) = 0).

Lemma leads_Plan `{!Dir} es o_to :
  leads (hist m es) (hist m es) (Plan m o_to) (λ res w, hist m es w ∧ planned es o_to res).
Proof.
  unfold Plan. eapply leads_bind; [apply leads_pres; [apply pres_wrap_err, ro_Roll_Status, _|done]|].
  intros status. cbn beta. eapply (leads_bind_read _ _ _ _ (λ latest, latest = top es)).
  { apply leads_wrap_err, (leads_read m CLatestMigration es); try done.
    intros rs now w a [= <-] Hw. by split. }
  intros ? ->. eapply (leads_bind_read _ _ _ _ (λ raws, names raws = visible es)).
  { apply leads_wrap_err, (leads_read m (CSchemaHistory true) es); try done.
    intros rs now w a Ha Hw. split; [done|]. cbn [run_spec] in Ha. rewrite get_bind in Ha.
    by apply decoded_names in Ha as [-> _]. }
  intros history Hh. eapply (leads_bind_read _ _ _ _ (λ b, fst <$> b = baseline_of es)).
  { apply leads_wrap_err, (leads_read m CLatestBaseline es); try done.
    intros rs now w a [= <-] Hw. split; [done|]. unfold baseline_of. by destruct (last _). }
  intros baseline Hb. cbv zeta. rewrite Hh, Hb.
  eapply (leads_bind_read _ _ _ _ (λ local,
    resolveLocalSet (default "" (baseline_of es)) (list_to_set (visible es)) (Roll_target m) = Ok local)).
  { intros w Hw. unfold wrap_err, lift. by destruct (resolveLocalSet _ _ _). }
  intros local Hlocal. unfold planned. destruct (decide (o_to = "")) as [->|Hto].
  - rewrite decide_False by tauto.
    eapply (leads_bind_read _ _ _ _ (λ sorted, TopoSortMigrations
      (filter (λ raw, RawMigration_Name raw ∉ (list_to_set (visible es) : gset string)) local.(Selected))
      (list_to_set (visible es)) local.(Excluded) = Ok sorted)).
    { intros w Hw. unfold wrap_err, lift. by destruct (TopoSortMigrations _ _ _). }
    intros sorted Hsorted. destruct (convergence _ _) as [shared suffix].
    eapply leads_bind; [apply leads_pres; [apply ro_convergeLeg, _|done]|].
    intros [revert blocked]. apply leads_ret. intros w Hw. split; [done|]. split; [done|].
    cbn [Plan_Apply Apply_Migrations Plan_InSync Plan_Revert Plan_Blocked Plan_LocalLatest]. split.
    + intros r Hr. unfold ResolveMigrations in Hr. rewrite Hlocal in Hr. cbn [mbind outcome_bind] in Hr.
      destruct (head _); [done|]. rewrite Hsorted in Hr. by injection Hr as <-.
    + intros (Ha & Hrev & Hbl & Hd)%inSync_applied. split_and!; [by apply length_zero_iff_nil in Ha|done..|].
      intros Ht. symmetry. apply Hd. by rewrite Ht.
  - rewrite decide_True by done.
    eapply (leads_bind_read _ _ _ _ (λ _, o_to ∈ visible es ∨ baseline_of es = Some o_to)).
    { intros w Hw. unfold fail_if. case_bool_decide as Hin; cbn [andb].
      2:{ split; [done|]. left. by apply elem_of_list_to_set in Hin. }
      destruct (String.eqb_spec o_to (default "" (baseline_of es))) as [Heq|]; [|done]. split; [done|].
      right. destruct (baseline_of es); by simplify_eq/=. }
    intros _ Hin. eapply leads_bind; [apply leads_pres; [apply ro_fillRevertLeg, _|done]|].
    intros leg. apply leads_ret. intros w Hw. split_and!; [done..|].
    cbn [Plan_InSync Plan_Revert Plan_Blocked]. by intros (_ & ? & ? & _)%inSync_applied.
Qed.


(** ** The revert leg *)

Lemma windowView_spec plan boundary w view w' :
  windowView m plan boundary w = (Ok view, w') →
  Revert_Migrations view = RevertTarget_Name <$> plan ∧
  ∀ n, Revert_To view = Some n →
    n = match boundary with Some b => b | None => default "" (t ← last plan; RevertTarget_Parent t) end ∧
    n ≠ "".
Proof.
  unfold windowView, mbind at 1, prog_bind at 1. destruct (decide _) as [|Hne]; cbn; [by intros [= <- _]|].
  unfold mbind at 1, prog_bind at 1.
  destruct (wrap_err _ _ w) as [[mig|e| |] w1]; try done. intros [= <- _]. split; [done|].
  by intros n [= <-].
Qed.

(** When the revert has a plan, the preview shows it. *)
Lemma PreviewRevert_plan o w view w' plan w1 :
  PreviewRevert m o w = (Ok view, w') → RevertPlan m o w = (Ok plan, w1) →
  Revert_Migrations view = RevertTarget_Name <$> plan ∧
  ∀ n, Revert_To view = Some n →
    n = (if decide (ro_to o = "") then default "" (t ← last plan; RevertTarget_Parent t) else ro_to o) ∧
    n ≠ "".
Proof.
  intros Hv Hp. unfold PreviewRevert in Hv. destruct (decide (ro_to o = "")) as [Hto|Hto].
  - unfold mbind at 1, prog_bind at 1 in Hv. rewrite Hp in Hv. by apply windowView_spec in Hv.
  - unfold previewRevertTo, mbind at 1, prog_bind at 1, try in Hv.
    assert (RevertPlan m (mkRevertOptions 0 (ro_to o)) w = (Ok plan, w1)) as Hp0.
    { destruct o as [steps to]. cbn in *. unfold RevertPlan in Hp |- *. cbn [ro_steps ro_to] in *.
      destruct (Z.ltb_spec 0 steps) as [|Hs].
      { rewrite (bool_decide_eq_false_2 (to = "")) in Hp by done. discriminate Hp. }
      destruct (Z.ltb_spec steps 0); [discriminate Hp|]. by assert (steps = 0%Z) as -> by lia. }
    rewrite Hp0 in Hv. by apply windowView_spec in Hv.
Qed.

(** The names the window shows *)
Lemma window_names es plan low win :
  window_of es plan low win → RevertTarget_Name <$> plan = reverse (e_names win).
Proof.
  intros (_ & _ & H2). rewrite (targets_names _ _ H2), fmap_reverse, with_parents_snd. unfold e_names.
  by rewrite fmap_reverse.
Qed.

End plan.

(** ** A concrete deployment and its directory *)

#[local] Instance plain_pq : PqText := λ _ message, message.
Definition plan_codec : Codec := {|
  codec_json := no_operations_json;
  MarshalRaw _ := Ok ();
  MarshalSchema _ := Ok "{}";
  sha256_json mig := Ok mig.(Migration_Name);
|}.
#[local] Existing Instance plan_codec.
Definition plan_dir (files : list string) : Dir := {|
  dir_entries := files;
  dir_decode _ := Ok (mkRawMigration "" "" "[{}]" [] [] false false None "");
|}.
#[local] Instance sample_dir : Dir :=
  plan_dir ["02_ab.json"; "03_bc.json"; "04_cd.json"; "05_de.json"; "06_ef.json"].



(** With an explicit target the forward leg is not computed: the plan reports
    a database in sync although a migration older than the shared leaf is
    still to be applied. *)
Definition synced_world : World mem_store :=
  mkWorld New ∅ (mem_of mem_db [(rename_migration "03_bc" "b" "c", Sealed)]) 0.
Lemma plan_to_ignores_unapplied :
  let _ := plan_dir ["02_ab.json"; "03_bc.json"] in
  (match (Plan mem_roll "03_bc" synced_world).1 with
   | Ok res => Plan_InSync res = true | _ => False end) ∧
  (match (Plan mem_roll "" synced_world).1 with
   | Ok res => Plan_InSync res = false ∧ Apply_Migrations (Plan_Apply res) = ["02_ab"] | _ => False end).
Proof. by vm_compute. Qed.
