(* ===== verification/MigrateFacts.v ===== *)
(** * MigrateFacts: what [pgroll migrate] leaves in the history

    Whatever the statements of the database do, a run adds a prefix of the
    bounded train to the history, in its order; a run that succeeds adds all
    of it. *)

From S2P Require Import Prelude.
From S2P Require Import GoStd.
From S2P Require Import Names.
From S2P Require Import Schema.
From S2P Require Import Types.
From S2P Require Import Db.
From S2P Require Import WorldFacts.
From S2P Require Import Actions.
From S2P Require Import Coordinator.
From S2P Require Import Backfill.
From S2P Require Import OpsBase.
From S2P Require Import Operations.
From S2P Require Import Migration.
From S2P Require Import OpsFacts.
From S2P Require Import Invert.
From S2P Require Import LocalSet.
From S2P Require Import OpsJson.
From S2P Require Import Deps.
From S2P Require Import History.
From S2P Require Import HistorySpec.
From S2P Require Import HistoryFacts.
From S2P Require Import HistoryRefine.
From S2P Require Import State.
From S2P Require Import Lifecycle.
From S2P Require Import LifecycleInv.
From S2P Require Import Catalog.
From S2P Require Import HistoryLogic.
From S2P Require Import ReadOnly.
From S2P Require Import ResolveFacts.
From S2P Require Import Rewrite.
From S2P Require Import RewriteFacts.
From S2P Require Import RebaselineFacts.
From S2P Require Import MemState.
From S2P Require Import RunHistory.
From S2P Require Import RevertSealed.
From S2P Require Import Migrate.

(** The state store's own connection is one to its database. *)
#[export] Instance Store_conn {J C} `{!StateConn C} : StateConn (Store J C) :=
  λ sql args, on_db (state_QueryRow sql args).

#[local] Hint Resolve hsome_store hsome_read : pgroll.

(** ** The train *)

Section train.
Context `{!Pq} {J C : Type} `{!Json J} `{!Catalogue C} `{!DB C}.
Context (m : Roll (Store J C)).
Context (CreateTriggers : Job → M (Store J C) ()) (Backfill_Start : string → loc → M (Store J C) ()).
Context `{!QuietHooks m} `{!QuietBackfill m CreateTriggers Backfill_Start}.
Implicit Types (es added : list (entry J)) (migs : list Migration).

(** How a migration before the last is left: its completion is queued, or
    done inline. *)
Definition inline_status (mig : Migration) : status :=
  if CompleteMustBeDeferred mig then Deferred else Applied.
Definition adds mig st (e : entry J) : Prop := pushed mig e ∧ e_status e = st.
Definition intermediate migs added : Prop := Forall2 (λ mig, adds mig (inline_status mig)) migs added.

(** Some of the names [ns] have been added, in their order. *)
Definition reached es (ns : list string) x : Prop :=
  ∃ added, e_names added `prefix_of` ns ∧ evolves (es ++ added) x.

(** The whole train is there: its last migration is active or, when the run
    completes, the history is contracted. *)
Definition train_done (complete : bool) es migs x : Prop :=
  ∃ init last added e, migs = init ++ [last] ∧ intermediate init added ∧ adds last Active e ∧
    if complete then all_sealed (es ++ added ++ [e]) x else x = es ++ added ++ [e].

Lemma reached_none es ns x : evolves es x → reached es ns x.
Proof. intros Hx. exists []. rewrite app_nil_r. split; [apply prefix_nil|done]. Qed.
Lemma reached_one es n ns e x : e_name e = n → evolves (es ++ [e]) x → reached es (n :: ns) x.
Proof. intros <- Hx. exists [e]. split; [|done]. apply prefix_cons, prefix_nil. Qed.
Lemma reached_cons es n ns e x : e_name e = n → reached (es ++ [e]) ns x → reached es (n :: ns) x.
Proof.
  intros <- (added & Hp & Hx). exists (e :: added). split; [by apply prefix_cons|].
  by rewrite <-app_assoc in Hx.
Qed.
Lemma reached_top es new ns st x : on_top es new st x → reached es (Migration_Name new :: ns) x.
Proof. intros (e & -> & [Hn _] & _). by eapply reached_one. Qed.
Lemma reached_tried es new ns x : tried es new x → reached es (Migration_Name new :: ns) x.
Proof. intros [->|Ht]; [by apply reached_none|by eapply reached_top]. Qed.

Lemma leads_hsome_outside {A} Σ Σ' Φ (p : M (Store J C) A) Q :
  leads (hsome m Σ) (hsome m Φ) p Q → (∀ x, Σ x → Σ' x) → leads (hsome m Σ') (hsome m Φ) p Q.
Proof. intros Hp HS. eapply leads_outside; [done|]. intros w. by apply hsome_mono. Qed.
(** One history at a time *)
Lemma leads_each {A} S Φ (p : M (Store J C) A) Q :
  (∀ x, Φ x → leads S (hsome m (eq x)) p Q) → leads S (hsome m Φ) p Q.
Proof. intros Hp w (x & Hw & Hx). apply (Hp x Hx). by apply hsome_hist. Qed.

Lemma leads_runIntermediate es fuel excluded mig ns :
  leads (hsome m (reached es (Migration_Name mig :: ns))) (hsome m (eq es))
    (runIntermediate m CreateTriggers Backfill_Start fuel excluded mig)
    (λ _, hsome m (on_top es mig (inline_status mig))).
Proof.
  unfold runIntermediate, runMigration, inline_status. apply leads_wrap_err. eapply leads_bind.
  { eapply leads_hsome_outside; [apply leads_Start; apply _|]. intros x. apply reached_tried. }
  intros []. destruct (CompleteMustBeDeferred mig).
  - eapply leads_hsome_outside; [apply leads_Complete_deferred|].
    intros x [Hx|Hx]; by eapply reached_top.
  - eapply leads_hsome_outside; [apply leads_Complete_inline; apply _|].
    intros x [Hx|Hx]; by eapply reached_top.
Qed.

Lemma leads_runLast es fuel complete so mig :
  leads (hsome m (reached es [Migration_Name mig])) (hsome m (eq es))
    (runMigration m CreateTriggers Backfill_Start fuel mig complete so (mkCompleteOptions false false))
    (λ _, hsome m (train_done complete es [mig])).
Proof.
  unfold runMigration. eapply leads_bind.
  { eapply leads_hsome_outside; [apply leads_Start; apply _|]. intros x. apply reached_tried. }
  intros []. apply leads_each. intros x (e & -> & Hn & He).
  assert (∀ y, (if complete then all_sealed (es ++ [e]) y else y = es ++ [e]) → train_done complete es [mig] y) as Hdone.
  { intros y Hy. exists [], mig, [], e. split_and!; [done|constructor|done|done]. }
  destruct complete.
  - intros w Hw. pose proof (leads_Complete_full m (es ++ [e]) fuel w) as Hc.
    specialize (Hc (hsome_mono m _ _ w (λ x Hx, eq_ind _ (λ y, evolves (es ++ [e]) y) (reflexivity _) _ Hx) Hw)).
    destruct (Roll_Complete m fuel _ w) as [[[]|err| |] w']; revert Hc; apply hsome_mono; try done;
      intros y; apply reached_one, Hn.
  - apply leads_ret. intros w. apply hsome_mono. intros y <-. by apply Hdone.
Qed.

Lemma leads_runTrain fuel complete excluded migs : ∀ es,
  leads (hsome m (reached es (Migration_Name <$> migs))) (hsome m (eq es))
    (runTrain m CreateTriggers Backfill_Start fuel complete excluded migs)
    (λ _, hsome m (train_done complete es migs)).
Proof.
  induction migs as [|mig migs IH]; intros es.
  { cbn [runTrain]. intros w. apply hsome_mono. intros x <-. by apply reached_none. }
  destruct migs as [|mig' migs]; [apply leads_runLast|].
  change (runTrain m CreateTriggers Backfill_Start fuel complete excluded (mig :: mig' :: migs))
    with (runIntermediate m CreateTriggers Backfill_Start fuel excluded mig ;;
          runTrain m CreateTriggers Backfill_Start fuel complete excluded (mig' :: migs)).
  eapply leads_bind; [apply leads_runIntermediate|]. intros []. apply leads_each.
  intros x (e & -> & Hn & He). eapply leads_weaken with (I' := hsome m (eq (es ++ [e]))).
  - eapply leads_hsome_outside; [apply IH|]. intros y. apply reached_cons, Hn.
  - done.
  - intros a w. apply hsome_mono. intros y (init & last & added & e' & Hm & Hi & Hl & Hy).
    exists (mig :: init), last, (e :: added), e'. split_and!; [by rewrite Hm|by constructor|done|].
    by rewrite <-!app_assoc in Hy.
Qed.
End train.

(** ** The command *)

Section parsing.
Context `{!Codec}.

Lemma parseAll_ok raws : ∀ errs migs,
  parseAll raws errs = Ok (migs, None) → errs = None ∧ Forall2 (λ raw mig, ParseMigration raw = Ok mig) raws migs.
Proof.
  induction raws as [|raw raws IH]; intros errs migs; cbn [parseAll]; [by intros [= <- ->]|].
  destruct (ParseMigration raw) as [mig|e| |] eqn:Hp; try done.
  - intros ([rest errs'] & Hr & [= <- ->])%outcome_bind_ok. apply IH in Hr as [-> Hf].
    split; [done|]. by constructor.
  - intros ([rest errs'] & Hr & [= <- ->])%outcome_bind_ok. by apply IH in Hr as [? _].
Qed.
Lemma parseMigrations_ok raws migs :
  parseMigrations raws = Ok migs → Forall2 (λ raw mig, ParseMigration raw = Ok mig) raws migs.
Proof.
  unfold parseMigrations. intros ([parsed errs] & Hp & He)%outcome_bind_ok.
  destruct errs; [done|]. injection He as <-. by apply parseAll_ok in Hp as [_ ?].
Qed.
Lemma parsed_names raws migs :
  Forall2 (λ raw mig, ParseMigration raw = Ok mig) raws migs → Migration_Name <$> migs = names raws.
Proof.
  unfold names. induction 1 as [|raw mig raws migs Hp _ IH]; [done|].
  rewrite !fmap_cons, IH. f_equal. by apply ParseMigration_name.
Qed.
End parsing.

Section command.
Context `{!Pq} {J C : Type} `{!Json J} `{!Catalogue C} `{!DB C} `{!StateConn C} `{!Codec} `{!Dir}.
Context (m : Roll (Store J C)).
Context (CreateTriggers : Job → M (Store J C) ()) (Backfill_Start : string → loc → M (Store J C) ()).
Context `{!QuietHooks m} `{!QuietBackfill m CreateTriggers Backfill_Start}.
Implicit Types (es : list (entry J)) (raws : list RawMigration) (Φ : list (entry J) → Prop).

(** *** What only reads *)

Lemma pres_state_query Φ sql args : pres (hsome m Φ) (on_state (state_QueryRow sql args)).
Proof.
  apply pres_hsome. intros es _ w Hw. unfold on_state, state_QueryRow, Store_conn, on_db.
  destruct (state_QueryRow sql args (st_db (w_db w))). exact Hw.
Qed.
Lemma reads_Reverted Φ : pres (hsome m Φ) (from_state m state_RevertedMigrations).
Proof. by intros w Hw. Qed.
Lemma reads_ClearReverted Φ ns : pres (hsome m Φ) (from_state m (state_ClearRevertedMigrations ns)).
Proof.
  apply pres_hsome. intros es _ w Hw. unfold from_state, on_state. cbn. unfold State_ClearRevertedMigrations.
  by destruct (decide (ns = [])).
Qed.
#[local] Instance hsome_readonly Φ : ReadOnly m (hsome m Φ).
Proof. apply store_readonly; [apply _|apply inv_query]. Qed.
Hint Resolve hsome_readonly pres_state_query reads_Reverted reads_ClearReverted reads_HasExisting : pgroll.

Lemma pres_HasPendingBackfill Φ n : pres (hsome m Φ) (HasPendingBackfill m n).
Proof.
  unfold HasPendingBackfill. apply pres_bind; [apply pres_queryNames; intros; apply inv_query|].
  intros tables. induction tables as [|t tables IH]; cbn [anyPending]; [apply pres_ret|].
  unfold queryBool. pres_steps.
Qed.
Lemma pres_existing Φ : pres (hsome m Φ) (ExistingVersionSchemas m).
Proof.
  unfold ExistingVersionSchemas, versionSchemaNames. apply pres_queryNames. intros. apply inv_query.
Qed.
Hint Resolve pres_HasPendingBackfill pres_existing : pgroll.
Lemma pres_expandIsComplete Φ ls : pres (hsome m Φ) (expandIsComplete m ls).
Proof. unfold expandIsComplete. pres_steps. Qed.
Lemma pres_countOtherBackends Φ : pres (hsome m Φ) countOtherBackends.
Proof.
  unfold countOtherBackends, State_BackendPID, Roll_BackendPID, OtherPgrollBackends.
  apply pres_bind; [by pres_steps|]. intros p. apply pres_bind; [by pres_steps|]. intros q.
  destruct p, q; pres_steps.
Qed.
Hint Resolve pres_expandIsComplete pres_countOtherBackends : pgroll.
Lemma pres_preFlight Φ raws : pres (hsome m Φ) (printMigratePreFlight m raws).
Proof. unfold printMigratePreFlight, preFlightPlan. pres_steps. Qed.
Lemma pres_interruptedMessage Φ name : pres (hsome m Φ) (interruptedMessage m name).
Proof. unfold interruptedMessage. pres_steps. Qed.
Hint Resolve pres_preFlight pres_interruptedMessage : pgroll.
Lemma pres_boundedRun Φ to dir res : pres (hsome m Φ) (boundedRun m to dir res).
Proof. unfold boundedRun. pres_steps. Qed.
Hint Resolve pres_boundedRun : pgroll.

(** *** What is written *)

Definition parsed raws migs : Prop := Forall2 (λ raw mig, ParseMigration raw = Ok mig) raws migs.
Definition applied complete es raws (r : migrateResult) x : Prop :=
  match r with
  | UpToDate => raws = [] ∧ x = es
  | AppliedTrain migs => parsed raws migs ∧ train_done complete es migs x
  | _ => False
  end.

Lemma leads_applyTrain es fuel fl excluded raws :
  leads (hsome m (reached es (names raws))) (hsome m (eq es))
    (applyTrain m CreateTriggers Backfill_Start fuel fl excluded raws)
    (λ r, hsome m (applied (flag_complete fl) es raws r)).
Proof.
  assert (∀ x, eq es x → reached es (names raws) x) as Hnone by (intros x <-; by apply reached_none).
  unfold applyTrain. destruct (decide (raws = [])) as [->|_].
  { apply leads_ret. intros w. apply hsome_mono. by intros x <-. }
  eapply leads_bind; [apply leads_hpres; [by pres_steps|done]|]. intros [].
  eapply (leads_bind_read _ _ _ _ (parsed raws)).
  { intros w Hw. unfold wrap_err, lift. destruct (parseMigrations raws) eqn:Hp;
      try (by eapply hsome_mono). split; [done|]. by apply parseMigrations_ok. }
  intros migs Hm. eapply leads_bind; [apply leads_hpres; [by pres_steps|done]|]. intros tombs.
  eapply leads_bind; [apply leads_hpres; [by pres_steps|done]|]. intros [].
  eapply leads_bind.
  { rewrite <-(parsed_names _ _ Hm). apply leads_runTrain; apply _. }
  intros []. eapply leads_bind.
  { apply leads_hpres; [by pres_steps|].
    intros x (init & last & added & e & -> & Hi & [[He _] _] & Hx). exists (added ++ [e]). split.
    - rewrite <-(parsed_names _ _ Hm). unfold e_names. rewrite !fmap_app. cbn. rewrite He.
      assert (e_name <$> added = Migration_Name <$> init) as ->; [|done].
      clear Hx Hm. induction Hi as [|mig e' init added [[Hn _] _] _ IH]; [done|]. by rewrite !fmap_cons, Hn, IH.
    - destruct (flag_complete fl); [by destruct Hx|by subst]. }
  intros []. apply leads_ret. intros w. apply hsome_mono. by intros x Hx.
Qed.

Definition resumed (complete : bool) es (r : migrateResult) x : Prop :=
  match r with
  | AwaitingComplete => complete = false ∧ x = es
  | CompletedPending => complete = true ∧ all_sealed es x
  | _ => False
  end.
Lemma leads_resumeActive es fuel complete state latest :
  leads (hsome m (evolves es)) (hsome m (eq es)) (resumeActive m fuel complete state latest)
    (λ r, hsome m (resumed complete es r)).
Proof.
  assert (∀ x, eq es x → evolves es x) as Hr by (by intros x <-).
  assert (leads (hsome m (evolves es)) (hsome m (eq es))
    (Roll_Complete m fuel (mkCompleteOptions false false)) (λ _, hsome m (all_sealed es))) as Hc.
  { eapply leads_weaken; [apply leads_Complete_full; apply _|intros w; by apply hsome_mono|done]. }
  assert (∀ {A}, leads (hsome m (evolves es)) (hsome m (eq es)) (panic : M (Store J C) A)
    (λ _, hsome m (evolves es))) as Hp by (intros A w; by apply hsome_mono).
  unfold resumeActive. destruct latest as [name|].
  - destruct state; try (eapply leads_bind; [apply leads_hpres; [by pres_steps|done]|intros e w; by apply hsome_mono]).
    + intros w; by apply hsome_mono.
    + destruct complete; cbn [negb].
      * eapply leads_bind; [apply leads_wrap_err, Hc|]. intros []. apply leads_ret. intros w. by apply hsome_mono.
      * apply leads_ret. intros w. apply hsome_mono. by intros x <-.
  - destruct state, complete; try (intros w; by apply hsome_mono).
    intros w Hw. specialize (Hc w Hw). unfold try, mbind, prog_bind, panic.
    destruct (Roll_Complete m fuel _ w) as [[[]|e| |] w']; cbn; revert Hc; apply hsome_mono; first [done|by intros x [? _]].
Qed.

(** The migrations a run would apply, bounded by [--to] *)
Definition planned es fl raws : Prop :=
  ∃ res, ResolveMigrations (visible es) (baseline_of es) (Roll_target m) = Ok res ∧
    if decide (flag_to fl = "") then raws = res.(Resolution_Apply)
    else ∃ idx, RevertSealed.position (flag_to fl) res.(Resolution_All) = Some idx ∧
      boundTrain res.(Resolution_Apply) res.(Resolution_All) idx = Ok raws.

Definition migrated es fl (r : migrateResult) x : Prop :=
  match r with
  | NeedsBaseline | AlreadyAt => x = es
  | AwaitingComplete => active es = true ∧ flag_complete fl = false ∧ x = es
  | CompletedPending => active es = true ∧ flag_complete fl = true ∧ all_sealed es x
  | UpToDate => active es = false ∧ planned es fl [] ∧ x = es
  | AppliedTrain migs => active es = false ∧ train_done (flag_complete fl) es migs x ∧
      ∃ raws, planned es fl raws ∧ parsed raws migs
  end.
Definition stopped es fl x : Prop :=
  x = es ∨ active es = true ∧ evolves es x ∨
  active es = false ∧ ∃ raws, planned es fl raws ∧ reached es (names raws) x.

Lemma leads_resolve es Σ :
  Σ es → leads (hsome m Σ) (hsome m (eq es)) (Roll_ResolveMigrations m)
    (λ res w, hsome m (eq es) w ∧
       ResolveMigrations (visible es) (baseline_of es) (Roll_target m) = Ok res).
Proof.
  intros HS w Hw. pose proof (proj1 (resolve_hist m es w (proj2 (hsome_hist m es w) Hw))) as Hr.
  pose proof (ro_resolve m (hsome m (eq es)) w Hw) as Hp.
  destruct (Roll_ResolveMigrations m w) as [[res|e| |] w']; cbn in *;
    try (revert Hp; apply hsome_mono; by intros x <-).
  split; [done|]. by apply Hr.
Qed.
Lemma leads_bounded es fl dir res Σ :
  Σ es → ResolveMigrations (visible es) (baseline_of es) (Roll_target m) = Ok res →
  leads (hsome m Σ) (hsome m (eq es)) (boundedRun m (flag_to fl) dir res)
    (λ b w, hsome m (eq es) w ∧ ∀ raws, b = Some raws → planned es fl raws).
Proof.
  intros HS Hres w Hw. pose proof (pres_boundedRun (eq es) (flag_to fl) dir res w Hw) as Hp.
  assert (∀ w, hsome m (eq es) w → hsome m Σ w) as Hs by (intros w0; apply hsome_mono; by intros x <-).
  unfold boundedRun in *. destruct (decide (flag_to fl = "")) as [Ht|Ht].
  - split; [done|]. intros raws [= <-]. exists res. by rewrite decide_True.
  - destruct (RevertSealed.position (flag_to fl) (Resolution_All res)) as [idx|] eqn:Hi.
    + unfold lift, mbind, prog_bind in *. destruct (boundTrain _ _ idx) as [raws'|e| |] eqn:Hb; auto.
      split; [done|]. intros raws [= <-]. exists res. rewrite decide_False by done. split; [done|]. by exists idx.
    + unfold mbind, prog_bind in *.
      destruct (wrap_err _ (from_state m (state_MigrationExists (flag_to fl))) w) as [[[]|e| |] w1]; cbn in *; auto.
      by split.
Qed.

(** C5. [pgroll migrate], whatever the statements of the database do.  A
    train is applied only when no migration was active: it is the list
    [ResolveMigrations] gives, bounded by [--to], and afterwards all of it
    lies on top of the untouched history, in order, those before the last
    completed inline or queued, the last active; or, with [--complete],
    everything is sealed.  With a migration active the command adds nothing:
    it reports, completes the migration when that was asked for, or fails.  A
    run that fails leaves, of the train, a prefix. *)
Theorem migrateCmd_spec fuel fl dir es w :
  hist m es w →
  match migrateCmd m CreateTriggers Backfill_Start fuel fl dir w with
  | (Ok r, w') => hsome m (migrated es fl r) w'
  | (_, w') => hsome m (stopped es fl) w'
  end.
Proof.
  intros Hw%hsome_hist. revert w Hw.
  change (leads (hsome m (stopped es fl)) (hsome m (eq es))
    (migrateCmd m CreateTriggers Backfill_Start fuel fl dir) (λ r, hsome m (migrated es fl r))).
  assert (stopped es fl es) as Hes by (by left).
  assert (∀ {A} (p : M (Store J C) A), pres (hsome m (eq es)) p →
    leads (hsome m (stopped es fl)) (hsome m (eq es)) p (λ _, hsome m (eq es))) as Hq.
  { intros A p Hp. apply leads_hpres; [done|]. by intros x <-. }
  assert (∀ r, migrated es fl r es →
    leads (hsome m (stopped es fl)) (hsome m (eq es)) (mret r : M (Store J C) _) (λ r, hsome m (migrated es fl r))) as Hret.
  { intros r Hr. apply leads_ret. intros w. apply hsome_mono. by intros x <-. }
  unfold migrateCmd, checkBaseline. eapply leads_bind; [apply Hq; by pres_steps|].
  intros [|]; [by apply Hret|].
  eapply leads_bind_read; [by apply leads_wrap_err, leads_resolve|]. intros res Hres.
  eapply leads_bind_read; [by apply leads_bounded|]. intros [raws|] Hb; [|by apply Hret].
  specialize (Hb raws eq_refl).
  eapply leads_bind; [apply Hq; by pres_steps|]. intros latest.
  eapply leads_bind; [apply Hq; by pres_steps|]. intros [].
  eapply leads_bind; [apply Hq; by pres_steps|]. intros state.
  eapply leads_bind; [apply Hq; by pres_steps|]. intros latest'.
  eapply (leads_bind_read _ _ _ _ (λ a, a = active es)).
  { apply leads_wrap_err. eapply leads_weaken; [|done|].
    - apply (leads_hcall m CIsActive (stopped es fl) (eq es) (λ a x, es = x ∧ a = active es)); [done|].
      intros rs now x _ <-. by split.
    - intros a w (x & Hx & <- & ->). split; [by exists es|done]. }
  intros act ->. destruct (active es) eqn:Ha.
  - eapply leads_hsome_outside; [eapply leads_weaken; [apply leads_resumeActive|done|]|].
    + intros r w. apply hsome_mono. intros x. unfold migrated, resumed. rewrite Ha. by destruct r.
    + intros x Hx. right. by left.
  - eapply leads_hsome_outside; [eapply leads_weaken; [apply leads_applyTrain|done|]|].
    + intros r w. apply hsome_mono. intros x. unfold migrated, applied. rewrite Ha.
      destruct r; try done; [by intros [-> ->]|]. intros [? ?]. split_and!; [done..|]. by exists raws.
    + intros x Hx. right. right. split; [done|]. by exists raws.
Qed.
End command.

(** ** A concrete run: a train of two on a history of two *)

Definition train_codec : Codec := {|
  codec_json := no_operations_json;
  MarshalRaw _ := Ok ();
  MarshalSchema _ := Ok "{}";
  sha256_json mig := Ok mig.(Migration_Name);
|}.
#[local] Existing Instance train_codec.
#[local] Instance train_dir : Dir := {|
  dir_entries := ["02_ab.json"; "03_bc.json"; "04_d.json"; "05_e.json"; "06_f.json"];
  dir_decode _ := Ok (mkRawMigration "" "" "[]" [] [] false false None "");
|}.
#[local] Instance mem_conn : StateConn mem := λ _ _ d, (Ok [VInt 0], d).
Definition no_triggers : Job → M mem_store () := λ _, mret ().
Definition no_rows : string → loc → M mem_store () := λ _ _, mret ().
#[export] Instance quiet_backfill_mem : QuietBackfill (C := mem) mem_roll no_triggers no_rows.
Proof. by split; intros; intros w Hw. Qed.
Definition train_flags : migrateFlags := mkMigrateFlags false false "05_e".
Lemma migrateCmd_spec_witness :
  match migrateCmd mem_roll no_triggers no_rows 10 train_flags "migrations" two_world with
  | (Ok (AppliedTrain migs), w') => Migration_Name <$> migs = ["04_d"; "05_e"] ∧
      hsome (C := mem) mem_roll (train_done false (mem_entries 0 two_applied) migs) w'
  | _ => False
  end.
Proof.
  pose proof (migrateCmd_spec (C := mem) mem_roll no_triggers no_rows 10 train_flags "migrations"
    (mem_entries 0 two_applied) two_world two_hist) as Hs.
  assert (match (migrateCmd mem_roll no_triggers no_rows 10 train_flags "migrations" two_world).1 with
    | Ok (AppliedTrain migs) => Migration_Name <$> migs = ["04_d"; "05_e"] | _ => False end) as Hr
    by (vm_compute; reflexivity).
  destruct (migrateCmd _ _ _ _ _ _ _) as [[r|e| |] w']; try done. destruct r; try done.
  split; [exact Hr|]. eapply hsome_mono; [|exact Hs]. by intros x (_ & ? & _).
Defined.
