(* ===== verification/CommandFacts.v ===== *)
(** * CommandFacts: commands that ask first

    A command that only shows something, or whose question is answered with
    no, leaves the whole store as it found it. *)

From S2P Require Import Prelude.
From S2P Require Import GoStd.
From S2P Require Import Names.
From S2P Require Import Schema.
From S2P Require Import Types.
From S2P Require Import ErrorText.
From S2P Require Import Db.
From S2P Require Import WorldFacts.
From S2P Require Import Catalog.
From S2P Require Import Backfill.
From S2P Require Import Operations.
From S2P Require Import Migration.
From S2P Require Import LocalSet.
From S2P Require Import OpsJson.
From S2P Require Import History.
From S2P Require Import HistorySpec.
From S2P Require Import State.
From S2P Require Import Lifecycle.
From S2P Require Import LifecycleInv.
From S2P Require Import Rewrite.
From S2P Require Import Revert.
From S2P Require Import RevertSealed.
From S2P Require Import Plan.
From S2P Require Import Migrate.
From S2P Require Import Commands.
From S2P Require Import HistoryLogic.
From S2P Require Import ReadOnly.
From S2P Require Import MemState.
From S2P Require Import RewriteFacts.
From S2P Require Import RevertFacts.

Section declined.
Context `{!Pq} {D : Type} `{!DB D} `{!StateStore D} `{!Console D} `{!Codec} `{!PqText} (m : Roll D).
Context (I : World D → Prop) {HI : ReadOnly m I}.
Context (CreateTriggers : Job → M D ()) (Backfill_Start : string → loc → M D ()).
Hint Extern 0 (ReadOnly _ _) => exact HI : pgroll.

Lemma ro_previewCmd fl : pres I (previewCmd m fl).
Proof. unfold previewCmd. pres_steps. Qed.

(** From here on every question is answered with no. *)
Context (Hconsole : ∀ q w, I w → I (set_w_db (console_confirm q (w_db w)).2 w)).
Context (Hno : ∀ q d, (console_confirm q d).1 = false).

Lemma pres_declined {A} q (k : bool → M D A) : pres I (k false) → pres I (confirm false q ≫= k).
Proof.
  intros Hk w Hw. unfold confirm, on_state, mbind, prog_bind.
  specialize (Hno q (w_db w)). specialize (Hconsole q w Hw). destruct (console_confirm q (w_db w)) as [b d].
  cbn in Hno, Hconsole. subst b. by apply Hk.
Qed.

Lemma declined_window fuel ts o : pres I (runWindowRevert m fuel ts false o).
Proof.
  unfold runWindowRevert. destruct (last ts); [|apply pres_panic].
  apply pres_bind; [by pres_steps|]. intros _. by apply pres_declined, pres_ret.
Qed.
Lemma declined_resume fuel to : pres I (maybeResumeSealedRevert m CreateTriggers Backfill_Start fuel to false).
Proof.
  unfold maybeResumeSealedRevert. apply pres_bind; [by pres_steps|]. intros [|]; cbn; [|apply pres_ret].
  destruct (decide _); [apply pres_fail|]. by apply pres_declined, pres_ret.
Qed.
Lemma declined_sealed fuel to e : pres I (runSealedRevert m CreateTriggers Backfill_Start fuel to false e).
Proof.
  unfold runSealedRevert. apply pres_bind; [by pres_steps|]. intros ts.
  apply pres_bind; [by pres_steps|]. intros plan.
  destruct plan, ts; try apply pres_ret; by apply pres_declined, pres_ret.
Qed.
Lemma declined_revert fuel fl :
  rf_yes fl = false → pres I (revertCmd m CreateTriggers Backfill_Start fuel fl).
Proof.
  intros Hy. unfold revertCmd, windowOr, revertTo. rewrite Hy.
  pose proof ro_previewCmd. pose proof declined_window. pose proof declined_resume. pose proof declined_sealed.
  pres_steps.
Qed.

Lemma ro_classify raws : pres I (classifyStampInputs m raws).
Proof. induction raws as [|raw raws IH]; cbn [classifyStampInputs]; pres_steps. Qed.
Lemma declined_stamp `{!Dir} path fl target : sf_yes fl = false → pres I (stampCmd m path fl target).
Proof.
  intros Hy. unfold stampCmd. rewrite Hy. pose proof ro_classify.
  apply pres_bind; [by pres_steps|]. intros _. apply pres_bind; [by pres_steps|]. intros raws.
  apply pres_bind; [by pres_steps|]. intros [toStamp ?].
  destruct (_ && _); [apply pres_ret|]. by apply pres_declined, pres_ret.
Qed.

Lemma ro_version migs o : pres I (resolveMaterializeVersion m migs o).
Proof. unfold resolveMaterializeVersion. pres_steps. Qed.
Lemma ro_replay migs : pres I (replayUnapplied migs : M D _).
Proof. unfold replayUnapplied. pres_steps. Qed.
Lemma ro_unapplied `{!Dir} : pres I (Roll_UnappliedMigrations m).
Proof. unfold Roll_UnappliedMigrations. pres_steps. Qed.
Lemma declined_materialize `{!Dir} b o : pres I (materializeCmd m b o false).
Proof.
  unfold materializeCmd. pose proof ro_version. pose proof ro_replay. pose proof ro_unapplied.
  repeat (apply pres_bind; [by pres_steps|]; intros ?). by apply pres_declined, pres_ret.
Qed.

Lemma declined_prune target ns : pres I (pruneCmd m target ns false).
Proof.
  unfold pruneCmd, refuseTarget. apply pres_bind; [by pres_steps|]. intros _.
  apply pres_bind; [by pres_steps|]. intros ts. destruct (decide _); [apply pres_ret|].
  by apply pres_declined, pres_ret.
Qed.
Lemma declined_rebaseline `{!Dir} check : pres I (rebaselineCmd m check false).
Proof.
  unfold rebaselineCmd. apply pres_bind; [unfold exitOnRefusal; by pres_steps|].
  intros [res|code]; [|apply pres_ret]. destruct (Rebaseline_Outcome res); try apply pres_ret.
  destruct check; [apply pres_ret|]. by apply pres_declined, pres_ret.
Qed.
(** A dry run asks nothing. *)
Lemma dry_revert fuel fl : rf_dryRun fl = true → pres I (revertCmd m CreateTriggers Backfill_Start fuel fl).
Proof.
  intros Hd. unfold revertCmd. rewrite Hd. pose proof ro_previewCmd.
  apply pres_bind; [by pres_steps|]. intros _. pres_steps.
Qed.
Lemma check_rebaseline `{!Dir} yes : pres I (rebaselineCmd m true yes).
Proof.
  unfold rebaselineCmd. apply pres_bind; [unfold exitOnRefusal; by pres_steps|].
  intros [res|code]; [|apply pres_ret]. destruct (Rebaseline_Outcome res); apply pres_ret.
Qed.
End declined.

(** ** The store *)

(** The operator answers on the connection's terminal. *)
#[export] Instance Store_console {J C} `{!Console C} : Console (Store J C) :=
  λ q st, let '(b, c) := console_confirm q (st_db st) in (b, set_st_db c st).

Section store.
Context `{!Pq} {J C : Type} `{!Json J} `{!Catalogue C} `{!DB C} `{!Console C} `{!Codec} `{!PqText} `{!Dir}.
Context (m : Roll (Store J C)).
Context (CreateTriggers : Job → M (Store J C) ()) (Backfill_Start : string → loc → M (Store J C) ()).

(** The database and the history are as they were. *)
Definition unchanged {A} (p : M (Store J C) A) : Prop := ∀ w, w_db (p w).2 = w_db w.

Lemma set_st_db_id (st : Store J C) : set_st_db (st_db st) st = st.
Proof. by destruct st. Qed.

Lemma unchanged_of {A} (p : M (Store J C) A) :
  (∀ sql args (c : C), (QueryContext sql args c).2 = c) →
  (∀ I : World (Store J C) → Prop, ReadOnly m I → (∀ w w', w_db w' = w_db w → I w → I w') → pres I p) →
  unchanged p.
Proof.
  intros Hq Hp w. set (I := λ w' : World (Store J C), w_db w' = w_db w).
  assert (DbInv I) as Hdb by (intros w1 w2 Hw Hw1; unfold I in *; congruence).
  apply (Hp I); [|exact Hdb|done]. apply store_readonly; [exact Hdb|].
  intros sql args w1 Hw1. unfold query. cbn. unfold on_db. specialize (Hq sql args (st_db (w_db w1))).
  destruct (QueryContext sql args (st_db (w_db w1))) as [r c]. cbn in *. subst c.
  unfold I. cbn. by rewrite set_st_db_id.
Qed.

(** C6. Nothing happens before it is confirmed.  Where queries and questions
    write nothing themselves: [pgroll plan], [revert --dry-run] and
    [rebaseline --check] leave the database and the whole history exactly as
    they were, on every outcome; and so do [revert], [stamp], [materialize],
    [prune] and [rebaseline] when the operator answers no. *)
Theorem unconfirmed_commands_write_nothing fuel :
  (∀ sql args (c : C), (QueryContext sql args c).2 = c) →
  (∀ q (c : C), (console_confirm q c).2 = c) →
  (∀ to, unchanged (Plan m to)) ∧
  (∀ fl, rf_dryRun fl = true → unchanged (revertCmd m CreateTriggers Backfill_Start fuel fl)) ∧
  (∀ yes, unchanged (rebaselineCmd m true yes)) ∧
  ((∀ q (c : C), (console_confirm q c).1 = false) →
   (∀ fl, rf_yes fl = false → unchanged (revertCmd m CreateTriggers Backfill_Start fuel fl)) ∧
   (∀ path fl target, sf_yes fl = false → unchanged (stampCmd m path fl target)) ∧
   (∀ b override, unchanged (materializeCmd m b override false)) ∧
   (∀ target ns, unchanged (pruneCmd m target ns false)) ∧
   (∀ check, unchanged (rebaselineCmd m check false))).
Proof.
  intros Hq Hc.
  assert (∀ q (w : World (Store J C)), w_db (set_w_db (console_confirm q (w_db w)).2 w) = w_db w) as Hdb.
  { intros q w. cbn. unfold console_confirm, Store_console. specialize (Hc q (st_db (w_db w))).
    destruct (console_confirm q (st_db (w_db w))) as [b c]. cbn in *. subst c. apply set_st_db_id. }
  split_and!.
  - intros to. apply unchanged_of; [done|]. intros I HI _. by apply ro_Plan.
  - intros fl Hd. apply unchanged_of; [done|]. intros I HI _. by apply dry_revert.
  - intros yes. apply unchanged_of; [done|]. intros I HI _. by apply check_rebaseline.
  - intros Hno. assert (∀ q (d : Store J C), (console_confirm q d).1 = false) as Hno'.
    { intros q d. unfold console_confirm, Store_console. specialize (Hno q (st_db d)).
      by destruct (console_confirm q (st_db d)). }
    split_and!; intros; (apply unchanged_of; [done|]; intros I HI Hi);
      [apply declined_revert|apply declined_stamp|apply declined_materialize|apply declined_prune
      |apply declined_rebaseline]; try done; intros q w Hw; exact (Hi w _ (Hdb q w) Hw).
Qed.
End store.

(** ** What the commands do at the edges of their flags *)

Section edges.
Context `{!Pq} {D : Type} `{!DB D} `{!StateStore D} `{!Console D} `{!Codec} `{!PqText} (m : Roll D).
Context (CreateTriggers : Job → M D ()) (Backfill_Start : string → loc → M D ()).

(** A revert that was interrupted is resumed as if [--expand-only] had not
    been given: it goes on to contract. *)
Lemma resume_forgets_expand_only fuel yes steps to w w1 :
  PendingSealedRevertResume m w = (Ok true, w1) → to ≠ "" →
  revertCmd m CreateTriggers Backfill_Start fuel (mkRevertFlags yes steps to true false) w =
  revertCmd m CreateTriggers Backfill_Start fuel (mkRevertFlags yes steps to false false) w.
Proof.
  intros Hp Hto. unfold revertCmd, maybeResumeSealedRevert, mbind, prog_bind. cbn.
  apply String.eqb_neq in Hto as Hb. rewrite Hb. cbn. rewrite Hp. cbn. rewrite decide_False by done.
  by destruct (confirm yes "Resume the interrupted revert?" w1) as [[[|]|e| |] w2];
    [cbn; destruct (RevertSealed _ _ _ _ _ _ _) as [[?|?| |] ?]|..].
Qed.

(** A number of steps that is not positive reverts everything in flight. *)
Lemma steps_not_positive_reverts_all fuel yes steps :
  (steps <= 0)%Z →
  revertCmd m CreateTriggers Backfill_Start fuel (mkRevertFlags yes steps "" false false) =
  revertCmd m CreateTriggers Backfill_Start fuel (mkRevertFlags yes 0 "" false false).
Proof. intros Hs. unfold revertCmd. cbn. destruct (Z.ltb_spec 0 steps); [lia|done]. Qed.
End edges.

(** ** A concrete run *)

Definition command_codec : Codec := {|
  codec_json := no_operations_json;
  MarshalRaw _ := Ok ();
  MarshalSchema _ := Ok "{}";
  sha256_json mig := Ok mig.(Migration_Name);
|}.
#[local] Existing Instance command_codec.
#[local] Instance command_text : PqText := λ _ message, message.
#[local] Instance command_dir : Dir := {|
  dir_entries := ["02_ab.json"; "03_bc.json"; "04_cd.json"; "05_de.json"];
  dir_decode _ := Ok (mkRawMigration "" "" "[]" [] [] false false (Some ["production"]) "");
|}.
(** The operator who always answers no *)
#[local] Instance mem_console : Console mem := λ _ d, (false, d).
Definition idle_triggers : Job → M mem_store () := λ _, mret ().
Definition idle_rows : string → loc → M mem_store () := λ _ _, mret ().

(** The whole window of two is shown and then kept. *)
Lemma unconfirmed_commands_write_nothing_witness :
  (revertCmd mem_roll idle_triggers idle_rows 10 (mkRevertFlags false 0 "" false false) three_world).1 =
    Ok Declined ∧
  (∀ q (d : mem), (console_confirm q d).1 = false) ∧
  unchanged (revertCmd (D := mem_store) mem_roll idle_triggers idle_rows 10 (mkRevertFlags false 0 "" false false)) ∧
  unchanged (Plan (D := mem_store) mem_roll "").
Proof.
  split; [vm_compute; reflexivity|]. split; [done|].
  pose proof (unconfirmed_commands_write_nothing (C := mem) (J := Migration) mem_roll idle_triggers idle_rows 10)
    as (Hp & _ & _ & Hn).
  - intros sql args c. cbn. by destruct (HasPrefix _ _).
  - done.
  - split; [|apply Hp]. by apply Hn.
Defined.

(** Stamping with a target that leaves no file, [--materialize] takes the last
    element of an empty slice. *)
Lemma stamp_materialize_panics :
  (stampCmd mem_roll StampDirectory (mkStampFlags "" MigrationTypePgroll true true) "staging" three_world).1 =
  Panic.
Proof. by vm_compute. Qed.

(** Without a directory the version is the latest migration's name, also where
    the migration has a version schema of its own. *)
Definition named_world : World mem_store :=
  mkWorld New ∅ (mem_of mem_db
    [(mkMigration "04_cd" "v4" [] [] [] false false [] "", Sealed)]) 0.
Lemma materialize_ignores_version_schema :
  (resolveMaterializeVersion mem_roll [] "" named_world).1 = Ok "04_cd" ∧
  VersionSchemaName (mkMigration "04_cd" "v4" [] [] [] false false [] "") = "v4".
Proof. by vm_compute. Qed.
