(* ===== verification/RevertTrain.v ===== *)
(** * RevertTrain: what undoing sealed history leaves behind

    [Roll.RevertSealed] of [revert_sealed.go] from a history that is sealed:
    it applies the inverses of the segment through the lifecycle, and removes
    segment and inverses together.  Whatever fails, the segment is whole, or
    it is gone with a tombstone for each of its migrations. *)

From S2P Require Import Prelude.
From S2P Require Import GoStd.
From S2P Require Import Names.
From S2P Require Import Schema.
From S2P Require Import Types.
From S2P Require Import ErrorText.
From S2P Require Import Db.
From S2P Require Import WorldFacts.
From S2P Require Import Actions.
From S2P Require Import Coordinator.
From S2P Require Import Backfill.
From S2P Require Import OpsBase.
From S2P Require Import Operations.
From S2P Require Import Migration.
From S2P Require Import OpsFacts.
From S2P Require Import Invert.
From S2P Require Import LocalSet.
From S2P Require Import OpsJson.
From S2P Require Import Deps.
From S2P Require Import History.
From S2P Require Import HistorySpec.
From S2P Require Import HistoryFacts.
From S2P Require Import HistoryRefine.
From S2P Require Import State.
From S2P Require Import Lifecycle.
From S2P Require Import LifecycleInv.
From S2P Require Import Catalog.
From S2P Require Import HistoryLogic.
From S2P Require Import ResolveFacts.
From S2P Require Import Rewrite.
From S2P Require Import RewriteFacts.
From S2P Require Import RebaselineFacts.
From S2P Require Import MemState.
From S2P Require Import RunHistory.
From S2P Require Import RevertSealed.
From S2P Require Import Migrate.
From S2P Require Import Revert.
From S2P Require Import InvertFacts.
From S2P Require Import RevertFacts.
From S2P Require Import RevertSealedFacts.
From S2P Require Import MigrateFacts.
From S2P Require Import Plan.
From S2P Require Import ReadOnly.
From S2P Require Import Commands.
From S2P Require Import CommandFacts.
From S2P Require Import Samples.

#[local] Hint Resolve hsome_store hsome_read : pgroll.

Section train.
Context `{!Pq} {J C : Type} `{!Json J} `{!Catalogue C} `{!DB C} `{!Codec}.
Context (m : Roll (Store J C)).
Context (CreateTriggers : Job → M (Store J C) ()) (Backfill_Start : string → loc → M (Store J C) ()).
Context `{!QuietHooks m} `{!QuietBackfill m CreateTriggers Backfill_Start}.
Implicit Types (b e : entry J) (es low fwd added : list (entry J)) (migs invs : list Migration).

(** ** The inverse train *)

Lemma InvertSegment_inverses migs base invs :
  Forall (λ mig, Migration_Name mig ≠ "") migs → InvertSegment migs base = Ok invs →
  Forall2 (λ mig inv, Migration_Name inv = "revert_" +:+ Migration_Name mig ∧
     Migration_RevertOf inv = Migration_Name mig) (reverse migs) invs.
Proof.
  intros Hn (r & w' & Hr & Hinv)%InvertSegment_inv.
  destruct (replaySegment_ok _ _ _ _ _ Hn Hr) as (_ & <- & _).
  rewrite <-fmap_reverse. apply Forall2_fmap_l. eapply Forall2_impl; [exact Hinv|].
  intros [mig pres] inv Hi. by destruct (invertMigration_ok _ _ _ Hi) as (opss & _ & ->).
Qed.

Lemma leads_applyInverse es fuel inv ns :
  leads (hsome m (reached es (Migration_Name inv :: ns))) (hsome m (eq es))
    (applyInverse m CreateTriggers Backfill_Start fuel inv)
    (λ _, hsome m (on_top es inv (inline_status inv))).
Proof.
  unfold applyInverse, inline_status. eapply leads_bind.
  { eapply leads_hsome_outside; [apply leads_wrap_err, leads_Start; apply _|].
    intros x. apply reached_tried. }
  intros []. apply leads_wrap_err. destruct (CompleteMustBeDeferred inv).
  - eapply leads_hsome_outside; [apply leads_Complete_deferred|].
    intros x [Hx|Hx]; by eapply reached_top.
  - eapply leads_hsome_outside; [apply leads_Complete_inline; apply _|].
    intros x [Hx|Hx]; by eapply reached_top.
Qed.

(** What the train leaves, as [train_done]; with [expandOnly] it stops when
    its last inverse is active. *)
Definition train_left (expandOnly : bool) es invs (stop : bool) x : Prop :=
  stop = expandOnly ∧ train_done (negb expandOnly) es invs x.

(** The train as it is started: the last inverse carries the version schema
    of the boundary. *)
Fixpoint executed (version : string) (invs : list Migration) : list Migration :=
  match invs with
  | [] => []
  | [inv] => [set_Migration_VersionSchema version inv]
  | inv :: invs => inv :: executed version invs
  end.
Lemma executed_snoc v invs inv : executed v (invs ++ [inv]) = invs ++ [set_Migration_VersionSchema v inv].
Proof.
  induction invs as [|i invs IH]; [done|]. cbn [app]. rewrite <-IH. cbn [executed].
  by destruct (invs ++ [inv]) eqn:Hn; [destruct invs|].
Qed.
Lemma executed_plan plan :
  Plan_Inverses (executedPlan plan) = executed (Plan_BoundaryVersionSchema plan) (Plan_Inverses plan).
Proof.
  unfold executedPlan. cbn [Plan_Inverses].
  induction (Plan_Inverses plan) as [|inv l _] using rev_ind; [done|].
  by rewrite reverse_snoc, reverse_cons, reverse_involutive, executed_snoc.
Qed.
Lemma executed_fmap {A} (f : Migration → A) v invs :
  (∀ v inv, f (set_Migration_VersionSchema v inv) = f inv) → f <$> executed v invs = f <$> invs.
Proof.
  intros Hf. induction invs as [|inv l _] using rev_ind; [done|]. rewrite executed_snoc, !fmap_app. cbn. by rewrite Hf.
Qed.

Lemma leads_applyLast es fuel expandOnly v inv :
  leads (hsome m (reached es [Migration_Name inv])) (hsome m (eq es))
    (applyInverses m CreateTriggers Backfill_Start fuel expandOnly v [inv])
    (λ stop, hsome m (train_left expandOnly es (executed v [inv]) stop)).
Proof.
  cbn [applyInverses executed]. set (inv' := set_Migration_VersionSchema v inv).
  change (Migration_Name inv) with (Migration_Name inv'). eapply leads_bind.
  { eapply leads_hsome_outside; [apply leads_wrap_err, leads_Start; apply _|].
    intros x. apply reached_tried. }
  intros []. apply leads_each. intros x (e & -> & Hn & He).
  assert (∀ y, (if expandOnly then y = es ++ [e] else all_sealed (es ++ [e]) y) →
    train_left expandOnly es [inv'] expandOnly y) as Hdone.
  { intros y Hy. split; [done|]. exists [], inv', [], e. split_and!; [done|constructor|done|].
    by destruct expandOnly. }
  destruct expandOnly.
  - apply leads_ret. intros w. apply hsome_mono. intros y <-. by apply Hdone.
  - eapply leads_bind with (R := λ _, hsome m (all_sealed (es ++ [e]))).
    + apply leads_wrap_err. eapply leads_weaken with (I' := hsome m (evolves (es ++ [e]))).
      * eapply leads_hsome_outside; [apply leads_Complete_full; apply _|]. intros y. apply reached_one, Hn.
      * intros w. apply hsome_mono. by intros y <-.
      * done.
    + intros []. apply leads_ret. intros w. by apply hsome_mono.
Qed.

Lemma leads_applyInverses fuel expandOnly v invs : ∀ es, invs ≠ [] →
  leads (hsome m (reached es (Migration_Name <$> invs))) (hsome m (eq es))
    (applyInverses m CreateTriggers Backfill_Start fuel expandOnly v invs)
    (λ stop, hsome m (train_left expandOnly es (executed v invs) stop)).
Proof.
  induction invs as [|inv invs IH]; intros es Hne; [done|].
  destruct invs as [|inv' invs]; [apply leads_applyLast|].
  change (applyInverses m CreateTriggers Backfill_Start fuel expandOnly v (inv :: inv' :: invs))
    with (applyInverse m CreateTriggers Backfill_Start fuel inv ;;
          applyInverses m CreateTriggers Backfill_Start fuel expandOnly v (inv' :: invs)).
  eapply leads_bind; [apply leads_applyInverse|]. intros []. apply leads_each.
  intros x (e & -> & Hn & He). eapply leads_weaken with (I' := hsome m (eq (es ++ [e]))).
  - eapply leads_hsome_outside; [by apply IH|]. intros y. apply reached_cons, Hn.
  - done.
  - intros stop w. apply hsome_mono. intros y (-> & init & last & added & e' & Hm & Hi & Hl & Hy).
    split; [done|]. exists (inv :: init), last, (e :: added), e'.
    split_and!; [|by constructor|done|by rewrite <-!app_assoc in Hy].
    change (executed v (inv :: inv' :: invs)) with (inv :: executed v (inv' :: invs)). by rewrite Hm.
Qed.

Lemma train_done_pushed complete es invs x : train_done complete es invs x →
  ∃ added, Forall2 pushed invs added ∧ if complete then all_sealed (es ++ added) x else x = es ++ added.
Proof.
  intros (init & last & added & e & -> & Hi & [Hl _] & Hx). exists (added ++ [e]).
  split; [|done]. apply Forall2_app; [|by constructor].
  eapply Forall2_impl; [exact Hi|]. by intros mig a [Ha _].
Qed.
Lemma pushed_names invs added : Forall2 pushed invs added → e_names added = Migration_Name <$> invs.
Proof. unfold e_names. induction 1 as [|mig e invs added [Hn _] _ IH]; [done|]. cbn. by rewrite Hn, IH. Qed.

(** ** The segment *)

(** A history that is sealed: above the migration [b], which is a boundary of
    any kind, the segment [fwd], whose migrations are no inverses. *)
Record sealed_segment low b fwd (fmigs : list Migration) : Prop := {
  seg_reads : Forall2 reads fwd fmigs;
  seg_some : fwd ≠ [];
  seg_fmigs : Forall (λ mig, Migration_RevertOf mig = "") fmigs;
  seg_names : "" ∉ e_names fwd;
  seg_types : Forall (λ e, e_type e ≠ MigrationTypeBaseline) fwd;
  seg_sealed : Forall (λ e, e_status e = Sealed) ((low ++ [b]) ++ fwd);
}.

Definition inverse_names fwd : list string := (λ n, "revert_" +:+ n) <$> reverse (e_names fwd).

(** The segment and its inverses are gone, every migration of the segment has
    its tombstone, and what is below is still sealed. *)
Definition undone below fmigs (w : World (Store J C)) : Prop :=
  ∃ low', all_sealed below low' ∧ finished m low' fmigs w.

(** The plan of a sealed revert to [b] *)
Definition plan_to b fwd (plan : SealedRevertPlan) : Prop :=
  Plan_Boundary plan = e_name b ∧ Plan_Targets plan = reverse (e_names fwd) ∧
  Migration_Name <$> Plan_Inverses plan = inverse_names fwd ∧
  Migration_RevertOf <$> Plan_Inverses plan = reverse (e_names fwd).

Lemma executed_plan_to b fwd plan : plan_to b fwd plan → plan_to b fwd (executedPlan plan).
Proof. intros (Hb & Ht & Hn & Hr). split_and!; [done..| |]; by rewrite executed_plan, executed_fmap. Qed.

(** A call that only reads the history *)
Lemma leads_look {A} es (c : call J A) (R : A → Prop) :
  call_ok c es → (∀ rs now, (run_spec (catalogue_name_le (C := C)) rs now (Roll_schema m) c es).2 = es) →
  (∀ rs now a, (run_spec (catalogue_name_le (C := C)) rs now (Roll_schema m) c es).1 = Ok a → R a) →
  leads (hist m es) (hist m es) (from_state m (λ s, run s c)) (λ a w, hist m es w ∧ R a).
Proof. intros Hok Hq HR. apply leads_read; [done..|]. intros rs now w a Ha Hw. split; [done|]. by eapply HR. Qed.
Lemma leads_look_up es e mig :
  NoDup (e_names es) → e ∈ es → reads e mig →
  leads (hist m es) (hist m es) (from_state m (state_GetMigration (e_name e))) (λ a w, hist m es w ∧ a = mig).
Proof.
  intros Hn He Hr. apply (leads_look es (CGetMigration (e_name e))); [done| |].
  - intros rs now. cbn. rewrite get_bind. by destruct (find_entry _ _).
  - intros rs now a. cbn [run_spec]. rewrite get_bind, (find_entry_in es e Hn He). cbn.
    rewrite (decode_reads _ _ _ Hr). by intros [= <-].
Qed.
Lemma leads_reading {A} es (p : M (Store J C) A) :
  pres (hist m es) p → leads (hist m es) (hist m es) p (λ _, hist m es).
Proof. intros Hp. by apply leads_pres. Qed.

Section segment.
Context (low : list (entry J)) (b : entry J) (fwd : list (entry J)) (fmigs : list Migration).
Context (Hseg : sealed_segment low b fwd fmigs).
Abbreviation below := (low ++ [b]).
Abbreviation es := (below ++ fwd).
Context (clock : nat → Z) (ticks : nat) (Hwf : history_wf clock ticks es).

Lemma leads_no_unsealed :
  leads (hist m es) (hist m es) (from_state m state_UnsealedMigrations) (λ l w, hist m es w ∧ l = []).
Proof.
  apply (leads_look es CUnsealed); [done|done|]. intros rs now a. cbn [run_spec]. rewrite get_bind.
  rewrite (proj2 (filter_nil_iff _ (with_parents None es))); [by intros [= <-]|].
  intros pe Hpe. pose proof (seg_sealed _ _ _ _ Hseg) as Hs. rewrite Forall_forall in Hs.
  rewrite Hs; [done|]. apply (list_elem_of_fmap_2 snd) in Hpe. by rewrite with_parents_snd in Hpe.
Qed.

Lemma segment_leaf : ∃ e mig, top es = Some (e_name e) ∧ e ∈ es ∧ reads e mig ∧ Migration_RevertOf mig = "".
Proof.
  destruct (exists_last (seg_some _ _ _ _ Hseg)) as (fwd' & e & Hlast).
  pose proof (seg_reads _ _ _ _ Hseg) as Hr. rewrite Hlast in Hr.
  apply Forall2_app_inv_l in Hr as (fm & fm' & _ & Hr & Hfm).
  apply Forall2_cons_inv_l in Hr as (mig & ? & Hmig & _ & ->). exists e, mig.
  rewrite Hlast, !app_assoc, top_snoc. split_and!; [done|apply elem_of_app; right; left|done|].
  pose proof (seg_fmigs _ _ _ _ Hseg) as Ha. rewrite Hfm in Ha.
  apply Forall_app in Ha as [_ Ha]. by apply Forall_cons in Ha as [? _].
Qed.
Lemma leads_no_inverse :
  leads (hist m es) (hist m es) (inverseLeaf m) (λ leaf w, hist m es w ∧ leaf = None).
Proof.
  destruct segment_leaf as (e & mig & Htop & He & Hmig & Hinv).
  unfold inverseLeaf. eapply (leads_bind_read _ _ _ _ (λ l, l = Some (e_name e))).
  { apply (leads_look es CLatestMigration); try done. intros rs now a [= <-]. exact Htop. }
  intros ? ->. eapply leads_bind_read; [by apply (leads_look_up es e mig (wf_names _ _ _ Hwf))|].
  intros leaf ->. apply leads_ret. intros w Hw. by rewrite decide_True.
Qed.

Lemma leads_nothing_to_finish to :
  leads (hist m es) (hist m es) (finishSealedRevert m to) (λ p w, hist m es w ∧ p = None).
Proof.
  unfold finishSealedRevert. eapply leads_bind_read; [apply leads_no_inverse|]. intros ? ->.
  by apply leads_ret.
Qed.

(** The rows above the boundary *)
Lemma segment_rows raws :
  Forall2 row_reads (since_baseline es) raws →
  ∃ rf, segmentOf raws (position (e_name b) raws) (e_name b) "" = Ok rf ∧ Forall2 row_reads fwd rf.
Proof.
  rewrite since_baseline_app by (apply Forall_forall, (seg_types _ _ _ _ Hseg)). rewrite since_baseline_snoc.
  intros H2. apply Forall2_app_inv_l in H2 as (rp & rf & Hp & Hf & ->).
  exists rf. split; [|done]. unfold segmentOf. rewrite decide_True by done. f_equal.
  pose proof (wf_names _ _ _ Hwf) as Hnd. unfold e_names in Hnd. rewrite fmap_app in Hnd.
  apply NoDup_app in Hnd as (Hlow & Hd & _).
  destruct (decide (e_type b = MigrationTypeBaseline)) as [Hb|Hb].
  - apply Forall2_nil_inv_l in Hp as ->. unfold position. cbn [app].
    rewrite (proj2 (list_find_None _ rf)); [done|]. apply Forall_forall. intros raw Hin Heq.
    apply list_elem_of_lookup in Hin as [i Hi].
    destruct (Forall2_lookup_r _ _ _ _ _ Hf Hi) as (e & He & Hre).
    apply (Hd (e_name b)); [apply list_elem_of_fmap_2, elem_of_app; right; left|].
    rewrite <-Heq, (row_reads_name _ _ Hre). apply list_elem_of_fmap_2. by apply list_elem_of_lookup_2 in He.
  - apply Forall2_app_inv_l in Hp as (r1 & r2 & H1 & Hp & ->).
    apply Forall2_cons_inv_l in Hp as (raw & r2' & Hraw & Hp & ->). apply Forall2_nil_inv_l in Hp as ->.
    assert (position (e_name b) ((r1 ++ [raw]) ++ rf) = Some (length r1)) as ->.
    { unfold position. erewrite (proj2 (list_find_Some _ _ (length r1) raw)); [done|].
      rewrite <-app_assoc. cbn [app]. split_and!; [by rewrite list_lookup_middle|by apply row_reads_name|].
      intros j y Hy Hj Heq. rewrite lookup_app_l in Hy by done.
      destruct (Forall2_lookup_r _ _ _ _ _ H1 Hy) as (e & He & Hre).
      rewrite fmap_app in Hlow. apply NoDup_app in Hlow as (_ & Hdl & _).
      apply (Hdl (e_name b)); [|left]. rewrite <-Heq, (row_reads_name _ _ Hre).
      apply list_elem_of_lookup_2 in He. destruct (since_baseline_suffix low) as [pre ->].
      apply list_elem_of_fmap_2, elem_of_app. by right. }
    rewrite drop_app_ge by (rewrite length_app; cbn; lia). rewrite length_app. cbn [length].
    by replace (S (length r1) - (length r1 + 1)) with 0 by lia.
Qed.

Lemma invertible_reads rf forward :
  Forall2 row_reads fwd rf → map_outcome invertible rf = Ok forward → forward = fmigs.
Proof.
  pose proof (seg_reads _ _ _ _ Hseg) as Hr. intros Hrows Hm%map_outcome_ok.
  pose proof (rows_parse _ _ _ Hrows Hr) as Hp. clear -Hm Hp. revert forward Hm.
  induction Hp as [|raw mig rf fm [Hraw _] _ IH]; intros forward Hm.
  { by apply Forall2_nil_inv_l in Hm. }
  apply Forall2_cons_inv_l in Hm as (mig' & forward' & Hi & Hm & ->). f_equal; [|by apply IH].
  unfold invertible in Hi. rewrite Hraw in Hi. destruct (Migration_Irreversible mig); [done|].
  destruct (decide _); [done|]. by injection Hi.
Qed.

Lemma leads_planSealedSegment :
  leads (hist m es) (hist m es) (planSealedSegment m (e_name b) "")
    (λ p w, hist m es w ∧ ∃ plan, p = Some plan ∧ plan_to b fwd plan).
Proof.
  unfold planSealedSegment. eapply (leads_bind_read _ _ _ _ (Forall2 row_reads (since_baseline es))).
  { apply leads_wrap_err, (leads_look es (CSchemaHistory false)); [done..|].
    intros rs now a Ha. cbn [run_spec] in Ha. rewrite get_bind in Ha. unfold lift in Ha. cbn [fst] in Ha.
    rewrite (filter_all (not_excluded false)) in Ha by done. by apply map_outcome_ok in Ha. }
  intros raws Hraws. destruct (segment_rows raws Hraws) as (rf & Hrf & Hrows).
  eapply leads_bind.
  { apply leads_reading. destruct (position _ raws); [apply pres_ret|].
    apply pres_bind; [by apply (pres_read m CLatestBaseline)|intros; by pres_steps]. }
  intros []. eapply (leads_bind_read _ _ _ _ (λ l, l = rf)).
  { intros w Hw. unfold lift. by rewrite Hrf. }
  intros ? ->. rewrite decide_False.
  2:{ intros ->. apply Forall2_nil_inv_r in Hrows. by apply (seg_some _ _ _ _ Hseg). }
  eapply (leads_bind_read _ _ _ _ (λ l, l = fmigs)).
  { intros w Hw. unfold lift. destruct (map_outcome invertible rf) as [l| | |] eqn:Hm; try done.
    split; [done|]. by eapply invertible_reads. }
  intros ? ->. eapply leads_bind; [apply leads_reading; by pres_steps|]. intros schema.
  eapply leads_bind; [apply leads_reading; by pres_steps|]. intros snap.
  eapply leads_bind; [apply leads_reading; by pres_steps|]. intros [].
  eapply (leads_bind_read _ _ _ _ (λ l, InvertSegment fmigs schema = Ok l)).
  { intros w Hw. unfold lift. by destruct (InvertSegment fmigs schema). }
  intros invs Hinvs. eapply leads_bind; [apply leads_reading; by pres_steps|]. intros bmig.
  apply leads_ret. intros w Hw. split; [done|]. eexists. split; [done|].
  pose proof (reads_names _ _ (seg_reads _ _ _ _ Hseg)) as Hnames.
  assert (Forall (λ mig, Migration_Name mig ≠ "") fmigs) as Hne.
  { apply (proj1 (Forall_fmap Migration_Name (λ n, n ≠ "") _)). rewrite Hnames.
    apply Forall_forall. intros n Hn ->. by apply (seg_names _ _ _ _ Hseg). }
  pose proof (InvertSegment_inverses _ _ _ Hne Hinvs) as H2.
  unfold plan_to, inverse_names. cbn. rewrite <-Hnames, <-fmap_reverse. clear -H2. split_and!; [done..| |].
  - induction H2 as [|mig inv migs invs [Hn _] _ IH]; [done|]. cbn. by rewrite Hn, IH.
  - induction H2 as [|mig inv migs invs [_ Hr] _ IH]; [done|]. cbn. by rewrite Hr, IH.
Qed.

Lemma leads_PlanRevertSealed :
  leads (hist m es) (hist m es) (PlanRevertSealed m (e_name b))
    (λ p w, hist m es w ∧ ∃ plan, p = Some plan ∧ plan_to b fwd plan).
Proof.
  unfold PlanRevertSealed. eapply leads_bind.
  { apply leads_reading, pres_try, (pres_read m CGetActive); [done|]. intros rs now. cbn [run_spec].
    rewrite get_bind. destruct (last es); [|done]. by destruct (decide _). }
  intros act. eapply leads_bind; [apply leads_reading; by pres_steps|]. intros [].
  eapply leads_bind_read; [apply leads_no_unsealed|]. intros ? ->.
  eapply leads_bind; [apply leads_reading; by pres_steps|]. intros [].
  apply leads_planSealedSegment.
Qed.
Lemma leads_nothing_partial fuel :
  leads (hist m es) (hist m es) (undoPartialTrain m fuel) (λ _, hist m es).
Proof.
  unfold undoPartialTrain. eapply leads_bind_read; [apply leads_no_unsealed|]. intros ? ->. by apply leads_ret.
Qed.

(** Segment and inverses are pruned together. *)
Lemma leads_pruned invs added plan :
  e_names added = Migration_Name <$> invs →
  Plan_Targets plan = reverse (e_names fwd) → Migration_Name <$> Plan_Inverses plan = Migration_Name <$> invs →
  leads (λ w, hsome m (reached es (Migration_Name <$> invs)) w ∨ undone below fmigs w)
    (hsome m (all_sealed (es ++ added))) (pruneSealedRevert m plan) (λ _, undone below fmigs).
Proof.
  intros Hadded Ht Hinv w (x & Hw & [Hev Hs]). pose proof Hev as Hreached.
  unfold evolves in Hev. apply Forall2_app_inv_l in Hev as (x' & added' & Hev & Hadd & ->).
  apply Forall2_app_inv_l in Hev as (low' & fwd' & Hlow & Hfwd & ->).
  rewrite <-app_assoc in Hw, Hs. apply Forall_app in Hs as [Hs _].
  assert (Forall2 reads fwd' fmigs) as Hreads.
  { pose proof (seg_reads _ _ _ _ Hseg) as Hr. clear -Hfwd Hr. revert fmigs Hr.
    induction Hfwd as [|e e' fwd fwd' (Hn & Hb & _) _ IH]; intros fmigs Hr.
    { by apply Forall2_nil_inv_l in Hr as ->. }
    apply Forall2_cons_inv_l in Hr as (mig & fmigs' & Hmig & Hr & ->). constructor; [|by apply IH].
    unfold reads, row_reads in *. by rewrite Hn, Hb. }
  pose proof (hist_wf m _ _ Hw) as (ck & t & Hwf').
  pose proof (leads_pruneSealedRevert m (st_reverted (w_db w)) low' fwd' added' (reverse fwd') (reverse fmigs) plan) as Hp.
  specialize (Hp (wf_names _ _ _ Hwf')). cbn beta in Hp.
  assert (∀ w1, finished m low' (reverse fmigs) w1 → undone below fmigs w1) as Hdone.
  { intros w1 (T & Hh & Hb). exists low'. split; [done|]. exists T. split; [done|].
    intros mig Hm. apply Hb. by rewrite elem_of_reverse. }
  assert (leads (λ w, unfinished m (low' ++ fwd' ++ added') w ∨ finished m low' (reverse fmigs) w)
    (hist_with m (st_reverted (w_db w)) (low' ++ fwd' ++ added')) (pruneSealedRevert m plan)
    (λ _, finished m low' (reverse fmigs))) as Hl.
  { apply Hp; [| |by apply Forall2_reverse| |].
    - intros [Hf _]%app_nil. subst fwd'. apply Forall2_nil_inv_r in Hfwd. by apply (seg_some _ _ _ _ Hseg).
    - apply reverse_Permutation.
    - rewrite Ht. unfold e_names. rewrite fmap_reverse. f_equal. symmetry. by apply evolves_names.
    - rewrite Hinv, <-Hadded. by rewrite <-(evolves_names _ _ Hadd). }
  specialize (Hl w (conj Hw eq_refl)).
  assert (∀ w1, unfinished m (low' ++ fwd' ++ added') w1 → hsome m (reached es (Migration_Name <$> invs)) w1) as Hun.
  { intros w1 (T & Hh & _). eexists. split; [exact Hh|]. exists added. split; [by rewrite Hadded|].
    revert Hreached. unfold evolves. rewrite <-!app_assoc. done. }
  destruct (pruneSealedRevert m plan w) as [[[]|e| |] w1]; [by apply Hdone|..]; destruct Hl; auto.
Qed.

(** What [RevertSealed] leaves behind *)
Definition sealed_revert_result (expandOnly : bool) (p : option SealedRevertPlan) (w : World (Store J C)) : Prop :=
  ∃ plan, p = Some plan ∧ plan_to b fwd plan ∧
    if expandOnly then hsome m (λ x, ∃ added, x = es ++ added ∧ Forall2 pushed (Plan_Inverses plan) added) w
    else undone below fmigs w.
Definition sealed_revert_stopped (w : World (Store J C)) : Prop :=
  hsome m (reached es (inverse_names fwd)) w ∨ undone below fmigs w.

Lemma leads_execute fuel expandOnly plan :
  plan_to b fwd plan →
  leads sealed_revert_stopped (hist m es)
    (stop ← applyInverses m CreateTriggers Backfill_Start fuel expandOnly
              (Plan_BoundaryVersionSchema plan) (Plan_Inverses plan);
     (if (stop : bool) then mret () else pruneSealedRevert m (executedPlan plan)) ;;
     mret (Some (executedPlan plan)))
    (sealed_revert_result expandOnly).
Proof.
  intros Hplan. pose proof Hplan as (_ & Ht & Hn & _).
  assert (Plan_Inverses plan ≠ []) as Hne.
  { intros Hnil. rewrite Hnil in Hn. symmetry in Hn. unfold inverse_names in Hn.
    apply fmap_nil_inv in Hn. apply (f_equal reverse) in Hn. rewrite reverse_involutive in Hn.
    apply fmap_nil_inv in Hn. by apply (seg_some _ _ _ _ Hseg). }
  eapply leads_bind.
  { eapply leads_weaken with (I' := hsome m (eq es)).
    - eapply leads_outside; [by apply leads_applyInverses|]. intros w Hw. left. by rewrite <-Hn.
    - intros w Hw. by apply hsome_hist.
    - done. }
  intros stop w (x & Hw & -> & Hdone). rewrite <-executed_plan in Hdone.
  destruct (train_done_pushed _ _ _ _ Hdone) as (added & Ha & Hx). pose proof (pushed_names _ _ Ha) as Hna.
  assert (Migration_Name <$> Plan_Inverses (executedPlan plan) = Migration_Name <$> Plan_Inverses plan) as Hnames
    by (by rewrite executed_plan, executed_fmap).
  pose proof (executed_plan_to _ _ _ Hplan) as Hplan'. destruct expandOnly.
  - exists (executedPlan plan). split_and!; [done..|]. exists x. split; [done|]. by exists added.
  - assert (hsome m (all_sealed (es ++ added)) w) as Hall by (by exists x).
    clear Hw. revert w Hall. eapply leads_bind.
    + eapply leads_outside; [apply (leads_pruned (Plan_Inverses plan) added (executedPlan plan))|]; [|by destruct Hplan' as (_ & ? & _)|done|].
      * by rewrite Hna.
      * intros w [Hw|Hw]; [left; by rewrite <-Hn|by right].
    + intros []. apply leads_ret. intros w Hw. by exists (executedPlan plan).
Qed.

Lemma leads_RevertSealed fuel expandOnly :
  leads sealed_revert_stopped (hist m es)
    (RevertSealed m CreateTriggers Backfill_Start fuel (e_name b) expandOnly)
    (sealed_revert_result expandOnly).
Proof.
  assert (∀ w, hist m es w → sealed_revert_stopped w) as Hstill.
  { intros w Hw. left. exists es. split; [done|]. by apply reached_none. }
  unfold RevertSealed. eapply leads_bind; [eapply leads_outside; [apply leads_nothing_partial|done]|].
  intros []. eapply leads_bind_read; [eapply leads_outside; [apply leads_nothing_to_finish|done]|].
  intros ? ->. eapply leads_bind_read; [eapply leads_outside; [apply leads_PlanRevertSealed|done]|].
  intros ? (plan & -> & Hplan). by apply leads_execute.
Qed.
End segment.

(** ** A revert in two steps *)

Lemma leads_try {A} S I (p : M (Store J C) A) (Q : A → World (Store J C) → Prop) :
  leads S I p Q → leads S I (try p) (λ r w, match r with inl a => Q a w | inr _ => S w end).
Proof. intros Hp w Hw. specialize (Hp w Hw). unfold try. by destruct (p w) as [[]?]. Qed.

(** What the library encodes of a migration, it decodes. *)
Definition decodes inv : Prop := ∀ e, pushed inv e → reads e inv.
(** A boundary that is a migration of its own *)
Definition own_boundary b : Prop := e_name b ≠ "" ∧ ∃ mig, reads b mig ∧ Migration_RevertOf mig = "".

Lemma later_reads e e' mig : later e e' → reads e mig → reads e' mig.
Proof. intros (Hn & Hb & _). unfold reads, row_reads. by rewrite Hn, Hb. Qed.
Lemma evolves_reads es es' migs : evolves es es' → Forall2 reads es migs → Forall2 reads es' migs.
Proof.
  intros He. revert migs. induction He as [|e e' es es' Hl _ IH]; intros migs Hr.
  { by apply Forall2_nil_inv_l in Hr as ->. }
  apply Forall2_cons_inv_l in Hr as (mig & migs' & Hmig & Hr & ->). constructor; [|by apply IH].
  by eapply later_reads.
Qed.
Lemma evolves_types es es' :
  evolves es es' → Forall (λ e, e_type e ≠ MigrationTypeBaseline) es →
  Forall (λ e, e_type e ≠ MigrationTypeBaseline) es'.
Proof.
  induction 1 as [|e e' es es' (_ & _ & Ht & _) _ IH]; intros [? ?]%Forall_cons || intros _; constructor; [by rewrite Ht|auto].
Qed.

Section split.
Context low b fwd (fmigs : list Migration) (Hseg : sealed_segment low b fwd fmigs).
Abbreviation below := (low ++ [b]).
Abbreviation es := (below ++ fwd).

(** The inverses lie on top of the segment, with whatever status. *)
Definition expanded invs (w : World (Store J C)) : Prop :=
  hsome m (λ x, ∃ added, Forall2 pushed invs added ∧ evolves (es ++ added) x) w.

Context (plan : SealedRevertPlan) (Hplan : plan_to b fwd plan) (Hb : own_boundary b).
Context (Hdec : Forall decodes (Plan_Inverses plan)).

Lemma interrupted_later added low' b' fwd' added' :
  Forall2 pushed (Plan_Inverses plan) added → later b b' → evolves fwd fwd' → evolves added added' →
  interrupted low' b' fwd' added' fmigs (Plan_Inverses plan).
Proof.
  intros Hp Hlb Hf Ha. destruct Hplan as (_ & _ & Hn & Hr). destruct Hb as (Hne & bm & Hbm & Hown).
  pose proof (later_reads _ _ _ Hlb Hbm) as Hbm'. destruct Hlb as (Hbn & _ & _ & _).
  assert (Forall2 reads added (Plan_Inverses plan)) as Hadded.
  { clear -Hp Hdec. induction Hp as [|inv e invs added Hi _ IH]; [constructor|].
    apply Forall_cons in Hdec as [Hd Hdec']. constructor; auto. }
  split.
  - eapply evolves_reads; [exact Hf|apply (seg_reads _ _ _ _ Hseg)].
  - by eapply evolves_reads.
  - intros ->. apply Forall2_nil_inv_r in Ha. subst added. apply Forall2_nil_inv_r in Hp.
    rewrite Hp in Hr. symmetry in Hr. apply (f_equal length) in Hr. cbn in Hr. unfold e_names in Hr.
    rewrite length_reverse, length_fmap in Hr. by apply length_zero_iff_nil, (seg_some _ _ _ _ Hseg) in Hr.
  - apply (seg_fmigs _ _ _ _ Hseg).
  - by rewrite Hr, (evolves_names _ _ Hf).
  - unfold e_names in *. rewrite fmap_cons, Hbn. change (e_name <$> fwd') with (e_names fwd').
    rewrite (evolves_names _ _ Hf), not_elem_of_cons. split; [done|]. apply (seg_names _ _ _ _ Hseg).
  - apply Forall_app. split; [by eapply evolves_types, (seg_types _ _ _ _ Hseg)|].
    eapply evolves_types; [done|]. clear -Hp. induction Hp as [|inv e invs added (_ & _ & Ht) _ IH]; constructor; [|done].
    by rewrite Ht.
  - destruct (decide (e_type b' = MigrationTypeBaseline)); [by left|]. right. split; [done|]. by exists bm.
Qed.
(** Under the newest migration of a contracted history all are sealed. *)
Lemma contracted_below es0 x up :
  wf_history (x ++ up) → up ≠ [] → contracted es0 (x ++ up) → Forall (λ e, e_status e = Sealed) x.
Proof.
  intros (ck & t & Hwf) Hup [_ Hs]. apply Forall_app in Hs as [Hs _]. apply Forall_forall. intros e He.
  rewrite Forall_forall in Hs. destruct (Hs e He) as [|Ha]; [done|exfalso].
  apply list_elem_of_split in He as (pre & post & ->).
  pose proof (wf_active _ _ _ Hwf pre e (post ++ up)) as Hn. rewrite <-app_assoc in Hn.
  specialize (Hn eq_refl Ha). by apply app_nil in Hn as [_ ->].
Qed.

Definition split_state invs (w : World (Store J C)) : Prop := expanded invs w ∨ undone below fmigs w.

Lemma leads_finish_split added :
  Forall2 pushed (Plan_Inverses plan) added →
  leads (split_state (Plan_Inverses plan)) (hsome m (contracted (es ++ added)))
    (finishPendingRevert m) (λ _, undone below fmigs).
Proof.
  intros Hp w (x & Hw & Hc). pose proof Hc as [Hev _].
  apply Forall2_app_inv_l in Hev as (x' & added' & Hx' & Ha & ->).
  apply Forall2_app_inv_l in Hx' as (low1 & fwd' & Hl & Hf & ->).
  apply Forall2_app_inv_l in Hl as (low' & b1 & Hl & Hb1 & ->).
  apply Forall2_cons_inv_l in Hb1 as (b' & ? & Hb' & Hnil & ->). apply Forall2_nil_inv_l in Hnil as ->.
  pose proof (interrupted_later added low' b' fwd' added' Hp Hb' Hf Ha) as Hi.
  destruct (hist_wf m _ _ Hw) as (ck & t & Hwf). rewrite <-(app_assoc _ fwd') in Hw, Hwf, Hc.
  assert (evolves below (low' ++ [b'])) as Hbelow by (apply Forall2_app; [done|by constructor]).
  assert (∀ w1, finished m (low' ++ [b']) fmigs w1 → undone below fmigs w1) as Hdone.
  { intros w1 Hfin. exists (low' ++ [b']). split; [|done]. split; [done|].
    eapply contracted_below; [by eexists _, _| |exact Hc]. intros [_ Hn]%app_nil.
    by apply (int_some _ _ _ _ _ _ Hi). }
  assert (∀ w1, unfinished m ((low' ++ [b']) ++ fwd' ++ added') w1 → expanded (Plan_Inverses plan) w1) as Hun.
  { intros w1 (T & Hh & _). eexists. split; [exact Hh|]. exists added. split; [done|].
    rewrite <-app_assoc. repeat (apply Forall2_app; [done|]). done. }
  pose proof (leads_FinishPending m low' b' fwd' added' fmigs _ Hi (wf_names _ _ _ Hwf) ck t Hwf
    (st_reverted (w_db w))) as Hfp.
  apply (leads_wrap_err _ _ (ErrorfW "failed to finish the pending revert: %w" [])) in Hfp.
  specialize (Hfp w (conj Hw eq_refl)). unfold finishPendingRevert, mbind, prog_bind.
  destruct (wrap_err _ (FinishPendingSealedRevert m) w) as [[p|e| |] w1].
  1: cbn; apply Hdone; by destruct Hfp.
  all: cbn; destruct Hfp; [left; by apply Hun|right; by apply Hdone].
Qed.

Lemma leads_completeCmd_split fuel force :
  leads (split_state (Plan_Inverses plan)) (expanded (Plan_Inverses plan))
    (completeCmd m fuel force) (λ _, undone below fmigs).
Proof.
  intros w (x & Hw & added & Hp & Hx). set (E := es ++ added) in *.
  assert (hsome m (evolves E) w) as Hs by (by exists x). clear x Hw Hx. revert w Hs.
  assert (∀ w, hsome m (evolves E) w → split_state (Plan_Inverses plan) w) as Hstill.
  { intros w. intros (x & Hw & Hx). left. exists x. split; [done|]. by exists added. }
  assert (∀ A I (p : M (Store J C) A) Q, leads (hsome m (evolves E)) I p Q →
    leads (split_state (Plan_Inverses plan)) I p Q) as Hout by (intros; by eapply leads_outside).
  unfold completeCmd. eapply leads_bind; [apply Hout, leads_try, (leads_Complete_full m)|].
  intros [[]|e].
  - eapply leads_weaken; [by apply (leads_finish_split added)| |done].
    intros w. apply hsome_mono. intros x [Hx Hall]. split; [done|]. eapply Forall_impl; [exact Hall|]. by left.
  - destruct (decide _); [|intros w Hw; by apply Hstill].
    eapply leads_bind; [apply Hout, (leads_FinishContraction m)|]. intros []. by apply leads_finish_split.
Qed.
End split.

(** C19. Undoing sealed history.  From a history that is sealed above and below
    the migration [b], [Roll.RevertSealed] to [b] plans one inverse per
    migration above it, newest first, and on success neither they nor their
    inverses are left: what was below is, still sealed, and every reverted
    migration has the tombstone of its content; with [expandOnly] it stops
    with every inverse applied on top and the history below unchanged.
    Whatever fails on the way, the segment is still whole, with some of the
    inverses applied on top in their order, or it is gone with all tombstones
    in place. *)
Theorem RevertSealed_spec low b fwd fmigs fuel expandOnly w :
  sealed_segment low b fwd fmigs → hist m ((low ++ [b]) ++ fwd) w →
  match RevertSealed m CreateTriggers Backfill_Start fuel (e_name b) expandOnly w with
  | (Ok p, w') => sealed_revert_result low b fwd fmigs expandOnly p w'
  | (_, w') => sealed_revert_stopped low b fwd fmigs w'
  end.
Proof.
  intros Hseg Hw. destruct (hist_wf m _ _ Hw) as (ck & t & Hwf).
  apply (leads_RevertSealed low b fwd fmigs Hseg ck t Hwf fuel expandOnly w Hw).
Qed.

(** C20. A revert in two steps.  [Roll.RevertSealed] with [expandOnly] from a
    sealed history ends with every inverse on top of the segment.  From any
    such history, whatever statuses earlier attempts have left, [pgroll
    complete] that succeeds leaves what [RevertSealed] leaves in one step: the
    segment and its inverses are gone, what was below is sealed, and every
    reverted migration has its tombstone.  One that fails leaves a history it
    can be run on again, or the revert done but for the version schema of the
    boundary. *)
Theorem split_revert_spec low b fwd fmigs fuel fuel' force w :
  sealed_segment low b fwd fmigs → own_boundary b → hist m ((low ++ [b]) ++ fwd) w →
  match RevertSealed m CreateTriggers Backfill_Start fuel (e_name b) true w with
  | (Ok p, w1) => ∃ plan, p = Some plan ∧ plan_to b fwd plan ∧
      expanded low b fwd (Plan_Inverses plan) w1 ∧
      (Forall decodes (Plan_Inverses plan) →
       ∀ w2, expanded low b fwd (Plan_Inverses plan) w2 →
       match completeCmd m fuel' force w2 with
       | (Ok _, w3) => undone (low ++ [b]) fmigs w3
       | (_, w3) => split_state low b fwd fmigs (Plan_Inverses plan) w3
       end)
  | (_, w1) => sealed_revert_stopped low b fwd fmigs w1
  end.
Proof.
  intros Hseg Hb Hw. destruct (hist_wf m _ _ Hw) as (ck & t & Hwf).
  pose proof (leads_RevertSealed low b fwd fmigs Hseg ck t Hwf fuel true w Hw) as Hr.
  destruct (RevertSealed m CreateTriggers Backfill_Start fuel (e_name b) true w) as [[p|e| |] w1]; try exact Hr.
  destruct Hr as (plan & -> & Hplan & Hexp). exists plan. split_and!; [done..| |].
  - eapply hsome_mono; [|exact Hexp]. intros x (added & -> & Hp). exists added. by split.
  - intros Hdec w2 Hw2. by apply (leads_completeCmd_split low b fwd fmigs Hseg plan Hplan Hb Hdec fuel' force w2 Hw2).
Qed.
End train.

(** ** The command *)

Lemma segmentOf_through history i to through seg :
  through ≠ "" → segmentOf history i to through = Ok seg → seg ≠ [].
Proof.
  unfold segmentOf. intros Ht. rewrite decide_False by done.
  destruct (position through history) as [t|] eqn:Hp; [|done].
  unfold position in Hp. destruct (list_find _ history) as [[k raw]|] eqn:Hf; [|done].
  injection Hp as <-. apply list_find_Some in Hf as (Hk & _ & _). apply lookup_lt_Some in Hk.
  set (lower := match i with Some i => S i | None => 0 end).
  destruct (Nat.ltb_spec k lower) as [|Hle]; [done|].
  intros [= <-] Hnil. apply (f_equal length) in Hnil. rewrite length_drop, length_take in Hnil.
  cbn [length] in Hnil. lia.
Qed.

Section command.
Context `{!Pq} {J C : Type} `{!Json J} `{!Catalogue C} `{!DB C} `{!Codec} `{!Console C} `{!PqText}.
Context (m : Roll (Store J C)).
Context (CreateTriggers : Job → M (Store J C) ()) (Backfill_Start : string → loc → M (Store J C) ()).
Context `{!QuietHooks m} `{!QuietBackfill m CreateTriggers Backfill_Start}.
Implicit Types (b e : entry J) (low fwd win : list (entry J)).

(** A question leaves the history as it is. *)
Lemma leads_confirm {A} S es yes q (k : bool → M (Store J C) A) Q :
  (∀ a, leads S (hist m es) (k a) Q) → leads S (hist m es) (confirm yes q ≫= k) Q.
Proof.
  intros Hk w Hw. unfold confirm. destruct yes; [by apply (Hk true)|].
  unfold on_state, mbind, prog_bind, console_confirm, Store_console. cbn.
  destruct (console_confirm q (st_db (w_db w))) as [a c]. cbn.
  assert (hist m es (set_w_db (set_st_db c (w_db w)) w)) as Hw' by exact Hw.
  by apply (Hk a).
Qed.

#[local] Instance hist_readonly es : ReadOnly m (hist m es).
Proof. apply store_readonly; [apply _|]. intros. apply inv_query. Qed.

(** The lower end of a composed revert is not empty. *)
Lemma leads_PlanBelow es to through :
  leads (hist m es) (hist m es) (PlanRevertSealedBelowWindow m to through) (λ p w, hist m es w ∧ p ≠ None).
Proof.
  unfold PlanRevertSealedBelowWindow, planSealedSegment.
  eapply (leads_bind_read _ _ _ _ (λ _, through ≠ "")).
  { intros w Hw. unfold fail_if. by case_bool_decide. }
  intros [] Ht. eapply leads_bind; [apply leads_reading; by pres_steps|]. intros history.
  eapply leads_bind; [apply leads_reading; by pres_steps|]. intros [].
  eapply (leads_bind_read _ _ _ _ (λ l, l ≠ [])).
  { intros w Hw. unfold lift. destruct (segmentOf _ _ _ _) as [seg|?| |] eqn:Hs; try done.
    split; [done|]. by eapply segmentOf_through. }
  intros seg Hseg. rewrite decide_False by done.
  do 5 (eapply leads_bind; [apply leads_reading; by pres_steps|]; intros ?).
  eapply leads_bind; [apply leads_reading; by pres_steps|]. intros bmig. by apply leads_ret.
Qed.

Section window.
Context (low : list (entry J)) (b : entry J) (fwd : list (entry J)) (fmigs : list Migration).
Context (win : list (entry J)) (wmigs : list Migration).
Context (Hseg : sealed_segment low b fwd fmigs) (Hb : e_name b ≠ "").
Context (Hwin : Forall unsealed win) (Hreads : Forall2 reads win wmigs).
Context (Hwmigs : Forall (λ mig, Migration_RevertOf mig = "") wmigs).
Abbreviation base := ((low ++ [b]) ++ fwd).
Abbreviation es := (base ++ win).
Context (clock : nat → Z) (ticks : nat) (Hwf : history_wf clock ticks es).

Lemma base_sealed : Forall (λ e, ¬ unsealed e) base.
Proof. eapply Forall_impl; [apply (seg_sealed _ _ _ _ Hseg)|]. unfold unsealed. by intros e ->. Qed.

(** The history has one window. *)
Lemma window_unique low' win' :
  es = low' ++ win' → Forall unsealed win' → Forall (λ e, ¬ unsealed e) low' → low' = base ∧ win' = win.
Proof.
  intros Heq Hu Hs. assert (∀ k : list (entry J), Forall unsealed k → Forall (λ e, ¬ unsealed e) k → k = []) as Hnone.
  { intros [|e k]; [done|]. by intros [? _]%Forall_cons [? _]%Forall_cons. }
  apply app_eq_inv in Heq as [(k & Hk & ->)|(k & -> & Hk)].
  - apply Forall_app in Hu as [Hu _]. pose proof base_sealed as Hbs. rewrite Hk in Hbs.
    apply Forall_app in Hbs as [_ Hbs]. rewrite (Hnone k Hu Hbs) in *. by rewrite Hk, app_nil_r.
  - pose proof Hwin as Hw. rewrite Hk in Hw. apply Forall_app in Hw as [Hw _].
    apply Forall_app in Hs as [_ Hs]. rewrite (Hnone k Hw Hs) in *. by rewrite Hk, app_nil_r.
Qed.

Lemma leads_not_pending :
  leads (hist m es) (hist m es) (PendingSealedRevertResume m) (λ r w, hist m es w ∧ r = false).
Proof.
  unfold PendingSealedRevertResume. eapply (leads_bind_read _ _ _ _ (records_of es)).
  { apply (leads_look m es CUnsealed); [done..|]. intros rs now a Ha. by apply map_outcome_ok. }
  intros records Hrecords. destruct (decide (records ≠ [])) as [Hne|Hnil].
  - apply leads_ret. intros w Hw. split; [done|]. destruct records as [|r records]; [done|].
    unfold records_of in Hrecords. apply Forall2_cons_inv_r in Hrecords as (pe & pes & Hr & _ & Hpes).
    assert (pe ∈ pe :: pes) as Hin by left. rewrite <-Hpes in Hin.
    apply elem_of_reverse, list_elem_of_filter in Hin as [Hu Hin%with_parents_in].
    apply elem_of_app in Hin as [Hin|Hin].
    { pose proof base_sealed as Hbs. rewrite Forall_forall in Hbs. by destruct (Hbs _ Hin). }
    apply list_elem_of_lookup in Hin as [i Hi].
    destruct (Forall2_lookup_l _ _ _ _ _ Hreads Hi) as (mig & Hmig & Hread).
    unfold to_record in Hr. rewrite (decode_reads _ _ _ Hread) in Hr. injection Hr as <-. cbn.
    pose proof Hwmigs as Hall. rewrite Forall_forall in Hall.
    by rewrite (Hall mig) by (by eapply list_elem_of_lookup_2).
  - assert (records = []) as -> by (destruct records; [done|by destruct Hnil]).
    pose proof (records_length es [] Hrecords) as Hlen. symmetry in Hlen. apply length_zero_iff_nil in Hlen.
    rewrite filter_app, (filter_all unsealed win) in Hlen by (by apply Forall_forall).
    apply app_nil in Hlen as [_ Hnone]. rewrite Hnone, app_nil_r.
    destruct (segment_leaf _ _ _ _ Hseg) as (e & mig & Htop & He & Hmig & Hinv).
    eapply (leads_bind_read _ _ _ _ (λ l, l = Some (e_name e))).
    { apply (leads_look m base CLatestMigration); try done. intros rs now a [= <-]. exact Htop. }
    intros ? ->. pose proof (wf_names _ _ _ Hwf) as Hn. rewrite Hnone, app_nil_r in Hn.
    eapply leads_bind_read; [by apply (leads_look_up m base e mig)|].
    intros leaf ->. apply leads_ret. intros w Hw. by rewrite Hinv.
Qed.

(** The boundary is below the window: the window's plan refuses it. *)
Lemma boundary_below low' win' :
  es = low' ++ win' → Forall unsealed win' → top low' ≠ Some (e_name b).
Proof.
  intros Heq Hu Htop. pose proof (wf_names _ _ _ Hwf) as Hn. unfold top in Htop.
  destruct low' as [|x l _] using rev_ind; [done|]. rewrite last_snoc in Htop. injection Htop as Hx.
  assert (x = b) as ->.
  { apply (names_inj_entry es); [done|..|done].
    - rewrite Heq. apply elem_of_app. left. apply elem_of_app. right. left.
    - apply elem_of_app. left. apply elem_of_app. left. apply elem_of_app. right. left. }
  rewrite <-!app_assoc in Heq. cbn [app] in Heq.
  pose proof (seg_sealed _ _ _ _ Hseg) as Hs. apply Forall_app in Hs as [_ Hs].
  unfold e_names in Hn. rewrite <-!app_assoc in Hn. cbn [app] in Hn.
  apply NoDup_fmap_1, NoDup_app in Hn as (_ & Hlow & [Hup _]%NoDup_cons).
  assert (win' = fwd ++ win) as ->.
  { apply app_eq_inv in Heq as [([|y k] & Hl & Hk)|([|y k] & Hl & Hk)];
      pose proof (f_equal head Hk) as Hy; apply (f_equal tl) in Hk; cbn in Hy, Hk; [done| |done|]; exfalso;
      assert (y = b) as -> by congruence.
    - apply (Hlow b); [rewrite Hl; apply elem_of_app; right|]; left.
    - apply Hup. rewrite Hk. apply elem_of_app. right. left. }
  apply Forall_app in Hu as [Hu _]. apply (seg_some _ _ _ _ Hseg).
  destruct fwd as [|f l']; [done|]. apply Forall_cons in Hu as [Hu _]. apply Forall_cons in Hs as [Hs _].
  unfold unsealed in Hu. by rewrite Hs in Hu.
Qed.
Lemma leads_refused :
  leads (hist m es) (hist m es) (try (RevertPlan m (mkRevertOptions 0 (e_name b))))
    (λ r w, hist m es w ∧ ∃ err, r = inr err).
Proof.
  eapply leads_weaken; [apply leads_try, leads_RevertPlan|done|].
  intros [ts|err] w; [|by eauto]. intros (_ & low' & win' & (Hes & Hu & _) & Hto & _).
  by destruct (boundary_below low' win' Hes Hu (Hto Hb)).
Qed.

(** What the command has done, by what it reports *)
Definition sealed_reported (expandOnly : bool) (r : revertDone) (w : World (Store J C)) : Prop :=
  match r with
  | SealedReverted p => sealed_revert_result m low b fwd fmigs expandOnly p w
  | Declined | Previewed _ => hist m es w
  | _ => False
  end.
Definition revert_stopped (w : World (Store J C)) : Prop :=
  peeled m es w ∨ sealed_revert_stopped m low b fwd fmigs w.

Lemma stopped_at_once w : hist m es w → revert_stopped w.
Proof. intros Hw. left. by apply none_peeled. Qed.
Lemma leads_at_once {A} (p : M (Store J C) A) Q :
  leads (hist m es) (hist m es) p Q → leads revert_stopped (hist m es) p Q.
Proof. intros Hp. eapply leads_outside; [done|]. apply stopped_at_once. Qed.

(** The inversion leg, on the sealed history *)
Lemma leads_inversion fuel expandOnly :
  leads revert_stopped (hist m base)
    (result ← RevertSealed m CreateTriggers Backfill_Start fuel (e_name b) expandOnly;
     mret (SealedReverted result)) (sealed_reported expandOnly).
Proof.
  intros w Hw. destruct (hist_wf m _ _ Hw) as (ck & t & Hbwf). revert w Hw. eapply leads_bind.
  - eapply leads_outside; [by apply (leads_RevertSealed m CreateTriggers Backfill_Start low b fwd fmigs Hseg ck t Hbwf)|].
    intros w Hw. by right.
  - intros p. by apply leads_ret.
Qed.

Lemma leads_window_taken fuel :
  leads revert_stopped (hist m es) (Roll_Revert m fuel (mkRevertOptions 0 "")) (λ _, hist m base).
Proof.
  eapply leads_weaken; [eapply leads_outside; [apply leads_Roll_Revert|by left]|done|].
  intros ts w (low' & win' & Heq & Hu & Hw & _ & _ & _ & Hall).
  destruct (Hall eq_refl) as [[? _]|Hs]; [cbn in *; lia|].
  by destruct (window_unique low' win' Heq Hu Hs) as [-> _].
Qed.

Lemma leads_runSealedRevert fuel yes expandOnly :
  leads revert_stopped (hist m es)
    (runSealedRevert m CreateTriggers Backfill_Start fuel (e_name b) yes expandOnly)
    (sealed_reported expandOnly).
Proof.
  unfold runSealedRevert. eapply leads_bind_read; [apply leads_at_once, leads_wrap_err, leads_RevertTargets|].
  intros ts (low' & win' & Hts & Hs). pose proof Hts as (Heq & Hu & _).
  destruct (window_unique low' win' Heq Hu Hs) as [-> ->]. clear Heq Hu Hs.
  assert (∀ plan : option SealedRevertPlan, leads revert_stopped (hist m es)
    (ok ← confirm yes "Revert %d migration(s)?";
     if negb ok then mret Declined
     else (if decide (ts = []) then mret [] else Roll_Revert m fuel (mkRevertOptions 0 "")) ;;
       match plan with
       | None => mret (SealedReverted None)
       | Some _ =>
           result ← RevertSealed m CreateTriggers Backfill_Start fuel (e_name b) expandOnly;
           mret (SealedReverted result)
       end) (λ r w, plan ≠ None → sealed_reported expandOnly r w)) as Hrun.
  { intros plan. apply leads_confirm. intros [|]; cbn [negb]; [|by apply leads_ret].
    eapply (leads_bind _ _ _ _ (λ _, hist m base)).
    - destruct (decide (ts = [])) as [->|_]; [|apply leads_window_taken].
      apply leads_ret. destruct Hts as (_ & _ & Hwts). apply Forall2_length in Hwts.
      rewrite length_reverse, with_parents_length in Hwts. symmetry in Hwts. apply length_zero_iff_nil in Hwts.
      rewrite Hwts, app_nil_r. done.
    - intros _. destruct plan; [|by apply leads_ret].
      eapply leads_weaken; [apply leads_inversion|done|done]. }
  destruct (last ts) as [oldest|] eqn:Hlast.
  - assert (win ≠ []) as Hne.
    { intros ->. destruct Hts as (_ & _ & Hwts). by apply Forall2_nil_inv_r in Hwts as ->. }
    pose proof (last_parent _ _ _ _ Hts Hne) as Hp. rewrite Hlast in Hp. cbn in Hp. rewrite Hp.
    destruct (segment_leaf _ _ _ _ Hseg) as (e & _ & -> & _).
    eapply leads_bind_read; [apply leads_at_once, leads_PlanBelow|]. intros [plan|] Hplan; [|done].
    eapply leads_weaken; [apply (Hrun (Some plan))|done|]. intros r w Hr. by apply Hr.
  - apply last_None in Hlast as ->.
    assert (win = []) as Hnil.
    { destruct Hts as (_ & _ & Hwts). apply Forall2_length in Hwts.
      rewrite length_reverse, with_parents_length in Hwts. symmetry in Hwts. by apply length_zero_iff_nil in Hwts. }
    assert (es = base) as Hes by (by rewrite Hnil, app_nil_r).
    eapply (leads_bind_read _ _ _ _ (λ p, p ≠ None)).
    { apply leads_at_once. pose proof Hwf as Hbwf. rewrite Hes in Hbwf |- *.
      eapply leads_weaken; [by eapply (leads_PlanRevertSealed m low b fwd fmigs Hseg)|done|].
      intros p w (Hw & plan & -> & _). done. }
    intros [plan|] Hplan; [|done].
    eapply leads_weaken; [apply (Hrun (Some plan))|done|]. intros r w Hr. by apply Hr.
Qed.

Lemma leads_revertCmd fuel fl :
  rf_to fl = e_name b → (rf_steps fl <= 0)%Z →
  leads revert_stopped (hist m es) (revertCmd m CreateTriggers Backfill_Start fuel fl)
    (sealed_reported (rf_expandOnly fl)).
Proof.
  intros Hto Hsteps. unfold revertCmd. rewrite Hto.
  eapply leads_bind; [apply leads_at_once, leads_reading; by pres_steps|]. intros [].
  destruct (rf_dryRun fl).
  { eapply leads_bind; [apply leads_at_once, leads_reading, ro_previewCmd, hist_readonly|].
    intros view. by apply leads_ret. }
  eapply (leads_bind_read _ _ _ _ (λ r, r = None)).
  { apply leads_at_once. unfold maybeResumeSealedRevert.
    eapply leads_bind_read; [apply leads_not_pending|]. intros ? ->. by apply leads_ret. }
  intros ? ->. destruct (Z.ltb_spec 0 (rf_steps fl)); [lia|]. rewrite decide_False by done.
  unfold revertTo. rewrite Hto. eapply leads_bind_read; [apply leads_at_once, leads_refused|].
  intros ? (err & ->). destruct (decide _); [apply leads_runSealedRevert|]. intros w Hw. by apply stopped_at_once.
Qed.
End window.

(** C18. A composed revert.  [pgroll revert --to b], for a sealed [b] with
    sealed migrations above it and possibly a window in flight above those,
    reports one of three things: it was declined or previewed, and the history
    is what it was; or the sealed part has been reverted, the window having
    been taken off first, with the result of [RevertSealed].  It never reports
    that nothing was to be done.  Whatever fails, some of the window's newest
    migrations are gone and nothing else; or the window is gone and the sealed
    part is as an interrupted [RevertSealed] leaves it. *)
Theorem revertCmd_spec low b fwd win fmigs wmigs fuel fl w :
  sealed_segment low b fwd fmigs → e_name b ≠ "" →
  Forall unsealed win → Forall2 reads win wmigs → Forall (λ mig, Migration_RevertOf mig = "") wmigs →
  rf_to fl = e_name b → (rf_steps fl <= 0)%Z →
  hist m (((low ++ [b]) ++ fwd) ++ win) w →
  match revertCmd m CreateTriggers Backfill_Start fuel fl w with
  | (Ok r, w') => sealed_reported low b fwd fmigs win (rf_expandOnly fl) r w'
  | (_, w') => revert_stopped low b fwd fmigs win w'
  end.
Proof.
  intros Hseg Hb Hwin Hreads Hmigs Hto Hsteps Hw. destruct (hist_wf m _ _ Hw) as (ck & t & Hwf).
  by apply (leads_revertCmd low b fwd fmigs win wmigs Hseg Hb Hwin Hreads Hmigs ck t Hwf fuel fl Hto Hsteps w Hw).
Qed.
End command.

(** ** A concrete deployment: two renames above the boundary *)

Definition deployed_migrations : list Migration :=
  [rename_migration "02_ab" "a" "b"; rename_migration "03_bc" "b" "c"; rename_migration "04_cd" "c" "d";
   rename_migration "05_de" "d" "e"].
Definition inverse_rename (name from to version : string) : Migration :=
  mkMigration ("revert_" +:+ name) version [RenameColumn_ (mkOpRenameColumn from "users" to)] [] [] false
    false [] name.
Definition deployed_inverses : list Migration :=
  [inverse_rename "04_cd" "d" "c" ""; inverse_rename "03_bc" "c" "b" "02_ab"].
#[local] Instance deployed_codec : Codec := codec_of (deployed_migrations ++ deployed_inverses).
Definition deployed_catalog (column : string) : PgCatalog :=
  mkPgCatalog {["users"]} {[("users", "id"); ("users", column)]} ∅ ∅.
Definition deployed_b : entry Migration :=
  mkEntry "02_ab" (rename_migration "02_ab" "a" "b") 0 (Some (mem_users (deployed_catalog "b")))
    MigrationTypePgroll Sealed.
Definition deployed_fwd : list (entry Migration) :=
  [mkEntry "03_bc" (rename_migration "03_bc" "b" "c") 1 None MigrationTypePgroll Sealed;
   mkEntry "04_cd" (rename_migration "04_cd" "c" "d") 2 (Some (mem_users (deployed_catalog "d")))
     MigrationTypePgroll Sealed].
Definition deployed_fmigs : list Migration := take 2 (tl deployed_migrations).
Definition deployed_world : World mem_store :=
  mkWorld New ∅ (mkStore (mkMem (deployed_catalog "d") ["public_04_cd"] mem_users)
    {["public" := rows_of (deployed_b :: deployed_fwd)]} ∅ Z.of_nat 3) 0.

Lemma deployed_hist : hist (C := mem) mem_roll (([] ++ [deployed_b]) ++ deployed_fwd) deployed_world.
Proof.
  split; [intros i j; cbn; lia|]. split; [reflexivity|]. split.
  - decide_goal.
  - by repeat constructor.
  - intros e t He Ht. cbn in He, Ht. repeat (apply elem_of_cons in He as [->|He]; [cbn; lia|]).
    by apply not_elem_of_nil in He.
  - intros [|x1 [|x2 [|x3 [|x4 pre]]]] x post Heq; unfold deployed_fwd in Heq; by simplify_eq/=.
  - intros e He. cbn in He. repeat (apply elem_of_cons in He as [->|He]; [by left|]).
    by apply not_elem_of_nil in He.
  - intros e He. cbn in He. repeat (apply elem_of_cons in He as [->|He]; [done|]).
    by apply not_elem_of_nil in He.
Qed.
Lemma deployed_segment : sealed_segment [] deployed_b deployed_fwd deployed_fmigs.
Proof.
  split; try done.
  - repeat (apply Forall2_cons; split; [split; [reflexivity|intros raw [= <-]; reflexivity]|]). constructor.
  - by repeat constructor.
  - decide_goal.
  - by repeat constructor.
  - by repeat constructor.
Qed.

Lemma RevertSealed_spec_witness :
  is_ok (RevertSealed mem_roll no_triggers no_rows 10 "02_ab" false deployed_world).1 = true ∧
  undone (C := mem) mem_roll [deployed_b] deployed_fmigs
    (RevertSealed mem_roll no_triggers no_rows 10 "02_ab" false deployed_world).2.
Proof.
  assert (is_ok (RevertSealed mem_roll no_triggers no_rows 10 "02_ab" false deployed_world).1 = true) as Hok
    by (vm_compute; reflexivity).
  split; [exact Hok|].
  pose proof (RevertSealed_spec (C := mem) mem_roll no_triggers no_rows [] deployed_b deployed_fwd
    deployed_fmigs 10 false deployed_world deployed_segment deployed_hist) as Hs.
  change (e_name deployed_b) with "02_ab" in Hs.
  destruct (RevertSealed _ _ _ _ _ _ _) as [[p|e| |] w']; try discriminate Hok. by destruct Hs as (? & _ & _ & ?).
Defined.

(** The revert in two steps *)
Definition two_steps : M mem_store () :=
  RevertSealed mem_roll no_triggers no_rows 10 "02_ab" true ;; completeCmd mem_roll 10 false.

Lemma deployed_decodes : Forall (decodes (J := Migration)) deployed_inverses.
Proof.
  apply Forall_cons; split; [|apply Forall_cons; split; [|constructor]]; intros [n body p s t st] (Hn & [= Hb] & _);
    cbn in *; subst; (split; [done|by intros raw [= <-]]).
Qed.
Lemma split_revert_spec_witness :
  is_ok (two_steps deployed_world).1 = true ∧
  undone (C := mem) mem_roll [deployed_b] deployed_fmigs (two_steps deployed_world).2.
Proof.
  assert (is_ok (two_steps deployed_world).1 = true) as Hok by (vm_compute; reflexivity).
  split; [exact Hok|].
  assert (own_boundary (J := Migration) deployed_b) as Hb.
  { split; [done|]. exists (rename_migration "02_ab" "a" "b"). split; [|done].
    split; [reflexivity|]. by intros raw [= <-]. }
  pose proof (split_revert_spec (C := mem) mem_roll no_triggers no_rows [] deployed_b deployed_fwd
    deployed_fmigs 10 10 false deployed_world deployed_segment Hb deployed_hist) as Hs.
  assert (match (RevertSealed mem_roll no_triggers no_rows 10 "02_ab" true deployed_world).1 with
    | Ok (Some plan) => Plan_Inverses plan = deployed_inverses | _ => False end) as Hr by (vm_compute; reflexivity).
  unfold two_steps, mbind, prog_bind in *. change (e_name deployed_b) with "02_ab" in Hs.
  destruct (RevertSealed _ _ _ _ _ _ _) as [[[plan|]|e| |] w1]; try done. cbn [fst snd] in *.
  destruct Hs as (? & [= <-] & _ & Hexp & Hc). rewrite Hr in Hc, Hexp.
  specialize (Hc deployed_decodes w1 Hexp). destruct (completeCmd _ _ _ w1) as [[[]|e| |] w3]; try discriminate Hok.
  exact Hc.
Defined.

(** The same deployment with one migration in flight above it *)
#[local] Instance deployed_console : Console mem := λ _ d, (true, d).
#[local] Instance deployed_text : PqText := λ _ message, message.
Definition deployed_win : list (entry Migration) :=
  [mkEntry "05_de" (rename_migration "05_de" "d" "e") 3 (Some (mem_users (deployed_catalog "e")))
     MigrationTypePgroll Deferred].
Definition flying_world : World mem_store :=
  mkWorld New ∅ (mkStore (mkMem (deployed_catalog "d") ["public_04_cd"; "public_05_de"] mem_users)
    {["public" := rows_of (((([] ++ [deployed_b]) ++ deployed_fwd)) ++ deployed_win)]} ∅ Z.of_nat 4) 0.
Definition deployed_flags : revertFlags := mkRevertFlags true 0 "02_ab" false false.

Lemma flying_hist :
  hist (C := mem) mem_roll ((([] ++ [deployed_b]) ++ deployed_fwd) ++ deployed_win) flying_world.
Proof.
  split; [intros i j; cbn; lia|]. split; [reflexivity|]. split.
  - decide_goal.
  - by repeat constructor.
  - intros e t He Ht. cbn in He, Ht. repeat (apply elem_of_cons in He as [->|He]; [cbn; lia|]).
    by apply not_elem_of_nil in He.
  - intros [|x1 [|x2 [|x3 [|x4 [|x5 pre]]]]] x post Heq; unfold deployed_fwd, deployed_win in Heq; by simplify_eq/=.
  - intros e He. cbn in He. repeat (apply elem_of_cons in He as [->|He]; [by left|]).
    by apply not_elem_of_nil in He.
  - intros e He. cbn in He. repeat (apply elem_of_cons in He as [->|He]; [done|]).
    by apply not_elem_of_nil in He.
Qed.

Lemma revertCmd_spec_witness :
  match revertCmd mem_roll no_triggers no_rows 10 deployed_flags flying_world with
  | (Ok (SealedReverted (Some plan)), w') => Plan_Targets plan = ["04_cd"; "03_bc"] ∧
      undone (C := mem) mem_roll [deployed_b] deployed_fmigs w'
  | _ => False
  end.
Proof.
  assert (match (revertCmd mem_roll no_triggers no_rows 10 deployed_flags flying_world).1 with
    | Ok (SealedReverted (Some plan)) => Plan_Targets plan = ["04_cd"; "03_bc"] | _ => False end) as Hr
    by (vm_compute; reflexivity).
  assert (Forall2 reads deployed_win [rename_migration "05_de" "d" "e"]) as Hreads.
  { apply Forall2_cons. split; [split; [reflexivity|intros raw [= <-]; reflexivity]|constructor]. }
  pose proof (revertCmd_spec (C := mem) mem_roll no_triggers no_rows [] deployed_b deployed_fwd deployed_win
    deployed_fmigs _ 10 deployed_flags flying_world deployed_segment ltac:(discriminate)
    ltac:(by repeat constructor) Hreads ltac:(by repeat constructor) eq_refl ltac:(done) flying_hist) as Hs.
  destruct (revertCmd _ _ _ _ _ _) as [[[| | | | |[plan|]]|e| |] w']; try done.
  split; [exact Hr|]. by destruct Hs as (? & _ & _ & ?).
Defined.

(** ** A drain that fails is lost when the revert is resumed *)

(** A database whose statements on tables fail while [flaky_locked] *)
Record flaky := mkFlaky { flaky_mem : mem; flaky_locked : bool }.
Definition on_mem {A} (f : mem → outcome error A * mem) (d : flaky) : outcome error A * flaky :=
  let '(r, c) := f (flaky_mem d) in (r, mkFlaky c (flaky_locked d)).
#[local] Instance flaky_DB : DB flaky := {|
  ExecContext sql d :=
    if flaky_locked d && HasPrefix sql "ALTER TABLE"
    then (Err (Errorf "canceling statement due to lock timeout" []), d)
    else on_mem (ExecContext sql) d;
  QueryContext sql args := on_mem (QueryContext sql args);
  WithRetryableTransaction sqls := on_mem (WithRetryableTransaction sqls);
  is_fake := false;
  RetryBudget _ := 0%Z;
  expired d := (true, d);
|}.
#[local] Instance flaky_Catalogue : Catalogue flaky := {|
  catalogue_name_le := String.leb;
  catalogue_read_schema _ d := Ok (mem_users (mem_catalog (flaky_mem d)));
  catalogue_schemata d := mem_schemas (flaky_mem d);
|}.
Abbreviation flaky_store := (Store Migration flaky).
Definition locked_world : World flaky_store :=
  mkWorld New ∅ (mkStore (mkFlaky (mkMem (deployed_catalog "d") ["public_04_cd"] mem_users) true)
    {["public" := rows_of (deployed_b :: deployed_fwd)]} ∅ Z.of_nat 3) 0.
Definition unlock (w : World flaky_store) : World flaky_store :=
  set_w_db (set_st_db (mkFlaky (flaky_mem (st_db (w_db w))) false) (w_db w)) w.
Definition revert_to_02 : M flaky_store (option SealedRevertPlan) :=
  RevertSealed mem_roll (λ _, mret ()) (λ _ _, mret ()) 10 "02_ab" false.

(** The first run fails in the completion that was queued for the first
    inverse, after that inverse has been sealed.  The second run takes the
    last inverse back, finds a sealed one beneath it, and prunes that one: it
    reports the boundary [02_ab], but the history ends at [03_bc] and the
    column still has the name of [04_cd]. *)
Lemma resumed_revert_loses_drain :
  is_ok (revert_to_02 locked_world).1 = false ∧
  match revert_to_02 (unlock (revert_to_02 locked_world).2) with
  | (Ok (Some plan), w) =>
      Plan_Boundary plan = "02_ab" ∧ Plan_Targets plan = ["04_cd"] ∧
      (row_name <$> table "public" (w_db w)) = ["02_ab"; "03_bc"] ∧
      elements (pg_columns (mem_catalog (flaky_mem (st_db (w_db w))))) = [("users", "id"); ("users", "d")]
  | _ => False
  end.
Proof. split; [vm_compute; reflexivity|]. vm_compute. by split_and!. Qed.
