(* ===== verification/Files.v ===== *)
(** * Files: the commands that write migration files

    [writer.go], [updater.go] and the commands [pull], [baseline], [update]
    and [check] of [cmd/].  The migrations directory is a map from file names
    to texts; the encoders and decoders of YAML and JSON, and what the
    operating system answers when a file is created, are the class
    [FileFormat].  A command that fails part of the way returns its outcome
    beside the directory as it left it.

    [pull] adds files and never touches one; updating a file twice is updating
    it once. *)

From S2P Require Import Prelude.
From S2P Require Import GoStd.
From S2P Require Import Schema.
From S2P Require Import Types.
From S2P Require Import ErrorText.
From S2P Require Import Db.
From S2P Require Import WorldFacts.
From S2P Require Import Catalog.
From S2P Require Import Operations.
From S2P Require Import Migration.
From S2P Require Import LocalSet.
From S2P Require Import OpsJson.
From S2P Require Import ResolveFacts.
From S2P Require Import History.
From S2P Require Import State.
From S2P Require Import Lifecycle.
From S2P Require Import Rewrite.
From S2P Require Import Check.
From S2P Require Import Migrate.
From S2P Require Import Commands.
From S2P Require Import CommandFacts.
From S2P Require Import MemState.
From S2P Require Import Samples.

(** ** Writing *)

Inductive MigrationFormat := YAMLMigrationFormat | JSONMigrationFormat.

Definition NewMigrationFormat (useJSON : bool) : MigrationFormat :=
  if useJSON then JSONMigrationFormat else YAMLMigrationFormat.
Definition Extension (f : MigrationFormat) : string :=
  match f with YAMLMigrationFormat => "yaml" | JSONMigrationFormat => "json" end.

(** The texts of a migration, the strict decoding of a file by its extension,
    and the error of [os.Create] *)
Class FileFormat := {
  encode_raw : MigrationFormat → RawMigration → outcome error string;
  encode_migration : MigrationFormat → Migration → outcome error string;
  decode_file : string → string → outcome error RawMigration;
  os_Create_error : string → option error;
}.

(** The files of the migrations directory *)
Abbreviation disk := (gmap string string).

Section writing.
Context `{!FileFormat}.

Definition disk_dir (d : disk) : Dir := {|
  dir_entries := sorted_keys d;
  dir_decode f :=
    match d !! f with
    | None => Err (Errorf "opening migration file: %w" [f])
    | Some text => decode_file (filepath_Ext f) text
    end;
|}.

(** [os.Create] truncates the file; when the encoding fails it stays so. *)
Definition createFile (fileName : string) (text : outcome error string) : prog disk error () :=
  match os_Create_error fileName with
  | Some e => fail e
  | None =>
      modify <[fileName := ""]> ;;
      text ← lift text;
      modify <[fileName := text]>
  end.

(** The name of the file, within the directory *)
Definition writeMigrationToFile (m : RawMigration) (prefix : string) (useJSON : bool) :
    prog disk error string :=
  let format := NewMigrationFormat useJSON in
  let fileName := prefix +:+ m.(RawMigration_Name) +:+ "." +:+ Extension format in
  createFile fileName (encode_raw format m) ;; mret fileName.

(** [filePath] is empty whenever there is an error. *)
Definition writeMissing (useJSON : bool) (migs : list RawMigration) : prog disk error () :=
  for_each (λ mig,
    wrap_err (ErrorfW "failed to write migration %q: %w" [""])
      (writeMigrationToFile mig "" useJSON ;; mret ())) migs.
End writing.

(** ** Updating old files *)

(** A JSON value; a number by its text *)
#[warnings="-register-all"]
Inductive json :=
  | JNull
  | JBool (b : bool)
  | JNumber (n : string)
  | JString (s : string)
  | JArray (l : list json)
  | JObject (o : gmap string json).

(** What [Unmarshal] reads from a text and [Marshal] writes, and the error of
    a value of another type than the one asked for *)
Class JsonValue := {
  json_value : string → outcome error json;
  json_text : json → string;
  json_type_error : json → error;
}.

Section updater.

(** [columns] as a [[]string]: absent and [null] are empty, a [null] element
    is the empty string. *)
Definition columnsAsStrings (createIndex : gmap string json) : option (list string) :=
  match createIndex !! "columns" with
  | None | Some JNull => Some []
  | Some (JArray l) =>
      mapM (λ v, match v with JString s => Some s | JNull => Some "" | _ => None end) l
  | Some _ => None
  end.

Definition UpdateCreateIndexColumnsList (op : gmap string json) : gmap string json :=
  match op !! "create_index" with
  | Some (JObject createIndexOper) =>
      match columnsAsStrings createIndexOper with
      | Some columns =>
          let newColumns := (λ col, JObject {["column" := JString col]}) <$> columns in
          <["create_index" := JObject (<["columns" := JArray newColumns]> createIndexOper)]> op
      | None => op
      end
  | _ => op
  end.

(** [maps.Copy(entry, settings)] *)
Definition columnEntry (colName : string) (settings : json) : json :=
  let entry : gmap string json := {["column" := JString colName]} in
  JObject (match settings with JObject settingsMap => settingsMap ∪ entry | _ => entry end).

Definition UpdateCreateIndexColumnsMapToArray (ops : gmap string json) : gmap string json :=
  match ops !! "create_index" with
  | Some (JObject createIndexOp) =>
      match createIndexOp !! "columns" with
      | Some (JObject colsMap) =>
          let newColumns := (λ colName, columnEntry colName (default JNull (colsMap !! colName)))
                              <$> sorted_keys colsMap in
          <["create_index" := JObject (<["columns" := JArray newColumns]> createIndexOp)]> ops
      | _ => ops
      end
  | _ => ops
  end.

(** The updaters by the name of the operation; none of them fails, and all
    change the operation in place. *)
Definition UpdaterFn := gmap string json → gmap string json.
Definition newFileUpdater : list (string * list UpdaterFn) :=
  [("create_index", [UpdateCreateIndexColumnsList; UpdateCreateIndexColumnsMapToArray])].

Definition updateOperation (updaterFns : list (string * list UpdaterFn)) (op : gmap string json) :
    gmap string json :=
  foldl (λ op '(opName, fns),
    match op !! opName with
    | None => op
    | Some _ => foldl (λ op fn, fn op) op fns
    end) op updaterFns.

Context `{!JsonValue} `{!OperationJson}.

(** A text as [[]map[string]any]; [null] stays what it is. *)
Definition updateOperations (updaterFns : list (string * list UpdaterFn)) (ops : json) :
    outcome error json :=
  match ops with
  | JNull => Ok JNull
  | JArray l =>
      JArray <$> map_outcome (λ op,
        match op with
        | JNull => Ok JNull
        | JObject o => Ok (JObject (updateOperation updaterFns o))
        | v => Err (json_type_error v)
        end) l
  | v => Err (json_type_error v)
  end.

Definition set_RawMigration_Operations (text : string) (m : RawMigration) : RawMigration :=
  mkRawMigration m.(RawMigration_Name) m.(RawMigration_VersionSchema) text
    m.(RawMigration_DependsOn) m.(RawMigration_Preconditions) m.(RawMigration_Irreversible)
    m.(RawMigration_Baseline) m.(RawMigration_Targets) m.(RawMigration_RevertOf).

Definition FileUpdater_Update (updaterFns : list (string * list UpdaterFn)) (rawMigration : RawMigration) :
    outcome error Migration :=
  ops ← json_value rawMigration.(RawMigration_Operations);
  ops ← updateOperations updaterFns ops;
  ParseMigration (set_RawMigration_Operations (json_text ops) rawMigration).
End updater.

(** ** The commands *)

Section commands.
Context `{!Pq} {D : Type} `{!DB D} `{!StateStore D} `{!Console D} `{!Codec} `{!PqText}.
Context `{!FileFormat} `{!JsonValue}.
Context (m : Roll D).

(** The files are read before the history. *)
Definition Roll_MissingMigrations (d : disk) : M D (list RawMigration) :=
  lift (@MissingMigrations (disk_dir d) []) ;;
  history ← wrap_err (ErrorfW "reading schema history: %w" []) (from_state m state_SchemaHistory);
  lift (@MissingMigrations (disk_dir d) history).

Definition pullCmd (target : string) (useJSON : bool) (d : disk) : M D (outcome error () * disk) :=
  refuseTarget target "pull" ;;
  migs ← wrap_err (ErrorfW "failed to get missing migrations: %w" []) (Roll_MissingMigrations d);
  mret (writeMissing useJSON migs d).

(** The placeholder that is written for a baseline *)
Definition baselineFile (version target opsJSON : string) : RawMigration :=
  mkRawMigration version "" opsJSON [] [] false false
    (if decide (target = "") then None else Some [target]) "".

(** When the baseline cannot be created the file is removed again, whether or
    not there was one before.  Declining is no error. *)
Definition baselineCmd (version target : string) (useJSON yes : bool) (d : disk) :
    M D (outcome error () * disk) :=
  ok ← confirm yes "Creating a baseline migration will restart the migration history.";
  if negb ok then mret (Ok (), d)
  else
    opsJSON ← wrap_err (ErrorfW "failed to marshal operations: %w" [])
                (lift (Operations_MarshalJSON [RawSQL_ (mkOpRawSQL "" false "")]));
    match wrap_err (ErrorfW "failed to write placeholder baseline migration: %w" [])
            (writeMigrationToFile (baselineFile version target opsJSON) "" useJSON) d with
    | (Ok filePath, d) =>
        created ← try (Roll_CreateBaseline m version);
        mret (match created with inl _ => (Ok (), d) | inr e => (Err e, delete filePath d) end)
    | (Err e, d) => mret (Err e, d)
    | (Panic, d) => mret (Panic, d)
    | (OutOfFuel, d) => mret (OutOfFuel, d)
    end.

(** The name and the operations are what the operator enters; the file is
    written to the working directory. *)
Definition createCmd (name : string) (ops : list Operation) (useJSON : bool) : prog disk error () :=
  let format := NewMigrationFormat useJSON in
  let migrationFileName := name +:+ "." +:+ Extension format in
  match os_Create_error migrationFileName with
  | Some e => fail (ErrorfW "failed to create migration file: %w" [] e)
  | None =>
      wrap_err (ErrorfW "failed to write migration to file: %w" [])
        (createFile migrationFileName
           (encode_migration format (mkMigration "" "" ops [] [] false false [] "")))
  end.

(** One file of the loop: one that parses is left alone; the other is written
    in the format of the flag, whatever its own. *)
Definition updateFile (useJSON : bool) (f : string) : prog disk error () :=
  d ← get;
  mig ← wrap_err (ErrorfW "failed to read migration file: %w" [])
          (lift (@ReadRawMigration (disk_dir d) f));
  parsed ← try (lift (ParseMigration mig));
  match parsed with
  | inl _ => mret ()
  | inr _ =>
      updatedMigration ← wrap_err (ErrorfW "failed to update migration file: %w" [])
                           (lift (FileUpdater_Update newFileUpdater mig));
      let format := NewMigrationFormat useJSON in
      let migrationFileName := mig.(RawMigration_Name) +:+ "." +:+ Extension format in
      match os_Create_error migrationFileName with
      | Some e => fail (ErrorfW "failed to update migration file: %w" [] e)
      | None => wrap_err (ErrorfW "failed to write migration file: %w" [])
                  (createFile migrationFileName (encode_migration format updatedMigration))
      end
  end.

Definition updateCmd (target : string) (useJSON : bool) (d : disk) : M D (outcome error () * disk) :=
  refuseTarget target "update" ;;
  mret (for_each (updateFile useJSON) (@CollectFilesFromDir (disk_dir d)) d).

(** The issues are printed; only errors fail the command. *)
Definition checkCmd `{!Git} (d : disk) (migrationsDir baseRef : string) (requireTargets : bool) :
    outcome error CheckResult :=
  let dir := disk_dir d in
  result ← @CheckMigrationsDir dir _ requireTargets;
  result ←
    (if decide (baseRef = "") then Ok result
     else
       base ← wrap "base ordering check: %w" (@CheckBaseOrdering dir _ migrationsDir baseRef);
       Ok (mkCheckResult (Errors result ++ Errors base) (Warnings result ++ Warnings base)));
  if HasErrors result
  then Err (Errorf "check failed with %d error(s)" [decimal (length (Errors result))])
  else Ok result.
End commands.

(** ** A connection string for a version schema *)

(** Package [net/url]: a parsed URL, its query, and both printed *)
Class NetUrl := {
  url : Type;
  url_Values : Type;
  url_Parse : string → outcome error url;
  url_Query : url → url_Values;
  url_Set : string → string → url_Values → url_Values;
  url_Encode : url_Values → string;
  url_set_RawQuery : string → url → url;
  url_String : url → string;
}.

Definition AppendSearchPathOption `{!NetUrl} (connStr schema : string) : outcome error string :=
  match url_Parse connStr with
  | Err e => Err (ErrorfW "failed to parse connection string: %w" [] e)
  | Panic => Panic
  | OutOfFuel => OutOfFuel
  | Ok u =>
      if decide (schema = "") then Ok connStr
      else
        let q := url_Set "options" ("-c search_path=" +:+ schema) (url_Query u) in
        let encodedQuery := ReplaceAll (url_Encode q) "+" "%20" in
        Ok (url_String (url_set_RawQuery encodedQuery u))
  end.

Definition latestURLCmd `{!Pq} {D} `{!DB D} `{!StateStore D} `{!Codec} `{!Dir} `{!NetUrl} (m : Roll D)
    (local : bool) (schema pgURL : string) : M D string :=
  latest ← wrap_err (ErrorfW "failed to get latest version: %w" []) (latestVersion m local schema);
  wrap_err (ErrorfW "failed to add search_path option: %w" []) (lift (AppendSearchPathOption pgURL latest)).

(** ** Pulling *)

Section pull.
Context `{!FileFormat}.
Implicit Types (d : disk) (mig : RawMigration) (history : list RawMigration).

Definition file_of (useJSON : bool) (name : string) : string :=
  name +:+ "." +:+ Extension (NewMigrationFormat useJSON).

Lemma last_dot_app s e rest : last_dot e = Some rest → last_dot (s +:+ e) = Some rest.
Proof. intros He. induction s as [|c s IH]; [done|]. cbn. by rewrite IH. Qed.
Lemma file_of_ext useJSON name :
  filepath_Ext (file_of useJSON name) = "." +:+ Extension (NewMigrationFormat useJSON).
Proof. unfold filepath_Ext, file_of. by rewrite (last_dot_app _ _ ("." +:+ Extension (NewMigrationFormat useJSON))) by (by destruct useJSON). Qed.
Lemma file_of_name useJSON name : MigrationNameFromFile (file_of useJSON name) = name.
Proof. unfold MigrationNameFromFile. rewrite file_of_ext. apply TrimSuffix_app. Qed.

(** The names of the migrations in a directory *)
Definition local_names d : list string :=
  MigrationNameFromFile <$> @CollectFilesFromDir (disk_dir d).
Definition migration_file (f : string) : Prop :=
  HasSuffix f ".json" = true ∨ HasSuffix f ".yml" = true ∨ HasSuffix f ".yaml" = true.

Lemma collected d f : f ∈ @CollectFilesFromDir (disk_dir d) ↔ is_Some (d !! f) ∧ migration_file f.
Proof.
  unfold CollectFilesFromDir, migration_file. rewrite elem_of_slices_Sort. cbn [mbind list_bind].
  rewrite !elem_of_app, !list_elem_of_filter, !elem_of_nil. cbn [dir_entries disk_dir].
  rewrite !elem_of_sorted_keys. tauto.
Qed.
Lemma file_of_collected d useJSON name :
  is_Some (d !! file_of useJSON name) → name ∈ local_names d.
Proof.
  intros Hd. apply list_elem_of_fmap. exists (file_of useJSON name). split; [by rewrite file_of_name|].
  apply collected. split; [done|]. unfold migration_file, file_of.
  destruct useJSON; [left|right; right]; apply (HasSuffix_app _ _).
Qed.

Definition missing_in d history : list RawMigration :=
  filter (λ h, RawMigration_Name h ∉ local_names d) history.
(** Every migration file decodes. *)
Definition readable d : Prop :=
  ∀ f, f ∈ @CollectFilesFromDir (disk_dir d) → is_ok (@dir_decode (disk_dir d) f) = true.

Lemma read_raw_names d files migs :
  map_outcome (@read_raw (disk_dir d) "reading migration file %s: %w") files = Ok migs →
  RawMigration_Name <$> migs = MigrationNameFromFile <$> files ∧
  ∀ f, f ∈ files → is_ok (@dir_decode (disk_dir d) f) = true.
Proof.
  intros H2%map_outcome_ok. induction H2 as [|f mig files migs Hf _ [IH1 IH2]].
  { split; [done|]. by intros f ?%elem_of_nil. }
  unfold read_raw, ReadRawMigration in Hf.
  destruct (dir_decode f) as [raw|e| |] eqn:Hd; try discriminate Hf. injection Hf as <-.
  split; [cbn; by rewrite IH1|]. intros f' [->|Hf']%elem_of_cons; [by rewrite Hd|by apply IH2].
Qed.
Lemma read_raw_all d files :
  (∀ f, f ∈ files → is_ok (@dir_decode (disk_dir d) f) = true) →
  ∃ migs, map_outcome (@read_raw (disk_dir d) "reading migration file %s: %w") files = Ok migs.
Proof.
  induction files as [|f files IH]; intros Hr; [by eexists|].
  destruct IH as [migs Hm]; [intros f' Hf'; apply Hr; by right|].
  specialize (Hr f ltac:(left)). cbn [map_outcome]. unfold read_raw at 1, ReadRawMigration.
  destruct (dir_decode f) as [raw|e| |]; try discriminate Hr. rewrite Hm. by eexists.
Qed.
Lemma MissingMigrations_ok d history migs :
  @MissingMigrations (disk_dir d) history = Ok migs ↔ readable d ∧ migs = missing_in d history.
Proof.
  unfold MissingMigrations, missing_in, local_names. split.
  - intros (locals & Hl & [= <-])%outcome_bind_ok. destruct (read_raw_names _ _ _ Hl) as [Hn Hr].
    split; [exact Hr|]. rewrite Hn. apply list_filter_iff. intros h. by rewrite elem_of_list_to_set.
  - intros [Hr ->]. destruct (read_raw_all _ _ Hr) as [locals Hl]. rewrite Hl. cbn.
    destruct (read_raw_names _ _ _ Hl) as [Hn _]. rewrite Hn. f_equal. apply list_filter_iff.
    intros h. by rewrite elem_of_list_to_set.
Qed.

(** What the loop does to the directory *)
Lemma createFile_spec f text d :
  ∃ r d', createFile f text d = (r, d') ∧ (∀ f', f' ≠ f → d' !! f' = d !! f') ∧
    (r = Ok () → ∃ s, text = Ok s ∧ d' !! f = Some s).
Proof.
  unfold createFile. destruct (os_Create_error f) as [e|].
  { exists (Err e), d. split_and!; [done|done|discriminate]. }
  destruct text as [s|e| |]; cbn; eexists _, _; (split; [reflexivity|]).
  - split; [|intros _; exists s; by rewrite lookup_insert_eq].
    intros f' Hf. by rewrite !lookup_insert_ne.
  - split; [|discriminate]. intros f' Hf. by rewrite lookup_insert_ne.
  - split; [|discriminate]. intros f' Hf. by rewrite lookup_insert_ne.
  - split; [|discriminate]. intros f' Hf. by rewrite lookup_insert_ne.
Qed.

Lemma file_of_inj useJSON n n' : file_of useJSON n = file_of useJSON n' → n = n'.
Proof. intros He%(f_equal MigrationNameFromFile). by rewrite !file_of_name in He. Qed.

Lemma writeMissing_spec useJSON migs d : NoDup (RawMigration_Name <$> migs) →
  ∃ r d', writeMissing useJSON migs d = (r, d') ∧
    (∀ f, (∀ mig, mig ∈ migs → f ≠ file_of useJSON (RawMigration_Name mig)) → d' !! f = d !! f) ∧
    (r = Ok () → ∀ mig, mig ∈ migs → ∃ text,
       encode_raw (NewMigrationFormat useJSON) mig = Ok text ∧
       d' !! file_of useJSON (RawMigration_Name mig) = Some text).
Proof.
  unfold writeMissing. revert d. induction migs as [|mig migs IH]; intros d Hn.
  { exists (Ok ()), d. split_and!; [done|done|]. by intros _ mig ?%elem_of_nil. }
  rewrite fmap_cons, NoDup_cons in Hn. destruct Hn as [Hfresh Hn]. cbn [for_each].
  match goal with |- context [for_each ?f migs] => set (loop := for_each f migs) in * end.
  change (writeMigrationToFile mig "" useJSON) with
    (createFile (file_of useJSON (RawMigration_Name mig)) (encode_raw (NewMigrationFormat useJSON) mig) ;;
     mret (file_of useJSON (RawMigration_Name mig))). unfold mbind, prog_bind, wrap_err, mret, prog_ret.
  destruct (createFile_spec (file_of useJSON (RawMigration_Name mig))
    (encode_raw (NewMigrationFormat useJSON) mig) d) as (r & d1 & -> & Hother & Hdone).
  destruct r as [[]|e| |].
  2-4: eexists _, _; (split; [reflexivity|]); (split; [|discriminate]); intros f Hf; apply Hother, Hf; left.
  destruct (IH d1 Hn) as (r & d2 & -> & Hother2 & Hdone2). destruct (Hdone eq_refl) as (text & Henc & Hd1).
  eexists _, _. split; [reflexivity|]. split.
  - intros f Hf. rewrite Hother2, Hother; [done|apply Hf; left|]. intros mig' Hm. apply Hf. by right.
  - intros Hr mig' [->|Hm]%elem_of_cons; [|by apply Hdone2].
    exists text. split; [done|]. rewrite Hother2; [done|]. intros mig2 Hm2 Heq%file_of_inj.
    apply Hfresh. rewrite Heq. by apply list_elem_of_fmap_2.
Qed.
End pull.

Section pull_command.
Context `{!Pq} {D : Type} `{!DB D} `{!StateStore D} `{!FileFormat}.
Context (m : Roll D).
Implicit Types (d : disk) (mig : RawMigration) (history : list RawMigration).

Lemma Roll_MissingMigrations_eq d history w w1 :
  from_state m state_SchemaHistory w = (Ok history, w1) → readable d →
  Roll_MissingMigrations m d w = (Ok (missing_in d history), w1).
Proof.
  intros Hh Hr. unfold Roll_MissingMigrations, lift, wrap_err, mbind, prog_bind.
  rewrite (proj2 (MissingMigrations_ok d [] [])) by done. rewrite Hh.
  by rewrite (proj2 (MissingMigrations_ok d history (missing_in d history))).
Qed.

(** A migration that is missing has no file yet. *)
Lemma missing_is_new d useJSON history mig :
  mig ∈ missing_in d history → d !! file_of useJSON (RawMigration_Name mig) = None.
Proof.
  intros [Hn _]%list_elem_of_filter.
  destruct (d !! file_of useJSON (RawMigration_Name mig)) as [text|] eqn:Hd; [|done].
  destruct Hn. eapply file_of_collected. by rewrite Hd.
Qed.

Section pulled.
Context (useJSON : bool) (d d' : disk) (history : list RawMigration).
Abbreviation fmt := (NewMigrationFormat useJSON).
Context (Hdecodes : ∀ mig text, mig ∈ history → encode_raw fmt mig = Ok text →
  is_ok (decode_file ("." +:+ Extension fmt) text) = true).
Context (Hr : readable d).
Context (Hother : ∀ f, (∀ mig, mig ∈ missing_in d history → f ≠ file_of useJSON (RawMigration_Name mig)) →
  d' !! f = d !! f).

Lemma pulled_keeps f text : d !! f = Some text → d' !! f = Some text.
Proof.
  intros Hd. rewrite <-Hd. apply Hother. intros mig Hm ->.
  by rewrite (missing_is_new _ _ _ _ Hm) in Hd.
Qed.
Lemma pulled_adds f : is_Some (d' !! f) →
  is_Some (d !! f) ∨ ∃ mig, mig ∈ missing_in d history ∧ f = file_of useJSON (RawMigration_Name mig).
Proof.
  intros Hd'. destruct (decide (f ∈ (λ mig, file_of useJSON (RawMigration_Name mig)) <$> missing_in d history)) as [Hin|Hno].
  - right. apply list_elem_of_fmap in Hin as (mig & -> & Hm). by exists mig.
  - left. rewrite <-Hother; [done|]. intros mig Hm ->. apply Hno. by apply (list_elem_of_fmap_2 (λ mig, file_of useJSON (RawMigration_Name mig))).
Qed.

Context (Hwritten : ∀ mig, mig ∈ missing_in d history → ∃ text,
  encode_raw fmt mig = Ok text ∧ d' !! file_of useJSON (RawMigration_Name mig) = Some text).

Lemma pulled_readable : readable d'.
Proof.
  intros f [Hf Hs]%collected. cbn [dir_decode disk_dir].
  destruct (pulled_adds f Hf) as [[text Hd]|(mig & Hm & ->)].
  - rewrite (pulled_keeps f text Hd). assert (f ∈ @CollectFilesFromDir (disk_dir d)) as Hin.
    { apply collected. split; [by exists text|done]. }
    specialize (Hr f Hin). cbn [dir_decode disk_dir] in Hr. by rewrite Hd in Hr.
  - destruct (Hwritten mig Hm) as (text & Henc & ->). rewrite file_of_ext.
    apply (Hdecodes mig); [|done]. by apply list_elem_of_filter in Hm as [_ ?].
Qed.
Lemma pulled_complete : missing_in d' history = [].
Proof.
  apply filter_nil_iff. intros mig Hm Hno. apply Hno.
  destruct (decide (RawMigration_Name mig ∈ local_names d)) as [Hl|Hl].
  - apply list_elem_of_fmap in Hl as (f & -> & [[text Hd] Hs]%collected).
    apply list_elem_of_fmap_2, collected. split; [|done]. exists text. by apply pulled_keeps.
  - assert (mig ∈ missing_in d history) as Hmiss by (by apply list_elem_of_filter).
    destruct (Hwritten mig Hmiss) as (text & _ & Hd). eapply file_of_collected. by rewrite Hd.
Qed.
End pulled.

(** C37. [pgroll pull] adds what is missing and touches nothing else.  Every
    file of the directory is as it was, even when writing fails on the way;
    each new file is that of a migration of the history that no file of the
    directory had the name of.  On success there is one for each of them, and
    a second run finds nothing missing, provided what the encoder writes can
    be read.  When it fails before writing, a file of the directory does not
    decode. *)
Theorem pullCmd_spec useJSON d history w w1 :
  from_state m state_SchemaHistory w = (Ok history, w1) →
  NoDup (RawMigration_Name <$> history) →
  (∀ mig text, mig ∈ history → encode_raw (NewMigrationFormat useJSON) mig = Ok text →
     is_ok (decode_file ("." +:+ Extension (NewMigrationFormat useJSON)) text) = true) →
  match pullCmd m "" useJSON d w with
  | (Ok (r, d'), w') => w' = w1 ∧
      (∀ f text, d !! f = Some text → d' !! f = Some text) ∧
      (∀ f, is_Some (d' !! f) → is_Some (d !! f) ∨
         ∃ mig, mig ∈ missing_in d history ∧ f = file_of useJSON (RawMigration_Name mig)) ∧
      (r = Ok () →
         (∀ mig, mig ∈ missing_in d history → ∃ text,
            encode_raw (NewMigrationFormat useJSON) mig = Ok text ∧
            d' !! file_of useJSON (RawMigration_Name mig) = Some text) ∧
         pullCmd m "" useJSON d' w = (Ok (Ok (), d'), w1))
  | _ => ¬ readable d
  end.
Proof.
  intros Hh Hn Hdec. assert (∀ d, readable d →
    pullCmd m "" useJSON d w = (Ok (writeMissing useJSON (missing_in d history) d), w1)) as Hpull.
  { intros d0 Hr. unfold pullCmd, refuseTarget, wrap_err, mbind, prog_bind. cbn.
    by rewrite (Roll_MissingMigrations_eq d0 history w w1 Hh Hr). }
  destruct (@MissingMigrations (disk_dir d) []) as [l|e| |] eqn:Hl.
  2-4: assert (¬ readable d) as Hno
         by (intros Hr; by rewrite (proj2 (MissingMigrations_ok d [] []) (conj Hr eq_refl)) in Hl);
       cbv [pullCmd refuseTarget Roll_MissingMigrations lift wrap_err fail_if mbind prog_bind mret prog_ret negb String.eqb];
       by rewrite Hl.
  apply MissingMigrations_ok in Hl as [Hr _]. rewrite (Hpull d Hr).
  destruct (writeMissing_spec useJSON (missing_in d history) d) as (r & d' & -> & Hother & Hdone).
  { eapply sublist_NoDup; [exact Hn|]. apply fmap_sublist, sublist_filter. }
  split_and!; [done|by apply (pulled_keeps useJSON d d' history)|by apply (pulled_adds useJSON d d' history)|].
  intros ->. specialize (Hdone eq_refl). split; [done|].
  rewrite Hpull by (by eapply (pulled_readable useJSON d d' history)).
  by rewrite (pulled_complete useJSON d d' history).
Qed.
End pull_command.

(** ** Updating *)

Section updating.
Implicit Types (op ci : gmap string json).
Abbreviation up := (updateOperation newFileUpdater).

(** The columns as they are after an update *)
Definition updatedColumns ci : option json :=
  match columnsAsStrings ci, ci !! "columns" with
  | Some names, _ => Some (JArray ((λ col, JObject {["column" := JString col]}) <$> names))
  | None, Some (JObject cols) =>
      Some (JArray ((λ c, columnEntry c (default JNull (cols !! c))) <$> sorted_keys cols))
  | None, c => c
  end.

Lemma up_create_index op ci :
  op !! "create_index" = Some (JObject ci) →
  ∃ ci', up op = <["create_index" := JObject ci']> op ∧ ci' !! "columns" = updatedColumns ci ∧
    ∀ k, k ≠ "columns" → ci' !! k = ci !! k.
Proof.
  intros Hop. unfold updateOperation, newFileUpdater. cbn [foldl]. rewrite Hop.
  unfold UpdateCreateIndexColumnsList, updatedColumns. rewrite Hop.
  destruct (columnsAsStrings ci) as [names|] eqn:Hc.
  - unfold UpdateCreateIndexColumnsMapToArray. rewrite lookup_insert_eq, lookup_insert_eq.
    eexists. split; [reflexivity|]. split; [by rewrite lookup_insert_eq|]. intros k Hk. by rewrite lookup_insert_ne.
  - unfold UpdateCreateIndexColumnsMapToArray. rewrite Hop. destruct (ci !! "columns") as [[]|] eqn:Hcols.
    6: { eexists. split; [reflexivity|]. split; [by rewrite lookup_insert_eq|]. intros k Hk. by rewrite lookup_insert_ne. }
    all: exists ci; rewrite insert_id by done; by split_and!.
Qed.
Lemma up_other op :
  (∀ ci, op !! "create_index" ≠ Some (JObject ci)) → up op = op.
Proof.
  intros Hop. unfold updateOperation, newFileUpdater. cbn [foldl].
  destruct (op !! "create_index") as [v|] eqn:Hv; [|done].
  unfold UpdateCreateIndexColumnsList, UpdateCreateIndexColumnsMapToArray. rewrite Hv.
  destruct v; try (by rewrite Hv). by destruct (Hop o).
Qed.

Lemma columnsAsStrings_strings ci names :
  ci !! "columns" = Some (JArray (JString <$> names)) → columnsAsStrings ci = Some names.
Proof.
  intros Hc. unfold columnsAsStrings. rewrite Hc. clear Hc.
  induction names as [|n names IH]; [done|]. cbn. cbn in IH. by rewrite IH.
Qed.
Lemma columnEntries_perm (cols : gmap string json) :
  (λ c, columnEntry c (default JNull (cols !! c))) <$> sorted_keys cols
    ≡ₚ (λ '(n, settings), columnEntry n settings) <$> map_to_list cols.
Proof.
  unfold sorted_keys, slices_Sort. rewrite merge_sort_Permutation, <-list_fmap_compose.
  apply Permutation_refl', list_fmap_ext. intros i [n v] Hi%list_elem_of_lookup_2%elem_of_map_to_list.
  cbn. by rewrite Hi.
Qed.

(** Columns in the current format are left alone. *)
Lemma objects_not_strings {A} (f : A → gmap string json) l ci :
  ci !! "columns" = Some (JArray ((λ x, JObject (f x)) <$> l)) →
  updatedColumns ci = ci !! "columns".
Proof.
  intros Hc. unfold updatedColumns, columnsAsStrings. rewrite Hc. by destruct l.
Qed.
Lemma updatedColumns_stable ci ci' : ci' !! "columns" = updatedColumns ci → updatedColumns ci' = ci' !! "columns".
Proof.
  intros Hc. unfold updatedColumns in Hc. destruct (columnsAsStrings ci) as [names|] eqn:Hs.
  { by apply (objects_not_strings (λ col, {["column" := JString col]}) names). }
  destruct (ci !! "columns") as [[]|] eqn:Hcols; unfold columnsAsStrings in Hs; rewrite Hcols in Hs; try discriminate Hs.
  all: try (unfold updatedColumns, columnsAsStrings; rewrite Hc; done).
  - unfold updatedColumns, columnsAsStrings. by rewrite Hc, Hs.
  - unfold columnEntry in Hc. eapply objects_not_strings. exact Hc.
Qed.

(** The updaters of outdated files.  Only the [columns] of a
    [create_index] object change: a list of names becomes the list of objects
    with these names, in its order; a map becomes one object per column with
    its settings; columns that are neither are left as they are.  Updating
    again changes nothing. *)
Lemma updateOperation_spec op :
  (∀ k, k ≠ "create_index" → up op !! k = op !! k) ∧
  (∀ ci, op !! "create_index" = Some (JObject ci) → ∃ ci',
     up op !! "create_index" = Some (JObject ci') ∧
     (∀ k, k ≠ "columns" → ci' !! k = ci !! k) ∧
     (∀ names, ci !! "columns" = Some (JArray (JString <$> names)) →
        ci' !! "columns" = Some (JArray ((λ n, JObject {["column" := JString n]}) <$> names))) ∧
     (∀ cols, ci !! "columns" = Some (JObject cols) → ∃ entries,
        ci' !! "columns" = Some (JArray entries) ∧
        entries ≡ₚ (λ '(n, settings), columnEntry n settings) <$> map_to_list cols) ∧
     (∀ cs, ci !! "columns" = Some (JArray (JObject <$> cs)) → ci' !! "columns" = ci !! "columns")) ∧
  up (up op) = up op.
Proof.
  assert ((∃ ci, op !! "create_index" = Some (JObject ci)) ∨ (∀ ci, op !! "create_index" ≠ Some (JObject ci)))
    as [[ci Hop]|Hop] by (destruct (op !! "create_index") as [[]|]; eauto; by right).
  2:{ rewrite !(up_other op Hop). split_and!; [done| |done]. intros ci Hci. by destruct (Hop ci). }
  destruct (up_create_index op ci Hop) as (ci' & Hup & Hc & Hk). rewrite Hup. split_and!.
  - intros k Hne. by rewrite lookup_insert_ne.
  - intros ci0 Hci. rewrite Hop in Hci. injection Hci as <-. exists ci'. rewrite lookup_insert_eq.
    split_and!; [done|done|..]; rewrite Hc.
    + intros names Hn. unfold updatedColumns. by rewrite (columnsAsStrings_strings ci names Hn).
    + intros cols Hcols. unfold updatedColumns, columnsAsStrings. rewrite Hcols.
      eexists. split; [reflexivity|]. apply columnEntries_perm.
    + intros cs Hcs. by apply (objects_not_strings id cs).
  - destruct (up_create_index (<["create_index" := JObject ci']> op) ci') as (ci2 & -> & Hc2 & Hk2).
    { by rewrite lookup_insert_eq. }
    assert (ci2 = ci') as ->; [|by rewrite insert_insert_eq].
    apply map_eq. intros k. destruct (decide (k = "columns")) as [->|Hne]; [|by apply Hk2].
    rewrite Hc2. by apply (updatedColumns_stable ci).
Qed.
End updating.

(** ** Concrete runs *)

(** A file's text is the name of its migration; any text decodes. *)
#[local] Instance sample_format : FileFormat := {|
  encode_raw _ m := Ok (RawMigration_Name m);
  encode_migration _ m := Ok (Migration_Name m);
  decode_file _ text := Ok (mkRawMigration "" "" text [] [] false false None "");
  os_Create_error _ := None;
|}.
Definition pull_world : World mem_store := mkWorld New ∅ mem_deployment 0.

Lemma pullCmd_spec_witness :
  match pullCmd mem_roll "" false {["02_ab.json" := "mine"]} pull_world with
  | (Ok (Ok tt, d'), w') => w' = pull_world ∧ d' = {["02_ab.json" := "mine"; "03_bc.yaml" := "03_bc"]} ∧
      pullCmd mem_roll "" false d' pull_world = (Ok (Ok (), d'), pull_world)
  | _ => False
  end.
Proof.
  assert (∃ history, from_state mem_roll state_SchemaHistory pull_world = (Ok history, pull_world) ∧
    NoDup (RawMigration_Name <$> history)) as (history & Hh & Hn).
  { eexists. split; [vm_compute; reflexivity|]. decide_goal. }
  pose proof (pullCmd_spec mem_roll false {["02_ab.json" := "mine"]} history pull_world pull_world
    Hh Hn (λ _ _ _ _, eq_refl)) as Hs.
  assert (match (pullCmd mem_roll "" false {["02_ab.json" := "mine"]} pull_world).1 with
    | Ok (Ok tt, d') => d' = {["02_ab.json" := "mine"; "03_bc.yaml" := "03_bc"]} | _ => False end) as Hd
    by (vm_compute; reflexivity).
  destruct (pullCmd _ _ _ _ _) as [[[r d']|e| |] w']; try done. destruct r as [[]|e| |]; try done.
  cbn in Hd. destruct Hs as (Hw & _ & _ & Hs). destruct (Hs eq_refl) as [_ Hagain]. by split_and!.
Defined.

(** [pgroll baseline] with a name that is already in the history: the file of
    that name, which was there before, is gone. *)
Section baseline_example.
#[local] Instance example_console : Console mem := λ _ d, (true, d).
#[local] Instance example_text : PqText := λ _ message, message.
#[local] Instance example_codec : Codec := {|
  codec_json := no_operations_json;
  MarshalRaw _ := Ok ();
  MarshalSchema _ := Ok "{}";
  sha256_json mig := Ok mig.(Migration_Name);
|}.
Lemma failed_baseline_removes_file :
  match baselineCmd mem_roll "02_ab" "" false true {["02_ab.yaml" := "mine"]} pull_world with
  | (Ok (Err _, d'), _) => d' = ∅
  | _ => False
  end.
Proof. vm_compute. reflexivity. Qed.
End baseline_example.

(** [pgroll update] writes YAML by default: an outdated JSON file stays beside
    the new one, and the directory has the migration twice. *)
Section update_example.
#[local] Instance outdated_json : OperationJson := {|
  json_syntax text := if String.eqb text "old" then Some (Errorf "outdated" []) else None;
  json_objects _ := Some [];
  json_decode op _ := Ok op;
  json_encode _ := Ok "{}";
|}.
#[local] Instance outdated_codec : Codec := {|
  codec_json := outdated_json;
  MarshalRaw _ := Ok ();
  MarshalSchema _ := Ok "{}";
  sha256_json mig := Ok mig.(Migration_Name);
|}.
#[local] Instance outdated_value : JsonValue := {|
  json_value _ := Ok JNull;
  json_text _ := "null";
  json_type_error _ := Errorf "type" [];
|}.
Lemma update_keeps_outdated_file :
  updateFile false "01.json" {["01.json" := "old"]} =
    (Ok (), {["01.json" := "old"; "01.yaml" := "01"]}).
Proof. vm_compute. reflexivity. Qed.
End update_example.

(** The columns of a map come in the order of the iteration, here by name. *)
Lemma map_columns_are_reordered :
  updatedColumns {["columns" := JObject {["name" := JObject ∅; "email" := JObject ∅]}]} =
    Some (JArray [JObject {["column" := JString "email"]}; JObject {["column" := JString "name"]}]).
Proof. vm_compute. reflexivity. Qed.
(** A create_index without columns is given an empty list of them. *)
Lemma absent_columns_are_added : updatedColumns ∅ = Some (JArray []).
Proof. reflexivity. Qed.
